(* ===== verification/_CoqProject ===== *)
-Q . S2P
Prelude.v
Regex.v
GoTime.v
Duration.v
Types.v
Schema.v
Heap.v
HeapCopy.v
DeepCopy.v
DeepCopyProps.v
DeepCopyFixtures.v
DeepCopyTheorems.v
K8sLib.v
PolicyApi.v
Remediation.v
DecideSpec.v
Fixtures.v
DecideProps.v
DecideTheorems.v
DecideBounds.v
Predicate.v
Project.v
ProjectProps.v
Effects.v
Cluster.v
Taint.v
Reconcile.v
Scenarios.v
ReconcileProps.v
ReconcileShape.v
ReconcileTheorems.v
Watch.v
WatchTheorems.v
Webhook.v
WebhookTheorems.v
ConvergenceProps.v
ConvergenceTheorems.v
Interleaving.v
SchemaTheorems.v
ReconcileBounds.v
HeapStatus.v
HeapDecide.v
HeapDecideProps.v
HeapStatusFixtures.v
HeapStatusTheorems.v
Flags.v
Startup.v
StartupFixtures.v
StartupTheorems.v
