(* ===== verification/Prelude.v ===== *)
(** * node-warden-operator: a verification library

    ** The program

    node-warden is a Kubernetes operator.  A NodeRemediationPolicy names a node condition and a taint;
    the operator taints the selected nodes whose condition has matched for the enter debounce, removes
    the taint once it has cleared for the exit debounce, and stops tainting more nodes when too large
    a share of the fleet matches.  Its parts, under src/:

    - the decision core, [internal/remediation/remediation.go]: the pure function [Decide];
    - the custom resource, [api/v1alpha1]: its data, the markers the API server defaults and validates
      it by, the default getters, the status condition;
    - the controller, [internal/controller]: [Reconcile] reads the policy and the nodes, projects them
      into the core's types, calls [Decide], writes the taints ([taint.go]) and the status, and undoes
      its taints under a finalizer; [SetupWithManager] and [nodeEventHandler] decide which Node events
      wake which policies, with the predicates of [internal/predicate];
    - the webhook, [internal/webhook/v1alpha1]: a policy's taint key must be unique;
    - the start, [cmd/main.go]: flags, server options, scheme registration, and the manager that
      runs the controller and the webhook.

    ** The files, in dependency order

    - [Prelude]: machine integers, sorting, lists, tactics and hint databases shared by all.
    - [Regex] (module [regex]): regular expressions and a matcher by derivatives, for the patterns of
      the resource's markers.
    - [GoTime] (module [time]): instants and durations in nanoseconds, with the saturation of [Sub]
      and the wrap-around of duration arithmetic.
    - [Duration] (module [duration]): Go's [time.ParseDuration], byte by byte, [float64] included.
    - [Types] (modules [corev1], [metav1], [v1alpha1], [errors]): the records of the API objects, the
      fields the operator reads or must preserve, and the errors as values.
    - [Schema] (module [schema]): the resource as it is written in JSON; [withDefaults] and
      [well_formed] are the default and validation markers of [noderemediationpolicy_types.go], [admission]
      what a create or an update stores, [decode] the Go value of it.
    - [Heap]: Go's memory as the copying and in-place code sees it: typed cells, pointers, slices over
      shared arrays, programs that may panic, what a value in memory stands for ([denotation]) and
      programs that only add cells ([extends]).  [HeapCopy]: the three copying patterns of the
      deep-copy generator, each a copy in fresh cells.
    - [DeepCopy] (module [deepcopy]): the resource's structs in memory and every function of
      [zz_generated.deepcopy.go]; [DeepCopyable] is the interface a struct's copy uses its fields
      through, and [DeepCopyProps] discharges its laws type by type, down to the libraries' own
      types, whose laws are assumed ([LibraryLaws]).  [DeepCopyFixtures], [DeepCopyTheorems].
    - [K8sLib]: the library functions the code calls, as the class [K8s]; the documented behaviour
      relied on, as [K8sLaws]; [Reference], an instance that satisfies it.
    - [PolicyApi] (modules [defaults], [status]): the getters and the Mark methods.
    - [Remediation] (module [remediation]): [Decide], loop by loop, in wrapping [int] arithmetic.
      [DecideSpec] states the reference decision and proves the loops compute it ([Decide_closed]);
      [DecideProps] and [DecideTheorems] hold the lemmas and the theorems about it; [DecideBounds]
      those that hold with no bound on the input.
    - [Fixtures]: concrete policies, nodes and instants, after the operator's own test tables.
    - [Predicate] (module [predicate]): the two watch predicates and what their maps stand for.
    - [Project], [ProjectProps] (module [project]): [projectPolicy], [observeNodes], [writeStatus].
    - [Effects]: the interaction with the cluster.  A program is a finite tree of calls ([prog]);
      [exec m tr a] says the calls and answers of the trace [tr] are a run of [m] that returns [a],
      for answers of any kind; [run] and [follows] execute it against a handler.  [Retry] is the
      interface of [retry.RetryOnConflict].
    - [Cluster]: the API server as an interface ([ApiServer], [ApiServerLaws]) and a small instance.
    - [Taint] (module [taint]): [EnsureTaint], [RemoveTaint] and the closure they retry.
    - [Reconcile] (module [reconcile]): [Reconcile], [cleanupTaints], [recordTaintAction], each
      program composed as the Go functions are; one definition per loop body.
    - [Scenarios]: concrete clusters and the runs on them.
    - [ReconcileProps], [ReconcileShape], [ReconcileTheorems]: what every trace looks like (the
      vocabulary and a lemma per sub-program), the runs by cases, and the theorems.
    - [Watch], [WatchTheorems] (module [watch]); [Webhook], [WebhookTheorems] (module [webhook]).
    - [ConvergenceProps], [ConvergenceTheorems]: the controller against an [ApiServer].
    - [Interleaving]: reconciles in flight as a step relation ([interleaved]) over a server known by
      its optimistic lock alone, with the invariant of each one ([in_flight]).
    - [SchemaTheorems]: the admission schema against the rest.
    - [ReconcileBounds]: how many calls one reconcile makes.
    - [HeapStatus] (module [memory]): [writeStatus] and the Mark methods over the heap, and programs
      that overwrite ([writes]).  [HeapDecide], [HeapDecideProps] (module [decide]): [append], [Decide]
      growing the decision's lists by it, and [statusPass], what one reconcile does to the policy in
      memory; that the lists lie in arrays of their own.  [HeapStatusFixtures], [HeapStatusTheorems].
    - [Flags] (module [flag]): the part of Go's [flag] package [main] uses.
    - [Startup] (modules [registration], [startup]): the scheme, [cmd/main.go] as a program of actions
      with an exit code, and the set-up functions of the controller and the webhook;
      [StartupFixtures], [StartupTheorems].

    ** What the theorems show

    - The core ([DecideTheorems]): [Decide] refines the reference decision; exactly which nodes it
      taints and clears; the guard is the exact rational comparison and bounds the share of the fleet
      that may match while new taints are applied; a node in scope without a signal changes nothing;
      the requeue is exactly the next instant at which time alone changes the decision.  [DecideProps] also has
      that an enacted decision is a fixed point and that the order of the nodes is irrelevant;
      [DecideBounds] that for any input a node is acted on once at most and the requeue is a
      non-negative [int64], no longer than the longer window.
    - The status ([ProjectProps]): it reports the decision.
    - Admission ([SchemaTheorems]): what the API server admits is what the other theorems assume of a
      policy; its taint never changes; exactly what the patterns of the taint accept, which for the key
      is more than the qualified names asked for; an accepted duration decodes or is too large, which
      the rule does not exclude; the getters mirror the default markers.
    - Every run of the loop ([ReconcileTheorems]), whatever the server, the caches, the clock and
      other writers answer: a node patch touches the policy's own taint key and nothing else, over a
      fresh read; no patch before the finalizer is stored; the finalizer goes only after the cleanup;
      errors are isolated per node and reported; one status write, last; events and warnings exactly
      when they are due.  [ReconcileBounds]: it ends after at most 9 + 13 calls a node.
    - Memory ([DeepCopyTheorems], [HeapStatusTheorems]): a deep copy stands for the same value in cells
      of its own; the in-place [writeStatus] refines the value-level one; one pass from the deep copy
      over the appends of [Decide] to the written status gives the values of the model, and the
      snapshots it is compared with survive it.
    - The start ([StartupTheorems]): the manager runs only with every step done, the first failure
      ends the program with code 1 and its error; HTTP/2 and unprotected metrics need their flag;
      flags are read back as written.
    - Runs on a cluster that answers as documented ([ConvergenceTheorems]): one reconcile enacts the
      decision, repeated reconciles come to rest, a deleted policy leaves nothing behind.
    - Concurrency ([Interleaving]): with any number of reconciles in flight, interleaved call by call
      with one another and with other clients, no write to a node is lost.
    - The watch ([WatchTheorems]): no update that moves a node in or out of a policy's scope is lost,
      none that changes the signal of a node in scope, and nothing else wakes a policy; and the one
      gap, stray taints on nodes out of scope.
    - The webhook ([WebhookTheorems]): its verdicts; keys stay unique when requests are judged one at
      a time, and need not when two are judged at once; and with a
      shared key the webhook blocks the controller's own finalizer updates.

    ** Modelling choices

    Go's [int], [time.Duration] and [int32] are integers with the wrap-around written out ([wrap64],
    [wrap32]); the theorems that need no overflow assume at most 2^32 nodes ([in_bounds]), far more
    than a cluster can hold, and an [int32] percentage.  A nil and an empty slice are one list, and a
    nil and an empty label map one map.  Code outside the repository is never defined: it is an
    argument of the definitions, through the classes [K8s], [Retry], [ApiServer], [Library],
    [ConditionWriter], [SchemeLib] and [LibraryFlags], whose laws state its documentation; the
    instances exist to run the programs and to show the laws hold together.  Log lines and events are calls with
    their arguments; formatting them is the library's business.  The clock is read for
    every status mark, where the library reads it only for a condition that changes.  What [Schema]
    calls admission is the verdict of the CRD's rules; the webhook's, which decodes the object and
    judges its key, is modelled in [Webhook].  No fuel is needed: every program is a finite tree, the
    loops run over lists, and the retries are bounded by the library's contract.
    Values are immutable in the reconcile loop's model, where in-place mutation is modelled where it
    shows: [writeStatus] sorts the caller's decision, and the policy of the deferred status write is
    the one the pass left.  That this is faithful to the pointers and slices of the code is what the
    memory theorems show: nil and empty are kept apart there ([goPolicy]), and [policy_value] maps
    to the values of the rest.  A slice's capacity is what its array has behind it, which
    is so for the slices of [make] and [append]; how much [append] reserves is a parameter ([Growth]).
    [slices.Sort] is the sorted list written over the segment.  A [tls.Config] is the
    one field assigned.  [GetConfigOrDie] exits with code 1 when there is no configuration.

    ** Not modelled

    The libraries: the manager and its servers, the informer caches, zap and its flags, rendering of
    logs and events; the work queue between [Enqueue] and [Reconcile] and its back-off.  The
    local variables of [Decide]'s first loop, the projections and the webhook are values, not heap
    cells: nothing there is written through a second pointer.  [test/utils], helpers of the
    end-to-end tests, mostly subprocess calls.  Planned next: the work queue, and the delivery of Node
    events to reconciles through it. *)

From Stdlib Require Export ZArith Lia.
From stdpp Require Export base list gmap strings sorting pretty.

#[global] Open Scope Z_scope.

(** ** Machine integers of Go on a 64-bit platform *)

(** Two's complement wrap-around of an [int64] (also Go's [int] and [time.Duration]). *)
Definition wrap64 (z : Z) : Z := (z + 2 ^ 63) `mod` 2 ^ 64 - 2 ^ 63.

(** Two's complement wrap-around of an [int32]. *)
Definition wrap32 (z : Z) : Z := (z + 2 ^ 31) `mod` 2 ^ 32 - 2 ^ 31.

Definition int64_min : Z := - 2 ^ 63.
Definition int64_max : Z := 2 ^ 63 - 1.

(** The predicate "is the value of an [int64]" and its [int32] analogue. *)
Definition is_int64 (z : Z) : Prop := int64_min <= z <= int64_max.
Definition is_int32 (z : Z) : Prop := - 2 ^ 31 <= z <= 2 ^ 31 - 1.

(** [len] of a Go slice. *)
Definition len {A} (l : list A) : Z := Z.of_nat (length l).

(** ** Strings *)

(** [slices.Sort] on a [[]string]: the ascending byte order.  Equal strings cannot be told
    apart, so the order the library leaves open for equal elements does not matter. *)
Definition sort_strings (l : list string) : list string := merge_sort String.le l.

(** ** Tactics *)

(** Split every conjunction of the context and of the goal, and simplify equations. *)
Ltac crush_and :=
  repeat match goal with
  | H : _ /\ _ |- _ => destruct H
  | H : exists _, _ |- _ => destruct H
  | |- _ /\ _ => split
  end; simplify_eq/=.

(** Case analysis on the next boolean test or [decide] of the goal, keeping the equation. *)
Ltac case_test :=
  match goal with
  | |- context [bool_decide ?P] => case_bool_decide
  | |- context [decide ?P] => case_decide
  | |- context [if ?b then _ else _] => let E := fresh "Htest" in destruct b eqn:E
  end.

(** ** Integers *)

Lemma wrap64_id z : is_int64 z -> wrap64 z = z.
Proof.
  unfold is_int64, int64_min, int64_max, wrap64. intros ?.
  rewrite Z.mod_small; lia.
Qed.

Lemma wrap64_range z : is_int64 (wrap64 z).
Proof.
  unfold is_int64, int64_min, int64_max, wrap64.
  pose proof (Z.mod_pos_bound (z + 2 ^ 63) (2 ^ 64)). lia.
Qed.

Lemma wrap64_add_l a b : wrap64 (wrap64 a + b) = wrap64 (a + b).
Proof.
  unfold wrap64. f_equal.
  replace ((a + 2 ^ 63) `mod` 2 ^ 64 - 2 ^ 63 + b + 2 ^ 63)
    with ((a + 2 ^ 63) `mod` 2 ^ 64 + b) by lia.
  rewrite Zplus_mod_idemp_l. f_equal. lia.
Qed.

Lemma wrap32_id z : is_int32 z -> wrap32 z = z.
Proof. unfold is_int32, wrap32. intros ?. rewrite Z.mod_small; lia. Qed.

Lemma wrap32_range z : is_int32 (wrap32 z).
Proof.
  unfold is_int32, wrap32. pose proof (Z.mod_pos_bound (z + 2 ^ 31) (2 ^ 32)). lia.
Qed.

Lemma len_nonneg {A} (l : list A) : 0 <= len l.
Proof. unfold len. lia. Qed.

Lemma len_nil {A} : len (@nil A) = 0.
Proof. reflexivity. Qed.

Lemma len_cons {A} (x : A) l : len (x :: l) = 1 + len l.
Proof. unfold len. simpl. lia. Qed.

Lemma len_app {A} (l k : list A) : len (l ++ k) = len l + len k.
Proof. unfold len. rewrite length_app. lia. Qed.

Lemma len_zero {A} (l : list A) : len l = 0 <-> l = [].
Proof. unfold len. split; [destruct l; simpl; [done|lia] | by intros ->]. Qed.

Create Rewrite HintDb len.
#[global] Hint Rewrite @len_nil @len_cons @len_app : len.

Create HintDb warden discriminated.
#[export] Hint Resolve wrap64_range wrap32_range len_nonneg : warden.

(** ** Sorting *)

Lemma sort_strings_perm l : sort_strings l ≡ₚ l.
Proof. apply merge_sort_Permutation. Qed.

Lemma sort_strings_sorted l : Sorted String.le (sort_strings l).
Proof. apply Sorted_merge_sort. apply _. Qed.

(** The sorted list is determined by the elements alone. *)
Lemma sort_strings_unique l k : l ≡ₚ k -> sort_strings l = sort_strings k.
Proof.
  intros Hp. apply (Sorted_unique String.le); auto using sort_strings_sorted.
  by rewrite !sort_strings_perm.
Qed.

Lemma sort_strings_len l : len (sort_strings l) = len l.
Proof. unfold len. by rewrite sort_strings_perm. Qed.

Lemma sort_strings_elem x l : x ∈ sort_strings l <-> x ∈ l.
Proof. by rewrite sort_strings_perm. Qed.

#[global] Instance sort_strings_proper : Proper ((≡ₚ) ==> (=)) sort_strings.
Proof. intros l k. apply sort_strings_unique. Qed.

(** ** Lists *)

(** Equal lists have equal heads, whatever the type of the elements is made of. *)
Lemma cons_eq_inv {A} (x y : A) l k : x :: l = y :: k -> x = y /\ l = k.
Proof. by intros [= -> ->]. Qed.

(** Where an element other than the head of a list sits. *)
Lemma cons_eq_app_cons {A} (x y : A) l l1 l2 :
  x :: l = l1 ++ y :: l2 -> x <> y -> exists l1', l1 = x :: l1' /\ l = l1' ++ y :: l2.
Proof.
  destruct l1 as [|z l1]; simpl; intros H Hne; apply cons_eq_inv in H as [-> ->]; [done|]. by exists l1.
Qed.

Lemma snoc_eq_app_cons {A} (x y : A) l l1 l2 :
  l ++ [x] = l1 ++ y :: l2 -> y ∉ l -> l1 = l /\ y = x /\ l2 = [].
Proof.
  intros H Hy. destruct l2 as [|z l2 _] using rev_ind.
  - apply app_inj_tail in H as [-> ->]. done.
  - rewrite app_comm_cons, app_assoc in H. apply app_inj_tail in H as [-> _].
    destruct Hy. apply elem_of_app. right. by left.
Qed.

Lemma filter_map_comm {A B} (f : A -> B) (P : B -> Prop) `{!forall x, Decision (P x)} (l : list A) :
  filter P (f <$> l) = f <$> filter (fun x => P (f x)) l.
Proof. induction l as [|x l IH]; [done|]. rewrite fmap_cons, !filter_cons, IH. by case_decide. Qed.

Lemma filter_ext_in {A} (P Q : A -> Prop)
    `{!forall x, Decision (P x), !forall x, Decision (Q x)} (l : list A) :
  (forall x, x ∈ l -> (P x <-> Q x)) -> filter P l = filter Q l.
Proof.
  induction l as [|x l IH]; intros Hx; [done|]. rewrite !filter_cons.
  assert (P x <-> Q x) by (apply Hx; left). rewrite IH by (intros; apply Hx; by right).
  repeat case_decide; tauto.
Qed.

Lemma filter_none {A} (P : A -> Prop) `{!forall x, Decision (P x)} (l : list A) :
  (forall x, x ∈ l -> ~ P x) -> filter P l = [].
Proof.
  induction l as [|x l IH]; intros Hx; [done|]. rewrite filter_cons, decide_False.
  - apply IH. intros; apply Hx; by right.
  - apply Hx; left.
Qed.

Lemma len_filter_le {A} (P : A -> Prop) `{!forall x, Decision (P x)} (l : list A) : len (filter P l) <= len l.
Proof. unfold len. pose proof (length_filter P l). lia. Qed.

Lemma NoDup_fmap_inj {A B} (f : A -> B) (l : list A) x y :
  NoDup (f <$> l) -> x ∈ l -> y ∈ l -> f x = f y -> x = y.
Proof.
  induction l as [|z l IH]; [by intros _ ?%elem_of_nil|].
  rewrite fmap_cons, NoDup_cons, !elem_of_cons.
  intros [Hz Hl] [->|Hx] [->|Hy] E; auto.
  - destruct Hz. rewrite E. by apply list_elem_of_fmap_2.
  - destruct Hz. rewrite <- E. by apply list_elem_of_fmap_2.
Qed.
