(* ===== verification/Regex.v ===== *)
(** Regular expressions over bytes, the fragment of RE2 the CRD's rules are written in, with a
    matcher by derivatives and its correctness. *)

From S2P Require Import Prelude.
From Stdlib Require Import Ascii.

Module regex.

Inductive re :=
  | Empty
  | Eps
  | Class (f : ascii -> bool)
  | Cat (r1 r2 : re)
  | Alt (r1 r2 : re)
  | Star (r : re).

(** [^r$] over the whole of the input. *)
Inductive matches : re -> list ascii -> Prop :=
  | matches_eps : matches Eps []
  | matches_class f c : f c = true -> matches (Class f) [c]
  | matches_cat r1 r2 s1 s2 : matches r1 s1 -> matches r2 s2 -> matches (Cat r1 r2) (s1 ++ s2)
  | matches_alt_l r1 r2 s : matches r1 s -> matches (Alt r1 r2) s
  | matches_alt_r r1 r2 s : matches r2 s -> matches (Alt r1 r2) s
  | matches_star_nil r : matches (Star r) []
  | matches_star_app r s1 s2 : matches r s1 -> matches (Star r) s2 -> matches (Star r) (s1 ++ s2).

(** [r?], [r+], [r{0,n}], [r{1,n}], a literal. *)
Definition opt (r : re) : re := Alt Eps r.
Definition plus (r : re) : re := Cat r (Star r).
Fixpoint upto (r : re) (n : nat) : re :=
  match n with O => Eps | S n' => opt (Cat r (upto r n')) end.
Definition upto1 (r : re) (n : nat) : re :=
  match n with O => Empty | S n' => Cat r (upto r n') end.
Definition char (c : ascii) : re := Class (Ascii.eqb c).
Fixpoint lit (s : list ascii) : re :=
  match s with [] => Eps | c :: s' => Cat (char c) (lit s') end.

(** ** The matcher *)

Fixpoint nullable (r : re) : bool :=
  match r with
  | Empty | Class _ => false
  | Eps | Star _ => true
  | Cat r1 r2 => nullable r1 && nullable r2
  | Alt r1 r2 => nullable r1 || nullable r2
  end.

(** Constructors that drop what can never match. *)
Definition cat (r1 r2 : re) : re :=
  match r1, r2 with
  | Empty, _ | _, Empty => Empty
  | Eps, r => r
  | _, _ => Cat r1 r2
  end.

Definition alt (r1 r2 : re) : re :=
  match r1, r2 with
  | Empty, r | r, Empty => r
  | _, _ => Alt r1 r2
  end.

Fixpoint deriv (c : ascii) (r : re) : re :=
  match r with
  | Empty | Eps => Empty
  | Class f => if f c then Eps else Empty
  | Cat r1 r2 =>
      if nullable r1 then alt (cat (deriv c r1) r2) (deriv c r2) else cat (deriv c r1) r2
  | Alt r1 r2 => alt (deriv c r1) (deriv c r2)
  | Star r1 => cat (deriv c r1) (Star r1)
  end.

Fixpoint matchb (r : re) (s : list ascii) : bool :=
  match s with
  | [] => nullable r
  | c :: s' => matchb (deriv c r) s'
  end.

(** ** Correctness *)

Lemma matches_empty_iff s : matches Empty s <-> False.
Proof. split; [inversion 1|done]. Qed.
Lemma matches_eps_iff s : matches Eps s <-> s = [].
Proof. split; [by inversion 1|intros ->; constructor]. Qed.
Lemma matches_class_iff f s : matches (Class f) s <-> exists c, s = [c] /\ f c = true.
Proof. split; [inversion 1; eauto|intros (c & -> & ?); by constructor]. Qed.
Lemma matches_cat_iff r1 r2 s :
  matches (Cat r1 r2) s <-> exists s1 s2, s = s1 ++ s2 /\ matches r1 s1 /\ matches r2 s2.
Proof. split; [inversion 1; subst; eauto 6|intros (s1 & s2 & -> & ? & ?); by constructor]. Qed.
Lemma matches_alt_iff r1 r2 s : matches (Alt r1 r2) s <-> matches r1 s \/ matches r2 s.
Proof. split; [inversion 1; auto|intros [?|?]; [by apply matches_alt_l|by apply matches_alt_r]]. Qed.

Lemma matches_star_iff r s :
  matches (Star r) s <-> exists l, s = mjoin l /\ Forall (matches r) l.
Proof.
  split.
  - intros H. remember (Star r) as q eqn:Hq. induction H; simplify_eq.
    + by exists [].
    + destruct IHmatches2 as (l & -> & Hl); [done|]. exists (s1 :: l). split; [done|]. by constructor.
  - intros (l & -> & Hl). induction Hl; simpl; by constructor.
Qed.

(** A match of a star that consumes something begins with a match that does. *)
Lemma matches_star_cons r c s :
  matches (Star r) (c :: s) -> exists s1 s2, s = s1 ++ s2 /\ matches r (c :: s1) /\ matches (Star r) s2.
Proof.
  intros (l & Heq & Hl)%matches_star_iff. revert Heq. induction Hl as [|x l Hx Hl IH]; [done|].
  destruct x as [|b x]; [exact IH|]. simpl. intros [= -> ->].
  exists x, (mjoin l). split; [done|]. split; [done|]. apply matches_star_iff. by exists l.
Qed.

#[local] Create Rewrite HintDb re.
#[local] Hint Rewrite matches_empty_iff matches_eps_iff matches_class_iff matches_cat_iff
  matches_alt_iff : re.

Lemma matches_cat_smart r1 r2 s : matches (cat r1 r2) s <-> matches (Cat r1 r2) s.
Proof.
  assert (matches (Cat Empty r2) s <-> matches Empty s) as H1.
  { split; [|inversion 1]. intros (s1 & s2 & _ & H & _)%matches_cat_iff. inversion H. }
  assert (matches (Cat r1 Empty) s <-> matches Empty s) as H2.
  { split; [|inversion 1]. intros (s1 & s2 & _ & _ & H)%matches_cat_iff. inversion H. }
  assert (matches (Cat Eps r2) s <-> matches r2 s) as H3.
  { rewrite matches_cat_iff. setoid_rewrite matches_eps_iff. split.
    - by intros (s1 & s2 & -> & -> & ?).
    - intros ?. by exists [], s. }
  destruct r1; destruct r2; simpl; by rewrite ?H1, ?H2, ?H3.
Qed.

Lemma matches_alt_smart r1 r2 s : matches (alt r1 r2) s <-> matches (Alt r1 r2) s.
Proof.
  assert (matches (Alt Empty r2) s <-> matches r2 s) as H1.
  { rewrite matches_alt_iff, matches_empty_iff. tauto. }
  assert (matches (Alt r1 Empty) s <-> matches r1 s) as H2.
  { rewrite matches_alt_iff, matches_empty_iff. tauto. }
  destruct r1; destruct r2; simpl; by rewrite ?H1, ?H2.
Qed.

Lemma nullable_spec r : nullable r = true <-> matches r [].
Proof.
  induction r; simpl; autorewrite with re; rewrite ?andb_true_iff, ?orb_true_iff; try naive_solver.
  - rewrite IHr1, IHr2. split.
    + intros [? ?]. by exists [], [].
    + intros (s1 & s2 & [-> ->]%eq_sym%app_eq_nil & ? & ?). done.
  - split; [constructor|done].
Qed.

Lemma deriv_spec c r s : matches (deriv c r) s <-> matches r (c :: s).
Proof.
  revert s. induction r as [| |f|r1 IH1 r2 IH2|r1 IH1 r2 IH2|r IH]; intros s; simpl.
  - by autorewrite with re.
  - by autorewrite with re.
  - rewrite matches_class_iff. destruct (f c) eqn:Hf; autorewrite with re; split.
    + intros ->. by exists c.
    + by intros (? & [= -> ->] & _).
    + done.
    + intros (? & [= -> ->] & ?). congruence.
  - assert (matches (cat (deriv c r1) r2) s
            <-> exists s1 s2, s = s1 ++ s2 /\ matches r1 (c :: s1) /\ matches r2 s2) as Hcat.
    { rewrite matches_cat_smart, matches_cat_iff. by setoid_rewrite IH1. }
    pose proof (nullable_spec r1) as Hn.
    destruct (nullable r1); rewrite ?matches_alt_smart, ?matches_alt_iff, Hcat, ?IH2, matches_cat_iff.
    + split.
      * intros [(s1 & s2 & -> & ? & ?)|?]; [by exists (c :: s1), s2|]. exists [], (c :: s). naive_solver.
      * intros ([|b s1] & s2 & Heq & ? & ?); simpl in Heq; simplify_eq; [by right|]. left. by exists s1, s2.
    + split.
      * intros (s1 & s2 & -> & ? & ?). by exists (c :: s1), s2.
      * intros ([|b s1] & s2 & Heq & H1 & ?); [by apply Hn in H1|]. simplify_eq/=. by exists s1, s2.
  - rewrite matches_alt_smart, !matches_alt_iff. by rewrite IH1, IH2.
  - rewrite matches_cat_smart, matches_cat_iff. setoid_rewrite IH. split.
    + intros (s1 & s2 & -> & ? & ?). by apply (matches_star_app r (c :: s1)).
    + apply matches_star_cons.
Qed.

Lemma matchb_spec r s : matchb r s = true <-> matches r s.
Proof.
  revert r. induction s as [|c s IH]; intros r; simpl; [apply nullable_spec|].
  by rewrite IH, deriv_spec.
Qed.

(** ** What the derived forms match *)

Lemma matches_opt r s : matches (opt r) s <-> s = [] \/ matches r s.
Proof. unfold opt. by autorewrite with re. Qed.

Lemma matches_char c s : matches (char c) s <-> s = [c].
Proof.
  unfold char. autorewrite with re. split.
  - intros (b & -> & ->%Ascii.eqb_eq). done.
  - intros ->. exists c. by rewrite Ascii.eqb_refl.
Qed.

Lemma matches_lit l s : matches (lit l) s <-> s = l.
Proof.
  revert s. induction l as [|c l IH]; intros s; simpl; autorewrite with re; [done|].
  setoid_rewrite matches_char. setoid_rewrite IH. naive_solver.
Qed.

Lemma matches_plus r s :
  matches (plus r) s <-> exists l, l <> [] /\ s = mjoin l /\ Forall (matches r) l.
Proof.
  unfold plus. rewrite matches_cat_iff. setoid_rewrite matches_star_iff. split.
  - intros (s1 & s2 & -> & H1 & l & -> & Hl). exists (s1 :: l). split_and!; [done|done|by constructor].
  - intros ([|s1 l] & Hne & -> & Hl); [done|]. apply Forall_cons in Hl as [? ?].
    exists s1, (mjoin l). split_and!; [done|done|by exists l].
Qed.

(** Repeated classes are strings of the class. *)
Definition all_in (f : ascii -> bool) (s : list ascii) : Prop := Forall (fun c => f c = true) s.

Lemma matches_star_class f s : matches (Star (Class f)) s <-> all_in f s.
Proof.
  unfold all_in. rewrite matches_star_iff. split.
  - intros (l & -> & Hl). induction Hl as [|x l (c & -> & Hc)%matches_class_iff _ IH]; [done|].
    simpl. by constructor.
  - intros Hs. exists ((fun c => [c]) <$> s). split.
    + clear Hs. induction s as [|c s IH]; [done|]. simpl. by rewrite <- IH at 1.
    + apply Forall_fmap. eapply Forall_impl; [exact Hs|]. intros c Hc. by constructor.
Qed.

Lemma matches_plus_class f s : matches (plus (Class f)) s <-> s <> [] /\ all_in f s.
Proof.
  unfold plus. rewrite matches_cat_iff. setoid_rewrite matches_class_iff.
  setoid_rewrite matches_star_class. unfold all_in. split.
  - intros (s1 & s2 & -> & (c & -> & Hc) & Hs). split; [done|]. by constructor.
  - intros [Hne Hs]. destruct Hs as [|c s Hc Hs]; [done|]. exists [c], s. naive_solver.
Qed.

Lemma matches_upto_class f n s : matches (upto (Class f) n) s <-> all_in f s /\ (length s <= n)%nat.
Proof.
  unfold all_in. revert s. induction n as [|n IH]; intros s; simpl.
  - rewrite matches_eps_iff. split; [by intros ->|]. intros [_ ?]. destruct s; [done|simpl in *; lia].
  - rewrite matches_opt, matches_cat_iff. setoid_rewrite matches_class_iff. setoid_rewrite IH. split.
    + intros [->|(s1 & s2 & -> & (c & -> & Hc) & Hs & Hl)]; [split; [done|simpl; lia]|].
      split; [by constructor|simpl; lia].
    + intros [Hs Hl]. destruct Hs as [|c s Hc Hs]; [by left|]. right. exists [c], s.
      simpl in Hl. split_and!; [done|by exists c|done|lia].
Qed.

Lemma matches_upto1_class f n s :
  matches (upto1 (Class f) n) s <-> s <> [] /\ all_in f s /\ (length s <= n)%nat.
Proof.
  unfold all_in. destruct n as [|n]; simpl.
  - rewrite matches_empty_iff. split; [done|]. intros (? & _ & ?). destruct s; [done|simpl in *; lia].
  - rewrite matches_cat_iff. setoid_rewrite matches_class_iff. setoid_rewrite matches_upto_class. split.
    + intros (s1 & s2 & -> & (c & -> & Hc) & Hs & Hl). split_and!; [done|by constructor|simpl; lia].
    + intros (Hne & Hs & Hl). destruct Hs as [|c s Hc Hs]; [done|]. exists [c], s.
      simpl in Hl. split_and!; [done|by exists c|done|lia].
Qed.

(** [f(g*f)?] and [f(g{0,n}f)?], for [f] within [g]: the strings of [g] that begin and end in [f]. *)
Definition delimited (f g : ascii -> bool) (s : list ascii) : Prop :=
  all_in g s /\ (exists c, head s = Some c /\ f c = true) /\ (exists c, last s = Some c /\ f c = true).

Lemma delimited_split (f g : ascii -> bool) s :
  (forall c, f c = true -> g c = true) ->
  delimited f g s <->
  (exists c, s = [c] /\ f c = true)
  \/ exists b m c, s = b :: m ++ [c] /\ f b = true /\ all_in g m /\ f c = true.
Proof.
  intros Hfg. unfold delimited, all_in. split.
  - intros (Hg & (b & Hb & Hfb) & (c & Hc & Hfc)).
    destruct s as [|b' s]; [done|]. injection Hb as ->. apply Forall_cons in Hg as [_ Hg].
    destruct s as [|x s _] using rev_ind; [left; by exists b|]. right. exists b, s, c.
    rewrite app_comm_cons, last_snoc in Hc. injection Hc as ->. apply Forall_app in Hg as [Hg _]. done.
  - intros [(c & -> & Hc)|(b & m & c & -> & Hb & Hm & Hc)].
    + split_and!; [by constructor; auto|by exists c|by exists c].
    + split_and!; [|by exists b|exists c; by rewrite app_comm_cons, last_snoc].
      constructor; [auto|]. apply Forall_app. split; [done|]. constructor; auto.
Qed.

Lemma matches_wrapped (f : ascii -> bool) m P s :
  (forall x, matches m x <-> P x) ->
  matches (Cat (Class f) (opt (Cat m (Class f)))) s <->
  (exists c, s = [c] /\ f c = true)
  \/ exists b x c, s = b :: x ++ [c] /\ f b = true /\ P x /\ f c = true.
Proof.
  intros Hm. rewrite matches_cat_iff. setoid_rewrite matches_opt. setoid_rewrite matches_cat_iff.
  setoid_rewrite matches_class_iff. setoid_rewrite Hm. split.
  - intros (s1 & s2 & -> & (b & -> & Hb) & [->|(x & y & -> & Hx & c & -> & Hc)]).
    + left. by exists b.
    + right. by exists b, x, c.
  - intros [(c & -> & Hc)|(b & x & c & -> & Hb & Hx & Hc)].
    + exists [c], []. naive_solver.
    + exists [b], (x ++ [c]). naive_solver.
Qed.

Lemma matches_delimited (f g : ascii -> bool) s :
  (forall c, f c = true -> g c = true) ->
  matches (Cat (Class f) (opt (Cat (Star (Class g)) (Class f)))) s <-> delimited f g s.
Proof.
  intros Hfg. rewrite (matches_wrapped f _ (all_in g)) by apply matches_star_class.
  by rewrite delimited_split.
Qed.

Lemma matches_delimited_upto (f g : ascii -> bool) n s :
  (forall c, f c = true -> g c = true) ->
  matches (Cat (Class f) (opt (Cat (upto (Class g) n) (Class f)))) s <->
  delimited f g s /\ (length s <= n + 2)%nat.
Proof.
  intros Hfg. rewrite (matches_wrapped f _ (fun x => all_in g x /\ (length x <= n)%nat))
    by apply matches_upto_class.
  rewrite delimited_split by done. split.
  - intros [(c & -> & Hc)|(b & x & c & -> & Hb & [Hx Hl] & Hc)].
    + split; [left; by exists c|simpl; lia].
    + split; [right; by exists b, x, c|]. simpl. rewrite length_app. simpl. lia.
  - intros [[(c & -> & Hc)|(b & x & c & -> & Hb & Hx & Hc)] Hl].
    + left. by exists c.
    + right. exists b, x, c. simpl in Hl. rewrite length_app in Hl. simpl in Hl.
      split_and!; try done. lia.
Qed.

End regex.
