(* ===== verification/GoTime.v ===== *)
(** The fragment of Go's [time] package the operator computes with: instants, durations,
    [Time.IsZero] and the saturating [Time.Sub]. *)

From S2P Require Import Prelude.

Module time.

(** An instant: nanoseconds since the zero [time.Time] (January 1, year 1, UTC).  The wall clock
    reading only: a [metav1.Time] carries no monotonic reading, so [Sub] never uses one. *)
Definition Time := Z.

(** A [time.Duration]: an [int64] count of nanoseconds. *)
Definition Duration := Z.

Definition zero : Time := 0.
Definition Nanosecond : Duration := 1.
Definition Microsecond : Duration := 1000 * Nanosecond.
Definition Millisecond : Duration := 1000 * Microsecond.
Definition Second : Duration := 1000 * Millisecond.
Definition Minute : Duration := 60 * Second.
Definition Hour : Duration := 60 * Minute.

Definition IsZero (t : Time) : bool := bool_decide (t = zero).

(** [t.Sub(u)]: "if the result exceeds the maximum (or minimum) value that can be stored in a
    Duration, the maximum (or minimum) duration will be returned". *)
Definition Sub (t u : Time) : Duration := Z.max int64_min (Z.min int64_max (t - u)).

(** Subtraction of two durations wraps, as every [int64] subtraction does. *)
Definition sub_duration (d e : Duration) : Duration := wrap64 (d - e).

Lemma Sub_range t u : is_int64 (Sub t u).
Proof. unfold is_int64, Sub, int64_min, int64_max. lia. Qed.

Lemma Sub_exact t u : is_int64 (t - u) -> Sub t u = t - u.
Proof. unfold is_int64, Sub. lia. Qed.

Lemma Sub_mono t t' u : t <= t' -> Sub t u <= Sub t' u.
Proof. unfold Sub. lia. Qed.

(** Later by [d] means stable for [d] longer, as long as nothing saturates. *)
Lemma Sub_ge_iff t u d :
  int64_min < d <= int64_max -> d <= Sub t u <-> u + d <= t.
Proof. unfold Sub, int64_min, int64_max. lia. Qed.

End time.

#[export] Hint Resolve time.Sub_range : warden.
