(* ===== verification/Duration.v ===== *)
(** Go's [time.ParseDuration], which decodes the durations of a policy: the scanner of whole
    numbers, fractions and units, [uint64] sums with their overflow checks, and the [float64]
    arithmetic of fractions. *)

From S2P Require Import Prelude GoTime Regex.
From Stdlib Require Strings.String.
From Stdlib Require Import Ascii Floats.SpecFloat.

Module duration.

Inductive parse_error :=
  | InvalidDuration (orig : string)
  | MissingUnit (orig : string)
  | UnknownUnit (u orig : string).

Definition bytes := list ascii.

Definition wrapu64 (z : Z) : Z := z `mod` 2 ^ 64.

(** ** Scanners *)

Definition is_digit (c : ascii) : bool := (48 <=? N_of_ascii c)%N && (N_of_ascii c <=? 57)%N.
Definition digit (c : ascii) : Z := Z.of_N (N_of_ascii c) - 48.
Definition is_dot (c : ascii) : bool := Ascii.eqb c ".".

(** [x = x*10 + uint64(c) - '0'] cannot wrap: [x] is at most [1<<63/10]. *)
Fixpoint leadingInt (x : Z) (s : bytes) : option (Z * bytes) :=
  match s with
  | [] => Some (x, [])
  | c :: s' =>
      if negb (is_digit c) then Some (x, s)
      else if 2 ^ 63 / 10 <? x then None
      else
        let x := x * 10 + digit c in
        if 2 ^ 63 <? x then None else leadingInt x s'
  end.

(** [float64], round to nearest even. *)
Definition float64 := spec_float.
Definition float64_of (n : Z) : float64 := binary_normalize 53 1024 n 0 false.
Arguments float64_of : simpl never.
Definition fmul : float64 -> float64 -> float64 := SFmul 53 1024.
Definition fdiv : float64 -> float64 -> float64 := SFdiv 53 1024.

(** [uint64(x)] truncates; the numbers met here are finite and not negative. *)
Definition uint64_of (x : float64) : Z :=
  match x with
  | S754_finite false m e => if 0 <=? e then Z.pos m * 2 ^ e else Z.pos m / 2 ^ (- e)
  | _ => 0
  end.

(** The digits after the point; those that no longer fit are consumed and ignored. *)
Fixpoint leadingFraction (x : Z) (scale : float64) (overflow : bool) (s : bytes) : Z * float64 * bytes :=
  match s with
  | [] => (x, scale, [])
  | c :: s' =>
      if negb (is_digit c) then (x, scale, s)
      else if overflow then leadingFraction x scale true s'
      else if (2 ^ 63 - 1) / 10 <? x then leadingFraction x scale true s'
      else
        let y := x * 10 + digit c in
        if 2 ^ 63 <? y then leadingFraction x scale true s'
        else leadingFraction y (fmul scale (float64_of 10)) false s'
  end.

(** The unit goes on to the next digit or point. *)
Fixpoint leadingUnit (s : bytes) : bytes * bytes :=
  match s with
  | [] => ([], [])
  | c :: s' =>
      if is_dot c || is_digit c then ([], s)
      else let '(u, r) := leadingUnit s' in (c :: u, r)
  end.

Definition of_bytes : bytes -> string := Strings.String.string_of_list_ascii.
Definition to_bytes : string -> bytes := Strings.String.list_ascii_of_string.

(** Both code points in use for the micro sign, as UTF-8. *)
Definition micro_sign : string := String "194"%char (String "181"%char EmptyString).
Definition greek_mu : string := String "206"%char (String "188"%char EmptyString).

Definition unitMap : list (string * Z) := [
  ("ns"%string, time.Nanosecond);
  ("us"%string, time.Microsecond);
  (micro_sign +:+ "s", time.Microsecond);
  (greek_mu +:+ "s", time.Microsecond);
  ("ms"%string, time.Millisecond);
  ("s"%string, time.Second);
  ("m"%string, time.Minute);
  ("h"%string, time.Hour) ].

Fixpoint assoc (l : list (string * Z)) (u : string) : option Z :=
  match l with
  | [] => None
  | (k, v) :: l' => if decide (k = u) then Some v else assoc l' u
  end.

(** ** The parser *)

(** [uint64(float64(f) * (float64(unit) / scale))] *)
Definition fraction_nanos (f : Z) (scale : float64) (unit : Z) : Z :=
  uint64_of (fmul (float64_of f) (fdiv (float64_of unit) scale)).

(** The value of a number and its unit, or out of range. *)
Definition in_unit (v f : Z) (scale : float64) (unit : Z) : option Z :=
  if 2 ^ 63 / unit <? v then None
  else
    let v := v * unit in
    if 0 <? f then
      let v := wrapu64 (v + fraction_nanos f scale unit) in
      if 2 ^ 63 <? v then None else Some v
    else Some v.

(** A point and digits, or nothing, with whether there is a digit. *)
Definition optionalFraction (s : bytes) : Z * float64 * bytes * bool :=
  match s with
  | c :: s' =>
      if is_dot c then
        let '(f, scale, r) := leadingFraction 0 (float64_of 1) false s' in
        (f, scale, r, negb (bool_decide (length s' = length r)))
      else (0, float64_of 1, s, false)
  | [] => (0, float64_of 1, s, false)
  end.

(** One turn of the loop: a number and its unit.  First what follows the check of the next byte. *)
Definition number_and_unit (orig : string) (s : bytes) : parse_error + (Z * bytes) :=
  match leadingInt 0 s with
  | None => inl (InvalidDuration orig)
  | Some (v, s1) =>
      let pre := negb (bool_decide (length s = length s1)) in
      let '(f, scale, s2, post) := optionalFraction s1 in
      if negb pre && negb post then inl (InvalidDuration orig)
      else
        let '(u, s3) := leadingUnit s2 in
        if decide (u = []) then inl (MissingUnit orig)
        else
          match assoc unitMap (of_bytes u) with
          | None => inl (UnknownUnit (of_bytes u) orig)
          | Some unit =>
              match in_unit v f scale unit with
              | None => inl (InvalidDuration orig)
              | Some v => inr (v, s3)
              end
          end
  end.

Definition next (orig : string) (s : bytes) : parse_error + (Z * bytes) :=
  match s with
  | [] => inl (InvalidDuration orig)
  | c :: _ => if is_dot c || is_digit c then number_and_unit orig s else inl (InvalidDuration orig)
  end.

(** [for s != ""]; every turn consumes a byte, so the length is fuel enough. *)
Fixpoint loop (fuel : nat) (orig : string) (d : Z) (s : bytes) : parse_error + Z :=
  match s, fuel with
  | [], _ => inr d
  | _ :: _, O => inl (InvalidDuration orig)
  | _ :: _, S fuel' =>
      match next orig s with
      | inl e => inl e
      | inr (v, s') =>
          let d := wrapu64 (d + v) in
          if 2 ^ 63 <? d then inl (InvalidDuration orig) else loop fuel' orig d s'
      end
  end.

Definition ParseDuration (orig : string) : parse_error + time.Duration :=
  let s := to_bytes orig in
  let '(neg, s) :=
    match s with
    | c :: s' => if Ascii.eqb c "-" then (true, s') else if Ascii.eqb c "+" then (false, s') else (false, s)
    | [] => (false, s)
    end in
  if decide (of_bytes s = "0"%string) then inr 0
  else if decide (s = []) then inl (InvalidDuration orig)
  else
    match loop (length s) orig 0 s with
    | inl e => inl e
    | inr d =>
        if neg then inr (wrap64 (- wrap64 d))
        else if 2 ^ 63 - 1 <? d then inl (InvalidDuration orig)
        else inr d
    end.

(** ** Lemmas: the fuel *)

Lemma leadingInt_length x s v r : leadingInt x s = Some (v, r) -> (length r <= length s)%nat.
Proof.
  revert x. induction s as [|c s IH]; intros x; simpl; [by intros [= <- <-]|].
  repeat case_match; intros; simplify_eq/=; try lia.
  match goal with H : leadingInt _ _ = _ |- _ => apply IH in H end. lia.
Qed.

Lemma leadingFraction_length x sc o s f sc' r :
  leadingFraction x sc o s = (f, sc', r) -> (length r <= length s)%nat.
Proof.
  revert x sc o. induction s as [|c s IH]; intros x sc o; simpl; [by intros [= <- <- <-]|].
  repeat case_match; intros; simplify_eq/=; try lia;
    match goal with H : leadingFraction _ _ _ _ = _ |- _ => apply IH in H end; lia.
Qed.

Lemma optionalFraction_length s f sc r p :
  optionalFraction s = (f, sc, r, p) -> (length r <= length s)%nat.
Proof.
  unfold optionalFraction. destruct s as [|c s]; [by intros [= <- <- <- <-]|].
  destruct (is_dot c); [|by intros [= <- <- <- <-]].
  destruct (leadingFraction _ _ _ _) as [[f0 sc0] r0] eqn:H. apply leadingFraction_length in H.
  intros [= <- <- <- <-]. simpl. lia.
Qed.

Lemma leadingUnit_app s u r : leadingUnit s = (u, r) -> s = u ++ r.
Proof.
  revert u r. induction s as [|c s IH]; intros u r; simpl; [by intros [= <- <-]|].
  destruct (_ || _); [by intros [= <- <-]|]. destruct (leadingUnit s) as [u' r'].
  intros [= <- <-]. by rewrite (IH u' r').
Qed.

Lemma next_length orig s v r : next orig s = inr (v, r) -> (length r < length s)%nat.
Proof.
  unfold next. destruct s as [|c s]; [done|]. destruct (_ || _); [|done]. unfold number_and_unit.
  destruct (leadingInt _ _) as [[v0 s1]|] eqn:H1; [|done]. apply leadingInt_length in H1.
  destruct (optionalFraction s1) as [[[f sc] s2] post] eqn:H2. apply optionalFraction_length in H2.
  destruct (_ && _); [done|]. destruct (leadingUnit s2) as [u s3] eqn:H3. apply leadingUnit_app in H3.
  case_decide; [done|]. repeat case_match; try done. intros. simplify_eq/=.
  destruct u; [done|]. rewrite length_app in H2. simpl in H2. lia.
Qed.

Lemma loop_fuel n m orig d s :
  (length s <= n)%nat -> (length s <= m)%nat -> loop n orig d s = loop m orig d s.
Proof.
  revert m d s. induction n as [|n IH]; intros m d s Hn Hm.
  - destruct s; [by destruct m|simpl in Hn; lia].
  - destruct s as [|c s]; [by destruct m|]. destruct m as [|m]; [simpl in Hm; lia|]. cbn [loop].
    destruct (next orig (c :: s)) as [|[v r]] eqn:Hx; [done|]. apply next_length in Hx.
    cbn [length] in *. cbv zeta. case_match; [done|]. apply IH; lia.
Qed.

(** ** Lemmas: what a duration is written as *)

(** A number and its unit as they are written; a number has a whole part or a fraction. *)
Record component := mkComponent { whole : bytes; fraction : option bytes; unit : string }.

Definition render (c : component) : bytes :=
  c.(whole) ++ match c.(fraction) with Some ds => "."%char :: ds | None => [] end ++ to_bytes c.(unit).

Definition digits (s : bytes) : Prop := Forall (fun c => is_digit c = true) s.

(** At most [n] digits before the point. *)
Definition written (n : nat) (c : component) : Prop :=
  digits c.(whole) /\ (length c.(whole) <= n)%nat
  /\ match c.(fraction) with
     | Some ds => ds <> [] /\ digits ds
     | None => c.(whole) <> []
     end
  /\ is_Some (assoc unitMap c.(unit)).

(** The value of a run of digits, and of a component without a fraction. *)
Definition number (x : Z) (s : bytes) : Z := foldl (fun x c => x * 10 + digit c) x s.

Definition nanos (c : component) : Z := number 0 c.(whole) * default 0 (assoc unitMap c.(unit)).

(** The next byte, if any, ends a number, or a unit. *)
Definition stops (f : ascii -> bool) (r : bytes) : Prop :=
  match r with [] => True | c :: _ => f c = false end.

Lemma digit_range c : is_digit c = true -> 0 <= digit c <= 9.
Proof. unfold is_digit, digit. rewrite andb_true_iff, !N.leb_le. lia. Qed.

Lemma number_range n x s :
  digits s -> 0 <= x < 10 ^ Z.of_nat n -> 0 <= number x s < 10 ^ Z.of_nat (n + length s).
Proof.
  intros Hs. revert n x. induction Hs as [|c s Hc%digit_range Hs IH]; intros n x Hx; simpl.
  - by rewrite Nat.add_0_r.
  - rewrite <- Nat.add_succ_comm. apply IH. rewrite Nat2Z.inj_succ, Z.pow_succ_r by lia. lia.
Qed.

(** A run of at most 18 digits is read as it stands. *)
Lemma leadingInt_digits n x s r :
  digits s -> 0 <= x < 10 ^ Z.of_nat n -> (n + length s <= 18)%nat -> stops is_digit r ->
  leadingInt x (s ++ r) = Some (number x s, r).
Proof.
  intros Hs. revert n x. induction Hs as [|c s Hc Hs IH]; intros n x Hx Hn Hr; simpl.
  - destruct r as [|c r]; [done|]. simpl in *. by rewrite Hr.
  - rewrite Hc. simpl. pose proof (digit_range c Hc). simpl in Hn.
    assert (10 ^ Z.of_nat (S n) <= 10 ^ 18) by (apply Z.pow_le_mono_r; lia).
    rewrite Nat2Z.inj_succ, Z.pow_succ_r in * by lia.
    assert (2 ^ 63 / 10 = 922337203685477580) as -> by reflexivity.
    destruct (Z.ltb_spec 922337203685477580 x); [lia|].
    destruct (Z.ltb_spec (2 ^ 63) (x * 10 + digit c)); [lia|].
    apply (IH (S n)); [|lia|done]. rewrite Nat2Z.inj_succ, Z.pow_succ_r by lia. lia.
Qed.

Lemma leadingFraction_digits s r x sc o :
  digits s -> stops is_digit r -> exists f sc', leadingFraction x sc o (s ++ r) = (f, sc', r).
Proof.
  intros Hs Hr. revert x sc o. induction Hs as [|c s Hc Hs IH]; intros x sc o; simpl.
  - destruct r as [|c r]; simpl in *; [eauto|]. rewrite Hr. eauto.
  - rewrite Hc. simpl. repeat case_match; apply IH.
Qed.

(** The bytes a unit may have, and what may follow it. *)
Definition in_unit_name (c : ascii) : bool := negb (is_dot c || is_digit c).

Lemma unitMap_units u k :
  assoc unitMap u = Some k ->
  to_bytes u <> [] /\ Forall (fun c => in_unit_name c = true) (to_bytes u)
  /\ of_bytes (to_bytes u) = u /\ 1 <= k <= time.Hour.
Proof.
  unfold unitMap, assoc. intros H. repeat case_decide; simplify_eq;
    (split; [done|]; split; [by repeat constructor|]; split; [reflexivity|]; by vm_compute).
Qed.

Lemma leadingUnit_bytes u r :
  Forall (fun c => in_unit_name c = true) u -> stops in_unit_name r -> leadingUnit (u ++ r) = (u, r).
Proof.
  unfold in_unit_name. intros Hu Hr. induction Hu as [|c u Hc Hu IH]; simpl.
  - destruct r as [|c r]; simpl in *; [done|]. apply negb_false_iff in Hr. by rewrite Hr.
  - apply negb_true_iff in Hc. by rewrite Hc, IH.
Qed.

Lemma in_unit_range v f sc k x : 0 <= v -> 1 <= k -> in_unit v f sc k = Some x -> 0 <= x <= 2 ^ 63.
Proof.
  unfold in_unit, wrapu64. intros Hv Hk. destruct (Z.ltb_spec (2 ^ 63 / k) v) as [|Hle]; [done|].
  destruct (0 <? f).
  - destruct (Z.ltb_spec (2 ^ 63) ((v * k + fraction_nanos f sc k) `mod` 2 ^ 64)) as [|Hx]; [done|].
    intros [= <-]. split; [apply Z.mod_pos_bound; lia|done].
  - intros [= <-]. split; [nia|]. pose proof (Z.mul_div_le (2 ^ 63) k). nia.
Qed.

Lemma in_unit_whole v k : 0 <= v < 10 ^ 6 -> 1 <= k <= time.Hour -> in_unit v 0 (float64_of 1) k = Some (v * k).
Proof.
  intros Hv Hk. unfold in_unit. destruct (Z.ltb_spec (2 ^ 63 / k) v) as [Hlt|]; [|done].
  assert (2 ^ 63 / time.Hour <= 2 ^ 63 / k) by (apply Z.div_le_compat_l; lia).
  assert (2 ^ 63 / time.Hour = 2562047) by reflexivity. lia.
Qed.

Definition point (c : component) : bytes :=
  match c.(fraction) with Some ds => "."%char :: ds | None => [] end.

(** What the scanners see of a component followed by [r]. *)
Lemma scan_render n c r :
  written n c -> (n <= 18)%nat -> stops in_unit_name r ->
  leadingInt 0 (render c ++ r) = Some (number 0 c.(whole), point c ++ to_bytes c.(unit) ++ r)
  /\ exists f sc, optionalFraction (point c ++ to_bytes c.(unit) ++ r)
       = (f, sc, to_bytes c.(unit) ++ r, bool_decide (is_Some c.(fraction)))
     /\ (c.(fraction) = None -> f = 0 /\ sc = float64_of 1).
Proof.
  intros (Hw & Hl & Hf & (k & Hk)) Hn Hr. destruct (unitMap_units _ _ Hk) as (Hne & Hu & _ & _).
  assert (forall f, (forall b, in_unit_name b = true -> f b = false) -> stops f (to_bytes c.(unit) ++ r)) as Hstop.
  { intros f Himp. destruct Hu as [|b u Hb Hu]; [done|]. simpl. by apply Himp. }
  assert (forall b, in_unit_name b = true -> is_digit b = false /\ is_dot b = false) as Hname.
  { unfold in_unit_name. intros b. rewrite negb_true_iff, orb_false_iff. tauto. }
  unfold render, point. rewrite <- !app_assoc. split.
  - apply (leadingInt_digits 0); [done|done|lia|]. destruct c.(fraction) as [ds|]; [done|].
    simpl. apply Hstop. intros b Hb. by apply Hname.
  - unfold optionalFraction. destruct (fraction c) as [ds|]; simpl.
    + destruct Hf as [Hds Hdig].
      destruct (leadingFraction_digits ds (to_bytes c.(unit) ++ r) 0 (float64_of 1) false Hdig)
        as (f & sc & Heq); [apply Hstop; intros b Hb; by apply Hname|].
      rewrite Heq. exists f, sc. split; [|done]. do 2 f_equal.
      rewrite bool_decide_eq_false_2; [done|]. rewrite length_app. destruct ds; [done|simpl; lia].
    + assert (stops is_dot (to_bytes c.(unit) ++ r)) as Hdot by (apply Hstop; intros b Hb; by apply Hname).
      exists 0, (float64_of 1). split; [|done].
      destruct (to_bytes c.(unit) ++ r) as [|b s]; [done|]. simpl in Hdot. by rewrite Hdot.
Qed.

(** A component is read in one turn, unless its value is out of range. *)
Lemma next_render orig n c r :
  written n c -> (n <= 18)%nat -> stops in_unit_name r ->
  exists x, next orig (render c ++ r)
              = match x with Some v => inr (v, r) | None => inl (InvalidDuration orig) end
    /\ (forall v, x = Some v -> 0 <= v <= 2 ^ 63)
    /\ (c.(fraction) = None -> (n <= 6)%nat -> x = Some (nanos c)).
Proof.
  intros Hc Hn Hr. destruct (scan_render n c r Hc Hn Hr) as (Hint & f & sc & Hfrac & Hnone).
  destruct Hc as (Hw & Hl & Hf & (k & Hk)). destruct (unitMap_units _ _ Hk) as (Hne & Hu & Hof & Hk1).
  pose proof (number_range 0 0 c.(whole) Hw) as Hv. simpl in Hv.
  exists (in_unit (number 0 c.(whole)) f sc k). split_and!.
  - transitivity (number_and_unit orig (render c ++ r)).
    + unfold next, render. destruct Hw as [|b w Hb Hw]; simpl.
      * destruct c.(fraction); [done|]. done.
      * by rewrite Hb, orb_true_r.
    + unfold number_and_unit. rewrite Hint, Hfrac, leadingUnit_bytes, decide_False, Hof, Hk by done.
      cbv zeta. destruct (_ && _) eqn:Hpre; [exfalso|by destruct (in_unit _ _ _ _)].
      apply andb_true_iff in Hpre as [Hpre Hpost].
      rewrite negb_involutive in Hpre. apply bool_decide_eq_true in Hpre.
      apply negb_true_iff, bool_decide_eq_false in Hpost.
      destruct c.(fraction) eqn:Hfr; [by apply Hpost|]. unfold render, point in Hpre. rewrite Hfr in Hpre.
      simpl in Hpre. rewrite !length_app in Hpre. destruct c.(whole); [done|simpl in Hpre; lia].
  - intros v. apply in_unit_range; lia.
  - intros Hfr Hn6. destruct (Hnone Hfr) as [-> ->]. unfold nanos. rewrite Hk.
    apply in_unit_whole; [|done]. split; [lia|].
    eapply Z.lt_le_trans; [apply Hv; lia|]. apply Z.pow_le_mono_r; lia.
Qed.

(** ** Lemmas: whole durations *)

Definition render_all (cs : list component) : bytes := mjoin (render <$> cs).
Definition total (cs : list component) : Z := foldr (fun c t => nanos c + t) 0 cs.

Lemma render_begins n c :
  written n c -> exists b s, render c = b :: s /\ s <> [] /\ (is_dot b || is_digit b) = true.
Proof.
  intros (Hw & _ & Hf & (k & Hk)). destruct (unitMap_units _ _ Hk) as (Hne & _).
  unfold render. destruct Hw as [|b w Hb Hw]; simpl.
  - destruct c.(fraction) as [ds|]; [|done]. exists "."%char, (ds ++ to_bytes c.(unit)).
    split_and!; [done| |done]. destruct ds; [by destruct Hf|done].
  - eexists b, _. split_and!; [done| |by rewrite Hb, orb_true_r]. intros H.
    apply (f_equal length) in H. rewrite !length_app in H. destruct (to_bytes c.(unit)); [done|]. simpl in H. lia.
Qed.

Lemma render_all_stops n cs : Forall (written n) cs -> stops in_unit_name (render_all cs).
Proof.
  intros [|c l Hc _]; [done|]. destruct (render_begins n c Hc) as (b & s & Hr & _ & Hb).
  change (stops in_unit_name (render c ++ render_all l)). rewrite Hr. simpl. unfold in_unit_name.
  by rewrite Hb.
Qed.

Lemma nanos_range c : written 6 c -> 0 <= nanos c <= 10 ^ 6 * time.Hour.
Proof.
  intros (Hw & Hl & _ & (k & Hk)). destruct (unitMap_units _ _ Hk) as (_ & _ & _ & Hk1).
  unfold nanos. rewrite Hk. pose proof (number_range 0 0 c.(whole) Hw) as Hv. simpl in *.
  assert (10 ^ Z.of_nat (length c.(whole)) <= 10 ^ 6) by (apply Z.pow_le_mono_r; lia). nia.
Qed.

Lemma total_nonneg cs : Forall (written 6) cs -> 0 <= total cs.
Proof. induction 1 as [|c cs Hc%nanos_range _ IH]; simpl; lia. Qed.

(** The loop ends with a sum in range or with the range error. *)
Lemma loop_render orig n cs d fuel :
  Forall (written n) cs -> (n <= 18)%nat -> 0 <= d <= 2 ^ 63 -> (length (render_all cs) <= fuel)%nat ->
  (exists d', loop fuel orig d (render_all cs) = inr d' /\ 0 <= d' <= 2 ^ 63)
  \/ loop fuel orig d (render_all cs) = inl (InvalidDuration orig).
Proof.
  intros Hcs Hn. revert d fuel. induction Hcs as [|c cs Hc Hcs IH]; intros d fuel Hd Hfuel.
  - left. exists d. by destruct fuel.
  - destruct (next_render orig n c (render_all cs) Hc Hn) as (x & Hx & Hrange & _);
      [by eapply render_all_stops|].
    destruct (render_begins n c Hc) as (b & s & Hb & _). change (render_all (c :: cs))
      with (render c ++ render_all cs) in *. rewrite Hb in *. destruct fuel as [|fuel]; [simpl in Hfuel; lia|].
    cbn [loop app] in *. rewrite Hx. destruct x as [v|]; [|by right]. cbv zeta.
    destruct (Z.ltb_spec (2 ^ 63) (wrapu64 (d + v))); [by right|]. apply IH.
    + unfold wrapu64 in *. split; [apply Z.mod_pos_bound; lia|done].
    + simpl in Hfuel. rewrite length_app in Hfuel. lia.
Qed.

(** Without fractions the sum is exact. *)
Lemma loop_whole orig cs d fuel :
  Forall (fun c => written 6 c /\ c.(fraction) = None) cs -> 0 <= d <= 2 ^ 63 ->
  (length (render_all cs) <= fuel)%nat ->
  loop fuel orig d (render_all cs)
  = if d + total cs <=? 2 ^ 63 then inr (d + total cs) else inl (InvalidDuration orig).
Proof.
  intros Hcs. revert d fuel. induction Hcs as [|c cs [Hc Hfr] Hcs IH]; intros d fuel Hd Hfuel.
  - simpl. rewrite Z.add_0_r. destruct (Z.leb_spec d (2 ^ 63)); [by destruct fuel|lia].
  - assert (Forall (written 6) cs) as Hcs' by (eapply Forall_impl; [exact Hcs|by intros ? []]).
    destruct (next_render orig 6 c (render_all cs) Hc) as (x & Hx & _ & Hv);
      [lia|by eapply render_all_stops|]. rewrite (Hv Hfr) in Hx by lia.
    destruct (render_begins 6 c Hc) as (b & s & Hb & _). change (render_all (c :: cs))
      with (render c ++ render_all cs) in *. rewrite Hb in *. destruct fuel as [|fuel]; [simpl in Hfuel; lia|].
    cbn [loop app total foldr] in *. rewrite Hx. cbv zeta.
    pose proof (nanos_range c Hc) as Hr. pose proof (total_nonneg cs Hcs').
    assert (10 ^ 6 * time.Hour < 2 ^ 62) by done. unfold wrapu64. rewrite Z.mod_small by lia.
    fold (total cs). destruct (Z.ltb_spec (2 ^ 63) (d + nanos c)).
    + destruct (Z.leb_spec (d + (nanos c + total cs)) (2 ^ 63)); [lia|done].
    + rewrite IH; [by rewrite Z.add_assoc|lia|]. simpl in Hfuel. rewrite length_app in Hfuel. lia.
Qed.

Lemma ParseDuration_loop n cs orig :
  to_bytes orig = render_all cs -> cs <> [] -> Forall (written n) cs ->
  ParseDuration orig
  = match loop (length (render_all cs)) orig 0 (render_all cs) with
    | inl e => inl e
    | inr d => if 2 ^ 63 - 1 <? d then inl (InvalidDuration orig) else inr d
    end.
Proof.
  intros Ho Hne Hcs. unfold ParseDuration. rewrite Ho. destruct Hcs as [|c cs Hc Hcs]; [done|].
  destruct (render_begins n c Hc) as (b & s & Hb & Hs & Hbegin).
  change (render_all (c :: cs)) with (render c ++ render_all cs). rewrite Hb. cbn [app].
  destruct (Ascii.eqb_spec b "-") as [->|_]; [done|]. destruct (Ascii.eqb_spec b "+") as [->|_]; [done|].
  rewrite decide_False, decide_False; [done..|]. destruct s; [done|]. by destruct b as [[] [] [] [] [] [] [] []].
Qed.

(** ** The examples of the Go documentation and of the operator's tests *)

Example parse_1h30m : ParseDuration "1h30m" = inr (90 * time.Minute).
Proof. vm_compute. reflexivity. Qed.
Example parse_fraction : ParseDuration "1.5h.5s" = inr (90 * time.Minute + 500 * time.Millisecond).
Proof. vm_compute. reflexivity. Qed.
Example parse_third : ParseDuration "0.3333333333333333333h" = inr (20 * time.Minute).
Proof. vm_compute. reflexivity. Qed.
Example parse_negative : ParseDuration "-60s" = inr (- time.Minute).
Proof. vm_compute. reflexivity. Qed.
Example parse_5min : ParseDuration "5min" = inl (UnknownUnit "min" "5min").
Proof. vm_compute. reflexivity. Qed.

End duration.
