(* ===== verification/Types.v ===== *)
(** The data the operator works on: the Kubernetes objects it reads ([corev1], [metav1], the
    fields the operator uses or must preserve), its own custom resource ([v1alpha1], from
    [api/v1alpha1/noderemediationpolicy_types.go]) and the error values that travel through the
    controller and the webhook. *)

From S2P Require Import Prelude GoTime.

(** ** [k8s.io/api/core/v1] *)
Module corev1.

Record Taint := mkTaint {
  Taint_Key : string;
  Taint_Value : string;
  Taint_Effect : string;
  Taint_TimeAdded : option time.Time;
}.

(** A node condition.  A missing timestamp is the zero time. *)
Record NodeCondition := mkNodeCondition {
  NodeCondition_Type : string;
  NodeCondition_Status : string;
  NodeCondition_LastHeartbeatTime : time.Time;
  NodeCondition_LastTransitionTime : time.Time;
}.

Record Node := mkNode {
  Node_Name : string;
  Node_UID : string;
  Node_ResourceVersion : string;
  Node_Labels : gmap string string;
  Node_Taints : list Taint;
  Node_Conditions : list NodeCondition;
}.

(** The assignment [node.Spec.Taints = taints]. *)
Definition set_Taints (n : Node) (taints : list Taint) : Node :=
  mkNode n.(Node_Name) n.(Node_UID) n.(Node_ResourceVersion) n.(Node_Labels)
    taints n.(Node_Conditions).

#[global] Instance Taint_eq_dec : EqDecision Taint.
Proof. solve_decision. Defined.
#[global] Instance NodeCondition_eq_dec : EqDecision NodeCondition.
Proof. solve_decision. Defined.
#[global] Instance Node_eq_dec : EqDecision Node.
Proof. solve_decision. Defined.

End corev1.

(** ** [k8s.io/apimachinery/pkg/apis/meta/v1] *)
Module metav1.

(** The selector's fields, as the CRD schema spells them. *)
Record LabelSelectorRequirement := mkLabelSelectorRequirement {
  Requirement_Key : string;
  Requirement_Operator : string;
  Requirement_Values : list string;
}.

Record LabelSelector := mkLabelSelector {
  MatchLabels : gmap string string;
  MatchExpressions : list LabelSelectorRequirement;
}.

Record Condition := mkCondition {
  Condition_Type : string;
  Condition_Status : string;
  Condition_ObservedGeneration : Z;
  Condition_LastTransitionTime : time.Time;
  Condition_Reason : string;
  Condition_Message : string;
}.

Definition ConditionTrue : string := "True".
Definition ConditionFalse : string := "False".

Record ObjectMeta := mkObjectMeta {
  ObjectMeta_Name : string;
  ObjectMeta_ResourceVersion : string;
  ObjectMeta_Generation : Z;
  ObjectMeta_DeletionTimestamp : option time.Time;
  ObjectMeta_Finalizers : list string;
}.

#[global] Instance Condition_eq_dec : EqDecision Condition.
Proof. solve_decision. Defined.
#[global] Instance LabelSelectorRequirement_eq_dec : EqDecision LabelSelectorRequirement.
Proof. solve_decision. Defined.
#[global] Instance LabelSelector_eq_dec : EqDecision LabelSelector.
Proof. solve_decision. Defined.
#[global] Instance ObjectMeta_eq_dec : EqDecision ObjectMeta.
Proof. solve_decision. Defined.

End metav1.

(** ** [api/v1alpha1/noderemediationpolicy_types.go]

    A Go pointer field is an [option]; a nil and an empty slice are the same list, as they are for
    the JSON encoding ([omitempty]) and for the semantic equality the controller compares with. *)
Module v1alpha1.

Record ConditionMatch := mkConditionMatch {
  ConditionMatch_Type : string;
  ConditionMatch_Status : string;
}.

Record Remediations := mkRemediations {
  Remediations_Taint : option corev1.Taint;
}.

Record Debounce := mkDebounce {
  Debounce_Enter : option time.Duration;
  Debounce_Exit : option time.Duration;
}.

Record Guard := mkGuard {
  Guard_MaxAffectedPercent : option Z;
}.

Record NodeRemediationPolicySpec := mkNodeRemediationPolicySpec {
  Spec_NodeSelector : option metav1.LabelSelector;
  Spec_Condition : ConditionMatch;
  Spec_Remediations : Remediations;
  Spec_Debounce : Debounce;
  Spec_Guard : Guard;
}.

Record NodeRemediationPolicyStatus := mkNodeRemediationPolicyStatus {
  Status_SelectedNodes : list string;
  Status_MatchedNodes : list string;
  Status_PendingNodes : list string;
  Status_UnknownNodes : list string;
  Status_HeldNodes : list string;
  Status_RemediatedNodes : list string;
  Status_SelectedCount : Z;
  Status_MatchedCount : Z;
  Status_PendingCount : Z;
  Status_UnknownCount : Z;
  Status_HeldCount : Z;
  Status_RemediatedCount : Z;
  Status_Conditions : list metav1.Condition;
}.

Record NodeRemediationPolicy := mkNodeRemediationPolicy {
  ObjectMeta : metav1.ObjectMeta;
  Spec : NodeRemediationPolicySpec;
  Status : NodeRemediationPolicyStatus;
}.

Definition Name (p : NodeRemediationPolicy) : string :=
  p.(ObjectMeta).(metav1.ObjectMeta_Name).

(** The assignments [p.Status = s], [p.Status.Conditions = c] and [p.Finalizers = f]. *)
Definition set_Status (p : NodeRemediationPolicy) (s : NodeRemediationPolicyStatus) :
    NodeRemediationPolicy :=
  mkNodeRemediationPolicy p.(ObjectMeta) p.(Spec) s.

Definition set_Conditions (s : NodeRemediationPolicyStatus) (c : list metav1.Condition) :
    NodeRemediationPolicyStatus :=
  mkNodeRemediationPolicyStatus
    s.(Status_SelectedNodes) s.(Status_MatchedNodes) s.(Status_PendingNodes)
    s.(Status_UnknownNodes) s.(Status_HeldNodes) s.(Status_RemediatedNodes)
    s.(Status_SelectedCount) s.(Status_MatchedCount) s.(Status_PendingCount)
    s.(Status_UnknownCount) s.(Status_HeldCount) s.(Status_RemediatedCount) c.

Definition set_Finalizers (p : NodeRemediationPolicy) (f : list string) : NodeRemediationPolicy :=
  mkNodeRemediationPolicy
    (metav1.mkObjectMeta p.(ObjectMeta).(metav1.ObjectMeta_Name)
       p.(ObjectMeta).(metav1.ObjectMeta_ResourceVersion)
       p.(ObjectMeta).(metav1.ObjectMeta_Generation)
       p.(ObjectMeta).(metav1.ObjectMeta_DeletionTimestamp) f)
    p.(Spec) p.(Status).

#[global] Instance ConditionMatch_eq_dec : EqDecision ConditionMatch.
Proof. solve_decision. Defined.
#[global] Instance Remediations_eq_dec : EqDecision Remediations.
Proof. solve_decision. Defined.
#[global] Instance Debounce_eq_dec : EqDecision Debounce.
Proof. solve_decision. Defined.
#[global] Instance Guard_eq_dec : EqDecision Guard.
Proof. solve_decision. Defined.
#[global] Instance Spec_eq_dec : EqDecision NodeRemediationPolicySpec.
Proof. solve_decision. Defined.
#[global] Instance Status_eq_dec : EqDecision NodeRemediationPolicyStatus.
Proof. solve_decision. Defined.
#[global] Instance NodeRemediationPolicy_eq_dec : EqDecision NodeRemediationPolicy.
Proof. solve_decision. Defined.

End v1alpha1.

(** ** Errors

    The sentinels are the package-level [errors.New] values of [internal/controller], those of the
    controller's file and those of [taint.go]; [Wrap] records what [errors.Wrap] was given.  The API errors are the ones the code tells apart or
    builds itself; [Other] stands for every other error a call may return. *)
Module errors.

Variant controller_sentinel :=
  | ErrProjectPolicy
  | ErrListNodes
  | ErrWriteStatus
  | ErrEnsureFinalizer
  | ErrRemoveFinalizer.

Variant taint_sentinel :=
  | ErrApplyTaint
  | ErrRemoveTaint.

Variant sentinel :=
  | Controller (s : controller_sentinel)
  | TaintWrite (s : taint_sentinel).

(** The text each sentinel is created with. *)
Definition controller_sentinel_text (s : controller_sentinel) : string :=
  match s with
  | ErrProjectPolicy => "project NodeRemediationPolicy"
  | ErrListNodes => "list nodes"
  | ErrWriteStatus => "write NodeRemediationPolicy status"
  | ErrEnsureFinalizer => "ensure NodeRemediationPolicy finalizer"
  | ErrRemoveFinalizer => "remove NodeRemediationPolicy finalizer"
  end.

Definition taint_sentinel_text (s : taint_sentinel) : string :=
  match s with
  | ErrApplyTaint => "apply node taint"
  | ErrRemoveTaint => "remove node taint"
  end.

Definition sentinel_text (s : sentinel) : string :=
  match s with
  | Controller s => controller_sentinel_text s
  | TaintWrite s => taint_sentinel_text s
  end.

(** A [field.Error] of type Forbidden: its path and its detail. *)
Record field_error := mkForbidden { field_path : list string; field_detail : string }.

Inductive error :=
  | NotFound (name : string)
  | Conflict (name : string)
  | Invalid (group kind name : string) (errs : list field_error)
  | InternalError (cause : error)
  | Wrap (s : sentinel) (properties : list (string * string)) (cause : error)
  | Aggregate (errs : list error)
  | Other (msg : string).

End errors.
Export errors (error).

Coercion errors.Controller : errors.controller_sentinel >-> errors.sentinel.
Coercion errors.TaintWrite : errors.taint_sentinel >-> errors.sentinel.
