(* ===== verification/Schema.v ===== *)
(** The custom resource as the API server admits it: the validation and default markers of
    [api/v1alpha1/noderemediationpolicy_types.go], over the object as it is written in JSON, and its
    decoding into the Go types. *)

From S2P Require Import Prelude GoTime Regex Duration Types.
From Stdlib Require Import Ascii.
Import regex.

Module schema.

(** ** The object as written *)

Record raw_taint := mkRawTaint {
  key : string;
  value : option string;
  effect : string;
  timeAdded : option time.Time;
}.

Record raw_debounce := mkRawDebounce { enter : option string; exit : option string }.

(** [required] fields are plain; the selector has no rule of its own. *)
Record raw_spec := mkRawSpec {
  nodeSelector : option metav1.LabelSelector;
  condition_type : string;
  condition_status : option string;
  taint : option raw_taint;
  debounce : option raw_debounce;
  maxAffectedPercent : option (option Z);
}.

#[global] Instance raw_taint_eq_dec : EqDecision raw_taint.
Proof. solve_decision. Defined.

(** ** The [+kubebuilder:default] markers, applied where the enclosing object is present *)

Definition default_status : string := "True".
Definition default_enter : string := "60s".
Definition default_exit : string := "30s".
Definition default_percent : Z := 100.

Definition withDefaults (s : raw_spec) : raw_spec := {|
  nodeSelector := s.(nodeSelector);
  condition_type := s.(condition_type);
  condition_status := Some (default default_status s.(condition_status));
  taint := s.(taint);
  debounce :=
    (fun d => mkRawDebounce (Some (default default_enter d.(enter)))
                (Some (default default_exit d.(exit)))) <$> s.(debounce);
  maxAffectedPercent := (fun g => Some (default default_percent g)) <$> s.(maxAffectedPercent);
|}.

(** ** The patterns *)

Definition between (lo hi c : ascii) : bool :=
  (N_of_ascii lo <=? N_of_ascii c)%N && (N_of_ascii c <=? N_of_ascii hi)%N.

Definition lower_alnum (c : ascii) : bool := between "a" "z" c || between "0" "9" c.
Definition lower_alnum_dash (c : ascii) : bool := Ascii.eqb c "-" || lower_alnum c.
Definition alnum (c : ascii) : bool := between "A" "Z" c || between "a" "z" c || between "0" "9" c.
Definition name_char (c : ascii) : bool :=
  Ascii.eqb c "-" || alnum c || Ascii.eqb c "_" || Ascii.eqb c ".".

(** A DNS label, the prefix with its slash, and the name of at most 63 bytes. *)
Definition label_re : re :=
  Cat (Class lower_alnum) (opt (Cat (Star (Class lower_alnum_dash)) (Class lower_alnum))).
Definition prefix_re : re := Cat label_re (Cat (Star (Cat (char ".") label_re)) (char "/")).
Definition name_re : re :=
  Cat (Class alnum) (opt (Cat (upto (Class name_char) 61) (Class alnum))).
Definition key_re : re := Cat (opt prefix_re) name_re.
Definition value_re : re := opt name_re.

(** One to six digits and a fraction, or a fraction alone; then a unit. *)
Definition digits_re : re := plus (Class duration.is_digit).
Definition number_re : re :=
  Alt (Cat (upto1 (Class duration.is_digit) 6) (opt (Cat (char ".") digits_re)))
      (Cat (char ".") digits_re).
Definition units : list string :=
  ["ns"; "us"; duration.micro_sign +:+ "s"; "ms"; "s"; "m"; "h"]%string.
Definition unit_re : re := foldr (fun u r => Alt (lit (duration.to_bytes u)) r) Empty units.
Definition duration_re : re := plus (Cat number_re unit_re).

(** CEL's [s.matches(p)] and [s.size()]; where a size is taken the text is ASCII. *)
Definition full_match (r : re) (s : string) : bool := matchb r (duration.to_bytes s).
Definition size (s : string) : Z := len (duration.to_bytes s).

(** ** The rules *)

Definition typeRule (s : raw_spec) : bool := 1 <=? size s.(condition_type).

Definition statusRule (s : raw_spec) : bool :=
  match s.(condition_status) with
  | Some st => bool_decide (st ∈ ["True"; "False"; "Unknown"]%string)
  | None => true
  end.

Definition remediationsRule (s : raw_spec) : bool := bool_decide (is_Some s.(taint)).

Definition effectRule (t : raw_taint) : bool :=
  bool_decide (t.(effect) ∈ ["NoSchedule"; "PreferNoSchedule"; "NoExecute"]%string).
Definition keyRule (t : raw_taint) : bool := full_match key_re t.(key) && (size t.(key) <=? 317).
Definition valueRule (t : raw_taint) : bool :=
  match t.(value) with Some v => full_match value_re v | None => true end.

(** [self == oldSelf]: a transition rule, judged where there is an old taint. *)
Definition immutableRule (old : option raw_taint) (t : raw_taint) : bool :=
  match old with Some o => bool_decide (t = o) | None => true end.

Definition durationRule (s : string) : bool := full_match duration_re s.
Definition debounceRule (d : raw_debounce) : bool :=
  match d.(enter) with Some s => durationRule s | None => true end
  && match d.(exit) with Some s => durationRule s | None => true end.

Definition percentRule (m : Z) : bool := (0 <=? m) && (m <=? 100).

(** The rules on one object, and those that compare it with the stored one. *)
Definition well_formed (s : raw_spec) : bool :=
  typeRule s && statusRule s && remediationsRule s
  && match s.(taint) with Some t => effectRule t && keyRule t && valueRule t | None => true end
  && match s.(debounce) with Some d => debounceRule d | None => true end
  && match s.(maxAffectedPercent) with Some (Some m) => percentRule m | _ => true end.

Definition transition (old : option raw_spec) (s : raw_spec) : bool :=
  match s.(taint) with Some t => immutableRule (old ≫= taint) t | None => true end.

(** What a create ([old] is [None]) or an update stores, if the rules of the CRD admit it.  This is the
    schema's verdict alone: where the validating webhook is served, the API server then sends it the
    object, which it decodes and whose taint key it checks ([Webhook]); an object is stored if both
    admit it. *)
Definition admission (old : option raw_spec) (s : raw_spec) : option raw_spec :=
  let s := withDefaults s in
  if well_formed s && transition old s then Some s else None.

(** The stored object after a sequence of updates, the rejected ones without effect. *)
Definition updated (s : raw_spec) (requests : list raw_spec) : raw_spec :=
  foldl (fun s r => default s (admission (Some s) r)) s requests.

(** ** Decoding *)
Section decode.

(** [metav1.Duration]'s. *)
Context (UnmarshalJSON : string -> duration.parse_error + time.Duration).

Definition decodeDuration (s : option string) : duration.parse_error + option time.Duration :=
  match s with
  | None => inr None
  | Some s => match UnmarshalJSON s with inl e => inl e | inr d => inr (Some d) end
  end.

Definition decodeTaint (t : raw_taint) : corev1.Taint :=
  corev1.mkTaint t.(key) (default EmptyString t.(value)) t.(effect) t.(timeAdded).

Definition decodeDebounce (d : option raw_debounce) : duration.parse_error + v1alpha1.Debounce :=
  match d with
  | None => inr (v1alpha1.mkDebounce None None)
  | Some d =>
      match decodeDuration d.(enter), decodeDuration d.(exit) with
      | inl e, _ => inl e
      | inr _, inl e => inl e
      | inr en, inr ex => inr (v1alpha1.mkDebounce en ex)
      end
  end.

Definition decode (s : raw_spec) : duration.parse_error + v1alpha1.NodeRemediationPolicySpec :=
  match decodeDebounce s.(debounce) with
  | inl e => inl e
  | inr d => inr {|
      v1alpha1.Spec_NodeSelector := s.(nodeSelector);
      v1alpha1.Spec_Condition :=
        v1alpha1.mkConditionMatch s.(condition_type) (default EmptyString s.(condition_status));
      v1alpha1.Spec_Remediations := v1alpha1.mkRemediations (decodeTaint <$> s.(taint));
      v1alpha1.Spec_Debounce := d;
      v1alpha1.Spec_Guard := v1alpha1.mkGuard (default None s.(maxAffectedPercent)) |}
  end.

End decode.

(** ** What the patterns say *)

(** A dot-separated sequence of labels. *)
Definition dns_label (s : list ascii) : Prop := delimited lower_alnum lower_alnum_dash s.
Definition dns_subdomain (s : list ascii) : Prop :=
  exists x l, dns_label x /\ Forall dns_label l /\ s = x ++ mjoin (cons "."%char <$> l).

Definition label_value (s : list ascii) : Prop := delimited alnum name_char s /\ (length s <= 63)%nat.

(** A valid Kubernetes qualified name: a name, or a DNS subdomain of at most 253 bytes, a slash and a
    name. *)
Definition qualified_name (s : list ascii) : Prop :=
  exists n, label_value n
    /\ (s = n \/ exists p, dns_subdomain p /\ len p <= 253 /\ s = p ++ "/"%char :: n).

Lemma lower_alnum_dash_alnum c : lower_alnum c = true -> lower_alnum_dash c = true.
Proof. unfold lower_alnum_dash. intros ->. apply orb_true_r. Qed.

Lemma name_char_alnum c : alnum c = true -> name_char c = true.
Proof. unfold name_char. intros ->. by rewrite orb_true_r. Qed.

Lemma matches_label s : matches label_re s <-> dns_label s.
Proof. apply matches_delimited, lower_alnum_dash_alnum. Qed.

Lemma matches_name s : matches name_re s <-> label_value s.
Proof. apply matches_delimited_upto, name_char_alnum. Qed.

Lemma matches_dotted_labels s :
  matches (Star (Cat (char ".") label_re)) s <-> exists l, Forall dns_label l /\ s = mjoin (cons "."%char <$> l).
Proof.
  rewrite matches_star_iff. split.
  - intros (l & -> & Hl). induction Hl as [|x l Hx _ (l' & Hl' & IH)]; [by exists []|].
    apply matches_cat_iff in Hx as (s1 & s2 & -> & ->%matches_char & Hs2%matches_label).
    exists (s2 :: l'). split; [by constructor|]. simpl. by rewrite IH.
  - intros (l & Hl & ->). exists (cons "."%char <$> l). split; [done|].
    apply Forall_fmap. eapply Forall_impl; [exact Hl|]. intros x Hx.
    apply matches_cat_iff. exists ["."%char], x. by rewrite matches_char, matches_label.
Qed.

Lemma matches_prefix s : matches prefix_re s <-> exists p, dns_subdomain p /\ s = p ++ ["/"%char].
Proof.
  unfold prefix_re, dns_subdomain. split.
  - intros (x & s2 & -> & Hx%matches_label & Hs2)%matches_cat_iff.
    apply matches_cat_iff in Hs2 as (s3 & s4 & -> & (l & Hl & ->)%matches_dotted_labels & ->%matches_char).
    eexists. split; [by exists x, l|]. by rewrite app_assoc.
  - intros (p & (x & l & Hx & Hl & ->) & ->). rewrite <- app_assoc.
    apply matches_cat; [by apply matches_label|]. apply matches_cat; [|by apply matches_char].
    apply matches_dotted_labels. by exists l.
Qed.

(** A duration is a sequence of numbers with units. *)
Definition component_written (c : duration.component) : Prop :=
  duration.written 6 c /\ c.(duration.unit) ∈ units.

Lemma units_known u : u ∈ units -> is_Some (duration.assoc duration.unitMap u).
Proof. unfold units. rewrite !elem_of_cons, elem_of_nil. intros H. by repeat destruct H as [->|H]. Qed.

Lemma matches_unit s : matches unit_re s <-> exists u, u ∈ units /\ s = duration.to_bytes u.
Proof.
  unfold unit_re. induction units as [|u l IH]; simpl.
  - rewrite matches_empty_iff. split; [done|]. by intros (u & ?%elem_of_nil & _).
  - rewrite matches_alt_iff, IH, matches_lit. setoid_rewrite elem_of_cons. naive_solver.
Qed.

Lemma matches_number s :
  matches number_re s <->
  exists w f, s = w ++ duration.point (duration.mkComponent w f EmptyString)
    /\ duration.digits w /\ (length w <= 6)%nat
    /\ match f with Some ds => ds <> [] /\ duration.digits ds | None => w <> [] end.
Proof.
  unfold number_re, digits_re, duration.point. cbn [duration.fraction].
  assert (forall t, matches (Cat (char ".") (plus (Class duration.is_digit))) t
            <-> exists ds, t = "."%char :: ds /\ ds <> [] /\ duration.digits ds) as Hpoint.
  { intros t. split.
    - intros (x & ds & -> & ->%matches_char & Hds%matches_plus_class)%matches_cat_iff. by exists ds.
    - intros (ds & -> & Hds). apply (matches_cat _ _ ["."%char]); [by apply matches_char|].
      by apply matches_plus_class. }
  rewrite matches_alt_iff, matches_cat_iff, Hpoint. setoid_rewrite matches_opt.
  setoid_rewrite Hpoint. setoid_rewrite matches_upto1_class. unfold all_in. split.
  - intros [(w & s2 & -> & (Hne & Hw & Hl) & [->|(ds & -> & Hds)])|(ds & -> & Hds)].
    + by exists w, None.
    + by exists w, (Some ds).
    + exists [], (Some ds). split_and!; [done|constructor|simpl; lia|apply Hds|apply Hds].
  - intros (w & [ds|] & -> & Hw & Hl & Hf).
    + destruct w as [|c w]; [right; by exists ds|].
      left. exists (c :: w), ("."%char :: ds). split_and!; [done|done|done|done|]. right. by exists ds.
    + left. exists w, []. split_and!; try done. by left.
Qed.

Lemma matches_component s :
  matches (Cat number_re unit_re) s <-> exists c, component_written c /\ s = duration.render c.
Proof.
  rewrite matches_cat_iff. setoid_rewrite matches_number. setoid_rewrite matches_unit.
  unfold component_written, duration.written, duration.render. split.
  - intros (s1 & s2 & -> & (w & f & -> & Hw & Hl & Hf) & u & Hu & ->).
    exists (duration.mkComponent w f u). simpl. split_and!; try done; [by apply units_known|].
    unfold duration.point. simpl. by rewrite app_assoc.
  - intros ([w f u] & ((Hw & Hl & Hf & _) & Hu) & ->). simpl in *.
    eexists _, _. split_and!; [by rewrite app_assoc|by exists w, f|by exists u].
Qed.

Lemma durationRule_spec s :
  durationRule s = true <->
  exists cs, cs <> [] /\ Forall component_written cs /\ duration.to_bytes s = duration.render_all cs.
Proof.
  unfold durationRule, full_match, duration_re, duration.render_all. rewrite matchb_spec, matches_plus. split.
  - intros (l & Hne & -> & Hl).
    assert (exists cs, Forall component_written cs /\ l = duration.render <$> cs) as (cs & Hcs & ->).
    { clear Hne. induction Hl as [|x l (c & Hc & ->)%matches_component _ (cs & Hcs & ->)]; [by exists []|].
      exists (c :: cs). split; [by constructor|done]. }
    exists cs. split_and!; [by intros ->|done|done].
  - intros (cs & Hne & Hcs & Heq). exists (duration.render <$> cs). split_and!; [by destruct cs|done|].
    apply Forall_fmap. eapply Forall_impl; [exact Hcs|]. intros c Hc. apply matches_component. by exists c.
Qed.

Lemma component_written_6 cs : Forall component_written cs -> Forall (duration.written 6) cs.
Proof. intros H. eapply Forall_impl; [exact H|]. by intros c []. Qed.

End schema.
