(* ===== verification/Heap.v ===== *)
(** Go's heap as the copying and the in-place code sees it: typed cells under addresses, pointers and
    slices, programs that read, allocate and write and may panic, and a logic for programs that
    leave what was allocated before them alone. *)

From S2P Require Import Prelude.

(** An address.  A nil pointer is [None] in an [option loc]. *)
Definition loc := positive.

(** A slice header: the segment [[offset, offset + length)] of an array.  Nil is [None]. *)
Record slice := mkSlice { array : loc; offset : nat; slice_len : nat }.

Abbreviation heap := (gmap loc).

Section heap.
Context {cell : Type}.
Implicit Types (c : cell) (l : loc) (F G : gset loc).

Implicit Types (h : heap cell).

(** ** Programs *)

(** A program returns a value and the heap it leaves, or panics. *)
Definition M (A : Type) := heap cell -> option (A * heap cell).

#[global] Instance M_ret : MRet M := fun A a h => Some (a, h).
#[global] Instance M_bind : MBind M := fun A B k m h =>
  match m h with Some (a, h') => k a h' | None => None end.

Definition panic {A} : M A := fun _ => None.
Definition alloc c : M loc := fun h => let l := fresh (dom h) in Some (l, <[l := c]> h).
Definition get l : M cell := fun h => (fun c => (c, h)) <$> h !! l.
Definition put l c : M unit := fun h => (fun _ => (tt, <[l := c]> h)) <$> h !! l.

(** ** Typed cells *)

(** The cells that hold a [T], and the zero value of it. *)
Class Cell (T : Type) := {
  inject : T -> cell;
  project : cell -> option T;
  zero : T;
  project_inject x : project (inject x) = Some x;
}.

Definition load {T} `{Cell T} l : M T :=
  c ← get l; match project c with Some x => mret x | None => panic end.
Definition store {T} `{Cell T} l (x : T) : M unit := put l (inject x).

(** [new(T)] *)
Definition new (T : Type) `{Cell T} : M loc := alloc (inject zero).

(** Arrays of [T]; [make([]T, n)] with [z] the zero value of its elements. *)
Definition make {T} `{Cell (list T)} (z : T) (n : nat) : M slice :=
  l ← alloc (inject (replicate n z)); mret (mkSlice l 0 n).

Definition elements {T} (s : slice) (xs : list T) : list T :=
  take s.(slice_len) (drop s.(offset) xs).

(** [s[i]] and [s[i] = x]: out of range panics. *)
Definition index {T} `{Cell (list T)} (s : slice) (i : nat) : M T :=
  xs ← load s.(array);
  match elements s xs !! i with Some x => mret x | None => panic end.

Definition setIndex {T} `{Cell (list T)} (s : slice) (i : nat) (x : T) : M unit :=
  xs ← load s.(array);
  if decide (i < length (elements s xs))%nat
  then store s.(array) (<[(s.(offset) + i)%nat := x]> xs)
  else panic.

(** The contents of a slice, and writing them back over the same segment. *)
Definition readSlice {T} `{Cell (list T)} (s : slice) : M (list T) :=
  xs ← load s.(array); mret (elements s xs).

Definition overwrite {T} (s : slice) (ys xs : list T) : list T :=
  take s.(offset) xs ++ ys ++ drop (s.(offset) + length ys) xs.

Definition writeSlice {T} `{Cell (list T)} (s : slice) (ys : list T) : M unit :=
  xs ← load s.(array); store s.(array) (overwrite s ys xs).

(** [for i := range n { body(i) }] *)
Fixpoint forRange (body : nat -> M unit) (i n : nat) : M unit :=
  match n with
  | O => mret tt
  | S n' => body i ;; forRange body (S i) n'
  end.

(** [for _, x := range l { body }], threading the loop's variables. *)
Fixpoint foldM {A S} (body : S -> A -> M S) (s : S) (l : list A) : M S :=
  match l with
  | [] => mret s
  | x :: l' => s' ← body s x; foldM body s' l'
  end.

(** ** Values in the heap *)

(** [D h x v F]: in [h] the Go value [x] stands for [v], and what that takes is read at [F]. *)
Definition denotation (T V : Type) := heap cell -> T -> V -> gset loc -> Prop.

(** Two heaps that agree on a set of addresses. *)
Definition agree (F : gset loc) h h' : Prop := forall l, l ∈ F -> h' !! l = h !! l.

Class Framed {T V} (D : denotation T V) : Prop := {
  framed_agree h h' x v F : D h x v F -> agree F h h' -> D h' x v F;
  framed_dom h x v F : D h x v F -> F ⊆ dom h;
}.

(** ** A logic of programs that only add to the heap *)

(** [m] does not panic, keeps every cell of [h], and [Q] holds of its result, the heap it leaves and
    the cells it added. *)
Definition extends {A} (m : M A) h (Q : A -> heap cell -> gset loc -> Prop) : Prop :=
  exists a h' F, m h = Some (a, h') /\ h ⊆ h' /\ dom h' = dom h ∪ F /\ F ## dom h /\ Q a h' F.

(** [f] copies: its result stands for the same value in cells of its own. *)
Definition copies {T V} (f : T -> M T) (D : denotation T V) : Prop :=
  forall h x v F, D h x v F -> extends (f x) h (fun x' h' F' => D h' x' v F').

(** ** Lemmas *)

Lemma agree_subseteq F h h' : F ⊆ dom h -> h ⊆ h' -> agree F h h'.
Proof.
  intros HF Hh l Hl. apply HF, elem_of_dom in Hl as [c Hc]. rewrite Hc. by eapply lookup_weaken.
Qed.

Lemma framed_mono {T V} (D : denotation T V) `{!Framed D} h h' x v F :
  D h x v F -> h ⊆ h' -> D h' x v F.
Proof.
  intros HD Hh. eapply framed_agree; [exact HD|]. apply agree_subseteq; [|done]. by eapply framed_dom.
Qed.

Lemma extends_ret {A} (a : A) h (Q : A -> heap cell -> gset loc -> Prop) : Q a h ∅ -> extends (mret a) h Q.
Proof. intros HQ. exists a, h, ∅. split_and!; [done|done|set_solver|set_solver|done]. Qed.

Lemma extends_bind {A B} (m : M A) (k : A -> M B) h P (Q : B -> heap cell -> gset loc -> Prop) :
  extends m h P ->
  (forall a h1 F, h ⊆ h1 -> F ⊆ dom h1 -> P a h1 F ->
     extends (k a) h1 (fun b h2 G => Q b h2 (F ∪ G))) ->
  extends (m ≫= k) h Q.
Proof.
  intros (a & h1 & F & Hm & Hh & Hd & HF & HP) Hk.
  destruct (Hk a h1 F Hh ltac:(set_solver) HP) as (b & h2 & G & Hm2 & Hh2 & Hd2 & HG & HQ).
  exists b, h2, (F ∪ G). unfold mbind, M_bind. rewrite Hm. split_and!; [done| |set_solver|set_solver|done].
  by transitivity h1.
Qed.

Lemma extends_weaken {A} (m : M A) h (P Q : A -> heap cell -> gset loc -> Prop) :
  extends m h P -> (forall a h' F, P a h' F -> Q a h' F) -> extends m h Q.
Proof. intros (a & h' & F & ? & ? & ? & ? & ?) HPQ. exists a, h', F. split_and!; try done. by apply HPQ. Qed.

Lemma copies_field {T V} (f : T -> M T) (D : denotation T V) h x v F :
  copies f D -> D h x v F -> extends (f x) h (fun x' h' F' => D h' x' v F').
Proof. intros Hf. apply Hf. Qed.

Lemma load_inject {T} `{Cell T} h l (x : T) : h !! l = Some (inject x) -> load l h = Some (x, h).
Proof. intros Hl. unfold load, mbind, M_bind, get. rewrite Hl. simpl. by rewrite project_inject. Qed.

Lemma store_some {T} `{Cell T} h l c (x : T) : h !! l = Some c -> store l x h = Some (tt, <[l := inject x]> h).
Proof. intros Hl. unfold store, put. by rewrite Hl. Qed.

Lemma fresh_dom h : h !! fresh (dom h) = None.
Proof. apply not_elem_of_dom, is_fresh. Qed.

(** [out := new(T)], a program that only adds cells, and the write of its result at [out]. *)
Lemma extends_fill {A B} (c : cell) (m : loc -> M A) (w : loc -> A -> M B) h
    (P : loc -> A -> heap cell -> gset loc -> Prop) (Q : B -> heap cell -> gset loc -> Prop) :
  let l := fresh (dom h) in
  extends (m l) (<[l := c]> h) (P l) ->
  (forall a h' F, <[l := c]> h ⊆ h' -> l ∉ F -> P l a h' F ->
     exists b c', w l a h' = Some (b, <[l := c']> h') /\ Q b (<[l := c']> h') ({[l]} ∪ F)) ->
  extends (out ← alloc c; a ← m out; w out a) h Q.
Proof.
  intros l (a & h' & F & Hm & Hh & Hd & HF & HP) Hw.
  assert (h !! l = None) as Hl by apply fresh_dom.
  destruct (Hw a h' F Hh ltac:(set_solver) HP) as (b & c' & Hb & HQ).
  exists b, (<[l := c']> h'), ({[l]} ∪ F). unfold mbind, M_bind, alloc. fold l. rewrite Hm, Hb.
  split_and!; [done| | | |done].
  - apply insert_subseteq_r; [done|]. etransitivity; [|exact Hh]. by apply insert_subseteq.
  - set_solver.
  - apply not_elem_of_dom in Hl. set_solver.
Qed.

End heap.

Arguments M cell A : clear implicits.
Arguments Cell cell T : clear implicits.
Arguments denotation cell T V : clear implicits.
