(* ===== verification/HeapCopy.v ===== *)
(** Copying pointers and slices: the code the deep-copy generator emits for a pointer field, for a
    slice of plain values and for a slice of structs, and that each gives a copy in fresh cells. *)

From S2P Require Import Prelude Heap.

Section copy.
Context {cell : Type}.
Implicit Types (h : heap cell) (l : loc) (F G : gset loc).

(** ** The code *)

(** [*out = new(T)], then the pointed-to value of [in] written there by [into]. *)
Definition copyPointer {T} `{Cell cell T} (into : T -> M cell T) (p : option loc) :
    M cell (option loc) :=
  match p with
  | None => mret None
  | Some l =>
      out ← new T;
      x ← (x ← load l; into x);
      store out x ;; mret (Some out)
  end.

(** [*out = make([]T, len( *in)); copy( *out, *in)] *)
Definition copySlice {T} `{Cell cell (list T)} (z : T) (s : option slice) : M cell (option slice) :=
  match s with
  | None => mret None
  | Some s =>
      out ← make z s.(slice_len);
      xs ← readSlice s;
      writeSlice out xs ;; mret (Some out)
  end.

(** [*out = make([]T, len( *in))], then the elements one by one. *)
Definition copyElement {T} `{Cell cell (list T)} (into : T -> M cell T) (s out : slice) (i : nat) :
    M cell unit :=
  x ← index s i;
  x ← into x;
  setIndex out i x.

Definition copyElements {T} `{Cell cell (list T)} (z : T) (into : T -> M cell T) (s : option slice) :
    M cell (option slice) :=
  match s with
  | None => mret None
  | Some s =>
      out ← make z s.(slice_len);
      forRange (copyElement into s out) 0 s.(slice_len) ;;
      mret (Some out)
  end.

(** ** What pointers and slices stand for *)

(** A value without pointers stands for itself. *)
Definition denotes_flat {T} : denotation cell T T := fun _ x v F => x = v /\ F = ∅.

(** A nil pointer and a nil slice are values of their own. *)
Definition denotes_pointer {T V} `{Cell cell T} (D : denotation cell T V) :
    denotation cell (option loc) (option V) := fun h p v F =>
  match p, v with
  | None, None => F = ∅
  | Some l, Some v => exists x G, h !! l = Some (inject x) /\ D h x v G /\ F = {[l]} ∪ G
  | _, _ => False
  end.

Inductive denotes_list {T V} (D : denotation cell T V) (h : heap cell) :
    list T -> list V -> gset loc -> Prop :=
  | denotes_nil : denotes_list D h [] [] ∅
  | denotes_cons x xs v vs F G :
      D h x v F -> denotes_list D h xs vs G -> denotes_list D h (x :: xs) (v :: vs) (F ∪ G).

(** The segment lies within its array. *)
Definition in_range {T} (s : slice) (xs : list T) : Prop := (s.(offset) + s.(slice_len) <= length xs)%nat.

Definition denotes_slice {T V} `{Cell cell (list T)} (D : denotation cell T V) :
    denotation cell (option slice) (option (list V)) := fun h s vs F =>
  match s, vs with
  | None, None => F = ∅
  | Some s, Some vs =>
      exists xs G, h !! s.(array) = Some (inject xs) /\ in_range s xs
        /\ denotes_list D h (elements s xs) vs G /\ F = {[s.(array)]} ∪ G
  | _, _ => False
  end.

(** ** Lemmas: frames *)

#[global] Instance framed_flat {T} : Framed (@denotes_flat T).
Proof. split; [done|]. intros h x v F [_ ->]. set_solver. Qed.

#[global] Instance framed_pointer {T V} `{Cell cell T} (D : denotation cell T V) `{!Framed D} :
  Framed (denotes_pointer D).
Proof.
  split.
  - intros h h' [l|] [v|] F; simpl; try done. intros (x & G & Hl & HD & ->) Ha.
    exists x, G. split_and!; [by rewrite Ha; set_solver| |done].
    eapply framed_agree; [exact HD|]. intros k Hk. apply Ha. set_solver.
  - intros h [l|] [v|] F; simpl; try done; [|set_solver]. intros (x & G & Hl & HD & ->).
    apply framed_dom in HD. apply elem_of_dom_2 in Hl. set_solver.
Qed.

Lemma denotes_list_agree {T V} (D : denotation cell T V) `{!Framed D} h h' xs vs F :
  denotes_list D h xs vs F -> agree F h h' -> denotes_list D h' xs vs F.
Proof.
  induction 1 as [|x xs v vs F G HD _ IH]; intros Ha; constructor.
  - eapply framed_agree; [exact HD|]. intros k Hk. apply Ha. set_solver.
  - apply IH. intros k Hk. apply Ha. set_solver.
Qed.

Lemma denotes_list_dom {T V} (D : denotation cell T V) `{!Framed D} h xs vs F :
  denotes_list D h xs vs F -> F ⊆ dom h.
Proof. induction 1 as [|x xs v vs F G HD%framed_dom _ IH]; set_solver. Qed.

#[global] Instance framed_slice {T V} `{Cell cell (list T)} (D : denotation cell T V) `{!Framed D} :
  Framed (denotes_slice D).
Proof.
  split.
  - intros h h' [s|] [vs|] F; simpl; try done. intros (xs & G & Hl & Hr & HD & ->) Ha.
    exists xs, G. split_and!; [by rewrite Ha; set_solver|done| |done].
    eapply denotes_list_agree; [exact _|exact HD|]. intros k Hk. apply Ha. set_solver.
  - intros h [s|] [vs|] F; simpl; try done; [|set_solver]. intros (xs & G & Hl & _ & HD & ->).
    apply (denotes_list_dom D) in HD. apply elem_of_dom_2 in Hl. set_solver.
Qed.

(** ** Lemmas: lists *)

Lemma elements_length {T} (s : slice) (xs : list T) :
  in_range s xs -> length (elements s xs) = s.(slice_len).
Proof. unfold in_range, elements. rewrite length_take, length_drop. lia. Qed.

Lemma elements_whole {T} l (xs : list T) : elements (mkSlice l 0 (length xs)) xs = xs.
Proof. unfold elements. simpl. by rewrite drop_0, firstn_all. Qed.

Lemma overwrite_whole {T} l n (xs ys : list T) :
  length xs = length ys -> overwrite (mkSlice l 0 n) ys xs = ys.
Proof. intros Hlen. unfold overwrite. simpl. by rewrite <- Hlen, drop_all, app_nil_r. Qed.

Lemma overwrite_elements {T} (s : slice) (xs ys : list T) :
  in_range s xs -> length ys = s.(slice_len) ->
  in_range s (overwrite s ys xs) /\ elements s (overwrite s ys xs) = ys.
Proof.
  unfold in_range, overwrite, elements. intros Hr Hy.
  assert (length (take (offset s) xs) = offset s) as Ht by (rewrite length_take; lia). split.
  - rewrite !length_app, length_drop, Ht. lia.
  - rewrite drop_app_length', take_app_length' by done. done.
Qed.

Lemma denotes_list_snoc {T V} (D : denotation cell T V) h xs vs F x v G :
  denotes_list D h xs vs F -> D h x v G -> denotes_list D h (xs ++ [x]) (vs ++ [v]) (F ∪ G).
Proof.
  induction 1 as [|y xs w vs F1 F2 HD _ IH]; intros Hx; simpl.
  - assert (∅ ∪ G = G ∪ ∅) as -> by set_solver. by repeat constructor.
  - rewrite <- (assoc_L (∪)). constructor; [done|]. by apply IH.
Qed.

Lemma denotes_list_length {T V} (D : denotation cell T V) h xs vs F :
  denotes_list D h xs vs F -> length xs = length vs.
Proof. induction 1; simpl; congruence. Qed.

Lemma denotes_list_lookup {T V} (D : denotation cell T V) h xs vs F i :
  denotes_list D h xs vs F -> (i < length vs)%nat ->
  exists x v G, xs !! i = Some x /\ vs !! i = Some v /\ D h x v G.
Proof.
  intros HD. revert i. induction HD as [|x xs v vs F G HD _ IH]; intros i Hi; simpl in Hi; [lia|].
  destruct i as [|i]; [by exists x, v, F|]. apply IH. lia.
Qed.

Lemma denotes_list_flat {T} h (xs vs : list T) F : denotes_list denotes_flat h xs vs F <-> xs = vs /\ F = ∅.
Proof.
  split.
  - induction 1 as [|x xs v vs F G [-> ->] _ [-> ->]]; [done|]. split; [done|set_solver].
  - intros [-> ->]. induction vs as [|v vs IH]; [constructor|].
    assert (∅ = ∅ ∪ (∅ : gset loc)) as Heq by set_solver. rewrite Heq at 1. by constructor.
Qed.

(** ** The copies *)

Lemma copies_flat {T} : copies mret (@denotes_flat T).
Proof. intros h x v F HD. apply extends_ret. destruct HD as [-> _]. done. Qed.

Lemma copyPointer_copies {T V} `{Cell cell T} (D : denotation cell T V) `{!Framed D} into :
  copies into D -> copies (copyPointer into) (denotes_pointer D).
Proof.
  intros Hcopy h [l|] [v|] F HD; try done; [|by apply extends_ret].
  destruct HD as (x & G & Hl & HD & _). unfold copyPointer, new.
  set (out := fresh (dom h)). assert (h !! out = None) as Hout by apply fresh_dom.
  eapply (extends_fill _ (fun _ => x ← load l; into x) (fun out x => store out x ;; mret (Some out))
            h (fun _ x' h' F' => D h' x' v F')); fold out.
  - assert (extends (into x) (<[out := inject zero]> h) (fun x' h' F' => D h' x' v F')) as He.
    { apply (Hcopy _ x v G). eapply framed_mono; [exact _|exact HD|]. by apply insert_subseteq. }
    destruct He as (x' & h' & F' & Hi & He). exists x', h', F'. split; [|exact He].
    unfold mbind, M_bind. rewrite (load_inject _ _ x); [done|].
    rewrite lookup_insert_ne; [done|]. by intros <-; congruence.
  - intros x' h' F' Hh' HF' HD'. exists (Some out), (inject x').
    assert (h' !! out = Some (inject zero)) as Hz
      by (eapply lookup_weaken; [apply lookup_insert_eq|exact Hh']).
    unfold mbind, M_bind. rewrite (store_some _ _ _ _ Hz). split; [done|].
    exists x', F'. split_and!; [by rewrite lookup_insert_eq| |done].
    eapply framed_agree; [exact HD'|]. intros k Hk. rewrite lookup_insert_ne; [done|]. set_solver.
Qed.

(** The loop over the elements: after [i] of them, [ys] are copied. *)
Lemma copyElement_loop {T V} `{Cell cell (list T)} (D : denotation cell T V) `{!Framed D} z into s out
    h0 xs vs G n h ys vs1 F :
  copies into D -> h0 !! s.(array) = Some (inject xs) -> denotes_list D h0 (elements s xs) vs G ->
  h0 !! out = None -> h0 ⊆ h -> dom h = dom h0 ∪ {[out]} ∪ F -> F ## dom h0 ∪ {[out]} ->
  h !! out = Some (inject (ys ++ replicate n z)) -> denotes_list D h ys vs1 F ->
  (length ys + n = length vs)%nat -> vs1 = take (length ys) vs ->
  exists h' zs F', forRange (copyElement into s (mkSlice out 0 (length vs))) (length ys) n h = Some (tt, h')
    /\ h0 ⊆ h' /\ dom h' = dom h0 ∪ {[out]} ∪ F' /\ F' ## dom h0 ∪ {[out]}
    /\ h' !! out = Some (inject zs) /\ denotes_list D h' zs vs F'.
Proof.
  intros Hinto Hxs HD Hout. revert h ys vs1 F. induction n as [|n IH]; intros h ys vs1 F Hh Hd HF Ho Hys Hn ->.
  - exists h, ys, F. rewrite app_nil_r in Ho. rewrite Nat.add_0_r in Hn. rewrite Hn, firstn_all in Hys. done.
  - destruct (denotes_list_lookup D h0 _ vs G (length ys) HD) as (x & v & Gx & Hx & Hv & HDx); [lia|].
    assert (D h x v Gx) as HDx' by by eapply framed_mono.
    destruct (Hinto h x v Gx HDx') as (x' & h' & F' & Hi & Hh' & Hd' & HF' & HDx'').
    assert (h' !! out = Some (inject (ys ++ replicate (S n) z))) as Ho' by by eapply lookup_weaken.
    set (h'' := <[out := inject ((ys ++ [x']) ++ replicate n z)]> h').
    assert (copyElement into s (mkSlice out 0 (length vs)) (length ys) h = Some (tt, h'')) as Hstep.
    { unfold copyElement, index, mbind, M_bind. rewrite (load_inject _ _ xs) by by eapply lookup_weaken.
      rewrite Hx. simpl. rewrite Hi. unfold setIndex, mbind, M_bind. simpl.
      rewrite (load_inject _ _ _ Ho'), decide_True.
      2:{ rewrite elements_length; unfold in_range; cbn [offset slice_len]; [lia|].
          rewrite length_app, length_replicate. lia. }
      rewrite (store_some _ _ _ _ Ho'). do 3 f_equal. rewrite insert_app_r_alt by lia.
      by rewrite Nat.sub_diag, <- app_assoc. }
    assert (out ∉ F ∪ F') as Hfresh by (apply elem_of_dom_2 in Ho; set_solver).
    destruct (IH h'' (ys ++ [x']) (take (length (ys ++ [x'])) vs) (F ∪ F')) as (h3 & zs & F3 & Hl & H3).
    + apply insert_subseteq_r; [exact Hout|]. by transitivity h.
    + unfold h''. apply elem_of_dom_2 in Ho'. set_solver.
    + set_solver.
    + apply lookup_insert_eq.
    + rewrite length_app. simpl. rewrite Nat.add_1_r, (take_S_r _ _ v) by done.
      eapply denotes_list_agree; [exact _| |].
      * apply denotes_list_snoc; [|exact HDx'']. eapply denotes_list_agree; [exact _|exact Hys|].
        apply agree_subseteq; [set_solver|done].
      * intros k Hk. unfold h''. rewrite lookup_insert_ne; [done|]. set_solver.
    + rewrite length_app. simpl. lia.
    + done.
    + exists h3, zs, F3. split; [|exact H3]. simpl. unfold mbind, M_bind. rewrite Hstep.
      rewrite length_app in Hl. simpl in Hl. by rewrite Nat.add_1_r in Hl.
Qed.

Lemma copySlice_copies {T} `{Cell cell (list T)} (z : T) : copies (copySlice z) (denotes_slice denotes_flat).
Proof.
  intros h [s|] [vs|] F HD; try done; [|by apply extends_ret].
  destruct HD as (xs & G & Hl & Hr & [Hvs HG]%denotes_list_flat & _). unfold copySlice.
  set (n := slice_len s). set (out := fresh (dom h)). assert (h !! out = None) as Hout by apply fresh_dom.
  assert (length vs = n) as Hlen by (rewrite <- Hvs; by apply elements_length).
  eapply (extends_fill (inject (replicate n z)) (fun _ => readSlice s)
            (fun out ys => writeSlice (mkSlice out 0 n) ys ;; mret (Some (mkSlice out 0 n)))
            h (fun _ ys h' F' => ys = vs /\ F' = ∅)); fold out.
  - exists vs, (<[out := inject (replicate n z)]> h), ∅. split_and!; [|done|set_solver|set_solver|done|done].
    unfold readSlice, mbind, M_bind. rewrite (load_inject _ _ xs); [by rewrite Hvs|].
    rewrite lookup_insert_ne; congruence.
  - intros ys h' F' Hh' _ [-> ->]. exists (Some (mkSlice out 0 n)), (inject vs).
    assert (h' !! out = Some (inject (replicate n z))) as Hz
      by (eapply lookup_weaken; [apply lookup_insert_eq|exact Hh']).
    unfold writeSlice, mbind, M_bind. simpl. rewrite (load_inject _ _ _ Hz).
    rewrite (store_some _ _ _ _ Hz), overwrite_whole by by rewrite length_replicate.
    split; [done|]. exists vs, ∅. simpl. unfold in_range. simpl. rewrite lookup_insert_eq, <- Hlen, elements_whole.
    split_and!; [done|lia|by apply denotes_list_flat|done].
Qed.

Lemma copyElements_copies {T V} `{Cell cell (list T)} (D : denotation cell T V) `{!Framed D} z into :
  copies into D -> copies (copyElements z into) (denotes_slice D).
Proof.
  intros Hinto h [s|] [vs|] F HD; try done; [|by apply extends_ret].
  destruct HD as (xs & G & Hl & Hr & HD & _). set (out := fresh (dom h)).
  assert (h !! out = None) as Hout by apply fresh_dom.
  pose proof (denotes_list_length D h _ _ _ HD) as Hlen. rewrite (elements_length s xs Hr) in Hlen.
  set (h1 := <[out := inject (replicate (slice_len s) z)]> h).
  destruct (copyElement_loop D z into s out h xs vs G (slice_len s) h1 [] [] ∅)
    as (h' & zs & F' & Hloop & Hh' & Hd' & HF' & Hz & HDz); try done.
  { by apply insert_subseteq. }
  { unfold h1. set_solver. }
  { apply lookup_insert_eq. }
  { constructor. }
  exists (Some (mkSlice out 0 (slice_len s))), h', ({[out]} ∪ F').
  unfold copyElements, make, mbind, M_bind, alloc. fold out h1. simpl. rewrite <- Hlen in Hloop. simpl in Hloop.
  rewrite Hloop. apply not_elem_of_dom in Hout. split_and!; [done|done|set_solver|set_solver|].
  exists zs, F'. pose proof (denotes_list_length D h' zs vs F' HDz) as Hlen'.
  unfold in_range. simpl. rewrite Hlen, <- Hlen', elements_whole. split_and!; [done|lia|done|done].
Qed.

End copy.
