(* ===== verification/DeepCopy.v ===== *)
(** The generated deep copies of the custom resource, [api/v1alpha1/zz_generated.deepcopy.go], over
    an explicit heap: the structs with their pointers and slices as they lie in memory, one
    [DeepCopyInto] and one [DeepCopy] per type, and that each is a copy in cells of its own. *)

From S2P Require Import Prelude GoTime Types Heap HeapCopy.

Module deepcopy.

(** ** Memory layouts *)

(** The structs of the Kubernetes libraries are theirs: what they look like in memory, their zero
    values, and the cells their own copies allocate. *)
Class Layouts := {
  L_Taint : Type; zero_Taint : L_Taint;
  L_LabelSelector : Type; zero_LabelSelector : L_LabelSelector;
  L_ObjectMeta : Type; zero_ObjectMeta : L_ObjectMeta;
  L_Condition : Type; zero_Condition : L_Condition;
  L_ListMeta : Type; zero_ListMeta : L_ListMeta;
  ListMeta : Type;
  L_cell : Type;
}.

Section layouts.
Context `{Y : Layouts}.

(** [ConditionMatch] has no pointer, so it is its own layout. *)
Record Debounce := mkDebounce { Enter : option loc; Exit : option loc }.
Record Guard := mkGuard { MaxAffectedPercent : option loc }.
Record Remediations := mkRemediations { Taint : option loc }.

Record Spec := mkSpec {
  NodeSelector : option loc;
  Condition : v1alpha1.ConditionMatch;
  Spec_Remediations : Remediations;
  Spec_Debounce : Debounce;
  Spec_Guard : Guard;
}.

Record Status := mkStatus {
  SelectedNodes : option slice;
  MatchedNodes : option slice;
  PendingNodes : option slice;
  UnknownNodes : option slice;
  HeldNodes : option slice;
  RemediatedNodes : option slice;
  SelectedCount : Z;
  MatchedCount : Z;
  PendingCount : Z;
  UnknownCount : Z;
  HeldCount : Z;
  RemediatedCount : Z;
  Conditions : option slice;
}.

(** [TypeMeta] is two strings, the kind and the API version. *)
Record Policy := mkPolicy {
  TypeMeta : string * string;
  ObjectMeta : L_ObjectMeta;
  Policy_Spec : Spec;
  Policy_Status : Status;
}.

Record PolicyList := mkPolicyList {
  List_TypeMeta : string * string;
  List_ListMeta : L_ListMeta;
  Items : option slice;
}.

Inductive cell :=
  | CDuration (d : time.Duration)
  | CInt32 (n : Z)
  | CTaint (t : L_Taint)
  | CLabelSelector (s : L_LabelSelector)
  | CStrings (l : list string)
  | CConditions (l : list L_Condition)
  | CPolicies (l : list Policy)
  | CConditionMatch (c : v1alpha1.ConditionMatch)
  | CDebounce (d : Debounce)
  | CGuard (g : Guard)
  | CRemediations (r : Remediations)
  | CSpec (s : Spec)
  | CStatus (s : Status)
  | CPolicy (p : Policy)
  | CPolicyList (l : PolicyList)
  | CLibrary (c : L_cell).

Definition zero_Spec : Spec :=
  mkSpec None (v1alpha1.mkConditionMatch EmptyString EmptyString) (mkRemediations None)
    (mkDebounce None None) (mkGuard None).
Definition zero_Status : Status := mkStatus None None None None None None 0 0 0 0 0 0 None.
Definition zero_Policy : Policy :=
  mkPolicy (EmptyString, EmptyString) zero_ObjectMeta zero_Spec zero_Status.

#[global] Instance cell_int32 : Cell cell Z :=
  {| inject := CInt32; project c := match c with CInt32 x => Some x | _ => None end; zero := 0;
     project_inject _ := eq_refl |}.
#[global] Instance cell_taint : Cell cell L_Taint :=
  {| inject := CTaint; project c := match c with CTaint x => Some x | _ => None end;
     zero := zero_Taint; project_inject _ := eq_refl |}.
#[global] Instance cell_selector : Cell cell L_LabelSelector :=
  {| inject := CLabelSelector; project c := match c with CLabelSelector x => Some x | _ => None end;
     zero := zero_LabelSelector; project_inject _ := eq_refl |}.
#[global] Instance cell_strings : Cell cell (list string) :=
  {| inject := CStrings; project c := match c with CStrings x => Some x | _ => None end; zero := [];
     project_inject _ := eq_refl |}.
#[global] Instance cell_conditions : Cell cell (list L_Condition) :=
  {| inject := CConditions; project c := match c with CConditions x => Some x | _ => None end;
     zero := []; project_inject _ := eq_refl |}.
#[global] Instance cell_policies : Cell cell (list Policy) :=
  {| inject := CPolicies; project c := match c with CPolicies x => Some x | _ => None end; zero := [];
     project_inject _ := eq_refl |}.
#[global] Instance cell_condition_match : Cell cell v1alpha1.ConditionMatch :=
  {| inject := CConditionMatch; project c := match c with CConditionMatch x => Some x | _ => None end;
     zero := v1alpha1.mkConditionMatch EmptyString EmptyString; project_inject _ := eq_refl |}.
#[global] Instance cell_debounce : Cell cell Debounce :=
  {| inject := CDebounce; project c := match c with CDebounce x => Some x | _ => None end;
     zero := mkDebounce None None; project_inject _ := eq_refl |}.
#[global] Instance cell_guard : Cell cell Guard :=
  {| inject := CGuard; project c := match c with CGuard x => Some x | _ => None end;
     zero := mkGuard None; project_inject _ := eq_refl |}.
#[global] Instance cell_remediations : Cell cell Remediations :=
  {| inject := CRemediations; project c := match c with CRemediations x => Some x | _ => None end;
     zero := mkRemediations None; project_inject _ := eq_refl |}.
#[global] Instance cell_spec : Cell cell Spec :=
  {| inject := CSpec; project c := match c with CSpec x => Some x | _ => None end; zero := zero_Spec;
     project_inject _ := eq_refl |}.
#[global] Instance cell_status : Cell cell Status :=
  {| inject := CStatus; project c := match c with CStatus x => Some x | _ => None end;
     zero := zero_Status; project_inject _ := eq_refl |}.
#[global] Instance cell_policy : Cell cell Policy :=
  {| inject := CPolicy; project c := match c with CPolicy x => Some x | _ => None end;
     zero := zero_Policy; project_inject _ := eq_refl |}.
#[global] Instance cell_policy_list : Cell cell PolicyList :=
  {| inject := CPolicyList; project c := match c with CPolicyList x => Some x | _ => None end;
     zero := mkPolicyList (EmptyString, EmptyString) zero_ListMeta None; project_inject _ := eq_refl |}.

(** A [metav1.Duration] has a cell of its own kind. *)
Definition cell_duration : Cell cell time.Duration :=
  {| inject := CDuration; project c := match c with CDuration x => Some x | _ => None end; zero := 0;
     project_inject _ := eq_refl |}.

End layouts.
Arguments cell {Y}.
Arguments Policy {Y}.
Arguments PolicyList {Y}.

(** ** The interface of a copyable type *)

(** A layout [T] of the values [V]: its [DeepCopyInto], as the value left in [*out], and what it
    stands for. *)
Class DeepCopyable `{Y : Layouts} (T V : Type) := {
  DeepCopyInto : T -> M cell T;
  denotes : denotation cell T V;
}.

(** "DeepCopyInto copies the receiver, writing into out." *)
Class DeepCopyableLaws `{Y : Layouts} (T V : Type) `{D : !DeepCopyable T V} : Prop := {
  denotes_framed :: Framed (denotes (T := T) (V := V));
  DeepCopyInto_copies : copies DeepCopyInto (denotes (T := T) (V := V));
}.

(** The library's types, by the same interface. *)
Class Library `{Y : Layouts} := {
  lib_Taint :: DeepCopyable L_Taint corev1.Taint;
  lib_LabelSelector :: DeepCopyable L_LabelSelector metav1.LabelSelector;
  lib_ObjectMeta :: DeepCopyable L_ObjectMeta metav1.ObjectMeta;
  lib_Condition :: DeepCopyable L_Condition metav1.Condition;
  lib_ListMeta :: DeepCopyable L_ListMeta ListMeta;
}.

Class LibraryLaws `{B : Library} : Prop := {
  law_Taint :: DeepCopyableLaws L_Taint corev1.Taint;
  law_LabelSelector :: DeepCopyableLaws L_LabelSelector metav1.LabelSelector;
  law_ObjectMeta :: DeepCopyableLaws L_ObjectMeta metav1.ObjectMeta;
  law_Condition :: DeepCopyableLaws L_Condition metav1.Condition;
  law_ListMeta :: DeepCopyableLaws L_ListMeta ListMeta;
}.

(** ** The copies *)
Section copies.
Context `{B : Library}.

Definition ConditionMatch_DeepCopyInto (inn : v1alpha1.ConditionMatch) :
    M cell v1alpha1.ConditionMatch :=
  mret inn.

Definition Debounce_DeepCopyInto (inn : Debounce) : M cell Debounce :=
  enter ← @copyPointer _ _ cell_duration mret inn.(Enter);
  exit ← @copyPointer _ _ cell_duration mret inn.(Exit);
  mret (mkDebounce enter exit).

Definition Guard_DeepCopyInto (inn : Guard) : M cell Guard :=
  percent ← copyPointer (T := Z) mret inn.(MaxAffectedPercent);
  mret (mkGuard percent).

Definition Remediations_DeepCopyInto (inn : Remediations) : M cell Remediations :=
  taint ← copyPointer (DeepCopyInto (T := L_Taint)) inn.(Taint);
  mret (mkRemediations taint).

Definition Spec_DeepCopyInto (inn : Spec) : M cell Spec :=
  selector ← copyPointer (DeepCopyInto (T := L_LabelSelector)) inn.(NodeSelector);
  remediations ← Remediations_DeepCopyInto inn.(Spec_Remediations);
  debounce ← Debounce_DeepCopyInto inn.(Spec_Debounce);
  guard ← Guard_DeepCopyInto inn.(Spec_Guard);
  mret (mkSpec selector inn.(Condition) remediations debounce guard).

Definition Status_DeepCopyInto (inn : Status) : M cell Status :=
  selected ← copySlice EmptyString inn.(SelectedNodes);
  matched ← copySlice EmptyString inn.(MatchedNodes);
  pending ← copySlice EmptyString inn.(PendingNodes);
  unknown ← copySlice EmptyString inn.(UnknownNodes);
  held ← copySlice EmptyString inn.(HeldNodes);
  remediated ← copySlice EmptyString inn.(RemediatedNodes);
  conditions ← copyElements zero_Condition DeepCopyInto inn.(Conditions);
  mret (mkStatus selected matched pending unknown held remediated inn.(SelectedCount)
          inn.(MatchedCount) inn.(PendingCount) inn.(UnknownCount) inn.(HeldCount)
          inn.(RemediatedCount) conditions).

Definition Policy_DeepCopyInto (inn : Policy) : M cell Policy :=
  meta ← DeepCopyInto (T := L_ObjectMeta) inn.(ObjectMeta);
  spec ← Spec_DeepCopyInto inn.(Policy_Spec);
  status ← Status_DeepCopyInto inn.(Policy_Status);
  mret (mkPolicy inn.(TypeMeta) meta spec status).

Definition PolicyList_DeepCopyInto (inn : PolicyList) : M cell PolicyList :=
  meta ← DeepCopyInto (T := L_ListMeta) inn.(List_ListMeta);
  items ← copyElements zero_Policy Policy_DeepCopyInto inn.(Items);
  mret (mkPolicyList inn.(List_TypeMeta) meta items).

(** [DeepCopy]: nil for nil, else a new struct filled by [DeepCopyInto]. *)
Definition ConditionMatch_DeepCopy : option loc -> M cell (option loc) :=
  copyPointer ConditionMatch_DeepCopyInto.
Definition Debounce_DeepCopy : option loc -> M cell (option loc) := copyPointer Debounce_DeepCopyInto.
Definition Guard_DeepCopy : option loc -> M cell (option loc) := copyPointer Guard_DeepCopyInto.
Definition Remediations_DeepCopy : option loc -> M cell (option loc) :=
  copyPointer Remediations_DeepCopyInto.
Definition Spec_DeepCopy : option loc -> M cell (option loc) := copyPointer Spec_DeepCopyInto.
Definition Status_DeepCopy : option loc -> M cell (option loc) := copyPointer Status_DeepCopyInto.
Definition Policy_DeepCopy : option loc -> M cell (option loc) := copyPointer Policy_DeepCopyInto.
Definition PolicyList_DeepCopy : option loc -> M cell (option loc) := copyPointer PolicyList_DeepCopyInto.

(** [runtime.Object] is an interface: nil, or a pointer that may itself be nil.  The test before
    [return c] keeps the latter from happening. *)
Definition DeepCopyObject (deepCopy : option loc -> M cell (option loc)) (inn : option loc) :
    M cell (option (option loc)) :=
  c ← deepCopy inn;
  match c with Some c => mret (Some (Some c)) | None => mret None end.

Definition Policy_DeepCopyObject := DeepCopyObject Policy_DeepCopy.
Definition PolicyList_DeepCopyObject := DeepCopyObject PolicyList_DeepCopy.

End copies.
End deepcopy.
