(* ===== verification/DeepCopyProps.v ===== *)
(** What the custom resource's structs in memory stand for, and that each [DeepCopyInto] copies: every
    type of the API package is an instance of the interface its fields are used through. *)

From S2P Require Import Prelude GoTime Types Heap HeapCopy DeepCopy.
Import deepcopy.

(** ** Values that keep nil apart from empty *)

Record goStatus := mkGoStatus {
  goSelectedNodes : option (list string);
  goMatchedNodes : option (list string);
  goPendingNodes : option (list string);
  goUnknownNodes : option (list string);
  goHeldNodes : option (list string);
  goRemediatedNodes : option (list string);
  goCounts : Z * Z * Z * Z * Z * Z;
  goConditions : option (list metav1.Condition);
}.

Record goPolicy := mkGoPolicy {
  goTypeMeta : string * string;
  goObjectMeta : metav1.ObjectMeta;
  goSpec : v1alpha1.NodeRemediationPolicySpec;
  goStatus_of : goStatus;
}.

(** The same to the rest of the development, where nil and empty are one. *)
Definition status_value (s : goStatus) : v1alpha1.NodeRemediationPolicyStatus :=
  let '(selected, matched, pending, unknown, held, remediated) := s.(goCounts) in
  v1alpha1.mkNodeRemediationPolicyStatus
    (default [] s.(goSelectedNodes)) (default [] s.(goMatchedNodes)) (default [] s.(goPendingNodes))
    (default [] s.(goUnknownNodes)) (default [] s.(goHeldNodes)) (default [] s.(goRemediatedNodes))
    selected matched pending unknown held remediated (default [] s.(goConditions)).

Definition policy_value (p : goPolicy) : v1alpha1.NodeRemediationPolicy :=
  v1alpha1.mkNodeRemediationPolicy p.(goObjectMeta) p.(goSpec) (status_value p.(goStatus_of)).

Section denotations.
Context `{B : Library}.

Definition denotes_Debounce : denotation cell Debounce v1alpha1.Debounce := fun h x v F =>
  exists F1 F2,
    @denotes_pointer _ _ _ cell_duration denotes_flat h x.(Enter) v.(v1alpha1.Debounce_Enter) F1
    /\ @denotes_pointer _ _ _ cell_duration denotes_flat h x.(Exit) v.(v1alpha1.Debounce_Exit) F2
    /\ F = F1 ∪ F2.

Definition denotes_Guard : denotation cell Guard v1alpha1.Guard := fun h x v F =>
  denotes_pointer (T := Z) denotes_flat h x.(MaxAffectedPercent) v.(v1alpha1.Guard_MaxAffectedPercent) F.

Definition denotes_Remediations : denotation cell Remediations v1alpha1.Remediations := fun h x v F =>
  denotes_pointer (T := L_Taint) denotes h x.(Taint) v.(v1alpha1.Remediations_Taint) F.

Definition denotes_Spec : denotation cell Spec v1alpha1.NodeRemediationPolicySpec := fun h x v F =>
  exists F1 F2 F3 F4,
    denotes_pointer (T := L_LabelSelector) denotes h x.(NodeSelector) v.(v1alpha1.Spec_NodeSelector) F1
    /\ x.(Condition) = v.(v1alpha1.Spec_Condition)
    /\ denotes_Remediations h x.(Spec_Remediations) v.(v1alpha1.Spec_Remediations) F2
    /\ denotes_Debounce h x.(Spec_Debounce) v.(v1alpha1.Spec_Debounce) F3
    /\ denotes_Guard h x.(Spec_Guard) v.(v1alpha1.Spec_Guard) F4
    /\ F = F1 ∪ (F2 ∪ (F3 ∪ F4)).

Definition denotes_strings : denotation cell (option slice) (option (list string)) :=
  denotes_slice denotes_flat.

Definition counts_of (x : Status) : Z * Z * Z * Z * Z * Z :=
  (x.(SelectedCount), x.(MatchedCount), x.(PendingCount), x.(UnknownCount), x.(HeldCount),
   x.(RemediatedCount)).

Definition denotes_Status : denotation cell Status goStatus := fun h x v F =>
  exists F1 F2 F3 F4 F5 F6 F7,
    denotes_strings h x.(SelectedNodes) v.(goSelectedNodes) F1
    /\ denotes_strings h x.(MatchedNodes) v.(goMatchedNodes) F2
    /\ denotes_strings h x.(PendingNodes) v.(goPendingNodes) F3
    /\ denotes_strings h x.(UnknownNodes) v.(goUnknownNodes) F4
    /\ denotes_strings h x.(HeldNodes) v.(goHeldNodes) F5
    /\ denotes_strings h x.(RemediatedNodes) v.(goRemediatedNodes) F6
    /\ denotes_slice (T := L_Condition) denotes h x.(Conditions) v.(goConditions) F7
    /\ counts_of x = v.(goCounts)
    /\ F = F1 ∪ (F2 ∪ (F3 ∪ (F4 ∪ (F5 ∪ (F6 ∪ F7))))).

Definition denotes_Policy : denotation cell Policy goPolicy := fun h x v F =>
  exists F1 F2 F3,
    denotes (T := L_ObjectMeta) h x.(ObjectMeta) v.(goObjectMeta) F1
    /\ denotes_Spec h x.(Policy_Spec) v.(goSpec) F2
    /\ denotes_Status h x.(Policy_Status) v.(goStatus_of) F3
    /\ x.(TypeMeta) = v.(goTypeMeta)
    /\ F = F1 ∪ (F2 ∪ F3).

Definition denotes_PolicyList :
    denotation cell PolicyList ((string * string) * ListMeta * option (list goPolicy)) := fun h x v F =>
  exists F1 F2,
    denotes (T := L_ListMeta) h x.(List_ListMeta) v.1.2 F1
    /\ denotes_slice denotes_Policy h x.(Items) v.2 F2
    /\ x.(List_TypeMeta) = v.1.1
    /\ F = F1 ∪ F2.

(** ** The instances *)

#[global] Instance copyable_ConditionMatch :
    DeepCopyable v1alpha1.ConditionMatch v1alpha1.ConditionMatch :=
  {| DeepCopyInto := ConditionMatch_DeepCopyInto; denotes := denotes_flat |}.
#[global] Instance copyable_Debounce : DeepCopyable Debounce v1alpha1.Debounce :=
  {| DeepCopyInto := Debounce_DeepCopyInto; denotes := denotes_Debounce |}.
#[global] Instance copyable_Guard : DeepCopyable Guard v1alpha1.Guard :=
  {| DeepCopyInto := Guard_DeepCopyInto; denotes := denotes_Guard |}.
#[global] Instance copyable_Remediations : DeepCopyable Remediations v1alpha1.Remediations :=
  {| DeepCopyInto := Remediations_DeepCopyInto; denotes := denotes_Remediations |}.
#[global] Instance copyable_Spec : DeepCopyable Spec v1alpha1.NodeRemediationPolicySpec :=
  {| DeepCopyInto := Spec_DeepCopyInto; denotes := denotes_Spec |}.
#[global] Instance copyable_Status : DeepCopyable Status goStatus :=
  {| DeepCopyInto := Status_DeepCopyInto; denotes := denotes_Status |}.
#[global] Instance copyable_Policy : DeepCopyable Policy goPolicy :=
  {| DeepCopyInto := Policy_DeepCopyInto; denotes := denotes_Policy |}.
#[global] Instance copyable_PolicyList :
    DeepCopyable PolicyList ((string * string) * ListMeta * option (list goPolicy)) :=
  {| DeepCopyInto := PolicyList_DeepCopyInto; denotes := denotes_PolicyList |}.

(** ** The laws *)

Context `{BL : !LibraryLaws}.
Implicit Types (h : heap cell).

(** A struct is framed when its fields are. *)
Ltac frame_field Ha :=
  match goal with
  | H : _ ?h ?x ?v ?G |- _ ?h' ?x ?v ?G =>
      eapply framed_agree; [exact H|]; intros k Hk; apply Ha; set_solver
  end.
Ltac split_denotation D HD :=
  unfold D in HD;
  repeat match goal with
  | H : ex _ |- _ => destruct H
  | H : _ /\ _ |- _ => destruct H
  end; subst.
Ltac frame_struct D :=
  split;
  [ intros h h' x v F HD Ha; split_denotation D HD; unfold D;
    repeat match goal with |- ex _ => eexists end; split_and!; try reflexivity; try done; frame_field Ha
  | intros h x v F HD; split_denotation D HD;
    repeat match goal with H : _ h _ _ _ |- _ => apply framed_dom in H end; set_solver ].

#[global] Instance framed_Debounce : Framed denotes_Debounce.
Proof. pose proof (@framed_pointer cell _ _ cell_duration denotes_flat _). frame_struct denotes_Debounce. Qed.
#[global] Instance framed_Guard : Framed denotes_Guard.
Proof. split; intros *; unfold denotes_Guard; [apply framed_agree|apply framed_dom]. Qed.
#[global] Instance framed_Remediations : Framed denotes_Remediations.
Proof. split; intros *; unfold denotes_Remediations; [apply framed_agree|apply framed_dom]. Qed.
#[global] Instance framed_Spec : Framed denotes_Spec.
Proof. frame_struct denotes_Spec. Qed.
#[global] Instance framed_strings : Framed denotes_strings.
Proof. apply framed_slice, framed_flat. Qed.
#[global] Instance framed_Status : Framed denotes_Status.
Proof. frame_struct denotes_Status. Qed.
#[global] Instance framed_Policy : Framed denotes_Policy.
Proof. frame_struct denotes_Policy. Qed.
#[global] Instance framed_PolicyList : Framed denotes_PolicyList.
Proof. frame_struct denotes_PolicyList. Qed.

(** ** The copies *)

(** Heaps only grow along a copy. *)
Ltac grown :=
  first [ eassumption | reflexivity
        | match goal with
          | H : ?h ⊆ _ |- ?h ⊆ _ => etransitivity; [exact H|]; clear H; grown
          end ].

(** A field's value as it was found, in the heap reached. *)
Ltac found :=
  match goal with
  | H : _ ?h ?x _ _ |- _ ?h' ?x _ _ => first [ exact H | eapply framed_mono; [exact _|exact H|grown] ]
  end.

(** Copy one field by its lemma; the struct once all are copied. *)
Ltac copy_field L :=
  eapply extends_bind; [eapply copies_field; [apply L|found]|intros ? ? ? ? ? ?; cbv beta in *].
Ltac copied D :=
  apply extends_ret; rewrite union_empty_r_L; unfold D;
  repeat match goal with |- ex _ => eexists end; simpl;
  split_and!; try reflexivity; try done; try found; set_solver.

Lemma copies_duration :
  copies (@copyPointer _ _ cell_duration mret) (@denotes_pointer cell _ _ cell_duration denotes_flat).
Proof. apply copyPointer_copies, copies_flat. exact _. Qed.

Lemma Debounce_copies : copies Debounce_DeepCopyInto denotes_Debounce.
Proof.
  intros h x v F (F1 & F2 & H1 & H2 & _).
  pose proof (@framed_pointer cell _ _ cell_duration denotes_flat _).
  copy_field copies_duration. copy_field copies_duration.
  copied denotes_Debounce.
Qed.

Lemma Guard_copies : copies Guard_DeepCopyInto denotes_Guard.
Proof.
  intros h x v F HD. unfold denotes_Guard in HD.
  copy_field (copyPointer_copies (T := Z) denotes_flat mret copies_flat).
  apply extends_ret. by rewrite union_empty_r_L.
Qed.

Lemma Remediations_copies : copies Remediations_DeepCopyInto denotes_Remediations.
Proof.
  intros h x v F HD. unfold denotes_Remediations in HD.
  copy_field (copyPointer_copies (T := L_Taint) denotes _ DeepCopyInto_copies).
  apply extends_ret. by rewrite union_empty_r_L.
Qed.

Lemma Spec_copies : copies Spec_DeepCopyInto denotes_Spec.
Proof.
  intros h x v F (F1 & F2 & F3 & F4 & H1 & Hc & H2 & H3 & H4 & _).
  copy_field (copyPointer_copies (T := L_LabelSelector) denotes _ DeepCopyInto_copies).
  copy_field Remediations_copies. copy_field Debounce_copies. copy_field Guard_copies.
  copied denotes_Spec.
Qed.

Lemma strings_copies : copies (copySlice EmptyString) denotes_strings.
Proof. apply copySlice_copies. Qed.

Lemma Status_copies : copies Status_DeepCopyInto denotes_Status.
Proof.
  intros h x v F (F1 & F2 & F3 & F4 & F5 & F6 & F7 & H1 & H2 & H3 & H4 & H5 & H6 & H7 & Hn & _).
  do 6 copy_field strings_copies.
  copy_field (copyElements_copies (T := L_Condition) denotes zero_Condition _ DeepCopyInto_copies).
  copied denotes_Status.
Qed.

Lemma Policy_copies : copies Policy_DeepCopyInto denotes_Policy.
Proof.
  intros h x v F (F1 & F2 & F3 & H1 & H2 & H3 & Ht & _).
  copy_field (DeepCopyInto_copies (T := L_ObjectMeta)). copy_field Spec_copies.
  copy_field Status_copies. copied denotes_Policy.
Qed.

Lemma PolicyList_copies : copies PolicyList_DeepCopyInto denotes_PolicyList.
Proof.
  intros h x v F (F1 & F2 & H1 & H2 & Ht & _).
  copy_field (DeepCopyInto_copies (T := L_ListMeta)).
  copy_field (copyElements_copies denotes_Policy zero_Policy _ Policy_copies).
  copied denotes_PolicyList.
Qed.

(** ** Every type implements the interface *)

#[global] Instance laws_ConditionMatch :
  DeepCopyableLaws v1alpha1.ConditionMatch v1alpha1.ConditionMatch.
Proof. split; [exact framed_flat|exact copies_flat]. Qed.
#[global] Instance laws_Debounce : DeepCopyableLaws Debounce v1alpha1.Debounce.
Proof. split; [exact framed_Debounce|exact Debounce_copies]. Qed.
#[global] Instance laws_Guard : DeepCopyableLaws Guard v1alpha1.Guard.
Proof. split; [exact framed_Guard|exact Guard_copies]. Qed.
#[global] Instance laws_Remediations : DeepCopyableLaws Remediations v1alpha1.Remediations.
Proof. split; [exact framed_Remediations|exact Remediations_copies]. Qed.
#[global] Instance laws_Spec : DeepCopyableLaws Spec v1alpha1.NodeRemediationPolicySpec.
Proof. split; [exact framed_Spec|exact Spec_copies]. Qed.
#[global] Instance laws_Status : DeepCopyableLaws Status goStatus.
Proof. split; [exact framed_Status|exact Status_copies]. Qed.
#[global] Instance laws_Policy : DeepCopyableLaws Policy goPolicy.
Proof. split; [exact framed_Policy|exact Policy_copies]. Qed.
#[global] Instance laws_PolicyList :
  DeepCopyableLaws PolicyList ((string * string) * ListMeta * option (list goPolicy)).
Proof. split; [exact framed_PolicyList|exact PolicyList_copies]. Qed.

End denotations.
