(* ===== verification/DeepCopyFixtures.v ===== *)
(** A concrete library for the deep copies: a taint whose timestamp is behind a pointer, as the
    Kubernetes one has it, and the other structs laid out as the values they stand for; a policy
    and a list in memory. *)

From S2P Require Import Prelude GoTime Types Heap HeapCopy DeepCopy DeepCopyProps.
Import deepcopy.

Module heap_example.

Record MemTaint := mkMemTaint {
  Mem_Key : string; Mem_Value : string; Mem_Effect : string; Mem_TimeAdded : option loc }.

#[global] Instance layouts : Layouts := {|
  L_Taint := MemTaint; zero_Taint := mkMemTaint "" "" "" None;
  L_LabelSelector := metav1.LabelSelector; zero_LabelSelector := metav1.mkLabelSelector ∅ [];
  L_ObjectMeta := metav1.ObjectMeta; zero_ObjectMeta := metav1.mkObjectMeta "" "" 0 None [];
  L_Condition := metav1.Condition;
  zero_Condition := metav1.mkCondition "" "" 0 time.zero "" "";
  L_ListMeta := string; zero_ListMeta := ""%string; ListMeta := string;
  L_cell := time.Time;
|}.

Definition cell_time : Cell cell time.Time :=
  {| inject := CLibrary; project c := match c with CLibrary x => Some x | _ => None end;
     zero := time.zero; project_inject _ := eq_refl |}.

Definition Taint_DeepCopyInto (t : MemTaint) : M cell MemTaint :=
  added ← @copyPointer _ _ cell_time mret t.(Mem_TimeAdded);
  mret (mkMemTaint t.(Mem_Key) t.(Mem_Value) t.(Mem_Effect) added).

Definition denotes_Taint : denotation cell MemTaint corev1.Taint := fun h x v F =>
  x.(Mem_Key) = v.(corev1.Taint_Key) /\ x.(Mem_Value) = v.(corev1.Taint_Value)
  /\ x.(Mem_Effect) = v.(corev1.Taint_Effect)
  /\ @denotes_pointer _ _ _ cell_time denotes_flat h x.(Mem_TimeAdded) v.(corev1.Taint_TimeAdded) F.

#[global] Instance library : Library := {|
  lib_Taint := {| DeepCopyInto := Taint_DeepCopyInto; denotes := denotes_Taint |};
  lib_LabelSelector := {| DeepCopyInto := mret; denotes := denotes_flat |};
  lib_ObjectMeta := {| DeepCopyInto := mret; denotes := denotes_flat |};
  lib_Condition := {| DeepCopyInto := mret; denotes := denotes_flat |};
  lib_ListMeta := {| DeepCopyInto := mret; denotes := denotes_flat |};
|}.

#[global] Instance framed_Taint : Framed denotes_Taint.
Proof.
  pose proof (@framed_pointer cell _ _ cell_time denotes_flat _) as [Hagree Hdom]. split.
  - intros h h' x v F (? & ? & ? & H) Ha. split_and!; try done. by eapply Hagree.
  - intros h x v F (_ & _ & _ & H). by eapply Hdom.
Qed.

Lemma Taint_copies : copies Taint_DeepCopyInto denotes_Taint.
Proof.
  intros h x v F (? & ? & ? & H). eapply extends_bind.
  - eapply (@copyPointer_copies cell _ _ cell_time denotes_flat _ mret); [apply copies_flat|exact H].
  - intros added h' G _ _ HD. apply extends_ret. rewrite union_empty_r_L. done.
Qed.

#[global] Instance library_laws : LibraryLaws.
Proof.
  assert (forall T (D : DeepCopyable T T), D = {| DeepCopyInto := mret; denotes := denotes_flat |} ->
    DeepCopyableLaws T T) as Hflat.
  { intros T D ->. split; [exact framed_flat|exact copies_flat]. }
  split; [split; [exact framed_Taint|exact Taint_copies]|by apply Hflat..].
Qed.

(** ** A policy with a pointer or a slice in every place *)

Definition taint_time : time.Time := 7.

Definition taint_in_memory : MemTaint :=
  mkMemTaint "warden.scality.com/disk" "failing" "NoSchedule" (Some 2%positive).

Definition spec_in_memory : Spec :=
  mkSpec None (v1alpha1.mkConditionMatch "DiskFailing" "True") (mkRemediations (Some 3%positive))
    (mkDebounce (Some 4%positive) None) (mkGuard (Some 5%positive)).

Definition status_in_memory : Status :=
  mkStatus (Some (mkSlice 6%positive 0 2)) None None None (Some (mkSlice 6%positive 1 1)) None 2 0 0 0 1 0
    (Some (mkSlice 7%positive 0 0)).

Definition meta : metav1.ObjectMeta := metav1.mkObjectMeta "disk" "1" 3 None [].

Definition policy_in_memory : Policy :=
  mkPolicy ("NodeRemediationPolicy", "warden.scality.com/v1alpha1") meta spec_in_memory status_in_memory.

Definition heap_of_policy : heap cell :=
  <[1%positive := CPolicy policy_in_memory]>
  (<[2%positive := CLibrary taint_time]>
  (<[3%positive := CTaint taint_in_memory]>
  (<[4%positive := CDuration 5]>
  (<[5%positive := CInt32 20]>
  (<[6%positive := CStrings ["a"; "b"]%string]>
  (<[7%positive := CConditions []]>
  (<[8%positive := CPolicies [policy_in_memory]]>
  (<[9%positive := CPolicyList
       (mkPolicyList ("NodeRemediationPolicyList", "warden.scality.com/v1alpha1") "list"
          (Some (mkSlice 8%positive 0 1)))]> ∅)))))))).

Definition policy_in_values : goPolicy :=
  mkGoPolicy ("NodeRemediationPolicy", "warden.scality.com/v1alpha1") meta
    (v1alpha1.mkNodeRemediationPolicySpec None (v1alpha1.mkConditionMatch "DiskFailing" "True")
       (v1alpha1.mkRemediations
          (Some (corev1.mkTaint "warden.scality.com/disk" "failing" "NoSchedule" (Some taint_time))))
       (v1alpha1.mkDebounce (Some 5) None) (v1alpha1.mkGuard (Some 20)))
    (mkGoStatus (Some ["a"; "b"]%string) None None None (Some ["b"]%string) None (2, 0, 0, 0, 1, 0)
       (Some [])).

(** ** What they stand for *)

Lemma denotes_spec_example :
  denotes_Spec heap_of_policy spec_in_memory policy_in_values.(goSpec) {[2; 3; 4; 5]}%positive.
Proof.
  exists ∅, ({[3%positive]} ∪ ({[2%positive]} ∪ ∅)), (({[4%positive]} ∪ ∅) ∪ ∅), ({[5%positive]} ∪ ∅).
  split; [reflexivity|]. split; [reflexivity|]. split_and!; [| | |set_solver].
  - exists taint_in_memory, ({[2%positive]} ∪ ∅). split; [reflexivity|]. split; [|reflexivity].
    split_and!; [reflexivity..|]. exists taint_time, ∅. by split_and!.
  - eexists _, _. split_and!; [|reflexivity|reflexivity].
    exists 5, ∅. split_and!; [reflexivity|by split|reflexivity].
  - exists 20, ∅. split_and!; [reflexivity|by split|reflexivity].
Qed.

Lemma denotes_status_example : exists F,
  denotes_Status heap_of_policy status_in_memory policy_in_values.(goStatus_of) F.
Proof.
  assert (forall s vs, s = mkSlice 6%positive 0 2 /\ vs = ["a"; "b"]%string
      \/ s = mkSlice 6%positive 1 1 /\ vs = ["b"]%string ->
    denotes_strings heap_of_policy (Some s) (Some vs) ({[6%positive]} ∪ ∅)) as Hs.
  { intros s vs Hs. exists ["a"; "b"]%string, ∅.
    destruct Hs as [[-> ->]|[-> ->]]; (split_and!; [reflexivity|unfold in_range; simpl; lia| |reflexivity]);
      by apply denotes_list_flat. }
  exists (({[6%positive]} ∪ ∅) ∪ (∅ ∪ (∅ ∪ (∅ ∪ (({[6%positive]} ∪ ∅) ∪ (∅ ∪ ({[7%positive]} ∪ ∅))))))).
  do 7 eexists. split_and!; [apply Hs; by left|reflexivity..|apply Hs; by right|reflexivity| |reflexivity|reflexivity].
  exists [], ∅. split_and!; [reflexivity|unfold in_range; simpl; lia|constructor|reflexivity].
Qed.

Lemma denotes_policy_example : exists F,
  denotes_Policy heap_of_policy policy_in_memory policy_in_values F.
Proof.
  destruct denotes_status_example as [F3 H3].
  eexists _, ∅, _, F3. split_and!; [by split|exact denotes_spec_example|exact H3|reflexivity|reflexivity].
Qed.

End heap_example.
