(* ===== verification/DeepCopyTheorems.v ===== *)
(** The theorems about the generated deep copies: a copy stands for the same value, and from then on
    neither is seen in the other. *)

From S2P Require Import Prelude GoTime Types Heap HeapCopy DeepCopy DeepCopyProps DeepCopyFixtures.
Import deepcopy.

Section theorems.
Context `{BL : LibraryLaws}.
Implicit Types (h : heap cell) (F : gset loc).

(** What a copy of [p] into [p'] must give, whatever is written to the heap later: each of the two
    is read at addresses of its own. *)
Definition isolated {T V} (D : denotation cell T V) (p p' : T) (v : V) (h h' : heap cell) F : Prop :=
  exists F', h ⊆ h' /\ dom h' = dom h ∪ F' /\ F ## F'
    /\ (forall h'', agree F h' h'' -> D h'' p v F)
    /\ (forall h'', agree F' h' h'' -> D h'' p' v F').

Lemma copies_isolated {T V} (D : denotation cell T V) `{!Framed D} f h p v F :
  copies f D -> D h p v F -> exists p' h', f p h = Some (p', h') /\ isolated D p p' v h h' F.
Proof.
  intros Hf HD. destruct (Hf h p v F HD) as (p' & h' & F' & Hp & Hh & Hd & HF & HD').
  exists p', h'. split; [done|]. exists F'. pose proof (framed_dom _ _ _ _ HD).
  split_and!; [done|done|set_solver| |].
  - intros h'' Ha. eapply framed_agree; [|exact Ha]. by eapply framed_mono.
  - intros h'' Ha. by eapply framed_agree.
Qed.

Lemma DeepCopyObject_spec deepCopy (h h' : heap cell) (p p' : option loc) :
  deepCopy p h = Some (p', h') ->
  DeepCopyObject deepCopy p h
  = Some (match p' with Some l => Some (Some l) | None => None end, h').
Proof.
  intros Hc. unfold DeepCopyObject, mbind, M_bind. rewrite Hc. by destruct p'.
Qed.

Lemma denotes_pointer_none {T V} `{Cell cell T} (D : denotation cell T V) h p v F :
  denotes_pointer D h p v F -> p = None <-> v = None.
Proof. by destruct p, v. Qed.

(** C21: The generated [DeepCopy] of a policy never panics; nil gives nil, and [DeepCopyObject] then
    the nil interface, not an interface holding a nil pointer.  Otherwise it only allocates: the
    copy stands for the same policy — metadata, every optional field of the spec, every list of the
    status, nil kept apart from empty — and is read at addresses none of which the original is
    read at.  So whatever is written later, the original stays what it was as long as its own cells
    do, and the copy as long as its own do: the [original] a reconcile compares its status with is
    not changed by the writes to the policy. *)
Theorem Policy_DeepCopy_isolates (h : heap cell) (p : option loc) (v : option goPolicy) F :
  denotes_pointer denotes_Policy h p v F ->
  exists p' h',
    Policy_DeepCopy p h = Some (p', h')
    /\ Policy_DeepCopyObject p h
       = Some (match p' with Some l => Some (Some l) | None => None end, h')
    /\ (p' = None <-> p = None)
    /\ isolated (denotes_pointer denotes_Policy) p p' v h h' F.
Proof.
  intros HD.
  destruct (copies_isolated _ _ h p v F (copyPointer_copies _ _ Policy_copies) HD) as (p' & h' & Hp & Hi).
  exists p', h'. split_and!; [done|by apply DeepCopyObject_spec| |done].
  destruct Hi as (F' & _ & _ & _ & _ & HD'). specialize (HD' h' ltac:(done)).
  apply denotes_pointer_none in HD, HD'. tauto.
Qed.

(** The same of a list of policies, the object the informers' cache is filled from and listed
    to: each item of the copy is a deep copy of its own, so a policy of the copied list can be
    written to without the cache seeing it, and the other way round. *)
Theorem PolicyList_DeepCopy_isolates (h : heap cell) (p : option loc)
    (v : option ((string * string) * ListMeta * option (list goPolicy))) F :
  denotes_pointer denotes_PolicyList h p v F ->
  exists p' h',
    PolicyList_DeepCopy p h = Some (p', h')
    /\ PolicyList_DeepCopyObject p h
       = Some (match p' with Some l => Some (Some l) | None => None end, h')
    /\ (p' = None <-> p = None)
    /\ isolated (denotes_pointer denotes_PolicyList) p p' v h h' F.
Proof.
  intros HD.
  destruct (copies_isolated _ _ h p v F (copyPointer_copies _ _ PolicyList_copies) HD)
    as (p' & h' & Hp & Hi).
  exists p', h'. split_and!; [done|by apply DeepCopyObject_spec| |done].
  destruct Hi as (F' & _ & _ & _ & _ & HD'). specialize (HD' h' ltac:(done)).
  apply denotes_pointer_none in HD, HD'. tauto.
Qed.

(** The spec and the status each have a [DeepCopy] of their own, as every type has. *)
Lemma DeepCopy_isolates {T V} `{C : Cell cell T} `{D : !DeepCopyable T V} `{DL : !DeepCopyableLaws T V}
    (h : heap cell) (p : option loc) (v : option V) F :
  denotes_pointer denotes h p v F ->
  exists p' h', copyPointer DeepCopyInto p h = Some (p', h')
    /\ isolated (denotes_pointer denotes) p p' v h h' F.
Proof.
  intros HD. eapply copies_isolated; [exact _| |exact HD].
  apply copyPointer_copies; [exact _|]. apply DeepCopyInto_copies.
Qed.

End theorems.

(** ** Witnesses *)
Section witnesses.
Import heap_example.

Lemma Policy_DeepCopy_isolates_witness : exists F p' h',
  Policy_DeepCopy (Some 1%positive) heap_of_policy = Some (p', h')
  /\ isolated (denotes_pointer denotes_Policy) (Some 1%positive) p' (Some policy_in_values)
       heap_of_policy h' F.
Proof.
  destruct denotes_policy_example as [F HF].
  destruct (Policy_DeepCopy_isolates heap_of_policy (Some 1%positive) (Some policy_in_values)
              ({[1%positive]} ∪ F)) as (p' & h' & Hc & _ & _ & Hi).
  { exists policy_in_memory, F. split_and!; [reflexivity|exact HF|reflexivity]. }
  exists ({[1%positive]} ∪ F), p', h'. split; [exact Hc|exact Hi].
Defined.

Lemma PolicyList_DeepCopy_isolates_witness : exists v F p' h',
  PolicyList_DeepCopy (Some 9%positive) heap_of_policy = Some (p', h')
  /\ isolated (denotes_pointer denotes_PolicyList) (Some 9%positive) p' v heap_of_policy h' F.
Proof.
  destruct denotes_policy_example as [F HF].
  set (v := (("NodeRemediationPolicyList"%string, "warden.scality.com/v1alpha1"%string), "list"%string,
             Some [policy_in_values])).
  destruct (PolicyList_DeepCopy_isolates heap_of_policy (Some 9%positive) (Some v)
              ({[9%positive]} ∪ (∅ ∪ ({[8%positive]} ∪ (F ∪ ∅))))) as (p' & h' & Hc & _ & _ & Hi).
  { eexists _, _. split; [reflexivity|]. split; [|reflexivity].
    exists ∅, ({[8%positive]} ∪ (F ∪ ∅)). split_and!; [by split| |reflexivity|reflexivity].
    exists [policy_in_memory], (F ∪ ∅). split_and!; [reflexivity|unfold in_range; simpl; lia| |reflexivity].
    constructor; [exact HF|constructor]. }
  exists (Some v), ({[9%positive]} ∪ (∅ ∪ ({[8%positive]} ∪ (F ∪ ∅)))), p', h'. split; [exact Hc|exact Hi].
Defined.

End witnesses.
