(* ===== verification/K8sLib.v ===== *)
(** The functions of the Kubernetes Go libraries the operator calls, as an interface: the class
    [K8s] lists them, the class [K8sLaws] states the documented behaviour the development relies
    on.  The last section is a small concrete instance, used to show the laws can hold together
    and to run the definitions on concrete inputs. *)

From S2P Require Import Prelude GoTime Types.

(** A [labels.Selector], through its only method the code calls, [Matches]. *)
Definition Selector : Type := gmap string string -> bool.

(** The fields of a condition [SetStatusCondition] takes from its argument. *)
Definition condition_content (c : metav1.Condition) : string * string * Z * string * string :=
  (c.(metav1.Condition_Type), c.(metav1.Condition_Status), c.(metav1.Condition_ObservedGeneration),
   c.(metav1.Condition_Reason), c.(metav1.Condition_Message)).

Class K8s := {
  (** [labels.Everything], [metav1.LabelSelectorAsSelector]. *)
  Everything : Selector;
  LabelSelectorAsSelector : metav1.LabelSelector -> error + Selector;
  (** [IsZero] of a pointer to [metav1.Time]; a nil pointer is [None]. *)
  Time_IsZero : option time.Time -> bool;
  (** [apimeta.SetStatusCondition], given the clock it may read, and [apimeta.FindStatusCondition]. *)
  SetStatusCondition :
    time.Time -> list metav1.Condition -> metav1.Condition -> list metav1.Condition;
  FindStatusCondition : list metav1.Condition -> string -> option metav1.Condition;
  (** [equality.Semantic.DeepEqual] on policy statuses. *)
  DeepEqual : v1alpha1.NodeRemediationPolicyStatus -> v1alpha1.NodeRemediationPolicyStatus -> bool;
  (** [controllerutil.ContainsFinalizer], [AddFinalizer], [RemoveFinalizer], on the finalizer list. *)
  ContainsFinalizer : list string -> string -> bool;
  AddFinalizer : list string -> string -> list string;
  RemoveFinalizer : list string -> string -> list string;
  (** [client.IgnoreNotFound], [apierrors.IsNotFound] and [IsConflict], [utilerrors.NewAggregate],
      and the [Error] method of an error. *)
  IsNotFound : error -> bool;
  IsConflict : error -> bool;
  IgnoreNotFound : option error -> option error;
  NewAggregate : list error -> option error;
  Error : error -> string;
  (** [predicate.LabelChangedPredicate{}.Update], on the label maps of the two objects. *)
  LabelChanged : gmap string string -> gmap string string -> bool;
}.

Class K8sLaws (K : K8s) : Prop := {
  Everything_matches : forall ls, Everything ls = true;
  Time_IsZero_spec : forall t,
    Time_IsZero t = match t with None => true | Some t' => time.IsZero t' end;
  FindStatusCondition_type : forall cs ty c,
    FindStatusCondition cs ty = Some c -> c.(metav1.Condition_Type) = ty;
  (** "all fields of the existing condition are updated to newCondition", or it is appended. *)
  SetStatusCondition_find : forall now cs c,
    exists c', FindStatusCondition (SetStatusCondition now cs c) c.(metav1.Condition_Type) = Some c'
            /\ condition_content c' = condition_content c;
  SetStatusCondition_other : forall now cs c ty,
    ty <> c.(metav1.Condition_Type) ->
    FindStatusCondition (SetStatusCondition now cs c) ty = FindStatusCondition cs ty;
  (** The transition time moves only when the status differs, so setting what is there already
      changes nothing. *)
  SetStatusCondition_same : forall now cs c c0,
    FindStatusCondition cs c.(metav1.Condition_Type) = Some c0 ->
    condition_content c = condition_content c0 ->
    c.(metav1.Condition_LastTransitionTime) = time.zero ->
    SetStatusCondition now cs c = cs;
  DeepEqual_spec : forall s t, DeepEqual s t = true <-> s = t;
  ContainsFinalizer_spec : forall fs f, ContainsFinalizer fs f = true <-> f ∈ fs;
  AddFinalizer_elem : forall fs f g, g ∈ AddFinalizer fs f <-> g ∈ fs \/ g = f;
  RemoveFinalizer_elem : forall fs f g, g ∈ RemoveFinalizer fs f <-> g ∈ fs /\ g <> f;
  IsNotFound_NotFound : forall n, IsNotFound (errors.NotFound n) = true;
  IsConflict_Conflict : forall n, IsConflict (errors.Conflict n) = true;
  IsConflict_NotFound : forall n, IsConflict (errors.NotFound n) = false;
  IgnoreNotFound_spec : forall e,
    IgnoreNotFound e = match e with
                       | Some e' => if IsNotFound e' then None else Some e'
                       | None => None
                       end;
  NewAggregate_spec : forall errs,
    NewAggregate errs = match errs with [] => None | _ => Some (errors.Aggregate errs) end;
  LabelChanged_spec : forall old new, LabelChanged old new = true <-> old <> new;
}.


(** ** A concrete instance *)
Module Reference.

(** The requirements of a selector: [In], [NotIn], [Exists], [DoesNotExist]. *)
Definition requirement_matches (ls : gmap string string)
    (r : metav1.LabelSelectorRequirement) : bool :=
  let v := ls !! r.(metav1.Requirement_Key) in
  let mem := match v with
             | Some x => bool_decide (x ∈ r.(metav1.Requirement_Values))
             | None => false
             end in
  if decide (r.(metav1.Requirement_Operator) = "In"%string) then mem
  else if decide (r.(metav1.Requirement_Operator) = "NotIn"%string) then negb mem
  else if decide (r.(metav1.Requirement_Operator) = "Exists"%string) then bool_decide (is_Some v)
  else negb (bool_decide (is_Some v)).

Definition requirement_valid (r : metav1.LabelSelectorRequirement) : bool :=
  let op := r.(metav1.Requirement_Operator) in
  if decide (op ∈ ["In"; "NotIn"]%string) then
    negb (bool_decide (r.(metav1.Requirement_Values) = []))
  else if decide (op ∈ ["Exists"; "DoesNotExist"]%string) then
    bool_decide (r.(metav1.Requirement_Values) = [])
  else false.

Definition selector_of (s : metav1.LabelSelector) : error + Selector :=
  if forallb requirement_valid s.(metav1.MatchExpressions) then
    inr (fun ls =>
      forallb (fun kv => bool_decide (ls !! kv.1 = Some kv.2)) (map_to_list s.(metav1.MatchLabels))
      && forallb (requirement_matches ls) s.(metav1.MatchExpressions))
  else inl (errors.Other "invalid label selector requirement").

Fixpoint find_condition (cs : list metav1.Condition) (ty : string) : option metav1.Condition :=
  match cs with
  | [] => None
  | c :: cs' => if decide (c.(metav1.Condition_Type) = ty) then Some c else find_condition cs' ty
  end.

(** The upserted condition: the argument's content, the old transition time when the status stays. *)
Definition merged (now : time.Time) (old new : metav1.Condition) : metav1.Condition :=
  metav1.mkCondition new.(metav1.Condition_Type) new.(metav1.Condition_Status)
    new.(metav1.Condition_ObservedGeneration)
    (if decide (old.(metav1.Condition_Status) = new.(metav1.Condition_Status))
     then old.(metav1.Condition_LastTransitionTime)
     else if time.IsZero new.(metav1.Condition_LastTransitionTime) then now
          else new.(metav1.Condition_LastTransitionTime))
    new.(metav1.Condition_Reason) new.(metav1.Condition_Message).

Fixpoint set_condition (now : time.Time) (cs : list metav1.Condition) (c : metav1.Condition) :
    list metav1.Condition :=
  match cs with
  | [] => [if time.IsZero c.(metav1.Condition_LastTransitionTime)
           then metav1.mkCondition c.(metav1.Condition_Type) c.(metav1.Condition_Status)
                  c.(metav1.Condition_ObservedGeneration) now
                  c.(metav1.Condition_Reason) c.(metav1.Condition_Message)
           else c]
  | c0 :: cs' =>
      if decide (c0.(metav1.Condition_Type) = c.(metav1.Condition_Type))
      then merged now c0 c :: cs' else c0 :: set_condition now cs' c
  end.

(** The error types a wrapped error is unwrapped to, as [errors.As] does. *)
Fixpoint root_cause (e : error) : error :=
  match e with errors.Wrap _ _ c => root_cause c | _ => e end.

Definition is_not_found (e : error) : bool :=
  match root_cause e with errors.NotFound _ => true | _ => false end.

Definition is_conflict (e : error) : bool :=
  match root_cause e with errors.Conflict _ => true | _ => false end.

Definition error_text (e : error) : string :=
  match e with errors.Wrap s _ _ => errors.sentinel_text s | _ => "error"%string end.

Definition reference_k8s : K8s := {|
  Everything := fun _ => true;
  LabelSelectorAsSelector := selector_of;
  Time_IsZero := fun t => match t with None => true | Some t' => time.IsZero t' end;
  SetStatusCondition := set_condition;
  FindStatusCondition := find_condition;
  DeepEqual := fun s t => bool_decide (s = t);
  ContainsFinalizer := fun fs f => bool_decide (f ∈ fs);
  AddFinalizer := fun fs f => if decide (f ∈ fs) then fs else fs ++ [f];
  RemoveFinalizer := fun fs f => filter (fun g => g <> f) fs;
  IsNotFound := is_not_found;
  IsConflict := is_conflict;
  IgnoreNotFound := fun e => match e with
                             | Some e' => if is_not_found e' then None else Some e'
                             | None => None
                             end;
  NewAggregate := fun errs => match errs with [] => None | _ => Some (errors.Aggregate errs) end;
  Error := error_text;
  LabelChanged := fun old new => negb (bool_decide (old = new));
|}.

Lemma find_condition_type cs ty c :
  find_condition cs ty = Some c -> c.(metav1.Condition_Type) = ty.
Proof. induction cs; simpl; [done|]. case_decide; naive_solver. Qed.

Lemma set_condition_find now cs c :
  exists c', find_condition (set_condition now cs c) c.(metav1.Condition_Type) = Some c'
          /\ condition_content c' = condition_content c.
Proof.
  induction cs as [|c0 cs IH]; simpl.
  - destruct (time.IsZero _); simpl; rewrite decide_True by done; eauto.
  - case_decide as Ht; simpl.
    + rewrite decide_True by done. eauto.
    + rewrite decide_False by done. done.
Qed.

Lemma set_condition_other now cs c ty :
  ty <> c.(metav1.Condition_Type) ->
  find_condition (set_condition now cs c) ty = find_condition cs ty.
Proof.
  intros Hne. induction cs as [|c0 cs IH]; simpl.
  - destruct (time.IsZero _); simpl; by rewrite decide_False.
  - case_decide as Ht; simpl.
    + rewrite Ht. rewrite !decide_False by done. done.
    + by rewrite IH.
Qed.

Lemma set_condition_same now cs c c0 :
  find_condition cs c.(metav1.Condition_Type) = Some c0 ->
  condition_content c = condition_content c0 ->
  set_condition now cs c = cs.
Proof.
  induction cs as [|c1 cs IH]; simpl; [done|]. intros Hf Hc. case_decide; simplify_eq/=.
  - f_equal. unfold merged, condition_content in *. destruct c0, c; simplify_eq/=.
    by rewrite decide_True.
  - f_equal. apply IH; [done|]. unfold condition_content. congruence.
Qed.

#[global] Instance reference_laws : K8sLaws reference_k8s.
Proof.
  split; simpl; try done.
  - apply find_condition_type.
  - apply set_condition_find.
  - apply set_condition_other.
  - intros now cs c c0 ? ? _. by apply (set_condition_same now cs c c0).
  - intros. apply bool_decide_eq_true.
  - intros. apply bool_decide_eq_true.
  - intros fs f g. case_decide; set_solver.
  - intros fs f g. rewrite list_elem_of_filter. tauto.
  - intros old new. rewrite negb_true_iff. apply bool_decide_eq_false.
Qed.

End Reference.
