(* ===== verification/PolicyApi.v ===== *)
(** The methods of the custom resource: the default getters of
    [api/v1alpha1/noderemediationpolicy_defaults.go] and the status condition writers of
    [api/v1alpha1/noderemediationpolicy_status.go]. *)

From S2P Require Import Prelude GoTime Types K8sLib.

Module defaults.

Definition DefaultConditionStatus : string := "True".
Definition DefaultDebounceEnter : time.Duration := 60 * time.Second.
Definition DefaultDebounceExit : time.Duration := 30 * time.Second.
Definition DefaultMaxAffectedPercent : Z := 100.

Definition StatusOrDefault (c : v1alpha1.ConditionMatch) : string :=
  if decide (c.(v1alpha1.ConditionMatch_Status) <> EmptyString)
  then c.(v1alpha1.ConditionMatch_Status)
  else DefaultConditionStatus.

Definition EnterOrDefault (d : v1alpha1.Debounce) : time.Duration :=
  match d.(v1alpha1.Debounce_Enter) with
  | Some e => e
  | None => DefaultDebounceEnter
  end.

Definition ExitOrDefault (d : v1alpha1.Debounce) : time.Duration :=
  match d.(v1alpha1.Debounce_Exit) with
  | Some e => e
  | None => DefaultDebounceExit
  end.

Definition MaxAffectedPercentOrDefault (g : v1alpha1.Guard) : Z :=
  match g.(v1alpha1.Guard_MaxAffectedPercent) with
  | Some m => m
  | None => DefaultMaxAffectedPercent
  end.

End defaults.

(** ** The Remediating condition *)
Module status.
Section status.
Context `{K : K8s}.

Definition ConditionRemediating : string := "Remediating".

Definition ReasonInvalidSpec : string := "InvalidSpec".
Definition ReasonGuardTripped : string := "GuardTripped".
Definition ReasonNodesRemediated : string := "NodesRemediated".
Definition ReasonPending : string := "Pending".
Definition ReasonHeld : string := "Held".
Definition ReasonNoRemediation : string := "NoRemediation".

(** [setRemediatingCondition]; [now] is the clock [SetStatusCondition] may stamp a change with. *)
Definition setRemediatingCondition (now : time.Time) (p : v1alpha1.NodeRemediationPolicy)
    (st reason message : string) : v1alpha1.NodeRemediationPolicy :=
  v1alpha1.set_Status p
    (v1alpha1.set_Conditions p.(v1alpha1.Status)
       (SetStatusCondition now p.(v1alpha1.Status).(v1alpha1.Status_Conditions)
          {| metav1.Condition_Type := ConditionRemediating;
             metav1.Condition_Status := st;
             metav1.Condition_Reason := reason;
             metav1.Condition_Message := message;
             metav1.Condition_ObservedGeneration :=
               p.(v1alpha1.ObjectMeta).(metav1.ObjectMeta_Generation);
             metav1.Condition_LastTransitionTime := time.zero |})).

Definition MarkInvalidSpec now p (message : string) : v1alpha1.NodeRemediationPolicy :=
  setRemediatingCondition now p metav1.ConditionFalse ReasonInvalidSpec message.

Definition MarkGuardTripped now p (remediated : Z) : v1alpha1.NodeRemediationPolicy :=
  setRemediatingCondition now p metav1.ConditionFalse ReasonGuardTripped
    ("guard tripped: too many matching nodes; holding new remediations, "
     +:+ pretty remediated +:+ " node(s) currently remediated").

Definition MarkNodesRemediated now p (count : Z) : v1alpha1.NodeRemediationPolicy :=
  setRemediatingCondition now p metav1.ConditionTrue ReasonNodesRemediated
    (pretty count +:+ " node(s) remediated").

Definition MarkPending now p (count : Z) : v1alpha1.NodeRemediationPolicy :=
  setRemediatingCondition now p metav1.ConditionFalse ReasonPending
    (pretty count +:+ " node(s) awaiting the debounce window before remediation").

Definition MarkHeld now p (count : Z) : v1alpha1.NodeRemediationPolicy :=
  setRemediatingCondition now p metav1.ConditionFalse ReasonHeld
    (pretty count
     +:+ " node(s) held pending a usable condition signal (missing lastTransitionTime or unknown status)").

Definition MarkNoRemediation now p : v1alpha1.NodeRemediationPolicy :=
  setRemediatingCondition now p metav1.ConditionFalse ReasonNoRemediation
    "no nodes require remediation".

(** The condition content a mark publishes for a policy of the given generation. *)
Definition remediating_content (p : v1alpha1.NodeRemediationPolicy) (st reason message : string) :
    string * string * Z * string * string :=
  (ConditionRemediating, st, p.(v1alpha1.ObjectMeta).(metav1.ObjectMeta_Generation),
   reason, message).

(** ** Lemmas *)

Context `{L : !K8sLaws K}.

(** What is published, and that nothing else of the policy moves. *)
Lemma setRemediatingCondition_find now p st reason message :
  exists c, FindStatusCondition
      (setRemediatingCondition now p st reason message).(v1alpha1.Status).(v1alpha1.Status_Conditions)
      ConditionRemediating = Some c
    /\ condition_content c = remediating_content p st reason message.
Proof.
  unfold setRemediatingCondition; simpl.
  edestruct SetStatusCondition_find as (c' & Hf & Hc). exists c'. split; [exact Hf|].
  rewrite Hc. done.
Qed.

Lemma setRemediatingCondition_other now p st reason message ty :
  ty <> ConditionRemediating ->
  FindStatusCondition
    (setRemediatingCondition now p st reason message).(v1alpha1.Status).(v1alpha1.Status_Conditions)
    ty
  = FindStatusCondition p.(v1alpha1.Status).(v1alpha1.Status_Conditions) ty.
Proof. intros ?. by apply SetStatusCondition_other. Qed.

(** Marking the same state again leaves the policy as it is. *)
Lemma setRemediatingCondition_same now p st reason message c :
  FindStatusCondition p.(v1alpha1.Status).(v1alpha1.Status_Conditions) ConditionRemediating = Some c ->
  condition_content c = remediating_content p st reason message ->
  setRemediatingCondition now p st reason message = p.
Proof.
  intros Hf Hc. unfold setRemediatingCondition.
  rewrite (SetStatusCondition_same _ _ _ c); [|done|by rewrite Hc|done].
  by destruct p as [? ? []].
Qed.

Lemma setRemediatingCondition_idem now now' p st reason message :
  setRemediatingCondition now' (setRemediatingCondition now p st reason message) st reason message
  = setRemediatingCondition now p st reason message.
Proof.
  destruct (setRemediatingCondition_find now p st reason message) as (c & Hf & Hc).
  by apply (setRemediatingCondition_same _ _ _ _ _ c).
Qed.

End status.
End status.
