(* ===== verification/Remediation.v ===== *)
(** The pure decision core, [internal/remediation/remediation.go]: its data, [minPositive] and
    [Decide], translated loop by loop.  Its specification and properties are in
    [DecideSpec.v] and [DecideProps.v]. *)

From S2P Require Import Prelude GoTime Types K8sLib.

Module remediation.

Definition statusUnknown : string := "Unknown".

Record Taint := mkTaint { Taint_Key : string; Taint_Value : string; Taint_Effect : string }.

(** One observed condition; status "True", "False", "Unknown" or empty (absent). *)
Record ConditionFact := mkConditionFact {
  ConditionFact_Status : string;
  ConditionFact_LastTransition : time.Time;
}.

Record NodeFact := mkNodeFact {
  NodeFact_Name : string;
  NodeFact_Labels : gmap string string;
  NodeFact_Condition : ConditionFact;
  NodeFact_HasTaint : bool;
}.

(** [Selector] is a Go interface: [None] is the nil interface. *)
Record Policy := mkPolicy {
  Policy_Selector : option Selector;
  Policy_ConditionType : string;
  Policy_ConditionStatus : string;
  Policy_Taint : Taint;
  Policy_DebounceEnter : time.Duration;
  Policy_DebounceExit : time.Duration;
  Policy_MaxAffectedPercent : Z;
}.

Record Status := mkStatus {
  Status_SelectedNodes : list string;
  Status_MatchedNodes : list string;
  Status_PendingNodes : list string;
  Status_UnknownNodes : list string;
  Status_RemediatedNodes : list string;
  Status_GuardTripped : bool;
  Status_DeterminateCount : Z;
}.

Record Decision := mkDecision {
  Decision_ApplyTaint : list string;
  Decision_RemoveTaint : list string;
  Decision_HeldMissingTimestamp : list string;
  Decision_RequeueAfter : time.Duration;
  Decision_Status : Status;
}.

#[global] Instance Taint_eq_dec : EqDecision Taint.
Proof. solve_decision. Defined.
#[global] Instance Decision_eq_dec : EqDecision Decision.
Proof. assert (EqDecision Status) by solve_decision. solve_decision. Defined.

(** ** The appends of the action loop, one per field *)

Definition update_Status (f : Status -> Status) (d : Decision) : Decision :=
  let '(mkDecision a r h q s) := d in mkDecision a r h q (f s).

Definition append_ApplyTaint (x : string) (d : Decision) : Decision :=
  let '(mkDecision a r h q s) := d in mkDecision (a ++ [x]) r h q s.
Definition append_RemoveTaint (x : string) (d : Decision) : Decision :=
  let '(mkDecision a r h q s) := d in mkDecision a (r ++ [x]) h q s.
Definition append_HeldMissingTimestamp (x : string) (d : Decision) : Decision :=
  let '(mkDecision a r h q s) := d in mkDecision a r (h ++ [x]) q s.
Definition append_SelectedNodes (x : string) : Decision -> Decision :=
  update_Status (fun '(mkStatus s m p u r g c) => mkStatus (s ++ [x]) m p u r g c).
Definition append_MatchedNodes (x : string) : Decision -> Decision :=
  update_Status (fun '(mkStatus s m p u r g c) => mkStatus s (m ++ [x]) p u r g c).
Definition append_PendingNodes (x : string) : Decision -> Decision :=
  update_Status (fun '(mkStatus s m p u r g c) => mkStatus s m (p ++ [x]) u r g c).
Definition append_UnknownNodes (x : string) : Decision -> Decision :=
  update_Status (fun '(mkStatus s m p u r g c) => mkStatus s m p (u ++ [x]) r g c).
Definition append_RemediatedNodes (x : string) : Decision -> Decision :=
  update_Status (fun '(mkStatus s m p u r g c) => mkStatus s m p u (r ++ [x]) g c).

(** [d.RequeueAfter = requeue]. *)
Definition set_RequeueAfter (q : time.Duration) (d : Decision) : Decision :=
  let '(mkDecision a r h _ s) := d in mkDecision a r h q s.

(** ** [minPositive] *)

Definition minPositive (cur next : time.Duration) : time.Duration :=
  if next <=? 0 then cur
  else if (cur =? 0) || (next <? cur) then next
  else cur.

(** ** [Decide] *)

Record evaluated := mkEvaluated { evaluated_NodeFact : NodeFact; evaluated_matches : bool }.

(** The variables of the selection loop. *)
Record scope := mkScope {
  selected : list evaluated;
  scopedOutTainted : list string;
  matchedCount : Z;
  determinateCount : Z;
}.

(** One iteration of the selection loop. *)
Definition select_node (p : Policy) (sel : Selector) (s : scope) (n : NodeFact) : scope :=
  if negb (sel n.(NodeFact_Labels)) then
    if n.(NodeFact_HasTaint) then
      mkScope s.(selected) (s.(scopedOutTainted) ++ [n.(NodeFact_Name)])
        s.(matchedCount) s.(determinateCount)
    else s
  else
    let status := n.(NodeFact_Condition).(ConditionFact_Status) in
    let matches := bool_decide (status = p.(Policy_ConditionStatus)) in
    let mc := if matches then wrap64 (s.(matchedCount) + 1) else s.(matchedCount) in
    let dc := if matches
                 || (negb (bool_decide (status = statusUnknown))
                     && negb (bool_decide (status = EmptyString)))
              then wrap64 (s.(determinateCount) + 1) else s.(determinateCount) in
    mkScope (s.(selected) ++ [mkEvaluated n matches]) s.(scopedOutTainted) mc dc.

(** The guard test, in [int] arithmetic. *)
Definition guard_trips (percent matched determinate : Z) : bool :=
  (0 <? determinate) && (wrap64 (percent * determinate) <? wrap64 (matched * 100)).

(** One iteration of the action loop, on the decision so far and the running [requeue]. *)
Definition act_node (p : Policy) (guardTripped : bool) (now : time.Time)
    (st : Decision * time.Duration) (e : evaluated) : Decision * time.Duration :=
  let '(d, requeue) := st in
  let n := e.(evaluated_NodeFact) in
  let name := n.(NodeFact_Name) in
  let status := n.(NodeFact_Condition).(ConditionFact_Status) in
  let d := append_SelectedNodes name d in
  let d := if n.(NodeFact_HasTaint) then append_RemediatedNodes name d else d in
  let noTimestamp := time.IsZero n.(NodeFact_Condition).(ConditionFact_LastTransition) in
  let stableFor := time.Sub now n.(NodeFact_Condition).(ConditionFact_LastTransition) in
  if e.(evaluated_matches) then
    let d := append_MatchedNodes name d in
    if n.(NodeFact_HasTaint) then (d, requeue)
    else if noTimestamp then (append_HeldMissingTimestamp name d, requeue)
    else
      let d := append_PendingNodes name d in
      if guardTripped then (d, requeue)
      else if p.(Policy_DebounceEnter) <=? stableFor then (append_ApplyTaint name d, requeue)
      else (d, minPositive requeue (time.sub_duration p.(Policy_DebounceEnter) stableFor))
  else if bool_decide (status = statusUnknown) || bool_decide (status = EmptyString) then
    (append_UnknownNodes name d, requeue)
  else if n.(NodeFact_HasTaint) then
    if noTimestamp then (append_HeldMissingTimestamp name d, requeue)
    else if p.(Policy_DebounceExit) <=? stableFor then (append_RemoveTaint name d, requeue)
    else (d, minPositive requeue (time.sub_duration p.(Policy_DebounceExit) stableFor))
  else (d, requeue).

Section Decide.
Context `{K : K8s}.

Definition Decide (p : Policy) (nodes : list NodeFact) (now : time.Time) : Decision :=
  let sel := match p.(Policy_Selector) with None => Everything | Some s => s end in
  let s := foldl (select_node p sel) (mkScope [] [] 0 0) nodes in
  let guardTripped :=
    guard_trips p.(Policy_MaxAffectedPercent) s.(matchedCount) s.(determinateCount) in
  let d := mkDecision [] s.(scopedOutTainted) [] 0
             (mkStatus [] [] [] [] [] guardTripped s.(determinateCount)) in
  let '(d, requeue) := foldl (act_node p guardTripped now) (d, 0) s.(selected) in
  set_RequeueAfter requeue d.

End Decide.

End remediation.
