(* ===== verification/DecideSpec.v ===== *)
(** What [Decide] promises, as a reference definition without loops or accumulators: every list of
    the decision is the names of the nodes that satisfy one predicate, the guard is one exact
    comparison of counts, the requeue is the least positive wait.  [Decide_closed_form] shows the
    translated loops compute exactly that. *)

From S2P Require Import Prelude GoTime Types K8sLib Remediation.
Import remediation.

Section spec.
Context `{K : K8s}.
Implicit Types (p : Policy) (n : NodeFact) (nodes : list NodeFact) (now : time.Time).

(** ** The predicates a node is judged by *)

Definition in_scope p n : bool :=
  match p.(Policy_Selector) with None => Everything | Some s => s end n.(NodeFact_Labels).

Definition status_of n : string := n.(NodeFact_Condition).(ConditionFact_Status).
Definition since n : time.Time := n.(NodeFact_Condition).(ConditionFact_LastTransition).
Definition tainted n : bool := n.(NodeFact_HasTaint).
Definition untimed n : bool := time.IsZero (since n).
Definition matching p n : bool := bool_decide (status_of n = p.(Policy_ConditionStatus)).
Definition no_signal n : bool :=
  bool_decide (status_of n = statusUnknown) || bool_decide (status_of n = EmptyString).
Definition determinate p n : bool := matching p n || negb (no_signal n).
Definition cleared p n : bool := negb (matching p n) && negb (no_signal n).
Definition stable_for now n : time.Duration := time.Sub now (since n).

(** A node waiting for remediation, for recovery; held for want of a timestamp. *)
Definition pending p n : bool := matching p n && negb (tainted n) && negb (untimed n).
Definition recovering p n : bool := cleared p n && tainted n && negb (untimed n).
Definition held p n : bool :=
  untimed n && (matching p n && negb (tainted n) || cleared p n && tainted n).

Definition enter_elapsed p now n : bool := p.(Policy_DebounceEnter) <=? stable_for now n.
Definition exit_elapsed p now n : bool := p.(Policy_DebounceExit) <=? stable_for now n.

Definition applies p (guard : bool) now n : bool :=
  pending p n && negb guard && enter_elapsed p now n.
Definition removes p now n : bool := recovering p n && exit_elapsed p now n.

(** The debounce time a node has left, 0 when it waits for none. *)
Definition wait p (guard : bool) now n : time.Duration :=
  if pending p n && negb guard && negb (enter_elapsed p now n)
  then time.sub_duration p.(Policy_DebounceEnter) (stable_for now n)
  else if recovering p n && negb (exit_elapsed p now n)
  then time.sub_duration p.(Policy_DebounceExit) (stable_for now n)
  else 0.

(** ** The reference decision *)

Definition scoped p nodes : list NodeFact := filter (fun n => Is_true (in_scope p n)) nodes.
Definition names (f : NodeFact -> bool) nodes : list string :=
  NodeFact_Name <$> filter (fun n => Is_true (f n)) nodes.
Definition count (f : NodeFact -> bool) nodes : Z := len (filter (fun n => Is_true (f n)) nodes).

Definition matched_count p nodes : Z := count (matching p) (scoped p nodes).
Definition determinate_count p nodes : Z := count (determinate p) (scoped p nodes).

(** The guard over exact integers. *)
Definition guard p nodes : bool :=
  bool_decide (0 < determinate_count p nodes)
  && bool_decide (p.(Policy_MaxAffectedPercent) * determinate_count p nodes
                  < matched_count p nodes * 100).

Definition left_scope p n : bool := negb (in_scope p n) && tainted n.

Definition least_positive (l : list Z) : Z :=
  match filter (fun z => 0 < z) l with
  | [] => 0
  | z :: zs => foldr Z.min z zs
  end.

Definition reference_decision p nodes now : Decision :=
  let s := scoped p nodes in
  let g := guard p nodes in
  {| Decision_ApplyTaint := names (applies p g now) s;
     Decision_RemoveTaint := names (left_scope p) nodes ++ names (removes p now) s;
     Decision_HeldMissingTimestamp := names (held p) s;
     Decision_RequeueAfter := least_positive (wait p g now <$> s);
     Decision_Status :=
       {| Status_SelectedNodes := NodeFact_Name <$> s;
          Status_MatchedNodes := names (matching p) s;
          Status_PendingNodes := names (pending p) s;
          Status_UnknownNodes := names (fun n => negb (matching p n) && no_signal n) s;
          Status_RemediatedNodes := names tainted s;
          Status_GuardTripped := g;
          Status_DeterminateCount := determinate_count p nodes |} |}.

(** The sizes for which the [int] arithmetic of the guard is exact; no cluster or [int32]
    percentage is out of it. *)
Definition in_bounds p nodes : Prop :=
  len nodes <= 2 ^ 32 /\ is_int32 p.(Policy_MaxAffectedPercent).

(** ** Lemmas: lists of names and counts *)

Lemma names_nil f : names f [] = [].
Proof. done. Qed.

Lemma names_cons f n nodes :
  names f (n :: nodes) = (if f n then [n.(NodeFact_Name)] else []) ++ names f nodes.
Proof. unfold names. rewrite filter_cons. by destruct (f n). Qed.

Lemma names_app f nodes nodes' : names f (nodes ++ nodes') = names f nodes ++ names f nodes'.
Proof. unfold names. by rewrite filter_app, fmap_app. Qed.

Lemma count_cons f n nodes : count f (n :: nodes) = (if f n then 1 else 0) + count f nodes.
Proof. unfold count. rewrite filter_cons. destruct (f n); simpl; rewrite ?len_cons; lia. Qed.

Lemma count_range f nodes : 0 <= count f nodes <= len nodes.
Proof. split; [apply len_nonneg | apply len_filter_le]. Qed.

Lemma len_names f nodes : len (names f nodes) = count f nodes.
Proof. unfold names, count, len. by rewrite length_fmap. Qed.

Lemma elem_of_names f nodes x :
  x ∈ names f nodes <-> exists n, n ∈ nodes /\ n.(NodeFact_Name) = x /\ f n = true.
Proof.
  unfold names. rewrite list_elem_of_fmap. setoid_rewrite list_elem_of_filter.
  setoid_rewrite Is_true_true. naive_solver.
Qed.

Lemma elem_of_scoped p nodes n : n ∈ scoped p nodes <-> n ∈ nodes /\ in_scope p n = true.
Proof. unfold scoped. rewrite list_elem_of_filter, Is_true_true. tauto. Qed.

Lemma names_ext f g nodes :
  (forall n, n ∈ nodes -> f n = g n) -> names f nodes = names g nodes.
Proof.
  intros H. unfold names. f_equal. apply filter_ext_in. intros n Hn. by rewrite (H n Hn).
Qed.

Lemma count_ext f g nodes :
  (forall n, n ∈ nodes -> f n = g n) -> count f nodes = count g nodes.
Proof. intros H. rewrite <- !len_names. by rewrite (names_ext f g). Qed.

Lemma count_mono f g nodes :
  (forall n, f n = true -> g n = true) -> count f nodes <= count g nodes.
Proof.
  intros H. induction nodes as [|n nodes IH]; [done|]. rewrite !count_cons.
  specialize (H n). destruct (f n), (g n); naive_solver lia.
Qed.

Lemma scoped_cons p n nodes :
  scoped p (n :: nodes) = (if in_scope p n then [n] else []) ++ scoped p nodes.
Proof. unfold scoped. rewrite filter_cons. by destruct (in_scope p n). Qed.

Lemma len_scoped_le p nodes : len (scoped p nodes) <= len nodes.
Proof. apply len_filter_le. Qed.

(** ** The selection loop *)

Definition evaluate p n : evaluated := mkEvaluated n (matching p n).

Lemma select_node_in p s n :
  in_scope p n = true ->
  select_node p (match p.(Policy_Selector) with None => Everything | Some f => f end) s n
  = mkScope (s.(selected) ++ [evaluate p n]) s.(scopedOutTainted)
      (if matching p n then wrap64 (s.(matchedCount) + 1) else s.(matchedCount))
      (if determinate p n then wrap64 (s.(determinateCount) + 1) else s.(determinateCount)).
Proof.
  unfold in_scope, select_node. intros ->. simpl. unfold evaluate, determinate, no_signal.
  rewrite negb_orb. done.
Qed.

Lemma select_node_out p s n :
  in_scope p n = false ->
  select_node p (match p.(Policy_Selector) with None => Everything | Some f => f end) s n
  = mkScope s.(selected)
      (s.(scopedOutTainted) ++ (if tainted n then [n.(NodeFact_Name)] else []))
      s.(matchedCount) s.(determinateCount).
Proof.
  unfold in_scope, select_node, tainted. intros ->. simpl.
  destruct (NodeFact_HasTaint n); [done|]. rewrite app_nil_r. by destruct s.
Qed.

Lemma selection_loop p nodes es outs mc dc :
  foldl (select_node p (match p.(Policy_Selector) with None => Everything | Some f => f end))
    (mkScope es outs (wrap64 mc) (wrap64 dc)) nodes
  = mkScope (es ++ (evaluate p <$> scoped p nodes)) (outs ++ names (left_scope p) nodes)
      (wrap64 (mc + matched_count p nodes)) (wrap64 (dc + determinate_count p nodes)).
Proof.
  unfold matched_count, determinate_count.
  revert es outs mc dc. induction nodes as [|n nodes IH]; intros es outs mc dc.
  { cbn. by rewrite !app_nil_r, !Z.add_0_r. }
  cbn [foldl]. rewrite scoped_cons, names_cons. unfold left_scope at 1.
  destruct (in_scope p n) eqn:Hn; simpl.
  - rewrite select_node_in, !count_cons by done. simpl.
    rewrite !wrap64_add_l.
    assert (forall (b : bool) z, (if b then wrap64 (z + 1) else wrap64 z)
                                 = wrap64 (z + if b then 1 else 0)) as Hif.
    { intros [] z; f_equal; lia. }
    rewrite !Hif, IH, <- app_assoc, <- !Z.add_assoc. done.
  - rewrite select_node_out by done. simpl. rewrite IH, <- app_assoc. done.
Qed.

(** ** The action loop *)

Definition one (b : bool) n : list string := if b then [n.(NodeFact_Name)] else [].

(** The decision after one more selected node. *)
Definition extend p (g : bool) now (d : Decision) n : Decision :=
  let '(mkDecision a r h q (mkStatus s m pe u re gt dc)) := d in
  mkDecision (a ++ one (applies p g now n) n) (r ++ one (removes p now n) n)
    (h ++ one (held p n) n) q
    (mkStatus (s ++ [n.(NodeFact_Name)]) (m ++ one (matching p n) n) (pe ++ one (pending p n) n)
       (u ++ one (negb (matching p n) && no_signal n) n) (re ++ one (tainted n) n) gt dc).

Lemma minPositive_0 q : minPositive q 0 = q.
Proof. done. Qed.

Lemma act_node_extend p g now d q n :
  act_node p g now (d, q) (evaluate p n) = (extend p g now d n, minPositive q (wait p g now n)).
Proof.
  destruct d as [a r h q0 [s m pe u re gt dc]].
  unfold act_node, extend, wait, applies, removes, held, recovering, pending, cleared, one,
    evaluate, tainted, untimed, since, enter_elapsed, exit_elapsed, stable_for, no_signal, status_of.
  cbn [evaluated_NodeFact evaluated_matches].
  destruct (matching p n); destruct (NodeFact_HasTaint n);
    destruct (bool_decide (_ = statusUnknown) || bool_decide (_ = EmptyString));
    destruct (time.IsZero _); simpl; rewrite ?app_nil_r, ?minPositive_0; try done;
    destruct g; simpl; rewrite ?app_nil_r, ?minPositive_0; try done;
    destruct (_ <=? _); simpl; rewrite ?app_nil_r, ?minPositive_0; done.
Qed.

Lemma action_loop p g now nodes a r h q0 s m pe u re gt dc q :
  foldl (act_node p g now)
    (mkDecision a r h q0 (mkStatus s m pe u re gt dc), q) (evaluate p <$> nodes)
  = (mkDecision (a ++ names (applies p g now) nodes) (r ++ names (removes p now) nodes)
       (h ++ names (held p) nodes) q0
       (mkStatus (s ++ (NodeFact_Name <$> nodes)) (m ++ names (matching p) nodes)
          (pe ++ names (pending p) nodes)
          (u ++ names (fun n => negb (matching p n) && no_signal n) nodes)
          (re ++ names tainted nodes) gt dc),
     foldl minPositive q (wait p g now <$> nodes)).
Proof.
  revert a r h s m pe u re q. induction nodes as [|n nodes IH]; intros.
  { cbn. by rewrite !app_nil_r. }
  rewrite !fmap_cons. cbn [foldl]. rewrite act_node_extend. cbn [extend].
  rewrite IH. rewrite !names_cons. unfold one. rewrite <- !app_assoc. done.
Qed.

Lemma minPositive_loop_pos l q :
  0 < q -> foldl minPositive q l = foldr Z.min q (filter (fun z => 0 < z) l).
Proof.
  revert q. induction l as [|z l IH]; intros q Hq; [done|].
  cbn [foldl]. rewrite filter_cons. unfold minPositive at 2.
  destruct (Z.leb_spec z 0).
  { rewrite decide_False by lia. by apply IH. }
  rewrite decide_True by lia. cbn [foldr].
  assert (forall a b ks, foldr Z.min (Z.min a b) ks = Z.min a (foldr Z.min b ks)) as Hout.
  { intros a b ks. induction ks; simpl; lia. }
  rewrite <- Hout. rewrite (proj2 (Z.eqb_neq q 0)) by lia. cbn [orb].
  destruct (Z.ltb_spec z q); rewrite IH by lia; f_equal; lia.
Qed.

Lemma minPositive_loop l : foldl minPositive 0 l = least_positive l.
Proof.
  unfold least_positive. induction l as [|z l IH]; [done|].
  cbn [foldl]. rewrite filter_cons. unfold minPositive at 2.
  destruct (Z.leb_spec z 0).
  - rewrite decide_False by lia. exact IH.
  - rewrite decide_True by lia. simpl. by apply minPositive_loop_pos.
Qed.

Lemma guard_exact p nodes :
  in_bounds p nodes ->
  guard_trips p.(Policy_MaxAffectedPercent)
    (wrap64 (matched_count p nodes)) (wrap64 (determinate_count p nodes)) = guard p nodes
  /\ wrap64 (determinate_count p nodes) = determinate_count p nodes.
Proof.
  intros [Hlen Hpct]. unfold is_int32 in Hpct.
  pose proof (len_scoped_le p nodes).
  pose proof (count_range (matching p) (scoped p nodes)).
  pose proof (count_range (determinate p) (scoped p nodes)).
  fold (matched_count p nodes) (determinate_count p nodes) in *.
  assert (wrap64 (determinate_count p nodes) = determinate_count p nodes) as Hd.
  { apply wrap64_id. unfold is_int64, int64_min, int64_max. lia. }
  split; [|done]. unfold guard_trips, guard. rewrite Hd.
  rewrite (wrap64_id (matched_count p nodes))
    by (unfold is_int64, int64_min, int64_max; lia).
  rewrite !wrap64_id by (unfold is_int64, int64_min, int64_max; nia).
  f_equal; case_bool_decide; lia.
Qed.

Lemma Decide_closed p nodes now :
  in_bounds p nodes -> Decide p nodes now = reference_decision p nodes now.
Proof.
  intros Hb. destruct (guard_exact p nodes Hb) as [Hg Hd]. unfold Decide.
  change (mkScope [] [] 0 0) with (mkScope [] [] (wrap64 0) (wrap64 0)).
  rewrite selection_loop, !Z.add_0_l. cbn [selected scopedOutTainted matchedCount determinateCount].
  rewrite Hg, Hd, !app_nil_l, action_loop, minPositive_loop. done.
Qed.

End spec.

Create Rewrite HintDb names.
#[global] Hint Rewrite @names_nil @names_cons @names_app @len_names : names.
