(* ===== verification/Fixtures.v ===== *)
(** Concrete inputs, after the tables of the operator's own unit tests
    ([internal/remediation/remediation_test.go]); the witnesses of the theorems are evaluated on
    them. *)

From S2P Require Import Prelude GoTime Types K8sLib Remediation.
Import remediation.

(** The fixed reference time (2026-01-01), and durations in seconds. *)
Definition t0 : time.Time := 63902822400 * time.Second.
Definition secs (s : Z) : time.Duration := s * time.Second.

Definition role_wp : gmap string string := {[ "role"%string := "wp"%string ]}.
Definition role_db : gmap string string := {[ "role"%string := "db"%string ]}.

Definition wp_taint : Taint := mkTaint "node.scality.io/wp-unreachable" EmptyString "NoExecute".

Definition basePolicy : Policy := {|
  Policy_Selector := Some (fun ls => bool_decide (ls !! "role"%string = Some "wp"%string));
  Policy_ConditionType := "WPUnavailable";
  Policy_ConditionStatus := "True";
  Policy_Taint := wp_taint;
  Policy_DebounceEnter := secs 60;
  Policy_DebounceExit := secs 30;
  Policy_MaxAffectedPercent := 100;
|}.

Definition with_percent (m : Z) (p : Policy) : Policy :=
  mkPolicy p.(Policy_Selector) p.(Policy_ConditionType) p.(Policy_ConditionStatus) p.(Policy_Taint)
    p.(Policy_DebounceEnter) p.(Policy_DebounceExit) m.

(** A role=wp node whose condition has had the given status for [since] seconds. *)
Definition newNode (name status : string) (since : Z) (taint : bool) : NodeFact :=
  mkNodeFact name role_wp (mkConditionFact status (t0 - secs since)) taint.

(** The same without a lastTransitionTime, and a node the selector does not match. *)
Definition newNodeNoTimestamp (name status : string) (taint : bool) : NodeFact :=
  mkNodeFact name role_wp (mkConditionFact status time.zero) taint.

Definition otherNode (name : string) (taint : bool) : NodeFact :=
  mkNodeFact name role_db (mkConditionFact "True" (t0 - secs 300)) taint.

(** A fleet with one node in each situation. *)
Definition fleet : list NodeFact := [
  newNode "n1" "True" 300 false;
  newNode "n2" "True" 20 false;
  newNode "n3" "False" 300 true;
  newNode "n4" "False" 10 true;
  newNode "n5" "Unknown" 300 true;
  newNodeNoTimestamp "n6" "True" false;
  newNodeNoTimestamp "n7" "False" true;
  newNode "n8" "True" 300 true;
  newNode "n9" "False" 300 false;
  otherNode "n10" true;
  otherNode "n11" false ].

(** ** Objects of the API *)

Definition wp_spec_taint : corev1.Taint :=
  corev1.mkTaint "node.scality.io/wp-unreachable" EmptyString "NoExecute" None.

Definition finalizer_name : string := "warden.scality.com/taint-cleanup".

Definition empty_status : v1alpha1.NodeRemediationPolicyStatus :=
  v1alpha1.mkNodeRemediationPolicyStatus [] [] [] [] [] [] 0 0 0 0 0 0 [].

(** The policy of the sample manifest: every optional field left to its default. *)
Definition wp_spec : v1alpha1.NodeRemediationPolicySpec :=
  v1alpha1.mkNodeRemediationPolicySpec
    (Some (metav1.mkLabelSelector role_wp []))
    (v1alpha1.mkConditionMatch "WPUnavailable" EmptyString)
    (v1alpha1.mkRemediations (Some wp_spec_taint))
    (v1alpha1.mkDebounce None None)
    (v1alpha1.mkGuard None).

Definition wp_policy : v1alpha1.NodeRemediationPolicy :=
  v1alpha1.mkNodeRemediationPolicy
    (metav1.mkObjectMeta "wp-policy" "1" 1 None [finalizer_name]) wp_spec empty_status.

(** A role=wp node, its condition in the given status for [since] seconds, and its taints. *)
Definition wp_node (name status : string) (since : Z) (taints : list corev1.Taint) : corev1.Node :=
  corev1.mkNode name ("uid-" +:+ name) "1" role_wp taints
    [corev1.mkNodeCondition "Ready" "True" t0 (t0 - secs 4000);
     corev1.mkNodeCondition "WPUnavailable" status t0 (t0 - secs since)].
