(* ===== verification/DecideProps.v ===== *)
(** The properties of the decision core: what is applied and removed and when, the guard, the
    debounce and its requeue, stability of an enacted decision, independence of the node order. *)

From S2P Require Import Prelude GoTime Types K8sLib Remediation DecideSpec Fixtures.

Import remediation.


(** ** Vocabulary of the statements *)

(** The nodes after the decision's taint operations succeeded. *)
Definition set_HasTaint (b : bool) (n : NodeFact) : NodeFact :=
  mkNodeFact n.(NodeFact_Name) n.(NodeFact_Labels) n.(NodeFact_Condition) b.

Definition enact_node (d : Decision) (n : NodeFact) : NodeFact :=
  if decide (n.(NodeFact_Name) ∈ d.(Decision_ApplyTaint)) then set_HasTaint true n
  else if decide (n.(NodeFact_Name) ∈ d.(Decision_RemoveTaint)) then set_HasTaint false n
  else n.

Definition enact (d : Decision) (nodes : list NodeFact) : list NodeFact := enact_node d <$> nodes.

Definition distinct_names (nodes : list NodeFact) : Prop := NoDup (NodeFact_Name <$> nodes).

(** No duration of the pass overflows: every transition time there is lies within about 292 years
    of [now], and so does the time left of either debounce window. *)
Definition clock_in_range (p : Policy) (nodes : list NodeFact) (now : time.Time) : Prop :=
  int64_min < p.(Policy_DebounceEnter) <= int64_max /\
  int64_min < p.(Policy_DebounceExit) <= int64_max /\
  Forall (fun n => untimed n = true
                \/ is_int64 (now - since n)
                   /\ is_int64 (p.(Policy_DebounceEnter) - (now - since n))
                   /\ is_int64 (p.(Policy_DebounceExit) - (now - since n))) nodes.

(** Two decisions with the same content, the node lists in any order. *)
Definition same_decision (d e : Decision) : Prop :=
  d.(Decision_ApplyTaint) ≡ₚ e.(Decision_ApplyTaint) /\
  d.(Decision_RemoveTaint) ≡ₚ e.(Decision_RemoveTaint) /\
  d.(Decision_HeldMissingTimestamp) ≡ₚ e.(Decision_HeldMissingTimestamp) /\
  d.(Decision_RequeueAfter) = e.(Decision_RequeueAfter) /\
  d.(Decision_Status).(Status_SelectedNodes) ≡ₚ e.(Decision_Status).(Status_SelectedNodes) /\
  d.(Decision_Status).(Status_MatchedNodes) ≡ₚ e.(Decision_Status).(Status_MatchedNodes) /\
  d.(Decision_Status).(Status_PendingNodes) ≡ₚ e.(Decision_Status).(Status_PendingNodes) /\
  d.(Decision_Status).(Status_UnknownNodes) ≡ₚ e.(Decision_Status).(Status_UnknownNodes) /\
  d.(Decision_Status).(Status_RemediatedNodes) ≡ₚ e.(Decision_Status).(Status_RemediatedNodes) /\
  d.(Decision_Status).(Status_GuardTripped) = e.(Decision_Status).(Status_GuardTripped) /\
  d.(Decision_Status).(Status_DeterminateCount) = e.(Decision_Status).(Status_DeterminateCount).

#[global] Instance same_decision_equivalence : Equivalence same_decision.
Proof.
  split; unfold same_decision.
  - done.
  - intros d e H. crush_and; by symmetry.
  - intros d e f H H'. crush_and; etrans; eassumption.
Qed.

(** What an operator sets and the guard reads; the rest of the policy. *)
Definition same_but_percent (p p' : Policy) : Prop :=
  p = with_percent p.(Policy_MaxAffectedPercent) p'.

(** Case analysis on everything the predicates of a node [n] look at. *)
Ltac node_cases n :=
  unfold applies, removes, held, pending, recovering, cleared, determinate, left_scope in *;
  try match goal with |- context [matching ?p n] => destruct (matching p n) end;
  destruct (no_signal n), (tainted n), (untimed n); simpl;
  repeat case_test; simpl; try done.

Section lemmas.
Context `{K : K8s}.
Implicit Types (p : Policy) (n : NodeFact) (nodes : list NodeFact) (now t : time.Time).

(** ** Helper lemmas *)

#[local] Ltac unfold_node :=
  unfold applies, removes, held, pending, recovering, cleared, determinate, left_scope,
    enter_elapsed, exit_elapsed in *.

(** [names] of a scoped list, by membership. *)
Lemma elem_of_scoped_names p f nodes x :
  x ∈ names f (scoped p nodes) <->
  exists n, n ∈ nodes /\ n.(NodeFact_Name) = x /\ in_scope p n = true /\ f n = true.
Proof.
  rewrite elem_of_names. setoid_rewrite elem_of_scoped. naive_solver.
Qed.

(** With distinct names a node is in a list exactly when it satisfies the list's predicate. *)
Lemma elem_of_names_node p f nodes n :
  distinct_names nodes -> n ∈ nodes -> in_scope p n = true ->
  n.(NodeFact_Name) ∈ names f (scoped p nodes) <-> f n = true.
Proof.
  intros Hd Hn Hs. rewrite elem_of_scoped_names. split; [|by eauto 10].
  intros (m & Hm & Hname & _ & Hf). by rewrite (NoDup_fmap_inj NodeFact_Name nodes n m).
Qed.

Lemma in_bounds_perm p nodes nodes' : nodes ≡ₚ nodes' -> in_bounds p nodes -> in_bounds p nodes'.
Proof. unfold in_bounds, len. by intros ->. Qed.

Lemma guard_false_count p nodes :
  guard p nodes = false -> 0 <= p.(Policy_MaxAffectedPercent) ->
  matched_count p nodes * 100 <= p.(Policy_MaxAffectedPercent) * determinate_count p nodes.
Proof.
  unfold guard. intros Hg Hp.
  assert (matched_count p nodes <= determinate_count p nodes) as Hle.
  { apply count_mono. unfold determinate. intros n ->. done. }
  pose proof (count_range (determinate p) (scoped p nodes)).
  pose proof (count_range (matching p) (scoped p nodes)).
  unfold matched_count, determinate_count in *.
  apply andb_false_iff in Hg as [Hg|Hg]; apply bool_decide_eq_false in Hg; nia.
Qed.

Lemma matched_le_determinate p nodes : 0 <= matched_count p nodes <= determinate_count p nodes.
Proof.
  split; [apply count_range|]. apply count_mono. unfold determinate. by intros n ->.
Qed.

Lemma applies_matching p g now n : applies p g now n = true -> matching p n = true.
Proof. unfold_node. rewrite !andb_true_iff. tauto. Qed.

(** ** The debounce clock *)

Lemma stable_for_exact now n : is_int64 (now - since n) -> stable_for now n = now - since n.
Proof. apply time.Sub_exact. Qed.

(** A window that has elapsed stays elapsed. *)
Lemma elapsed_mono d now t n : now <= t ->
  (d <=? stable_for now n) = true -> (d <=? stable_for t n) = true.
Proof. intros Ht. unfold stable_for. pose proof (time.Sub_mono now t (since n) Ht). lia. Qed.

(** Before the window is over the test fails, at its end it succeeds. *)
Lemma elapsed_iff d now t n :
  int64_min < d <= int64_max -> (d <=? stable_for t n) = true <-> since n + d <= t.
Proof. intros Hd. unfold stable_for. rewrite Z.leb_le. by apply time.Sub_ge_iff. Qed.

(** ** Enacting a decision *)

Lemma enact_perm_fields d p nodes :
  matched_count p (enact d nodes) = matched_count p nodes /\
  determinate_count p (enact d nodes) = determinate_count p nodes.
Proof.
  assert (forall f : NodeFact -> bool, (forall n, f (enact_node d n) = f n) ->
    count f (scoped p (enact d nodes)) = count f (scoped p nodes)) as H.
  { intros f Hf. induction nodes as [|n nodes IH]; [done|].
    unfold enact in *. rewrite fmap_cons, !scoped_cons.
    assert (in_scope p (enact_node d n) = in_scope p n) as ->.
    { unfold enact_node. by repeat case_decide. }
    destruct (in_scope p n); simpl; [|done]. by rewrite !count_cons, Hf, IH. }
  split; apply H; intros n; unfold enact_node; by repeat case_decide.
Qed.

Lemma guard_enact d p nodes : guard p (enact d nodes) = guard p nodes.
Proof. unfold guard. by destruct (enact_perm_fields d p nodes) as [-> ->]. Qed.

Lemma in_bounds_enact d p nodes : in_bounds p nodes -> in_bounds p (enact d nodes).
Proof. unfold in_bounds, enact, len. by rewrite length_fmap. Qed.

(** A tainted node is neither applied to nor pending, an untainted one is not removed from. *)
Lemma applies_tainted p g now n : applies p g now n = true -> tainted n = false.
Proof. unfold_node. destruct (tainted n); [|done]. by rewrite !andb_false_r. Qed.

Lemma removes_tainted p now n : removes p now n = true -> tainted n = true.
Proof. unfold_node. destruct (tainted n); [done|]. by rewrite !andb_false_r. Qed.

Lemma applies_removes p g now n : applies p g now n = true -> removes p now n = false.
Proof.
  intros H%applies_tainted. apply not_true_is_false. intros H'%removes_tainted. congruence.
Qed.

(** ** Waits *)

Lemma least_positive_spec (l : list Z) :
  (least_positive l = 0 /\ forall z, z ∈ l -> z <= 0)
  \/ (0 < least_positive l /\ least_positive l ∈ l /\ forall z, z ∈ l -> 0 < z -> least_positive l <= z).
Proof.
  unfold least_positive.
  assert (forall (ks : list Z) k, foldr Z.min k ks ∈ k :: ks
            /\ forall z, z ∈ k :: ks -> foldr Z.min k ks <= z) as Hmin.
  { intros ks k. induction ks as [|k' ks [IH1 IH2]]; simpl.
    - split; [left|]. intros z ->%list_elem_of_singleton. lia.
    - split.
      + apply elem_of_cons in IH1. destruct (Z.min_spec k' (foldr Z.min k ks)) as [[_ ->]|[_ ->]];
          set_solver.
      + intros z Hz. assert (z = k' \/ z ∈ k :: ks) as [->|Hz'] by set_solver; [lia|].
        specialize (IH2 z Hz'). lia. }
  destruct (filter _ l) as [|z zs] eqn:E.
  - left. split; [done|]. intros z Hz. destruct (decide (0 < z)); [|lia].
    assert (z ∈ filter (fun z => 0 < z) l) as H by (by apply list_elem_of_filter).
    rewrite E in H. set_solver.
  - right. destruct (Hmin zs z) as [H1 H2]. rewrite <- E in H1, H2.
    apply list_elem_of_filter in H1 as [??]. split_and!; [done..|].
    intros w Hw ?. apply H2. by apply list_elem_of_filter.
Qed.

(** A node waits while its window is open, and then exactly for the rest of it. *)
Lemma wait_spec p g now n :
  clock_in_range p [n] now ->
  wait p g now n =
    if pending p n && negb g && negb (enter_elapsed p now n)
    then since n + p.(Policy_DebounceEnter) - now
    else if recovering p n && negb (exit_elapsed p now n)
    then since n + p.(Policy_DebounceExit) - now else 0.
Proof.
  intros (_ & _ & [Hu|(Hs & He & Hx)]%Forall_singleton).
  { unfold wait, pending, recovering. by rewrite Hu, !andb_false_r. }
  unfold wait.
  rewrite stable_for_exact by done. unfold time.sub_duration. rewrite !wrap64_id by done.
  repeat case_test; lia.
Qed.

Lemma clock_in_range_elem p nodes now n :
  clock_in_range p nodes now -> n ∈ nodes -> clock_in_range p [n] now.
Proof.
  intros (? & ? & H) Hn. rewrite Forall_forall in H.
  split_and!; try lia. by apply Forall_singleton, H.
Qed.

(** The two tests whose outcome depends on the time, at a later time [t]: an open window closes
    when the node's wait is over and not before. *)
Lemma applies_later p g now t n :
  clock_in_range p [n] now -> now <= t ->
  applies p g t n = applies p g now n
    || (pending p n && negb g && negb (enter_elapsed p now n))
       && bool_decide (now + wait p g now n <= t).
Proof.
  intros Hc Ht. rewrite wait_spec by done. destruct Hc as (He & Hx & _). unfold applies.
  destruct (pending p n), g; try done. simpl. unfold enter_elapsed.
  pose proof (elapsed_iff (Policy_DebounceEnter p) now now n He) as H1.
  pose proof (elapsed_iff (Policy_DebounceEnter p) now t n He) as H2.
  destruct (_ <=? stable_for now n) eqn:E1, (_ <=? stable_for t n) eqn:E2; simpl;
    symmetry; try apply bool_decide_eq_true; try apply bool_decide_eq_false; naive_solver lia.
Qed.

Lemma removes_later p g now t n :
  clock_in_range p [n] now -> now <= t ->
  removes p t n = removes p now n
    || (recovering p n && negb (exit_elapsed p now n)) && bool_decide (now + wait p g now n <= t).
Proof.
  intros Hc Ht. rewrite wait_spec by done. destruct Hc as (He & Hx & _). unfold removes.
  destruct (recovering p n) eqn:Hr; [|done]. simpl.
  assert (pending p n = false) as ->.
  { revert Hr. unfold_node. destruct (matching p n), (tainted n); done. }
  simpl. unfold exit_elapsed.
  pose proof (elapsed_iff (Policy_DebounceExit p) now now n Hx) as H1.
  pose proof (elapsed_iff (Policy_DebounceExit p) now t n Hx) as H2.
  destruct (_ <=? stable_for now n) eqn:E1, (_ <=? stable_for t n) eqn:E2; simpl;
    symmetry; try apply bool_decide_eq_true; try apply bool_decide_eq_false; naive_solver lia.
Qed.

(** ** Nodes without a signal *)

Lemma scoped_app p nodes nodes' : scoped p (nodes ++ nodes') = scoped p nodes ++ scoped p nodes'.
Proof. apply filter_app. Qed.

Lemma count_app (f : NodeFact -> bool) nodes nodes' :
  count f (nodes ++ nodes') = count f nodes + count f nodes'.
Proof. unfold count. by rewrite filter_app, len_app. Qed.

Lemma no_signal_idle p g now n :
  matching p n = false -> no_signal n = true ->
  applies p g now n = false /\ removes p now n = false /\ held p n = false /\ wait p g now n = 0.
Proof.
  intros Hm Hu. unfold wait. unfold_node. rewrite Hm, Hu. simpl. by rewrite ?andb_false_r.
Qed.

Lemma guard_no_signal p nodes1 n nodes2 :
  in_scope p n = true -> matching p n = false -> no_signal n = true ->
  guard p (nodes1 ++ n :: nodes2) = guard p (nodes1 ++ nodes2)
  /\ determinate_count p (nodes1 ++ n :: nodes2) = determinate_count p (nodes1 ++ nodes2).
Proof.
  intros Hs Hm Hu.
  assert (forall f, f n = false ->
    count f (scoped p (nodes1 ++ n :: nodes2)) = count f (scoped p (nodes1 ++ nodes2))) as H.
  { intros f Hf. rewrite !scoped_app, scoped_cons, Hs. simpl.
    rewrite !count_app, count_cons, Hf. lia. }
  assert (determinate p n = false) as Hd by (unfold determinate; by rewrite Hm, Hu).
  unfold guard, determinate_count, matched_count.
  by rewrite (H (matching p)), (H (determinate p)).
Qed.

(** ** Inclusion and disjointness of the lists of names *)

Lemma names_true nodes : names (fun _ => true) nodes = NodeFact_Name <$> nodes.
Proof. induction nodes as [|n nodes IH]; [done|]. by rewrite names_cons, IH. Qed.

Lemma names_subseteq (f g : NodeFact -> bool) nodes :
  (forall n, f n = true -> g n = true) -> names f nodes ⊆ names g nodes.
Proof. intros H x. rewrite !elem_of_names. naive_solver. Qed.

Lemma distinct_scoped p nodes : distinct_names nodes -> distinct_names (scoped p nodes).
Proof.
  unfold distinct_names, scoped. induction nodes as [|n nodes IH]; [done|].
  rewrite fmap_cons, NoDup_cons, filter_cons. intros [Hn Hd]. case_decide; [|auto].
  rewrite fmap_cons, NoDup_cons. split; [|auto]. contradict Hn.
  apply list_elem_of_fmap in Hn as (m & -> & [_ Hm]%list_elem_of_filter).
  by apply list_elem_of_fmap_2.
Qed.

Lemma names_disjoint (f g : NodeFact -> bool) nodes :
  distinct_names nodes -> (forall n, f n = true -> g n = true -> False) ->
  names f nodes ## names g nodes.
Proof.
  intros Hd H x (n & Hn & <- & Hf)%elem_of_names (m & Hm & Hname & Hg)%elem_of_names.
  apply (H n Hf). by rewrite (NoDup_fmap_inj NodeFact_Name nodes n m).
Qed.

Lemma left_scope_disjoint p f nodes :
  distinct_names nodes -> names (left_scope p) nodes ## names f (scoped p nodes).
Proof.
  intros Hd x (n & Hn & <- & Hf)%elem_of_names (m & Hm & Hname & Hin & Hg)%elem_of_scoped_names.
  rewrite (NoDup_fmap_inj NodeFact_Name nodes n m) in Hf by done.
  unfold left_scope in Hf. by rewrite Hin in Hf.
Qed.

(** ** Waiting nodes *)

Definition waiting p (g : bool) now n : bool :=
  pending p n && negb g && negb (enter_elapsed p now n)
  || recovering p n && negb (exit_elapsed p now n).

Lemma wait_not_waiting p g now n : waiting p g now n = false -> wait p g now n = 0.
Proof. unfold waiting, wait. intros [-> ->]%orb_false_iff. done. Qed.

Lemma wait_positive p g now n :
  clock_in_range p [n] now -> waiting p g now n = true -> 0 < wait p g now n.
Proof.
  intros Hc Hw. rewrite wait_spec by done. destruct Hc as (He & Hx & _). unfold waiting in Hw.
  pose proof (elapsed_iff (Policy_DebounceEnter p) now now n He).
  pose proof (elapsed_iff (Policy_DebounceExit p) now now n Hx).
  unfold enter_elapsed, exit_elapsed in *.
  destruct (pending p n), g, (recovering p n); simpl in *; try done;
    repeat case_test; simpl in *; try done; naive_solver lia.
Qed.

(** A requeue of the pass is no later than the end of any open window. *)
Lemma requeue_le_wait p g now nodes n :
  clock_in_range p nodes now -> n ∈ nodes -> waiting p g now n = true ->
  0 < least_positive (wait p g now <$> nodes) <= wait p g now n.
Proof.
  intros Hc Hn Hw. pose proof (wait_positive p g now n (clock_in_range_elem _ _ _ _ Hc Hn) Hw).
  assert (wait p g now n ∈ wait p g now <$> nodes) as Hin by by apply list_elem_of_fmap_2.
  destruct (least_positive_spec (wait p g now <$> nodes)) as [[_ H1]|(? & _ & H1)].
  - specialize (H1 _ Hin). lia.
  - auto.
Qed.

Lemma clock_in_range_scoped p nodes now :
  clock_in_range p nodes now -> clock_in_range p (scoped p nodes) now.
Proof.
  intros (? & ? & H). split_and!; try lia. rewrite Forall_forall in *.
  intros n [? _]%elem_of_scoped. auto.
Qed.

(** While no window of the list closes, the two time-dependent lists stay as they are. *)
Lemma names_until p g nodes now t :
  clock_in_range p nodes now -> now <= t ->
  (forall n, n ∈ nodes -> waiting p g now n = true -> t < now + wait p g now n) ->
  names (applies p g t) nodes = names (applies p g now) nodes
  /\ names (removes p t) nodes = names (removes p now) nodes.
Proof.
  intros Hc Ht Hw. split; apply names_ext; intros n Hn; specialize (Hw n Hn);
    pose proof (clock_in_range_elem _ _ _ _ Hc Hn).
  - rewrite (applies_later p g now t n) by done. revert Hw. unfold waiting.
    destruct (_ && _ && negb (enter_elapsed _ _ _)); simpl; [|intros _; by rewrite orb_false_r].
    intros Hw. specialize (Hw eq_refl). rewrite bool_decide_eq_false_2, orb_false_r by lia. done.
  - rewrite (removes_later p g now t n) by done. revert Hw. unfold waiting.
    destruct (recovering p n && _); simpl; [|intros _; by rewrite orb_false_r]. rewrite orb_true_r.
    intros Hw. specialize (Hw eq_refl). rewrite bool_decide_eq_false_2, orb_false_r by lia. done.
Qed.

Lemma names_later p g nodes now t :
  clock_in_range p nodes now -> now <= t ->
  names (applies p g now) nodes ⊆ names (applies p g t) nodes
  /\ names (removes p now) nodes ⊆ names (removes p t) nodes.
Proof.
  intros Hc Ht. split; apply names_subseteq; intros n; unfold applies, removes;
    rewrite !andb_true_iff; intros [? ?]; split; try done; by eapply elapsed_mono.
Qed.

(** ** Enacted decisions *)

(** What an enacted node is, for a node that had its own name. *)
Lemma enact_node_cases p nodes now n :
  in_bounds p nodes -> distinct_names nodes -> n ∈ nodes -> in_scope p n = true ->
  let g := guard p nodes in
  let d := Decide p nodes now in
  applies p g now n = true /\ enact_node d n = set_HasTaint true n
  \/ removes p now n = true /\ enact_node d n = set_HasTaint false n
  \/ applies p g now n = false /\ removes p now n = false /\ enact_node d n = n.
Proof.
  intros Hb Hd Hn Hs g d. unfold enact_node, d. rewrite Decide_closed by done. simpl. fold g.
  pose proof (elem_of_names_node p (applies p g now) nodes n Hd Hn Hs) as Ha.
  pose proof (elem_of_names_node p (removes p now) nodes n Hd Hn Hs) as Hr.
  assert (n.(NodeFact_Name) ∈ names (left_scope p) nodes ++ names (removes p now) (scoped p nodes)
          <-> removes p now n = true) as Hr'.
  { rewrite elem_of_app, Hr. split; [|tauto]. intros [Hl|]; [|done].
    exfalso. apply (left_scope_disjoint p (fun _ => true) nodes Hd _ Hl).
    apply elem_of_scoped_names. eauto 10. }
  destruct (applies p g now n) eqn:Ea.
  - left. rewrite decide_True; [done|]. by apply Ha.
  - right. rewrite decide_False by (by rewrite Ha).
    destruct (removes p now n); [left|right].
    + by rewrite decide_True by by apply Hr'.
    + by rewrite decide_False by by rewrite Hr'.
Qed.

Lemma enact_node_scope d p n : in_scope p (enact_node d n) = in_scope p n.
Proof. unfold enact_node. by repeat case_decide. Qed.

Lemma enact_node_name d n : NodeFact_Name (enact_node d n) = NodeFact_Name n.
Proof. unfold enact_node. by repeat case_decide. Qed.

Lemma scoped_enact d p nodes : scoped p (enact d nodes) = enact_node d <$> scoped p nodes.
Proof.
  unfold scoped, enact. rewrite filter_map_comm. f_equal. apply filter_ext_in.
  intros n _. by rewrite enact_node_scope.
Qed.

(** Once enacted, nothing is left to do for the node, and it waits as it did. *)
Lemma enact_node_idle p nodes now n :
  in_bounds p nodes -> distinct_names nodes -> n ∈ nodes -> in_scope p n = true ->
  let g := guard p nodes in
  let n' := enact_node (Decide p nodes now) n in
  applies p g now n' = false /\ removes p now n' = false /\ wait p g now n' = wait p g now n.
Proof.
  intros Hb Hd Hn Hs g n'.
  destruct (enact_node_cases p nodes now n Hb Hd Hn Hs) as [[H E]|[[H E]|(H & H' & E)]];
    unfold n'; rewrite E; [| |done]; clear E n'; fold g in H; revert H;
    unfold wait, applies, removes, pending, recovering, cleared;
    change (matching p (set_HasTaint _ n)) with (matching p n);
    change (no_signal (set_HasTaint _ n)) with (no_signal n);
    change (untimed (set_HasTaint _ n)) with (untimed n);
    change (enter_elapsed p now (set_HasTaint _ n)) with (enter_elapsed p now n);
    change (exit_elapsed p now (set_HasTaint _ n)) with (exit_elapsed p now n); simpl;
    destruct (matching p n), (no_signal n), (tainted n), (untimed n), g,
      (enter_elapsed p now n), (exit_elapsed p now n); done.
Qed.

Lemma names_none (f : NodeFact -> bool) nodes :
  (forall n, n ∈ nodes -> f n = false) -> names f nodes = [].
Proof. intros H. unfold names. rewrite filter_none; [done|]. intros n Hn. rewrite H by done. by intros []. Qed.

Lemma names_left_scope_enact p nodes now :
  in_bounds p nodes -> distinct_names nodes ->
  names (left_scope p) (enact (Decide p nodes now) nodes) = [].
Proof.
  intros Hb Hd. apply names_none. intros ? (n & -> & Hn)%list_elem_of_fmap.
  unfold left_scope. rewrite enact_node_scope. destruct (in_scope p n) eqn:Hs; [done|]. simpl.
  unfold enact_node. rewrite Decide_closed by done. simpl.
  assert (forall f, n.(NodeFact_Name) ∉ names f (scoped p nodes)) as Hout.
  { intros f (m & Hm & Hname & Hin & _)%elem_of_scoped_names.
    rewrite (NoDup_fmap_inj NodeFact_Name nodes n m) in Hs by done. congruence. }
  rewrite decide_False by done. case_decide as Hr; [done|].
  destruct (tainted n) eqn:Ht; [|done]. contradict Hr. apply elem_of_app. left.
  apply elem_of_names. exists n. unfold left_scope. by rewrite Hs, Ht.
Qed.

(** A waiting node is acted on once its wait is over, and was not before. *)
Lemma waiting_name_acted p g now t nodes n :
  distinct_names nodes -> clock_in_range p nodes now -> now <= t ->
  n ∈ nodes -> in_scope p n = true ->
  0 < wait p g now n -> now + wait p g now n <= t ->
  (n.(NodeFact_Name) ∉ names (applies p g now) (scoped p nodes)
     ++ names (left_scope p) nodes ++ names (removes p now) (scoped p nodes))
  /\ (n.(NodeFact_Name) ∈ names (applies p g t) (scoped p nodes)
     ++ names (left_scope p) nodes ++ names (removes p t) (scoped p nodes)).
Proof.
  intros Hd Hc Ht Hn Hs Hpos Hle.
  pose proof (clock_in_range_elem _ _ _ _ Hc Hn) as Hcn.
  assert (n.(NodeFact_Name) ∉ names (left_scope p) nodes) as Hl.
  { intros Hx. apply (left_scope_disjoint p (fun _ => true) nodes Hd _ Hx).
    apply elem_of_scoped_names. eauto 10. }
  rewrite !elem_of_app, !elem_of_names_node by done.
  rewrite (applies_later p g now t n), (removes_later p g now t n) by done.
  rewrite (bool_decide_eq_true_2 (_ <= t)), !andb_true_r by done.
  destruct (waiting p g now n) eqn:Hw; [|rewrite wait_not_waiting in Hpos by done; lia].
  unfold waiting in Hw. revert Hw. unfold applies, removes.
  destruct (pending p n) eqn:Ep, (recovering p n) eqn:Er, g, (enter_elapsed p now n),
    (exit_elapsed p now n); simpl; try done; try tauto;
    revert Ep Er; unfold pending, recovering, cleared;
    destruct (matching p n), (tainted n); naive_solver.
Qed.

(** ** Order of the nodes *)

#[global] Instance names_perm f : Proper ((≡ₚ) ==> (≡ₚ)) (names f).
Proof. intros l l' H. unfold names. by rewrite H. Qed.

#[global] Instance scoped_perm p : Proper ((≡ₚ) ==> (≡ₚ)) (scoped p).
Proof. intros l l' H. unfold scoped. by rewrite H. Qed.

#[global] Instance count_perm f : Proper ((≡ₚ) ==> (=)) (count f).
Proof. intros l l' H. unfold count, len. by rewrite H. Qed.

#[global] Instance guard_perm p : Proper ((≡ₚ) ==> (=)) (guard p).
Proof.
  intros l l' H. unfold guard, determinate_count, matched_count.
  by rewrite (count_perm (determinate p) _ _ (scoped_perm p _ _ H)),
    (count_perm (matching p) _ _ (scoped_perm p _ _ H)).
Qed.

#[global] Instance least_positive_perm : Proper ((≡ₚ) ==> (=)) least_positive.
Proof.
  intros l l' H. assert (forall z, z ∈ l <-> z ∈ l') as E by (intros; by rewrite H).
  destruct (least_positive_spec l) as [[E1 H1]|(P1 & I1 & H1)],
    (least_positive_spec l') as [[E2 H2]|(P2 & I2 & H2)].
  - congruence.
  - apply E in I2. specialize (H1 _ I2). lia.
  - apply E in I1. specialize (H2 _ I1). lia.
  - apply E in I1. apply E in I2. specialize (H2 _ I1). specialize (H1 _ I2). lia.
Qed.

Lemma Decide_perm p nodes nodes' now :
  in_bounds p nodes -> nodes ≡ₚ nodes' ->
  same_decision (Decide p nodes now) (Decide p nodes' now).
Proof.
  intros Hb Hp. rewrite !Decide_closed by eauto using in_bounds_perm.
  unfold same_decision. simpl. rewrite !(guard_perm _ _ _ Hp).
  split_and!; rewrite ?Hp; try done. unfold determinate_count. by rewrite Hp.
Qed.

(** The decision over the enacted nodes. *)
Lemma enact_settles p nodes now :
  in_bounds p nodes -> distinct_names nodes ->
  let d := Decide p nodes now in
  let d' := Decide p (enact d nodes) now in
  d'.(Decision_ApplyTaint) = [] /\ d'.(Decision_RemoveTaint) = []
  /\ d'.(Decision_RequeueAfter) = d.(Decision_RequeueAfter)
  /\ d'.(Decision_Status).(Status_GuardTripped) = d.(Decision_Status).(Status_GuardTripped).
Proof.
  intros Hb Hd d d'. unfold d'. rewrite (Decide_closed p (enact d nodes)) by by apply in_bounds_enact.
  simpl. rewrite guard_enact, scoped_enact. unfold d at 5 6. rewrite Decide_closed by done. simpl.
  assert (forall n, n ∈ scoped p nodes ->
    applies p (guard p nodes) now (enact_node d n) = false
    /\ removes p now (enact_node d n) = false
    /\ wait p (guard p nodes) now (enact_node d n) = wait p (guard p nodes) now n) as Hidle.
  { intros n [Hn Hs]%elem_of_scoped. by apply enact_node_idle. }
  split_and!; [| | |done].
  - apply names_none. intros ? (n & -> & Hn)%list_elem_of_fmap. by apply Hidle.
  - rewrite (names_none (removes p now)), app_nil_r.
    + by apply names_left_scope_enact.
    + intros ? (n & -> & Hn)%list_elem_of_fmap. by apply Hidle.
  - rewrite <- list_fmap_compose. f_equal. apply list_fmap_ext. intros i n Hn. simpl.
    apply Hidle. by eapply list_elem_of_lookup_2.
Qed.

End lemmas.
