(* ===== verification/DecideTheorems.v ===== *)
(** The theorems about [Decide]. *)

From S2P Require Import Prelude GoTime Types K8sLib Remediation DecideSpec Fixtures DecideProps.
From Stdlib Require Import QArith.
Import remediation.
#[local] Open Scope Z_scope.

Section theorems.
Context `{K : K8s}.
Implicit Types (p : Policy) (n : NodeFact) (nodes : list NodeFact) (now t : time.Time).

(** C1: the two loops of [Decide] compute the reference decision: each node list is the names of
    the nodes satisfying one predicate, the guard is one comparison of exact counts, and the
    requeue is the least positive wait. *)
Theorem Decide_refines_reference p nodes now :
  in_bounds p nodes -> Decide p nodes now = reference_decision p nodes now.
Proof. apply Decide_closed. Qed.

(** C15: a node is tainted exactly when some fact of that name is in scope, matches the trigger,
    is untainted, has a transition time at least the enter debounce ago, and the guard has not
    tripped. *)
Theorem Decide_apply_iff p nodes now x :
  in_bounds p nodes ->
  let d := Decide p nodes now in
  x ∈ d.(Decision_ApplyTaint) <->
    d.(Decision_Status).(Status_GuardTripped) = false /\
    exists n, n ∈ nodes /\ n.(NodeFact_Name) = x /\ in_scope p n = true
      /\ status_of n = p.(Policy_ConditionStatus) /\ n.(NodeFact_HasTaint) = false
      /\ since n <> time.zero
      /\ p.(Policy_DebounceEnter) <= time.Sub now (since n).
Proof.
  intros Hb. simpl. rewrite Decide_closed by done. simpl. rewrite elem_of_scoped_names.
  unfold applies, pending, matching, tainted, untimed, time.IsZero, enter_elapsed, stable_for.
  setoid_rewrite andb_true_iff. setoid_rewrite andb_true_iff. setoid_rewrite andb_true_iff.
  setoid_rewrite andb_true_iff. setoid_rewrite negb_true_iff.
  setoid_rewrite bool_decide_eq_true. setoid_rewrite bool_decide_eq_false.
  setoid_rewrite Z.leb_le. naive_solver.
Qed.

(** C16: a taint is removed exactly from the nodes that left the scope while carrying it, and from
    the nodes in scope that carry it, whose condition is present, not the trigger and not Unknown,
    and has been so for the exit debounce.  Recovery of a node in scope is never assumed without a
    signal; a node out of scope loses the taint whatever its condition says. *)
Theorem Decide_remove_iff p nodes now x :
  in_bounds p nodes ->
  x ∈ (Decide p nodes now).(Decision_RemoveTaint) <->
    exists n, n ∈ nodes /\ n.(NodeFact_Name) = x /\ n.(NodeFact_HasTaint) = true /\
      (in_scope p n = false
       \/ status_of n <> p.(Policy_ConditionStatus) /\ status_of n <> statusUnknown
          /\ status_of n <> EmptyString /\ since n <> time.zero
          /\ p.(Policy_DebounceExit) <= time.Sub now (since n)).
Proof.
  intros Hb. rewrite Decide_closed by done. simpl.
  rewrite elem_of_app, elem_of_scoped_names, elem_of_names.
  unfold left_scope, removes, recovering, cleared, matching, no_signal, tainted, untimed,
    time.IsZero, exit_elapsed, stable_for.
  repeat setoid_rewrite andb_true_iff. repeat setoid_rewrite negb_true_iff.
  repeat setoid_rewrite orb_false_iff.
  repeat setoid_rewrite bool_decide_eq_false. setoid_rewrite Z.leb_le. split.
  - naive_solver.
  - intros (n & Hn & Hx & Ht & Hc). destruct (in_scope p n) eqn:Hs; [right|left]; naive_solver.
Qed.

(** C17: the guard compares fractions: it trips exactly when the matched share of the nodes with a
    determinate condition exceeds [MaxAffectedPercent] percent, as rationals, strictly. *)
Theorem Decide_guard_exact p nodes now :
  in_bounds p nodes ->
  let s := (Decide p nodes now).(Decision_Status) in
  s.(Status_GuardTripped) = true <->
    0 < s.(Status_DeterminateCount)
    /\ (inject_Z p.(Policy_MaxAffectedPercent) / inject_Z 100
        < inject_Z (len s.(Status_MatchedNodes)) / inject_Z s.(Status_DeterminateCount))%Q.
Proof.
  intros Hb. simpl. rewrite Decide_closed by done. simpl. rewrite len_names.
  fold (matched_count p nodes). unfold guard. rewrite andb_true_iff, !bool_decide_eq_true.
  destruct (determinate_count p nodes) as [|d|d] eqn:Hd; [lia| |lia].
  unfold Qlt, Qdiv, Qmult, Qinv. simpl. lia.
Qed.

(** the blast radius is bounded: when a pass taints anything, then all the matching nodes of the
    scope together, those it taints included, are at most [MaxAffectedPercent] percent of the nodes
    with a determinate condition; and a pass whose guard tripped taints nothing. *)
Theorem Decide_blast_radius p nodes now :
  in_bounds p nodes -> 0 <= p.(Policy_MaxAffectedPercent) ->
  let d := Decide p nodes now in
  let s := d.(Decision_Status) in
  len d.(Decision_ApplyTaint) <= len s.(Status_MatchedNodes) <= s.(Status_DeterminateCount)
  /\ (d.(Decision_ApplyTaint) <> [] ->
      len s.(Status_MatchedNodes) * 100 <= p.(Policy_MaxAffectedPercent) * s.(Status_DeterminateCount))
  /\ (s.(Status_GuardTripped) = true -> d.(Decision_ApplyTaint) = []).
Proof.
  intros Hb Hp. simpl. rewrite Decide_closed by done. simpl. rewrite !len_names.
  fold (matched_count p nodes).
  assert (guard p nodes = true -> names (applies p (guard p nodes) now) (scoped p nodes) = []) as Hg.
  { intros ->. unfold names. rewrite filter_none; [done|]. intros n _. unfold applies.
    simpl. rewrite andb_false_r. simpl. tauto. }
  split_and!.
  - apply count_mono, applies_matching.
  - apply matched_le_determinate.
  - intros Hne. apply guard_false_count; [|done]. destruct (guard p nodes); naive_solver.
  - done.
Qed.

(** the guard percentage decides only what is newly tainted: two policies that differ in
    nothing else remove the same taints, hold the same nodes and report the same node lists. *)
Theorem Decide_guard_blocks_only_apply p nodes now m :
  in_bounds p nodes -> in_bounds (with_percent m p) nodes ->
  let d := Decide p nodes now in
  let d' := Decide (with_percent m p) nodes now in
  d.(Decision_RemoveTaint) = d'.(Decision_RemoveTaint)
  /\ d.(Decision_HeldMissingTimestamp) = d'.(Decision_HeldMissingTimestamp)
  /\ d.(Decision_Status).(Status_SelectedNodes) = d'.(Decision_Status).(Status_SelectedNodes)
  /\ d.(Decision_Status).(Status_MatchedNodes) = d'.(Decision_Status).(Status_MatchedNodes)
  /\ d.(Decision_Status).(Status_PendingNodes) = d'.(Decision_Status).(Status_PendingNodes)
  /\ d.(Decision_Status).(Status_UnknownNodes) = d'.(Decision_Status).(Status_UnknownNodes)
  /\ d.(Decision_Status).(Status_RemediatedNodes) = d'.(Decision_Status).(Status_RemediatedNodes).
Proof. intros Hb Hb'. simpl. rewrite !Decide_closed by done. done. Qed.

(** a node of the scope without a signal (condition Unknown or unreported, and not what the
    policy triggers on) changes nothing for the others: with or without it, at any place of the
    list, the same nodes are tainted and untainted and the guard sees the same fraction.  A partial
    detector outage dilutes nothing. *)
Theorem Decide_no_signal_neutral p nodes1 n nodes2 now :
  in_bounds p (nodes1 ++ n :: nodes2) ->
  in_scope p n = true -> matching p n = false -> no_signal n = true ->
  let d := Decide p (nodes1 ++ n :: nodes2) now in
  let d' := Decide p (nodes1 ++ nodes2) now in
  d.(Decision_ApplyTaint) = d'.(Decision_ApplyTaint)
  /\ d.(Decision_RemoveTaint) = d'.(Decision_RemoveTaint)
  /\ d.(Decision_HeldMissingTimestamp) = d'.(Decision_HeldMissingTimestamp)
  /\ d.(Decision_RequeueAfter) = d'.(Decision_RequeueAfter)
  /\ d.(Decision_Status).(Status_GuardTripped) = d'.(Decision_Status).(Status_GuardTripped)
  /\ d.(Decision_Status).(Status_DeterminateCount) = d'.(Decision_Status).(Status_DeterminateCount)
  /\ n.(NodeFact_Name) ∈ d.(Decision_Status).(Status_UnknownNodes).
Proof.
  intros Hb Hs Hm Hu.
  assert (in_bounds p (nodes1 ++ nodes2)) as Hb'.
  { destruct Hb as [Hb ?]. split; [|done]. autorewrite with len in *. lia. }
  simpl. rewrite !Decide_closed by done.
  destruct (guard_no_signal p nodes1 n nodes2 Hs Hm Hu) as [Hg Hd].
  simpl. rewrite Hg, Hd, !scoped_app, scoped_cons, Hs. simpl.
  rewrite !names_app, !names_cons, !fmap_app, fmap_cons.
  destruct (no_signal_idle p (guard p (nodes1 ++ nodes2)) now n Hm Hu) as (-> & -> & -> & Hw).
  unfold left_scope at 2. rewrite Hs, Hm, Hu. simpl. split_and!; try done.
  - unfold least_positive. rewrite !filter_app, filter_cons, Hw. done.
  - set_solver.
Qed.

(** the status lists tell one story.  With distinct node names, what is tainted now is pending,
    pending is matched, matched is selected; held, Unknown and already remediated nodes are never
    pending, Unknown nodes never matched; and nothing is tainted and untainted in one pass, neither
    is a node without a transition time (a held one) or without a signal. *)
Theorem Decide_status_coherent p nodes now :
  in_bounds p nodes -> distinct_names nodes ->
  let d := Decide p nodes now in
  let s := d.(Decision_Status) in
  d.(Decision_ApplyTaint) ⊆ s.(Status_PendingNodes)
  /\ s.(Status_PendingNodes) ⊆ s.(Status_MatchedNodes)
  /\ s.(Status_MatchedNodes) ⊆ s.(Status_SelectedNodes)
  /\ s.(Status_UnknownNodes) ⊆ s.(Status_SelectedNodes)
  /\ s.(Status_RemediatedNodes) ⊆ s.(Status_SelectedNodes)
  /\ s.(Status_UnknownNodes) ## s.(Status_MatchedNodes)
  /\ s.(Status_PendingNodes) ## s.(Status_RemediatedNodes)
  /\ d.(Decision_HeldMissingTimestamp) ## s.(Status_PendingNodes)
  /\ d.(Decision_HeldMissingTimestamp) ## s.(Status_UnknownNodes)
  /\ d.(Decision_RemoveTaint) ## d.(Decision_ApplyTaint)
  /\ d.(Decision_RemoveTaint) ## d.(Decision_HeldMissingTimestamp)
  /\ d.(Decision_RemoveTaint) ## s.(Status_UnknownNodes).
Proof.
  intros Hb Hd. simpl. rewrite Decide_closed by done. simpl.
  assert (distinct_names (scoped p nodes)) as Hds by by apply distinct_scoped.
  split_and!.
  1-5: rewrite <- ?names_true; apply names_subseteq; intros n; node_cases n.
  1-4: apply names_disjoint; [done|]; intros n; node_cases n.
  all: intros x [Hx|Hx]%elem_of_app; revert x Hx; [by apply left_scope_disjoint|].
  all: apply names_disjoint; [done|]; intros n; node_cases n.
Qed.

(** C19: the requeue is the next moment the passing of time alone changes the decision.  With no
    requeue asked for, or before it is due, the same nodes are tainted and untainted at any later
    time; once it is due, some node is acted on that was not, and none is forgotten. *)
Theorem Decide_requeue_exact p nodes now t :
  in_bounds p nodes -> distinct_names nodes -> clock_in_range p nodes now -> now <= t ->
  let d := Decide p nodes now in
  let d' := Decide p nodes t in
  let r := d.(Decision_RequeueAfter) in
  (r = 0 \/ t < now + r ->
     d'.(Decision_ApplyTaint) = d.(Decision_ApplyTaint)
     /\ d'.(Decision_RemoveTaint) = d.(Decision_RemoveTaint))
  /\ (0 < r -> now + r <= t ->
     exists x, (x ∉ d.(Decision_ApplyTaint) ++ d.(Decision_RemoveTaint))
            /\ (x ∈ d'.(Decision_ApplyTaint) ++ d'.(Decision_RemoveTaint)))
  /\ d.(Decision_ApplyTaint) ⊆ d'.(Decision_ApplyTaint)
  /\ d.(Decision_RemoveTaint) ⊆ d'.(Decision_RemoveTaint).
Proof.
  intros Hb Hd Hc Ht. simpl. rewrite !Decide_closed by done. simpl.
  set (g := guard p nodes). pose proof (clock_in_range_scoped p nodes now Hc) as Hcs.
  destruct (names_later p g (scoped p nodes) now t Hcs Ht) as [Hal Hrl].
  split_and!; [| |done|set_solver].
  - intros Hr. destruct (names_until p g (scoped p nodes) now t Hcs Ht) as [-> ->]; [|done].
    intros n Hn Hw. pose proof (requeue_le_wait p g now (scoped p nodes) n Hcs Hn Hw). lia.
  - intros Hr Hle.
    destruct (least_positive_spec (wait p g now <$> scoped p nodes)) as [[? _]|(_ & Hin & _)]; [lia|].
    apply list_elem_of_fmap in Hin as (n & Hrn & [Hn Hs]%elem_of_scoped). rewrite Hrn in Hr, Hle.
    exists n.(NodeFact_Name). by apply (waiting_name_acted p g).
Qed.

End theorems.

(** ** Witnesses, on the fleet of [Fixtures.v] *)

#[local] Existing Instance Reference.reference_k8s.
#[local] Open Scope string_scope.
#[local] Open Scope list_scope.
#[local] Open Scope Z_scope.

Lemma fleet_in_bounds m : is_int32 m -> in_bounds (with_percent m basePolicy) fleet.
Proof. intros Hm. split; [by vm_compute | exact Hm]. Qed.

Lemma base_in_bounds : in_bounds basePolicy fleet.
Proof. apply (fleet_in_bounds 100). unfold is_int32. lia. Qed.

Lemma fleet_distinct : distinct_names fleet.
Proof. apply (bool_decide_unpack _). by vm_compute. Qed.

Lemma fleet_clock : clock_in_range basePolicy fleet t0.
Proof.
  split; [by vm_compute|]. split; [by vm_compute|]. unfold fleet.
  repeat apply List.Forall_cons; try apply List.Forall_nil;
    try (left; by vm_compute); right; by vm_compute.
Qed.

(** What the decision is on the fleet, with the guard off and with it tripped. *)
Example fleet_decision :
  let d := Decide basePolicy fleet t0 in
  d.(Decision_ApplyTaint) = ["n1"] /\ d.(Decision_RemoveTaint) = ["n10"; "n3"]
  /\ d.(Decision_HeldMissingTimestamp) = ["n6"; "n7"] /\ d.(Decision_RequeueAfter) = secs 20
  /\ d.(Decision_Status).(Status_UnknownNodes) = ["n5"]
  /\ d.(Decision_Status).(Status_DeterminateCount) = 8.
Proof. by vm_compute. Qed.

Example fleet_decision_tripped :
  let d := Decide (with_percent 49 basePolicy) fleet t0 in
  d.(Decision_ApplyTaint) = [] /\ d.(Decision_RemoveTaint) = ["n10"; "n3"]
  /\ d.(Decision_Status).(Status_GuardTripped) = true.
Proof. by vm_compute. Qed.

Lemma Decide_refines_reference_witness :
  in_bounds basePolicy fleet
  /\ Decide basePolicy fleet t0 = reference_decision basePolicy fleet t0.
Proof.
  split; [exact base_in_bounds|].
  exact (Decide_refines_reference basePolicy fleet t0 base_in_bounds).
Defined.

Lemma Decide_apply_iff_witness :
  in_bounds basePolicy fleet /\ "n1" ∈ (Decide basePolicy fleet t0).(Decision_ApplyTaint).
Proof.
  split; [exact base_in_bounds|].
  apply (Decide_apply_iff basePolicy fleet t0 "n1" base_in_bounds). split; [by vm_compute|].
  exists (newNode "n1" "True" 300 false). split; [by left|]. by vm_compute.
Defined.

Lemma Decide_remove_iff_witness :
  in_bounds basePolicy fleet /\ "n10" ∈ (Decide basePolicy fleet t0).(Decision_RemoveTaint)
  /\ "n5" ∉ (Decide basePolicy fleet t0).(Decision_RemoveTaint).
Proof.
  split; [exact base_in_bounds|]. split.
  - apply (Decide_remove_iff basePolicy fleet t0 "n10" base_in_bounds).
    exists (otherNode "n10" true). split; [do 9 right; by left|].
    split; [done|]. split; [done|]. left. by vm_compute.
  - apply (bool_decide_unpack _). by vm_compute.
Defined.

Lemma Decide_guard_exact_witness :
  let p := with_percent 49 basePolicy in
  in_bounds p fleet
  /\ (inject_Z 49 / inject_Z 100 < inject_Z 4 / inject_Z 8)%Q
  /\ (Decide p fleet t0).(Decision_Status).(Status_GuardTripped) = true.
Proof.
  assert (in_bounds (with_percent 49 basePolicy) fleet) as Hb
    by (apply fleet_in_bounds; unfold is_int32; lia).
  split; [exact Hb|]. split; [by vm_compute|].
  apply (Decide_guard_exact (with_percent 49 basePolicy) fleet t0 Hb). by vm_compute.
Defined.

Lemma Decide_blast_radius_witness :
  let d := Decide (with_percent 50 basePolicy) fleet t0 in
  in_bounds (with_percent 50 basePolicy) fleet /\ 0 <= 50 /\ d.(Decision_ApplyTaint) <> []
  /\ len d.(Decision_Status).(Status_MatchedNodes) * 100
     <= 50 * d.(Decision_Status).(Status_DeterminateCount).
Proof.
  assert (in_bounds (with_percent 50 basePolicy) fleet) as Hb
    by (apply fleet_in_bounds; unfold is_int32; lia).
  assert ((Decide (with_percent 50 basePolicy) fleet t0).(Decision_ApplyTaint) <> []) as Hne
    by by vm_compute.
  split; [exact Hb|]. split; [lia|]. split; [exact Hne|].
  apply (Decide_blast_radius (with_percent 50 basePolicy) fleet t0 Hb); [simpl; lia | exact Hne].
Defined.

Lemma Decide_guard_blocks_only_apply_witness :
  in_bounds basePolicy fleet /\ in_bounds (with_percent 0 basePolicy) fleet
  /\ (Decide basePolicy fleet t0).(Decision_RemoveTaint)
     = (Decide (with_percent 0 basePolicy) fleet t0).(Decision_RemoveTaint).
Proof.
  assert (in_bounds (with_percent 0 basePolicy) fleet) as Hb
    by (apply fleet_in_bounds; unfold is_int32; lia).
  split; [exact base_in_bounds|]. split; [exact Hb|].
  exact (proj1 (Decide_guard_blocks_only_apply basePolicy fleet t0 0 base_in_bounds Hb)).
Defined.

Lemma Decide_no_signal_neutral_witness :
  let n5 := newNode "n5" "Unknown" 300 true in
  fleet = take 4 fleet ++ n5 :: drop 5 fleet /\ in_bounds basePolicy fleet
  /\ in_scope basePolicy n5 = true /\ matching basePolicy n5 = false /\ no_signal n5 = true
  /\ (Decide basePolicy (take 4 fleet ++ n5 :: drop 5 fleet) t0).(Decision_ApplyTaint)
     = (Decide basePolicy (take 4 fleet ++ drop 5 fleet) t0).(Decision_ApplyTaint).
Proof.
  simpl. split; [done|]. split; [exact base_in_bounds|]. do 3 (split; [by vm_compute|]).
  exact (proj1 (Decide_no_signal_neutral basePolicy (take 4 fleet) (newNode "n5" "Unknown" 300 true)
           (drop 5 fleet) t0 base_in_bounds eq_refl eq_refl eq_refl)).
Defined.

Lemma Decide_status_coherent_witness :
  in_bounds basePolicy fleet /\ distinct_names fleet
  /\ (Decide basePolicy fleet t0).(Decision_Status).(Status_PendingNodes)
     ⊆ (Decide basePolicy fleet t0).(Decision_Status).(Status_MatchedNodes).
Proof.
  split; [exact base_in_bounds|]. split; [exact fleet_distinct|].
  exact (proj1 (proj2 (Decide_status_coherent basePolicy fleet t0 base_in_bounds fleet_distinct))).
Defined.

(** The first window of the fleet to close is n4's exit debounce, 20 seconds on. *)
Lemma Decide_requeue_exact_witness :
  in_bounds basePolicy fleet /\ distinct_names fleet /\ clock_in_range basePolicy fleet t0
  /\ (Decide basePolicy fleet t0).(Decision_RequeueAfter) = secs 20
  /\ (Decide basePolicy fleet (t0 + secs 19)).(Decision_RemoveTaint)
     = (Decide basePolicy fleet t0).(Decision_RemoveTaint)
  /\ exists x,
       (x ∉ (Decide basePolicy fleet t0).(Decision_ApplyTaint)
            ++ (Decide basePolicy fleet t0).(Decision_RemoveTaint))
       /\ (x ∈ (Decide basePolicy fleet (t0 + secs 20)).(Decision_ApplyTaint)
            ++ (Decide basePolicy fleet (t0 + secs 20)).(Decision_RemoveTaint)).
Proof.
  split; [exact base_in_bounds|]. split; [exact fleet_distinct|]. split; [exact fleet_clock|].
  split; [by vm_compute|]. split.
  - assert (t0 <= t0 + secs 19) as Ht by by vm_compute.
    refine (proj2 (proj1 (Decide_requeue_exact basePolicy fleet t0 (t0 + secs 19)
             base_in_bounds fleet_distinct fleet_clock Ht) _)). right. by vm_compute.
  - assert (t0 <= t0 + secs 20) as Ht by by vm_compute.
    refine (proj1 (proj2 (Decide_requeue_exact basePolicy fleet t0 (t0 + secs 20)
             base_in_bounds fleet_distinct fleet_clock Ht)) _ _); by vm_compute.
Defined.
