(* ===== verification/DecideBounds.v ===== *)
(** Bounds on a decision that hold for every input: any number of nodes, any clock, any percentage. *)

From S2P Require Import Prelude GoTime Types K8sLib Remediation DecideSpec Fixtures DecideProps.

Section bounds.
Context `{K : K8s}.
Implicit Types (pure : remediation.Policy) (nodes : list remediation.NodeFact).

(** ** The decision acts on each node at most once *)

(** Whatever the guard says, and with no bound on the sizes. *)
Lemma Decide_fields pure nodes now :
  exists g, let d := remediation.Decide pure nodes now in
    d.(remediation.Decision_ApplyTaint) = names (applies pure g now) (scoped pure nodes)
    /\ d.(remediation.Decision_RemoveTaint)
       = names (left_scope pure) nodes ++ names (removes pure now) (scoped pure nodes)
    /\ d.(remediation.Decision_HeldMissingTimestamp) = names (held pure) (scoped pure nodes)
    /\ d.(remediation.Decision_RequeueAfter) = least_positive (wait pure g now <$> scoped pure nodes)
    /\ d.(remediation.Decision_Status).(remediation.Status_DeterminateCount)
       = wrap64 (determinate_count pure nodes).
Proof.
  eexists. unfold remediation.Decide. cbv zeta.
  change (remediation.mkScope [] [] 0 0) with (remediation.mkScope [] [] (wrap64 0) (wrap64 0)).
  rewrite selection_loop.
  cbn [remediation.selected remediation.scopedOutTainted remediation.matchedCount
       remediation.determinateCount].
  rewrite !app_nil_l, action_loop, minPositive_loop. split_and!; reflexivity.
Qed.

Lemma one_reason pure g now n :
  (Z.of_nat (length (one (applies pure g now n) n)) + Z.of_nat (length (one (removes pure now n) n))
   + Z.of_nat (length (one (held pure n) n)) <= 1).
Proof.
  unfold one, applies, removes, held, recovering, pending, cleared.
  destruct (matching pure n), (tainted n), (untimed n), (no_signal n), g, (enter_elapsed pure now n),
    (exit_elapsed pure now n); simpl; lia.
Qed.

Lemma acted_scoped pure g now nodes :
  (length (names (applies pure g now) nodes) + length (names (removes pure now) nodes)
   + length (names (held pure) nodes) <= length nodes)%nat.
Proof.
  induction nodes as [|n nodes IH]; [done|]. rewrite !names_cons, !length_app.
  fold (one (applies pure g now n) n) (one (removes pure now n) n) (one (held pure n) n).
  pose proof (one_reason pure g now n). simpl. lia.
Qed.

Lemma scoped_split pure nodes :
  (length (names (left_scope pure) nodes) + length (scoped pure nodes) <= length nodes)%nat.
Proof.
  induction nodes as [|n nodes IH]; [done|]. rewrite names_cons, scoped_cons, !length_app.
  unfold left_scope at 1. destruct (in_scope pure n), (tainted n); simpl; lia.
Qed.

Lemma Decide_acts_once pure nodes now :
  let d := remediation.Decide pure nodes now in
  (length d.(remediation.Decision_ApplyTaint) + length d.(remediation.Decision_RemoveTaint)
   + length d.(remediation.Decision_HeldMissingTimestamp) <= length nodes)%nat.
Proof.
  destruct (Decide_fields pure nodes now) as (g & Ha & Hr & Hh & _). cbv zeta in *. rewrite Ha, Hr, Hh.
  rewrite length_app. pose proof (acted_scoped pure g now (scoped pure nodes)).
  pose proof (scoped_split pure nodes). lia.
Qed.

(** ** The requeue *)

Lemma wait_range pure g now n : is_int64 (wait pure g now n).
Proof.
  unfold wait, time.sub_duration. repeat case_test; auto with warden.
  unfold is_int64, int64_min, int64_max. lia.
Qed.

(** With windows that are not negative and no condition from the future, no wait is longer than its
    window. *)
Lemma wait_le pure g now n :
  0 <= pure.(remediation.Policy_DebounceEnter) <= int64_max ->
  0 <= pure.(remediation.Policy_DebounceExit) <= int64_max -> since n <= now ->
  wait pure g now n
  <= Z.max pure.(remediation.Policy_DebounceEnter) pure.(remediation.Policy_DebounceExit).
Proof.
  intros He Hx Hn. pose proof (time.Sub_range now (since n)) as Hs. unfold is_int64, int64_min in Hs.
  assert (0 <= stable_for now n) as Hp.
  { unfold stable_for, time.Sub, int64_min, int64_max. lia. }
  unfold stable_for in *. unfold wait, time.sub_duration, stable_for.
  assert (forall d, 0 <= d <= int64_max -> is_int64 (d - time.Sub now (since n))) as Hw.
  { unfold is_int64, int64_min, int64_max in *. lia. }
  rewrite !wrap64_id by auto. repeat case_test; lia.
Qed.

(** C18: For every input at all — any number of nodes, any clock, any percentage and windows, so with
    no assumption that the guard's arithmetic does not wrap — a node is acted on for one reason at
    most: the nodes to taint, to clear and held together are no more than the nodes observed.  The
    requeue is never negative and always an [int64], so it cannot cancel itself or overflow, and the
    reported denominator is an [int64].  With windows that are not negative and no transition time
    in the future, the requeue is no longer than the longer window: no pending node is looked at
    later than that. *)
Theorem Decide_bounds pure nodes now :
  let d := remediation.Decide pure nodes now in
  (length d.(remediation.Decision_ApplyTaint) + length d.(remediation.Decision_RemoveTaint)
   + length d.(remediation.Decision_HeldMissingTimestamp) <= length nodes)%nat
  /\ 0 <= d.(remediation.Decision_RequeueAfter) <= int64_max
  /\ is_int64 d.(remediation.Decision_Status).(remediation.Status_DeterminateCount)
  /\ (0 <= pure.(remediation.Policy_DebounceEnter) <= int64_max ->
      0 <= pure.(remediation.Policy_DebounceExit) <= int64_max ->
      Forall (fun n => since n <= now) nodes ->
      d.(remediation.Decision_RequeueAfter)
      <= Z.max pure.(remediation.Policy_DebounceEnter) pure.(remediation.Policy_DebounceExit)).
Proof.
  intros d. split; [apply Decide_acts_once|].
  destruct (Decide_fields pure nodes now) as (g & _ & _ & _ & Hq & Hd). fold d in Hq, Hd.
  rewrite Hq, Hd. split_and!; [| | |].
  - destruct (least_positive_spec (wait pure g now <$> scoped pure nodes)) as [[-> _]|[? _]]; lia.
  - destruct (least_positive_spec (wait pure g now <$> scoped pure nodes)) as [[-> _]|(_ & Hin & _)];
      [done|]. apply list_elem_of_fmap in Hin as (n & -> & _). apply wait_range.
  - auto with warden.
  - intros He Hx Hn.
    destruct (least_positive_spec (wait pure g now <$> scoped pure nodes)) as [[-> _]|(_ & Hin & _)]; [lia|].
    apply list_elem_of_fmap in Hin as (n & -> & [Hin _]%elem_of_scoped).
    rewrite Forall_forall in Hn. by apply wait_le; [| |apply Hn].
Qed.

End bounds.

#[local] Existing Instance Reference.reference_k8s.

Lemma Decide_bounds_witness :
  let d := remediation.Decide basePolicy fleet t0 in
  (length d.(remediation.Decision_ApplyTaint) + length d.(remediation.Decision_RemoveTaint)
   + length d.(remediation.Decision_HeldMissingTimestamp) = 5)%nat
  /\ d.(remediation.Decision_RequeueAfter) = secs 20
  /\ d.(remediation.Decision_RequeueAfter) <= secs 60.
Proof.
  intros d. split; [by vm_compute|]. split; [by vm_compute|].
  destruct (Decide_bounds basePolicy fleet t0) as (_ & _ & _ & Hmax).
  apply Hmax; [by vm_compute; split|by vm_compute; split|].
  unfold fleet. repeat apply List.Forall_cons; try apply List.Forall_nil; by vm_compute.
Defined.
