(* ===== verification/Predicate.v ===== *)
(** The watch predicates of [internal/predicate]: which Node updates wake the operator. *)

From S2P Require Import Prelude GoTime Types K8sLib.

Module predicate.

(** The object of an event: a [*corev1.Node], or an object of another type with its labels. *)
Inductive Object := NodeObject (n : corev1.Node) | OtherObject (labels : gmap string string).

(** [GetLabels]. *)
Definition labels_of (o : Object) : gmap string string :=
  match o with NodeObject n => n.(corev1.Node_Labels) | OtherObject labels => labels end.

Record UpdateEvent := mkUpdateEvent { ObjectOld : Object; ObjectNew : Object }.

(** A Go [map[string]bool] read at a key that may be absent. *)
Definition is_set (m : gmap string bool) (k : string) : bool := default false (m !! k).

(** [for k, v := range m { if P { changed[k] = true } }] *)
Definition mark_if {V} (P : string -> V -> bool) (m : gmap string V) (changed : gmap string bool) :
    gmap string bool :=
  map_fold (fun k v c => if P k v then <[k := true]> c else c) changed m.

(** ** Conditions *)
Section conditions.
Context `{K : K8s}.

Record conditionState := mkConditionState { status : string; hasTimestamp : bool }.

#[global] Instance conditionState_eq_dec : EqDecision conditionState.
Proof. solve_decision. Defined.

(** The zero value a missing key reads back as. *)
Definition zeroState : conditionState := mkConditionState EmptyString false.

Definition state_of_condition (c : corev1.NodeCondition) : conditionState :=
  mkConditionState c.(corev1.NodeCondition_Status)
    (negb (Time_IsZero (Some c.(corev1.NodeCondition_LastTransitionTime)))).

Definition conditionStateByType (conds : list corev1.NodeCondition) : gmap string conditionState :=
  foldl (fun m c => <[c.(corev1.NodeCondition_Type) := state_of_condition c]> m) ∅ conds.

Definition ChangedConditionTypes (oldConds newConds : list corev1.NodeCondition) : gmap string bool :=
  let oldState := conditionStateByType oldConds in
  let newState := conditionStateByType newConds in
  let changed :=
    mark_if (fun t s => negb (bool_decide (default zeroState (newState !! t) = s))) oldState ∅ in
  mark_if (fun t s => negb (bool_decide (default zeroState (oldState !! t) = s))) newState changed.

Definition ConditionStatusChanged (e : UpdateEvent) : bool :=
  match e.(ObjectOld), e.(ObjectNew) with
  | NodeObject oldNode, NodeObject newNode =>
      bool_decide (0 < size (ChangedConditionTypes oldNode.(corev1.Node_Conditions)
                               newNode.(corev1.Node_Conditions)))%nat
  | _, _ => false
  end.

End conditions.

(** ** Taints *)

Definition taintKeySet (taints : list corev1.Taint) : gmap string bool :=
  foldl (fun m t => <[t.(corev1.Taint_Key) := true]> m) ∅ taints.

Definition ChangedTaintKeys (oldTaints newTaints : list corev1.Taint) : gmap string bool :=
  let oldKeys := taintKeySet oldTaints in
  let newKeys := taintKeySet newTaints in
  let changed := mark_if (fun k _ => negb (is_set newKeys k)) oldKeys ∅ in
  mark_if (fun k _ => negb (is_set oldKeys k)) newKeys changed.

Definition TaintsChanged (e : UpdateEvent) : bool :=
  match e.(ObjectOld), e.(ObjectNew) with
  | NodeObject oldNode, NodeObject newNode =>
      bool_decide (0 < size (ChangedTaintKeys oldNode.(corev1.Node_Taints)
                               newNode.(corev1.Node_Taints)))%nat
  | _, _ => false
  end.

(** ** What the two maps stand for *)

Section spec.
Context `{K : K8s}.

(** The state a condition list gives a type: the last entry's, the zero state if there is none. *)
Definition condition_state (conds : list corev1.NodeCondition) (t : string) : conditionState :=
  foldl (fun s c => if decide (c.(corev1.NodeCondition_Type) = t) then state_of_condition c else s)
    zeroState conds.

Definition has_key (taints : list corev1.Taint) (k : string) : Prop :=
  exists t, t ∈ taints /\ t.(corev1.Taint_Key) = k.

(** Two condition lists that differ only in churn: the same types in any order, each with the same
    status and with or without a transition time alike; heartbeats and the times are free. *)
Definition only_churn (oldConds newConds : list corev1.NodeCondition) : Prop :=
  NoDup (corev1.NodeCondition_Type <$> oldConds) /\
  exists conds, conds ≡ₚ newConds /\
    Forall2 (fun c c' => c.(corev1.NodeCondition_Type) = c'.(corev1.NodeCondition_Type)
                      /\ state_of_condition c = state_of_condition c') oldConds conds.

(** ** Lemmas *)

Lemma lookup_mark_if {V} (P : string -> V -> bool) m changed k :
  mark_if P m changed !! k
  = if match m !! k with Some v => P k v | None => false end then Some true else changed !! k.
Proof.
  unfold mark_if. apply (map_fold_weak_ind (fun c m => c !! k
    = if match m !! k with Some v => P k v | None => false end then Some true else changed !! k)).
  - by rewrite lookup_empty.
  - intros i v m' c Hi IH. destruct (decide (i = k)) as [->|Hne].
    + rewrite lookup_insert_eq. rewrite Hi in IH. destruct (P k v); [apply lookup_insert_eq | done].
    + rewrite lookup_insert_ne by done. destruct (P i v); [by rewrite lookup_insert_ne|done].
Qed.

Lemma is_set_mark_if {V} (P : string -> V -> bool) m changed k :
  is_set (mark_if P m changed) k
  = match m !! k with Some v => P k v | None => false end || is_set changed k.
Proof.
  unfold is_set. rewrite lookup_mark_if. destruct (m !! k) as [v|]; [|done]. by destruct (P k v).
Qed.

Lemma mark_if_true {V} (P : string -> V -> bool) m changed k b :
  (forall k b, changed !! k = Some b -> b = true) -> mark_if P m changed !! k = Some b -> b = true.
Proof.
  rewrite lookup_mark_if. intros H. destruct (m !! k) as [v|]; [destruct (P k v)|]; naive_solver.
Qed.

(** A map that only holds [true] is non-empty exactly when some key is set. *)
Lemma size_pos_is_set (m : gmap string bool) :
  (forall k b, m !! k = Some b -> b = true) -> (0 < size m)%nat <-> exists k, is_set m k = true.
Proof.
  intros H. unfold is_set. split.
  - intros Hs. destruct (map_choose m) as (k & b & Hk); [intros ->; rewrite map_size_empty in Hs; lia|].
    exists k. rewrite Hk. by apply (H k).
  - intros [k Hk]. destruct (m !! k) as [b|] eqn:E; [|done].
    destruct (decide (size m = 0%nat)) as [Hz|]; [|lia].
    apply map_size_empty_inv in Hz. subst. by rewrite lookup_empty in E.
Qed.

Lemma lookup_conditionStateByType conds t :
  default zeroState (conditionStateByType conds !! t) = condition_state conds t.
Proof.
  unfold conditionStateByType, condition_state.
  assert (forall m : gmap string conditionState, default zeroState
    (foldl (fun m c => <[c.(corev1.NodeCondition_Type) := state_of_condition c]> m) m conds !! t)
    = foldl (fun s c => if decide (c.(corev1.NodeCondition_Type) = t) then state_of_condition c else s)
        (default zeroState (m !! t)) conds) as H.
  { induction conds as [|c conds IH]; intros m; [done|]. simpl. rewrite IH, lookup_insert.
    by case_decide. }
  rewrite H. by rewrite lookup_empty.
Qed.

Lemma is_set_ChangedConditionTypes oldConds newConds t :
  is_set (ChangedConditionTypes oldConds newConds) t = true
  <-> condition_state oldConds t <> condition_state newConds t.
Proof.
  unfold ChangedConditionTypes. rewrite !is_set_mark_if, <- !lookup_conditionStateByType.
  unfold is_set. rewrite lookup_empty. simpl. rewrite orb_false_r.
  destruct (conditionStateByType oldConds !! t), (conditionStateByType newConds !! t); simpl;
    rewrite ?orb_true_iff, ?orb_false_r, ?negb_true_iff, ?bool_decide_eq_false;
    naive_solver.
Qed.

Lemma ConditionStatusChanged_iff o n :
  ConditionStatusChanged (mkUpdateEvent (NodeObject o) (NodeObject n)) = true
  <-> exists t, condition_state o.(corev1.Node_Conditions) t
              <> condition_state n.(corev1.Node_Conditions) t.
Proof.
  unfold ConditionStatusChanged. simpl. rewrite bool_decide_eq_true, size_pos_is_set.
  - by setoid_rewrite is_set_ChangedConditionTypes.
  - intros k b. apply mark_if_true. intros k' b'. apply mark_if_true. by intros ??; rewrite lookup_empty.
Qed.

Lemma is_set_taintKeySet taints k : is_set (taintKeySet taints) k = true <-> has_key taints k.
Proof.
  unfold taintKeySet, has_key, is_set.
  assert (forall m : gmap string bool, default false
      (foldl (fun m t => <[t.(corev1.Taint_Key) := true]> m) m taints !! k) = true
    <-> (exists t, t ∈ taints /\ t.(corev1.Taint_Key) = k) \/ default false (m !! k) = true) as H.
  { induction taints as [|t taints IH]; intros m; simpl; [set_solver|].
    rewrite IH, lookup_insert. case_decide; set_solver. }
  rewrite H, lookup_empty. simpl. naive_solver.
Qed.

Lemma lookup_taintKeySet taints k v : taintKeySet taints !! k = Some v -> v = true.
Proof.
  unfold taintKeySet.
  assert (forall m : gmap string bool, (forall k v, m !! k = Some v -> v = true) ->
    forall k v, foldl (fun m t => <[t.(corev1.Taint_Key) := true]> m) m taints !! k = Some v
                -> v = true) as H.
  { induction taints as [|t taints IH]; intros m Hm; simpl; [done|].
    apply IH. intros k' v'. rewrite lookup_insert. case_decide; naive_solver. }
  apply H. by intros ??; rewrite lookup_empty.
Qed.

#[global] Instance has_key_dec taints k : Decision (has_key taints k).
Proof.
  refine (cast_if (decide (is_set (taintKeySet taints) k = true))); by rewrite <- is_set_taintKeySet.
Defined.

Lemma is_set_ChangedTaintKeys oldTaints newTaints k :
  is_set (ChangedTaintKeys oldTaints newTaints) k = true
  <-> ~ (has_key oldTaints k <-> has_key newTaints k).
Proof.
  unfold ChangedTaintKeys. rewrite !is_set_mark_if, <- !is_set_taintKeySet.
  pose proof (lookup_taintKeySet oldTaints k) as Ho. pose proof (lookup_taintKeySet newTaints k) as Hn.
  unfold is_set in *. rewrite lookup_empty. simpl. rewrite orb_false_r.
  destruct (taintKeySet oldTaints !! k) as [[]|], (taintKeySet newTaints !! k) as [[]|]; simpl;
    naive_solver.
Qed.

Lemma TaintsChanged_iff o n :
  TaintsChanged (mkUpdateEvent (NodeObject o) (NodeObject n)) = true
  <-> exists k, ~ (has_key o.(corev1.Node_Taints) k <-> has_key n.(corev1.Node_Taints) k).
Proof.
  unfold TaintsChanged. simpl. rewrite bool_decide_eq_true, size_pos_is_set.
  - by setoid_rewrite is_set_ChangedTaintKeys.
  - intros k b. apply mark_if_true. intros k' b'. apply mark_if_true. by intros ??; rewrite lookup_empty.
Qed.

(** With distinct types the state of a type does not depend on the order of the list. *)
Lemma condition_state_app conds conds' t :
  condition_state (conds ++ conds') t
  = foldl (fun s c => if decide (c.(corev1.NodeCondition_Type) = t) then state_of_condition c else s)
      (condition_state conds t) conds'.
Proof. unfold condition_state. apply foldl_app. Qed.

Lemma condition_state_fold conds t s :
  t ∉ corev1.NodeCondition_Type <$> conds ->
  foldl (fun s c => if decide (c.(corev1.NodeCondition_Type) = t) then state_of_condition c else s)
    s conds = s.
Proof.
  revert s. induction conds as [|c conds IH]; intros s; [done|].
  rewrite fmap_cons, not_elem_of_cons. intros [Hc Ht]. simpl. rewrite decide_False by done. auto.
Qed.

Lemma condition_state_elem conds c :
  NoDup (corev1.NodeCondition_Type <$> conds) -> c ∈ conds ->
  condition_state conds c.(corev1.NodeCondition_Type) = state_of_condition c.
Proof.
  intros Hd (l1 & l2 & ->)%list_elem_of_split. rewrite fmap_app, fmap_cons in Hd.
  apply NoDup_app in Hd as (_ & _ & [Hc _]%NoDup_cons).
  rewrite condition_state_app. simpl. rewrite decide_True by done. by apply condition_state_fold.
Qed.

Lemma condition_state_absent conds t :
  t ∉ corev1.NodeCondition_Type <$> conds -> condition_state conds t = zeroState.
Proof. apply condition_state_fold. Qed.

Lemma condition_state_perm conds conds' t :
  conds ≡ₚ conds' -> NoDup (corev1.NodeCondition_Type <$> conds) ->
  condition_state conds t = condition_state conds' t.
Proof.
  intros Hp Hd. assert (NoDup (corev1.NodeCondition_Type <$> conds')) as Hd' by by rewrite <- Hp.
  destruct (decide (t ∈ corev1.NodeCondition_Type <$> conds)) as [Ht|Ht].
  - apply list_elem_of_fmap in Ht as (c & -> & Hc).
    assert (c ∈ conds') as Hc' by by rewrite <- Hp. by rewrite !condition_state_elem.
  - assert (t ∉ corev1.NodeCondition_Type <$> conds') as Ht' by by rewrite <- Hp.
    by rewrite !condition_state_absent.
Qed.

Lemma condition_state_churn oldConds newConds t :
  only_churn oldConds newConds -> condition_state oldConds t = condition_state newConds t.
Proof.
  intros (Hd & conds & Hp & Hf).
  assert (condition_state oldConds t = condition_state conds t) as ->.
  { unfold condition_state. generalize zeroState. clear Hd Hp.
    induction Hf as [|c c' l l' [Ht Hs] _ IH]; intros z; [done|]. simpl. rewrite Ht, Hs. apply IH. }
  apply condition_state_perm; [done|].
  assert (corev1.NodeCondition_Type <$> conds = corev1.NodeCondition_Type <$> oldConds) as ->; [|done].
  clear Hd Hp. induction Hf as [|c c' l l' [Ht _] _ IH]; [done|]. by rewrite !fmap_cons, IH, Ht.
Qed.

End spec.
End predicate.
