(* ===== verification/Project.v ===== *)
(** The pure half of the shell, from [internal/controller/noderemediationpolicy_controller.go]:
    the projection of the custom resource and of the nodes into the core's types, and the
    projection of a decision back into the resource's status. *)

From S2P Require Import Prelude GoTime Types K8sLib PolicyApi Remediation.

Module project.
Section project.
Context `{K : K8s}.

(** ** The policy *)

Definition nodeSelector (p : v1alpha1.NodeRemediationPolicy) : error + Selector :=
  match p.(v1alpha1.Spec).(v1alpha1.Spec_NodeSelector) with
  | None => inr Everything
  | Some s => LabelSelectorAsSelector s
  end.

Definition taintFromSpec (t : corev1.Taint) : remediation.Taint :=
  {| remediation.Taint_Key := t.(corev1.Taint_Key);
     remediation.Taint_Value := t.(corev1.Taint_Value);
     remediation.Taint_Effect := t.(corev1.Taint_Effect) |}.

(** The zero [remediation.Taint] a policy without a taint is projected with. *)
Definition zeroTaint : remediation.Taint := remediation.mkTaint EmptyString EmptyString EmptyString.

Definition projectPolicy (p : v1alpha1.NodeRemediationPolicy) : error + remediation.Policy :=
  match nodeSelector p with
  | inl err =>
      inl (errors.Wrap errors.ErrProjectPolicy [("policy"%string, v1alpha1.Name p)] err)
  | inr selector =>
      let spec := p.(v1alpha1.Spec) in
      let taint := match spec.(v1alpha1.Spec_Remediations).(v1alpha1.Remediations_Taint) with
                   | Some t => taintFromSpec t
                   | None => zeroTaint
                   end in
      inr {| remediation.Policy_Selector := Some selector;
             remediation.Policy_ConditionType :=
               spec.(v1alpha1.Spec_Condition).(v1alpha1.ConditionMatch_Type);
             remediation.Policy_ConditionStatus :=
               defaults.StatusOrDefault spec.(v1alpha1.Spec_Condition);
             remediation.Policy_Taint := taint;
             remediation.Policy_DebounceEnter :=
               defaults.EnterOrDefault spec.(v1alpha1.Spec_Debounce);
             remediation.Policy_DebounceExit :=
               defaults.ExitOrDefault spec.(v1alpha1.Spec_Debounce);
             remediation.Policy_MaxAffectedPercent :=
               defaults.MaxAffectedPercentOrDefault spec.(v1alpha1.Spec_Guard) |}
  end.

(** ** The nodes *)

Fixpoint hasKey (taints : list corev1.Taint) (key : string) : bool :=
  match taints with
  | [] => false
  | t :: taints' => if decide (t.(corev1.Taint_Key) = key) then true else hasKey taints' key
  end.

Definition hasTaintKey (node : corev1.Node) (key : string) : bool :=
  hasKey node.(corev1.Node_Taints) key.

(** The first condition of the watched type; the zero fact when there is none. *)
Fixpoint observeCondition (conds : list corev1.NodeCondition) (type : string) :
    remediation.ConditionFact :=
  match conds with
  | [] => remediation.mkConditionFact EmptyString time.zero
  | c :: conds' =>
      if decide (c.(corev1.NodeCondition_Type) = type)
      then remediation.mkConditionFact c.(corev1.NodeCondition_Status)
             c.(corev1.NodeCondition_LastTransitionTime)
      else observeCondition conds' type
  end.

Definition observeNode (p : remediation.Policy) (n : corev1.Node) : remediation.NodeFact :=
  {| remediation.NodeFact_Name := n.(corev1.Node_Name);
     remediation.NodeFact_Labels := n.(corev1.Node_Labels);
     remediation.NodeFact_Condition :=
       observeCondition n.(corev1.Node_Conditions) p.(remediation.Policy_ConditionType);
     remediation.NodeFact_HasTaint :=
       hasTaintKey n p.(remediation.Policy_Taint).(remediation.Taint_Key) |}.

(** One iteration: the fact appended, the node indexed under its name. *)
Definition observeStep (p : remediation.Policy)
    (acc : list remediation.NodeFact * gmap string corev1.Node) (n : corev1.Node) :
    list remediation.NodeFact * gmap string corev1.Node :=
  (acc.1 ++ [observeNode p n], <[n.(corev1.Node_Name) := n]> acc.2).

Definition observeNodes (nodes : list corev1.Node) (p : remediation.Policy) :
    list remediation.NodeFact * gmap string corev1.Node :=
  foldl (observeStep p) ([], ∅) nodes.

(** ** The status *)

(** The six in-place sorts: the caller's decision shares the arrays, so it is sorted too. *)
Definition sortDecision (d : remediation.Decision) : remediation.Decision :=
  let s := d.(remediation.Decision_Status) in
  {| remediation.Decision_ApplyTaint := d.(remediation.Decision_ApplyTaint);
     remediation.Decision_RemoveTaint := d.(remediation.Decision_RemoveTaint);
     remediation.Decision_HeldMissingTimestamp :=
       sort_strings d.(remediation.Decision_HeldMissingTimestamp);
     remediation.Decision_RequeueAfter := d.(remediation.Decision_RequeueAfter);
     remediation.Decision_Status :=
       {| remediation.Status_SelectedNodes := sort_strings s.(remediation.Status_SelectedNodes);
          remediation.Status_MatchedNodes := sort_strings s.(remediation.Status_MatchedNodes);
          remediation.Status_PendingNodes := sort_strings s.(remediation.Status_PendingNodes);
          remediation.Status_UnknownNodes := sort_strings s.(remediation.Status_UnknownNodes);
          remediation.Status_RemediatedNodes := sort_strings s.(remediation.Status_RemediatedNodes);
          remediation.Status_GuardTripped := s.(remediation.Status_GuardTripped);
          remediation.Status_DeterminateCount := s.(remediation.Status_DeterminateCount) |} |}.

(** The six list and six count assignments, from the sorted decision. *)
Definition assignStatus (p : v1alpha1.NodeRemediationPolicy) (d : remediation.Decision) :
    v1alpha1.NodeRemediationPolicy :=
  let s := d.(remediation.Decision_Status) in
  let count l := wrap32 (len l) in
  v1alpha1.set_Status p
    {| v1alpha1.Status_SelectedNodes := s.(remediation.Status_SelectedNodes);
       v1alpha1.Status_MatchedNodes := s.(remediation.Status_MatchedNodes);
       v1alpha1.Status_PendingNodes := s.(remediation.Status_PendingNodes);
       v1alpha1.Status_UnknownNodes := s.(remediation.Status_UnknownNodes);
       v1alpha1.Status_HeldNodes := d.(remediation.Decision_HeldMissingTimestamp);
       v1alpha1.Status_RemediatedNodes := s.(remediation.Status_RemediatedNodes);
       v1alpha1.Status_SelectedCount := count s.(remediation.Status_SelectedNodes);
       v1alpha1.Status_MatchedCount := count s.(remediation.Status_MatchedNodes);
       v1alpha1.Status_PendingCount := count s.(remediation.Status_PendingNodes);
       v1alpha1.Status_UnknownCount := count s.(remediation.Status_UnknownNodes);
       v1alpha1.Status_HeldCount := count d.(remediation.Decision_HeldMissingTimestamp);
       v1alpha1.Status_RemediatedCount := count s.(remediation.Status_RemediatedNodes);
       v1alpha1.Status_Conditions := p.(v1alpha1.Status).(v1alpha1.Status_Conditions) |}.

(** The switch that publishes the one Remediating condition. *)
Definition markDecision (now : time.Time) (p : v1alpha1.NodeRemediationPolicy)
    (d : remediation.Decision) : v1alpha1.NodeRemediationPolicy :=
  let s := d.(remediation.Decision_Status) in
  let remediated := len s.(remediation.Status_RemediatedNodes) in
  let pending := len s.(remediation.Status_PendingNodes) in
  let held := len d.(remediation.Decision_HeldMissingTimestamp) in
  let unknown := len s.(remediation.Status_UnknownNodes) in
  if s.(remediation.Status_GuardTripped) then status.MarkGuardTripped now p remediated
  else if 0 <? remediated then status.MarkNodesRemediated now p remediated
  else if 0 <? pending then status.MarkPending now p pending
  else if (0 <? held) || (0 <? unknown) then status.MarkHeld now p (wrap64 (held + unknown))
  else status.MarkNoRemediation now p.

(** [writeStatus]: the policy with its new status, and the decision as the caller sees it after. *)
Definition writeStatus (now : time.Time) (p : v1alpha1.NodeRemediationPolicy)
    (d : remediation.Decision) : v1alpha1.NodeRemediationPolicy * remediation.Decision :=
  let d := sortDecision d in
  (markDecision now (assignStatus p d) d, d).

End project.
End project.
