(* ===== verification/ProjectProps.v ===== *)
(** The theorems about the projections: what the core sees of a policy and of a node, and what a
    status says of a decision. *)

From S2P Require Import Prelude GoTime Types K8sLib PolicyApi Remediation DecideSpec Fixtures.
From S2P Require Import DecideProps Predicate Project.
Import project.

(** The reason a decision is published with: the first state that applies. *)
Definition decision_reason (d : remediation.Decision) : string :=
  let s := d.(remediation.Decision_Status) in
  if s.(remediation.Status_GuardTripped) then status.ReasonGuardTripped
  else if bool_decide (s.(remediation.Status_RemediatedNodes) <> []) then status.ReasonNodesRemediated
  else if bool_decide (s.(remediation.Status_PendingNodes) <> []) then status.ReasonPending
  else if bool_decide (d.(remediation.Decision_HeldMissingTimestamp) <> []
                       \/ s.(remediation.Status_UnknownNodes) <> []) then status.ReasonHeld
  else status.ReasonNoRemediation.

(** Every list of the decision has a length an [int32] can hold. *)
Definition reportable (d : remediation.Decision) : Prop :=
  let s := d.(remediation.Decision_Status) in
  Forall (fun l => len l <= 2 ^ 31 - 1)
    [ s.(remediation.Status_SelectedNodes); s.(remediation.Status_MatchedNodes);
      s.(remediation.Status_PendingNodes); s.(remediation.Status_UnknownNodes);
      d.(remediation.Decision_HeldMissingTimestamp); s.(remediation.Status_RemediatedNodes) ].

Section lemmas.
Context `{K : K8s} `{L : !K8sLaws K}.
Implicit Types (d e : remediation.Decision).

(** ** Nodes *)

Lemma hasKey_iff taints k : hasKey taints k = true <-> predicate.has_key taints k.
Proof.
  unfold predicate.has_key. induction taints as [|t taints IH]; simpl; [set_solver|].
  case_decide; [set_solver|]. rewrite IH. set_solver.
Qed.

Lemma observeNodes_facts nodes p : (observeNodes nodes p).1 = observeNode p <$> nodes.
Proof.
  unfold observeNodes.
  assert (forall acc, (foldl (observeStep p) acc nodes).1 = acc.1 ++ (observeNode p <$> nodes)) as H.
  { induction nodes as [|n nodes IH]; intros acc; simpl; [by rewrite app_nil_r|].
    rewrite IH. unfold observeStep. simpl. by rewrite <- app_assoc. }
  apply H.
Qed.

(** The index has exactly the names of the list, each with a node of that name. *)
Lemma observeNodes_byName nodes p x n :
  (observeNodes nodes p).2 !! x = Some n -> n ∈ nodes /\ n.(corev1.Node_Name) = x.
Proof.
  unfold observeNodes.
  assert (forall acc, (foldl (observeStep p) acc nodes).2 !! x = Some n ->
    (n ∈ nodes /\ n.(corev1.Node_Name) = x) \/ acc.2 !! x = Some n) as H.
  { induction nodes as [|n0 nodes IH]; intros acc; simpl; [by right|].
    intros [[??]|Hm]%IH; [left; set_solver|]. unfold observeStep in Hm. simpl in Hm.
    rewrite lookup_insert in Hm. case_decide; [left; set_solver | by right]. }
  intros [?|Hm]%H; [done|]. simpl in Hm. by rewrite lookup_empty in Hm.
Qed.

Lemma observeNodes_byName_Some nodes p n :
  n ∈ nodes -> is_Some ((observeNodes nodes p).2 !! n.(corev1.Node_Name)).
Proof.
  unfold observeNodes. intros Hn.
  assert (forall acc, n ∈ nodes \/ is_Some (acc.2 !! n.(corev1.Node_Name)) ->
    is_Some ((foldl (observeStep p) acc nodes).2 !! n.(corev1.Node_Name))) as H; [|apply H; by left].
  clear Hn. induction nodes as [|n0 nodes IH]; intros acc; simpl; [set_solver|].
  intros Hn. apply IH. unfold observeStep. simpl. rewrite lookup_insert.
  case_decide; [by right; eauto|]. set_solver.
Qed.

(** With one entry per type, the condition the core sees is the state the predicates compare. *)
Lemma observeCondition_state conds t :
  NoDup (corev1.NodeCondition_Type <$> conds) ->
  predicate.condition_state conds t =
    predicate.mkConditionState (observeCondition conds t).(remediation.ConditionFact_Status)
      (negb (time.IsZero (observeCondition conds t).(remediation.ConditionFact_LastTransition))).
Proof.
  induction conds as [|c conds IH]; intros Hd; [done|].
  rewrite fmap_cons, NoDup_cons in Hd. destruct Hd as [Hc Hd].
  unfold predicate.condition_state. simpl. case_decide as Ht.
  - subst. rewrite predicate.condition_state_fold by done.
    unfold predicate.state_of_condition. by rewrite Time_IsZero_spec.
  - by apply IH.
Qed.

(** ** Status *)

Lemma sort_strings_idem (l k : list string) : l ≡ₚ k -> sort_strings k = sort_strings l.
Proof. intros H. by apply sort_strings_unique. Qed.

Lemma sortDecision_proper d e :
  same_decision d e ->
  (sortDecision d).(remediation.Decision_HeldMissingTimestamp)
    = (sortDecision e).(remediation.Decision_HeldMissingTimestamp)
  /\ (sortDecision d).(remediation.Decision_Status) = (sortDecision e).(remediation.Decision_Status).
Proof.
  intros (_ & _ & Hh & _ & Hs & Hm & Hp & Hu & Hr & Hg & Hc). unfold sortDecision. simpl.
  split; [by apply sort_strings_unique|].
  by rewrite (sort_strings_unique _ _ Hs), (sort_strings_unique _ _ Hm), (sort_strings_unique _ _ Hp),
    (sort_strings_unique _ _ Hu), (sort_strings_unique _ _ Hr), Hg, Hc.
Qed.

(** What the decision's condition says, as the arguments of [setRemediatingCondition]. *)
Definition mark_message d : string * string :=
  let s := d.(remediation.Decision_Status) in
  let remediated := len s.(remediation.Status_RemediatedNodes) in
  let pending := len s.(remediation.Status_PendingNodes) in
  let held := len d.(remediation.Decision_HeldMissingTimestamp) in
  let unknown := len s.(remediation.Status_UnknownNodes) in
  if s.(remediation.Status_GuardTripped) then
    (metav1.ConditionFalse, "guard tripped: too many matching nodes; holding new remediations, "
       +:+ pretty remediated +:+ " node(s) currently remediated")
  else if 0 <? remediated then
    (metav1.ConditionTrue, pretty remediated +:+ " node(s) remediated")
  else if 0 <? pending then
    (metav1.ConditionFalse,
     pretty pending +:+ " node(s) awaiting the debounce window before remediation")
  else if (0 <? held) || (0 <? unknown) then
    (metav1.ConditionFalse, pretty (wrap64 (held + unknown))
     +:+ " node(s) held pending a usable condition signal (missing lastTransitionTime or unknown status)")
  else (metav1.ConditionFalse, "no nodes require remediation")%string.

Lemma bool_decide_ne_nil {A} `{EqDecision A} (l : list A) : bool_decide (l <> []) = (0 <? len l).
Proof. destruct l; case_bool_decide; try done; unfold len; simpl; naive_solver lia. Qed.

Lemma markDecision_eq now p d :
  markDecision now p d
  = status.setRemediatingCondition now p (mark_message d).1 (decision_reason d) (mark_message d).2.
Proof.
  unfold markDecision, mark_message, decision_reason.
  rewrite bool_decide_or, !bool_decide_ne_nil. by repeat case_test.
Qed.

Lemma sortDecision_reason d : decision_reason (sortDecision d) = decision_reason d.
Proof.
  unfold decision_reason, sortDecision. simpl.
  by rewrite !bool_decide_or, !bool_decide_ne_nil, !sort_strings_len.
Qed.

Lemma mark_status_True d :
  (mark_message d).1 = metav1.ConditionTrue <-> decision_reason d = status.ReasonNodesRemediated.
Proof.
  unfold mark_message, decision_reason. rewrite bool_decide_or, !bool_decide_ne_nil.
  by repeat case_test.
Qed.

(** A second write of the same decision, up to order, changes nothing. *)
Lemma writeStatus_same now now' p d e :
  same_decision d e ->
  let p' := (writeStatus now p d).1 in
  (writeStatus now' p' e).1 = p'.
Proof.
  intros Hde. simpl. rewrite !markDecision_eq.
  destruct (sortDecision_proper d e Hde) as [Hh Hs].
  assert (forall q, mark_message (sortDecision e) = mark_message (sortDecision d)
    /\ decision_reason (sortDecision e) = decision_reason (sortDecision d)
    /\ assignStatus q (sortDecision e) = assignStatus q (sortDecision d)) as Heq.
  { intros q. unfold mark_message, decision_reason, assignStatus. by rewrite Hh, Hs. }
  set (p1 := status.setRemediatingCondition now _ _ _ _).
  destruct (Heq p1) as (-> & -> & ->).
  assert (assignStatus p1 (sortDecision d) = p1) as -> by done.
  apply status.setRemediatingCondition_idem.
Qed.

End lemmas.

(** ** Theorems *)
Section theorems.
Context `{K : K8s} `{L : !K8sLaws K}.
Implicit Types (p : v1alpha1.NodeRemediationPolicy) (d e : remediation.Decision).

(** C31: the status reports the decision: each node list sorted and complete, each count the length
    of its list, and one Remediating condition whose reason is the first of guard tripped, nodes
    remediated, pending, held and idle that holds, True exactly when nodes are remediated, stamped
    with the policy's generation.  Other conditions, the spec and the metadata are untouched. *)
Theorem writeStatus_reports now p d :
  reportable d ->
  let p' := (writeStatus now p d).1 in
  let s := p'.(v1alpha1.Status) in
  let ds := d.(remediation.Decision_Status) in
  Forall (fun '(reported, n, decided) =>
      Sorted String.le reported /\ reported ≡ₚ decided /\ n = len decided)
    [ (s.(v1alpha1.Status_SelectedNodes), s.(v1alpha1.Status_SelectedCount),
       ds.(remediation.Status_SelectedNodes));
      (s.(v1alpha1.Status_MatchedNodes), s.(v1alpha1.Status_MatchedCount),
       ds.(remediation.Status_MatchedNodes));
      (s.(v1alpha1.Status_PendingNodes), s.(v1alpha1.Status_PendingCount),
       ds.(remediation.Status_PendingNodes));
      (s.(v1alpha1.Status_UnknownNodes), s.(v1alpha1.Status_UnknownCount),
       ds.(remediation.Status_UnknownNodes));
      (s.(v1alpha1.Status_HeldNodes), s.(v1alpha1.Status_HeldCount),
       d.(remediation.Decision_HeldMissingTimestamp));
      (s.(v1alpha1.Status_RemediatedNodes), s.(v1alpha1.Status_RemediatedCount),
       ds.(remediation.Status_RemediatedNodes)) ]
  /\ (exists c, FindStatusCondition s.(v1alpha1.Status_Conditions) status.ConditionRemediating = Some c
      /\ c.(metav1.Condition_Reason) = decision_reason d
      /\ (c.(metav1.Condition_Status) = metav1.ConditionTrue
          <-> decision_reason d = status.ReasonNodesRemediated)
      /\ c.(metav1.Condition_ObservedGeneration)
         = p.(v1alpha1.ObjectMeta).(metav1.ObjectMeta_Generation))
  /\ (forall ty, ty <> status.ConditionRemediating ->
      FindStatusCondition s.(v1alpha1.Status_Conditions) ty
      = FindStatusCondition p.(v1alpha1.Status).(v1alpha1.Status_Conditions) ty)
  /\ p'.(v1alpha1.Spec) = p.(v1alpha1.Spec) /\ p'.(v1alpha1.ObjectMeta) = p.(v1alpha1.ObjectMeta).
Proof.
  intros Hr. unfold writeStatus. simpl. rewrite markDecision_eq.
  split; [|split; [|split]]; [| | |done].
  - unfold reportable in Hr. simpl in Hr. rewrite !Forall_cons in Hr. crush_and.
    repeat apply List.Forall_cons; try apply List.Forall_nil; simpl;
      (split; [apply sort_strings_sorted|]; split; [apply sort_strings_perm|]);
      rewrite sort_strings_len; apply wrap32_id; unfold is_int32;
      match goal with |- context [len ?l] => pose proof (len_nonneg l) end; lia.
  - edestruct status.setRemediatingCondition_find as (c & Hc & Hcc). exists c.
    split; [exact Hc|]. unfold status.remediating_content, condition_content in Hcc.
    injection Hcc as _ Hst Hg Hre _. rewrite Hre, sortDecision_reason.
    split; [done|]. split; [|done]. rewrite Hst, <- sortDecision_reason. apply mark_status_True.
  - intros ty Hty. by rewrite status.setRemediatingCondition_other.
Qed.

End theorems.

(** ** Witnesses *)
#[local] Existing Instance Reference.reference_k8s.

(** The decision of [Fixtures.fleet]. *)
Definition fleet_d : remediation.Decision := remediation.Decide basePolicy fleet t0.

Lemma fleet_reportable : reportable fleet_d.
Proof. by repeat apply List.Forall_cons; try apply List.Forall_nil; vm_compute. Qed.

Lemma writeStatus_reports_witness :
  reportable fleet_d
  /\ (writeStatus t0 wp_policy fleet_d).1.(v1alpha1.Spec) = wp_policy.(v1alpha1.Spec).
Proof.
  split; [exact fleet_reportable|].
  exact (proj1 (proj2 (proj2 (proj2 (writeStatus_reports t0 wp_policy fleet_d fleet_reportable))))).
Defined.
