(* ===== verification/Effects.v ===== *)
(** The operator's interaction with the cluster.  A program is a finite tree of calls and
    continuations ([prog]); what it did is a trace of calls with the answers they got ([exec]), for
    answers of any kind, so a property of all traces holds whatever the API server, the cache and
    other writers do.  [run] executes a program against one handler; [run_exec] relates the two. *)

From S2P Require Import Prelude GoTime Types K8sLib.
From Stdlib Require Import QArith.
#[local] Open Scope Z_scope.

(** ** Calls *)

(** An argument of a log line or of an event's format string. *)
Inductive arg := ArgString (s : string) | ArgInt (z : Z) | ArgError (e : error).

(** The object an event is about or related to. *)
Inductive event_object :=
  | PolicyObject (p : v1alpha1.NodeRemediationPolicy)
  | NodeObject (n : corev1.Node).

(** The arguments of [Recorder.Eventf]; formatting is the recorder's. *)
Record event_record := mkEvent {
  regarding : event_object;
  related : option event_object;
  eventtype : string;
  reason : string;
  action : string;
  note : string;
  args : list arg;
}.

Record log_record := mkLog { log_error : option error; log_msg : string; log_kv : list (string * arg) }.

(** [Get], [List], [Update] and [Patch] of the cached client [r.Client], [Get] and [List] of the
    uncached [APIReader], the clock, the event recorder, the logger and the work queue. *)
Inductive Call :=
  | GetPolicy (name : string)
  | ListNodes
  | ListPolicies
  | UpdatePolicy (p : v1alpha1.NodeRemediationPolicy)
  | PatchPolicyStatus (modified original : v1alpha1.NodeRemediationPolicy)
  | PatchNode (modified original : corev1.Node)
  | ReaderGetNode (name : string)
  | ReaderListNodes
  | ReaderListPolicies
  | Now
  | Eventf (e : event_record)
  | Log (l : log_record)
  | Enqueue (name : string).

(** What each call returns; [PatchNode] is a strategic merge patch with an optimistic lock, so it
    carries the resource version of [original]. *)
Definition Answer (c : Call) : Type :=
  match c with
  | GetPolicy _ => error + v1alpha1.NodeRemediationPolicy
  | ListNodes | ReaderListNodes => error + list corev1.Node
  | ListPolicies | ReaderListPolicies => error + list v1alpha1.NodeRemediationPolicy
  | UpdatePolicy _ => error + v1alpha1.NodeRemediationPolicy
  | PatchPolicyStatus _ _ | PatchNode _ _ => option error
  | ReaderGetNode _ => error + corev1.Node
  | Now => time.Time
  | Eventf _ | Log _ | Enqueue _ => unit
  end.

(** ** Programs *)

Inductive prog (A : Type) :=
  | Ret (a : A)
  | Step (c : Call) (k : Answer c -> prog A).
Arguments Ret {A} _.
Arguments Step {A} _ _.

Fixpoint prog_bind {A B} (f : A -> prog B) (m : prog A) : prog B :=
  match m with
  | Ret a => f a
  | Step c k => Step c (fun x => prog_bind f (k x))
  end.

#[global] Instance prog_mret : MRet prog := @Ret.
#[global] Instance prog_mbind : MBind prog := @prog_bind.

Definition call (c : Call) : prog (Answer c) := Step c Ret.

(** [for _, x := range l { body }], threading the loop's variables. *)
Fixpoint forEach {A S} (body : S -> A -> prog S) (s : S) (l : list A) : prog S :=
  match l with
  | [] => mret s
  | x :: l' => s' ← body s x; forEach body s' l'
  end.

(** ** Traces *)

Record event := Ev { ev_call : Call; ev_answer : Answer ev_call }.
Definition trace := list event.

(** [exec m tr a]: answered as in [tr], the program makes exactly the calls of [tr] and returns [a]. *)
Fixpoint exec {A} (m : prog A) (tr : trace) (a : A) : Prop :=
  match m with
  | Ret x => tr = [] /\ x = a
  | Step c k => exists x tr', tr = Ev c x :: tr' /\ exec (k x) tr' a
  end.

(** The observations the theorems are stated with. *)
Definition patches (tr : trace) : list (corev1.Node * corev1.Node * option error) :=
  omap (fun e => match e return option (corev1.Node * corev1.Node * option error)
                   with Ev (PatchNode m o) r => Some (m, o, r) | _ => None end) tr.
Definition node_reads (tr : trace) : list (string * (error + corev1.Node)) :=
  omap (fun e => match e return option (string * (error + corev1.Node))
                   with Ev (ReaderGetNode n) r => Some (n, r) | _ => None end) tr.
Definition node_lists (tr : trace) : list (error + list corev1.Node) :=
  omap (fun e => match e return option (error + list corev1.Node)
                   with Ev ReaderListNodes r => Some r | _ => None end) tr.
Definition updates (tr : trace) :
    list (v1alpha1.NodeRemediationPolicy * (error + v1alpha1.NodeRemediationPolicy)) :=
  omap (fun e => match e return option (v1alpha1.NodeRemediationPolicy * (error + v1alpha1.NodeRemediationPolicy))
                   with Ev (UpdatePolicy p) r => Some (p, r) | _ => None end) tr.
Definition status_patches (tr : trace) :
    list (v1alpha1.NodeRemediationPolicy * v1alpha1.NodeRemediationPolicy * option error) :=
  omap (fun e => match e return option (v1alpha1.NodeRemediationPolicy * v1alpha1.NodeRemediationPolicy * option error)
                   with Ev (PatchPolicyStatus m o) r => Some (m, o, r) | _ => None end) tr.
Definition emitted (tr : trace) : list event_record :=
  omap (fun e => match e with Ev (Eventf r) _ => Some r | _ => None end) tr.
Definition enqueued (tr : trace) : list string :=
  omap (fun e => match e with Ev (Enqueue n) _ => Some n | _ => None end) tr.

(** A call that changes an object of the cluster. *)
Definition is_write (e : event) : bool :=
  match e.(ev_call) with
  | UpdatePolicy _ | PatchPolicyStatus _ _ | PatchNode _ _ => true
  | _ => false
  end.
Definition writes (tr : trace) : trace := filter (fun e => Is_true (is_write e)) tr.

(** A call that reads or writes nodes. *)
Definition is_node_call (c : Call) : bool :=
  match c with
  | ListNodes | ReaderListNodes | ReaderGetNode _ | PatchNode _ _ => true
  | _ => false
  end.

(** ** [retry.RetryOnConflict], a library function the code passes a closure to *)

Record Backoff := mkBackoff { Steps : nat; Backoff_Duration : time.Duration; Jitter : Q }.

(** The closure [fn] shares the variables [S] with its caller. *)
Class Retry := {
  RetryOnConflict : forall {S : Type},
    Backoff -> (S -> prog (S * option error)) -> S -> prog (S * option error);
}.

(** At most [n] runs of [fn], the next one only after a conflict; the result is the last run's. *)
Inductive attempts `{K : K8s} {S} (fn : S -> prog (S * option error)) :
    nat -> S -> trace -> S -> option error -> Prop :=
  | attempts_done n s tr s' e :
      exec (fn s) tr (s', e) -> (forall err, e = Some err -> IsConflict err = false) ->
      attempts fn (Datatypes.S n) s tr s' e
  | attempts_exhausted s tr s' err :
      exec (fn s) tr (s', Some err) -> IsConflict err = true ->
      attempts fn 1 s tr s' (Some err)
  | attempts_again n s tr1 s1 err tr2 s' e :
      exec (fn s) tr1 (s1, Some err) -> IsConflict err = true ->
      attempts fn (Datatypes.S n) s1 tr2 s' e ->
      attempts fn (Datatypes.S (Datatypes.S n)) s (tr1 ++ tr2) s' e.

(** "RetryOnConflict executes the function repeatedly, up to backoff.Steps, as long as it returns a
    conflict": its documented behaviour, for a positive number of steps. *)
Class RetryLaws (K : K8s) (R : Retry) : Prop := {
  RetryOnConflict_attempts : forall S b (fn : S -> prog (S * option error)) s tr s' e,
    (0 < Steps b)%nat ->
    exec (RetryOnConflict b fn s) tr (s', e) -> attempts fn (Steps b) s tr s' e;
}.

(** ** Handlers *)

Definition handler (St : Type) := forall c : Call, St -> Answer c * St.

Fixpoint run {St A} (h : handler St) (m : prog A) (st : St) : A * St :=
  match m with
  | Ret a => (a, st)
  | Step c k => let '(x, st') := h c st in run h (k x) st'
  end.

(** The trace is the one the handler gives from [st], and leads to [st']. *)
Fixpoint follows {St} (h : handler St) (st : St) (tr : trace) (st' : St) : Prop :=
  match tr with
  | [] => st = st'
  | Ev c x :: tr' => exists st1, h c st = (x, st1) /\ follows h st1 tr' st'
  end.

(** The trace of a run, with its result. *)
Fixpoint record {St A} (h : handler St) (m : prog A) (st : St) : trace * A :=
  match m with
  | Ret a => ([], a)
  | Step c k => let '(x, st') := h c st in let '(tr, a) := record h (k x) st' in (Ev c x :: tr, a)
  end.

(** ** Lemmas *)

Lemma record_exec {St A} (h : handler St) (m : prog A) st :
  exec m (record h m st).1 (record h m st).2.
Proof.
  revert st. induction m as [a|c k IH]; intros st; simpl; [done|].
  destruct (h c st) as [x st']. specialize (IH x st'). destruct (record h (k x) st') as [tr a].
  simpl in *. by exists x, tr.
Qed.

Lemma record_follows {St A} (h : handler St) (m : prog A) st :
  follows h st (record h m st).1 (run h m st).2.
Proof.
  revert st. induction m as [a|c k IH]; intros st; simpl; [done|].
  destruct (h c st) as [x st'] eqn:Hh. specialize (IH x st').
  destruct (record h (k x) st') as [tr a]. simpl in *. by exists st'.
Qed.

Lemma exec_ret {A} (a b : A) tr : exec (mret a) tr b <-> tr = [] /\ a = b.
Proof. done. Qed.

Lemma exec_bind {A B} (m : prog A) (f : A -> prog B) tr b :
  exec (m ≫= f) tr b <-> exists tr1 a tr2, tr = tr1 ++ tr2 /\ exec m tr1 a /\ exec (f a) tr2 b.
Proof.
  revert tr. induction m as [a|c k IH]; intros tr; simpl.
  - split.
    + intros H. by exists [], a, tr.
    + intros (tr1 & a' & tr2 & -> & (-> & ->) & H). done.
  - split.
    + intros (x & tr' & -> & H). apply IH in H as (tr1 & a & tr2 & -> & H1 & H2).
      exists (Ev c x :: tr1), a, tr2. naive_solver.
    + intros (tr1 & a & tr2 & -> & (x & tr' & -> & H1) & H2).
      exists x, (tr' ++ tr2). split; [done|]. apply IH. by exists tr', a, tr2.
Qed.

Lemma exec_call c tr x : exec (call c) tr x <-> tr = [Ev c x].
Proof. simpl. naive_solver. Qed.

(** Decompose a hypothesis about the execution of a program along its binds. *)
Ltac exec_inv :=
  repeat match goal with
  | H : exec (mbind _ _) _ _ |- _ =>
      apply exec_bind in H; destruct H as (? & ? & ? & -> & ? & ?)
  | H : exec (call _) _ _ |- _ => apply exec_call in H; subst
  | H : exec (mret _) _ _ |- _ => apply exec_ret in H; destruct H as [-> ?]; simplify_eq/=
  end.

Lemma exec_forEach_cons {A S} (body : S -> A -> prog S) s x l tr s' :
  exec (forEach body s (x :: l)) tr s' <->
  exists tr1 s1 tr2, tr = tr1 ++ tr2 /\ exec (body s x) tr1 s1 /\ exec (forEach body s1 l) tr2 s'.
Proof. simpl. apply exec_bind. Qed.

(** Every program terminates, whatever it is answered. *)
Lemma run_exec {St A} (h : handler St) (m : prog A) st a st' :
  run h m st = (a, st') <-> exists tr, exec m tr a /\ follows h st tr st'.
Proof.
  revert st. induction m as [a0|c k IH]; intros st; simpl.
  - split.
    + intros [= -> ->]. by exists [].
    + intros (tr & (-> & ->) & Hf). simpl in Hf. by subst.
  - destruct (h c st) as [x st1] eqn:Hh. rewrite IH. split.
    + intros (tr & He & Hf). exists (Ev c x :: tr). split; [by eauto|]. simpl. eauto.
    + intros (tr & (x' & tr' & -> & He) & (st2 & Hh' & Hf)).
      rewrite Hh in Hh'. simplify_eq. by exists tr'.
Qed.

Lemma follows_app {St} (h : handler St) st tr1 tr2 st' :
  follows h st (tr1 ++ tr2) st' <-> exists st1, follows h st tr1 st1 /\ follows h st1 tr2 st'.
Proof.
  revert st. induction tr1 as [|[c x] tr1 IH]; intros st; simpl; [naive_solver|].
  setoid_rewrite IH. naive_solver.
Qed.

Lemma run_bind {St A B} (h : handler St) (m : prog A) (f : A -> prog B) st :
  run h (m ≫= f) st = let '(a, st1) := run h m st in run h (f a) st1.
Proof.
  revert st. induction m as [a|c k IH]; intros st; [done|]. simpl.
  destruct (h c st) as [x st1]. apply IH.
Qed.

Lemma run_call {St} (h : handler St) c st : run h (call c) st = h c st.
Proof. simpl. by destruct (h c st). Qed.

Lemma run_forEach_cons {St A S} (h : handler St) (body : S -> A -> prog S) s x l st :
  run h (forEach body s (x :: l)) st
  = let '(s1, st1) := run h (body s x) st in run h (forEach body s1 l) st1.
Proof. simpl. apply run_bind. Qed.

(** Executing the same trace again gives the same result. *)
Lemma follows_exec_run {St A} (h : handler St) (m : prog A) st tr a st' :
  exec m tr a -> follows h st tr st' -> run h m st = (a, st').
Proof. intros. apply run_exec. eauto. Qed.

(** The observations of a trace are those of its parts. *)
Lemma patches_app tr tr' : patches (tr ++ tr') = patches tr ++ patches tr'.
Proof. apply omap_app. Qed.
Lemma node_reads_app tr tr' : node_reads (tr ++ tr') = node_reads tr ++ node_reads tr'.
Proof. apply omap_app. Qed.
Lemma node_lists_app tr tr' : node_lists (tr ++ tr') = node_lists tr ++ node_lists tr'.
Proof. apply omap_app. Qed.
Lemma updates_app tr tr' : updates (tr ++ tr') = updates tr ++ updates tr'.
Proof. apply omap_app. Qed.
Lemma status_patches_app tr tr' : status_patches (tr ++ tr') = status_patches tr ++ status_patches tr'.
Proof. apply omap_app. Qed.
Lemma emitted_app tr tr' : emitted (tr ++ tr') = emitted tr ++ emitted tr'.
Proof. apply omap_app. Qed.
Lemma enqueued_app tr tr' : enqueued (tr ++ tr') = enqueued tr ++ enqueued tr'.
Proof. apply omap_app. Qed.
Lemma writes_app tr tr' : writes (tr ++ tr') = writes tr ++ writes tr'.
Proof. apply filter_app. Qed.

Create Rewrite HintDb trace.
#[global] Hint Rewrite patches_app node_reads_app node_lists_app updates_app status_patches_app
  emitted_app enqueued_app writes_app : trace.

(** ** A concrete retry loop, without the sleep *)
Module ReferenceRetry.

Fixpoint retry_loop `{K : K8s} {S} (n : nat) (fn : S -> prog (S * option error)) (s : S) :
    prog (S * option error) :=
  match n with
  | O => mret (s, None)
  | Datatypes.S n' =>
      '(s', e) ← fn s;
      match e with
      | Some err =>
          if IsConflict err then
            match n' with O => mret (s', e) | _ => retry_loop n' fn s' end
          else mret (s', e)
      | None => mret (s', e)
      end
  end.

Definition reference_retry `{K : K8s} : Retry :=
  {| RetryOnConflict := fun S b fn s => retry_loop (Steps b) fn s |}.

Lemma retry_loop_attempts `{K : K8s} {S} n (fn : S -> prog (S * option error)) s tr s' e :
  exec (retry_loop (Datatypes.S n) fn s) tr (s', e) -> attempts fn (Datatypes.S n) s tr s' e.
Proof.
  revert s tr. induction n as [|n IH]; intros s tr H;
    cbn [retry_loop] in H; apply exec_bind in H as (tr1 & [s1 e1] & tr2 & -> & H1 & H2);
    (destruct e1 as [err|]; [destruct (IsConflict err) eqn:Hc|]).
  - exec_inv. rewrite app_nil_r. by apply attempts_exhausted.
  - exec_inv. rewrite app_nil_r. apply attempts_done; [done|]. naive_solver.
  - exec_inv. rewrite app_nil_r. by apply attempts_done.
  - by eapply attempts_again; [exact H1 | exact Hc | apply IH].
  - exec_inv. rewrite app_nil_r. apply attempts_done; [done|]. naive_solver.
  - exec_inv. rewrite app_nil_r. by apply attempts_done.
Qed.

#[global] Instance reference_retry_laws `{K : K8s} : RetryLaws K reference_retry.
Proof.
  split. intros S b fn s tr s' e Hs. simpl. destruct (Steps b); [lia|]. apply retry_loop_attempts.
Qed.

End ReferenceRetry.
