(* ===== verification/Cluster.v ===== *)
(** The API server the convergence theorems run the controller against: an interface ([ApiServer])
    with the documented behaviour relied on ([ApiServerLaws]), and a small concrete instance that
    shows the laws can hold together and on which the programs are run. *)

From S2P Require Import Prelude GoTime Types K8sLib Effects.

(** The nodes and the policies of the cluster, by name, and the clock; [valid] is the server's own
    invariant. *)
Class ApiServer {St} (h : handler St) := {
  nodes_of : St -> gmap string corev1.Node;
  policies_of : St -> gmap string v1alpha1.NodeRemediationPolicy;
  valid : St -> Prop;
  time_of : St -> time.Time;
}.

(** The calls that cannot change an object. *)
Definition is_read_only (c : Call) : bool :=
  match c with
  | UpdatePolicy _ | PatchPolicyStatus _ _ | PatchNode _ _ => false
  | _ => true
  end.

(** The server's answer [nd'] to a patch of [m]'s taints over the node [o]: the resource version is
    the server's business. *)
Definition with_taints_of (m o nd' : corev1.Node) : Prop :=
  nd'.(corev1.Node_Name) = o.(corev1.Node_Name) /\ nd'.(corev1.Node_Labels) = o.(corev1.Node_Labels)
  /\ nd'.(corev1.Node_Conditions) = o.(corev1.Node_Conditions)
  /\ nd'.(corev1.Node_Taints) = m.(corev1.Node_Taints).

Class ApiServerLaws {St} (h : handler St) (A : ApiServer h) : Prop := {
  valid_node_name : forall st n nd,
    valid st -> nodes_of st !! n = Some nd -> nd.(corev1.Node_Name) = n;
  valid_policy_name : forall st n p,
    valid st -> policies_of st !! n = Some p -> v1alpha1.Name p = n;
  serve_valid : forall c st x st', valid st -> h c st = (x, st') -> valid st';
  (** Nobody else writes while the controller runs, and the cache has caught up. *)
  serve_read_only : forall c st x st',
    h c st = (x, st') -> is_read_only c = true ->
    nodes_of st' = nodes_of st /\ policies_of st' = policies_of st;
  serve_GetPolicy : forall n st x st',
    h (GetPolicy n) st = (x, st') ->
    match policies_of st !! n with Some p => x = inr p | None => x = inl (errors.NotFound n) end;
  serve_ListNodes : forall st x st',
    h ListNodes st = (x, st') ->
    exists l, x = inr l /\ l ≡ₚ (map_to_list (nodes_of st)).*2;
  serve_ReaderListNodes : forall st x st',
    h ReaderListNodes st = (x, st') ->
    exists l, x = inr l /\ l ≡ₚ (map_to_list (nodes_of st)).*2;
  serve_ReaderGetNode : forall n st x st',
    h (ReaderGetNode n) st = (x, st') ->
    match nodes_of st !! n with Some nd => x = inr nd | None => x = inl (errors.NotFound n) end;
  (** The clock never goes back. *)
  serve_Now : forall st x st',
    h Now st = (x, st') -> time_of st <= x <= time_of st';
  serve_time : forall c st x st', h c st = (x, st') -> time_of st <= time_of st';
  (** A patch under the optimistic lock, over the version the server has. *)
  serve_PatchNode : forall m o st x st',
    h (PatchNode m o) st = (x, st') -> nodes_of st !! o.(corev1.Node_Name) = Some o ->
    x = None /\ policies_of st' = policies_of st
    /\ exists nd', with_taints_of m o nd'
       /\ nodes_of st' = <[o.(corev1.Node_Name) := nd']> (nodes_of st);
  (** A status patch touches the status alone. *)
  serve_PatchPolicyStatus : forall m o st x st' p0,
    h (PatchPolicyStatus m o) st = (x, st') -> policies_of st !! v1alpha1.Name o = Some p0 ->
    x = None /\ nodes_of st' = nodes_of st
    /\ exists p', policies_of st' = <[v1alpha1.Name o := p']> (policies_of st)
       /\ p'.(v1alpha1.Spec) = p0.(v1alpha1.Spec)
       /\ p'.(v1alpha1.Status) = m.(v1alpha1.Status)
       /\ p'.(v1alpha1.ObjectMeta).(metav1.ObjectMeta_Name)
          = p0.(v1alpha1.ObjectMeta).(metav1.ObjectMeta_Name)
       /\ p'.(v1alpha1.ObjectMeta).(metav1.ObjectMeta_Generation)
          = p0.(v1alpha1.ObjectMeta).(metav1.ObjectMeta_Generation)
       /\ p'.(v1alpha1.ObjectMeta).(metav1.ObjectMeta_DeletionTimestamp)
          = p0.(v1alpha1.ObjectMeta).(metav1.ObjectMeta_DeletionTimestamp)
       /\ p'.(v1alpha1.ObjectMeta).(metav1.ObjectMeta_Finalizers)
          = p0.(v1alpha1.ObjectMeta).(metav1.ObjectMeta_Finalizers);
  (** An update of the version the server has; the status is a subresource and stays.  A deleted
      object goes with its last finalizer. *)
  serve_UpdatePolicy : forall q st x st' p0,
    h (UpdatePolicy q) st = (x, st') -> policies_of st !! v1alpha1.Name q = Some p0 ->
    q.(v1alpha1.ObjectMeta).(metav1.ObjectMeta_ResourceVersion)
    = p0.(v1alpha1.ObjectMeta).(metav1.ObjectMeta_ResourceVersion) ->
    q.(v1alpha1.Spec) = p0.(v1alpha1.Spec) ->
    nodes_of st' = nodes_of st
    /\ exists q', x = inr q' /\ q'.(v1alpha1.Spec) = q.(v1alpha1.Spec)
       /\ q'.(v1alpha1.Status) = p0.(v1alpha1.Status)
       /\ q'.(v1alpha1.ObjectMeta).(metav1.ObjectMeta_Name)
          = p0.(v1alpha1.ObjectMeta).(metav1.ObjectMeta_Name)
       /\ q'.(v1alpha1.ObjectMeta).(metav1.ObjectMeta_Generation)
          = p0.(v1alpha1.ObjectMeta).(metav1.ObjectMeta_Generation)
       /\ q'.(v1alpha1.ObjectMeta).(metav1.ObjectMeta_DeletionTimestamp)
          = p0.(v1alpha1.ObjectMeta).(metav1.ObjectMeta_DeletionTimestamp)
       /\ q'.(v1alpha1.ObjectMeta).(metav1.ObjectMeta_Finalizers)
          = q.(v1alpha1.ObjectMeta).(metav1.ObjectMeta_Finalizers)
       /\ policies_of st'
          = if bool_decide (p0.(v1alpha1.ObjectMeta).(metav1.ObjectMeta_DeletionTimestamp) <> None
                            /\ q.(v1alpha1.ObjectMeta).(metav1.ObjectMeta_Finalizers) = [])
            then delete (v1alpha1.Name q) (policies_of st)
            else <[v1alpha1.Name q := q']> (policies_of st);
}.

(** ** A concrete server *)
Module ReferenceServer.

(** The objects under their names, with the clock standing still. *)
Record state := mkState {
  nodes : gmap string corev1.Node;
  policies : gmap string v1alpha1.NodeRemediationPolicy;
  clock : time.Time;
}.

Definition consistent (st : state) : Prop :=
  map_Forall (fun n nd => nd.(corev1.Node_Name) = n) st.(nodes)
  /\ map_Forall (fun n p => v1alpha1.Name p = n) st.(policies).

Definition next_version (v : string) : string := v +:+ "+".

Definition store_taints (nd m : corev1.Node) : corev1.Node :=
  corev1.mkNode nd.(corev1.Node_Name) nd.(corev1.Node_UID)
    (next_version nd.(corev1.Node_ResourceVersion)) nd.(corev1.Node_Labels)
    m.(corev1.Node_Taints) nd.(corev1.Node_Conditions).

Definition bump (m : metav1.ObjectMeta) (finalizers : list string) : metav1.ObjectMeta :=
  metav1.mkObjectMeta m.(metav1.ObjectMeta_Name) (next_version m.(metav1.ObjectMeta_ResourceVersion))
    m.(metav1.ObjectMeta_Generation) m.(metav1.ObjectMeta_DeletionTimestamp) finalizers.

Definition set_nodes st n := mkState n st.(policies) st.(clock).
Definition set_policies st p := mkState st.(nodes) p st.(clock).

Definition serve : handler state := fun c st =>
  match c as c0 return Answer c0 * state with
  | GetPolicy n =>
      (match st.(policies) !! n with Some p => inr p | None => inl (errors.NotFound n) end, st)
  | ListNodes | ReaderListNodes => (inr (map_to_list st.(nodes)).*2, st)
  | ListPolicies | ReaderListPolicies => (inr (map_to_list st.(policies)).*2, st)
  | UpdatePolicy p =>
      let n := v1alpha1.Name p in
      match st.(policies) !! n with
      | None => (inl (errors.NotFound n), st)
      | Some p0 =>
          let m0 := p0.(v1alpha1.ObjectMeta) in
          let m := p.(v1alpha1.ObjectMeta) in
          if decide (m0.(metav1.ObjectMeta_ResourceVersion) = m.(metav1.ObjectMeta_ResourceVersion)) then
            let p' := v1alpha1.mkNodeRemediationPolicy (bump m0 m.(metav1.ObjectMeta_Finalizers))
                        p.(v1alpha1.Spec) p0.(v1alpha1.Status) in
            let gone := bool_decide (m0.(metav1.ObjectMeta_DeletionTimestamp) <> None
                                     /\ m.(metav1.ObjectMeta_Finalizers) = []) in
            (inr p', set_policies st
                       (if gone then delete n st.(policies) else <[n := p']> st.(policies)))
          else (inl (errors.Conflict n), st)
      end
  | PatchPolicyStatus m o =>
      let n := v1alpha1.Name o in
      match st.(policies) !! n with
      | None => (Some (errors.NotFound n), st)
      | Some p0 =>
          let m0 := p0.(v1alpha1.ObjectMeta) in
          (None, set_policies st
             (<[n := v1alpha1.mkNodeRemediationPolicy (bump m0 m0.(metav1.ObjectMeta_Finalizers))
                       p0.(v1alpha1.Spec) m.(v1alpha1.Status)]> st.(policies)))
      end
  | PatchNode m o =>
      let n := o.(corev1.Node_Name) in
      match st.(nodes) !! n with
      | None => (Some (errors.NotFound n), st)
      | Some nd =>
          if decide (nd.(corev1.Node_ResourceVersion) = o.(corev1.Node_ResourceVersion))
          then (None, set_nodes st (<[n := store_taints nd m]> st.(nodes)))
          else (Some (errors.Conflict n), st)
      end
  | ReaderGetNode n =>
      (match st.(nodes) !! n with Some nd => inr nd | None => inl (errors.NotFound n) end, st)
  | Now => (st.(clock), st)
  | Eventf _ | Log _ | Enqueue _ => (tt, st)
  end.

#[global] Instance reference_server : ApiServer serve :=
  {| nodes_of := nodes; policies_of := policies; valid := consistent; time_of := clock |}.

Lemma serve_consistent c st x st' : consistent st -> serve c st = (x, st') -> consistent st'.
Proof.
  intros [Hn Hp] H. destruct c as [n| | |p|m o|m o|n| | | | | |]; simpl in H; try by simplify_eq.
  - destruct (policies st !! _) as [p0|] eqn:Hl; [|by simplify_eq].
    case_decide; [|by simplify_eq]. injection H as _ <-. split; [done|]. simpl.
    apply Hp in Hl. case_bool_decide; [by apply map_Forall_delete|].
    by apply map_Forall_insert_2.
  - destruct (policies st !! _) as [p0|] eqn:Hl; [|by simplify_eq].
    injection H as _ <-. split; [done|]. simpl. apply Hp in Hl. by apply map_Forall_insert_2.
  - destruct (nodes st !! _) as [nd|] eqn:Hl; [|by simplify_eq].
    case_decide; [|by simplify_eq]. injection H as _ <-. split; [|done]. simpl.
    apply Hn in Hl. by apply map_Forall_insert_2.
Qed.

Lemma serve_clock c st x st' : serve c st = (x, st') -> clock st' = clock st.
Proof.
  intros H. destruct c as [n| | |p|m o|m o|n| | | | | |]; simpl in H; try by simplify_eq.
  - destruct (policies st !! _) as [p0|]; [case_decide|]; by simplify_eq.
  - destruct (policies st !! _) as [p0|]; by simplify_eq.
  - destruct (nodes st !! _) as [nd|]; [case_decide|]; by simplify_eq.
Qed.

#[global] Instance reference_server_laws : ApiServerLaws serve reference_server.
Proof.
  split; simpl.
  - intros st n nd [H _]. apply H.
  - intros st n p [_ H]. apply H.
  - apply serve_consistent.
  - intros c st x st' H Hr. by destruct c; simpl in H; simplify_eq.
  - intros n st x st' H. injection H as <- _. by destruct (policies st !! n).
  - intros st x st' H. injection H as <- _. eauto.
  - intros st x st' H. injection H as <- _. eauto.
  - intros n st x st' H. injection H as <- _. by destruct (nodes st !! n).
  - intros st x st' H. injection H as <- <-. lia.
  - intros c st x st' H. apply serve_clock in H as ->. lia.
  - intros m o st x st' H Hl. rewrite Hl, decide_True in H by done. injection H as <- <-.
    split_and!; try done. by exists (store_taints o m).
  - intros m o st x st' p0 H Hl. rewrite Hl in H. injection H as <- <-.
    split_and!; try done. eexists. by split_and!.
  - intros q st x st' p0 H Hl Hv Hs. rewrite Hl, decide_True in H by done. injection H as <- <-.
    split; [done|]. eexists. split; [done|]. by split_and!.
Qed.

End ReferenceServer.
