(* ===== verification/Taint.v ===== *)
(** Taint writes, [internal/controller/taint.go]: a read-modify-write of one node's taint list under
    conflict retry. *)

From S2P Require Import Prelude GoTime Types K8sLib Remediation Predicate Project ProjectProps Effects.
Import project.

Module taint.

(** A taint list edit: the updated list and whether it changed anything. *)
Definition mutation := list corev1.Taint -> list corev1.Taint * bool.

Definition taintBackoff : Backoff := mkBackoff 5 (100 * time.Millisecond) (QArith_base.inject_Z 1).

(** [corev1.Taint{Key, Value, Effect}] *)
Definition newTaint (t : remediation.Taint) : corev1.Taint :=
  {| corev1.Taint_Key := t.(remediation.Taint_Key);
     corev1.Taint_Value := t.(remediation.Taint_Value);
     corev1.Taint_Effect := t.(remediation.Taint_Effect);
     corev1.Taint_TimeAdded := None |}.

(** The edits of [EnsureTaint] and [RemoveTaint]; [hasKey] is the loop that returns at the first
    taint with the key. *)
Definition addTaint (t : remediation.Taint) : mutation := fun taints =>
  if hasKey taints t.(remediation.Taint_Key) then ([], false)
  else (taints ++ [newTaint t], true).

Definition dropTaint (key : string) : mutation := fun taints =>
  let kept := filter (fun existing => existing.(corev1.Taint_Key) <> key) taints in
  if decide (length kept = length taints) then ([], false) else (kept, true).

Section taint.
Context `{K : K8s} `{R : Retry}.

(** One attempt: the closure given to [RetryOnConflict], with [changed] as its variable. *)
Definition patchAttempt (nodeName : string) (mutate : mutation) (_ : bool) :
    prog (bool * option error) :=
  let changed := false in
  r ← call (ReaderGetNode nodeName);
  match r with
  | inl err => mret (changed, Some err)
  | inr node =>
      let '(updated, ok) := mutate node.(corev1.Node_Taints) in
      if negb ok then mret (changed, None)
      else
        e ← call (PatchNode (corev1.set_Taints node updated) node);
        match (e : option error) with
        | Some err => mret (changed, Some err)
        | None => mret (true, None)
        end
  end.

Definition patchTaintList (nodeName : string) (mutate : mutation) : prog (bool * option error) :=
  RetryOnConflict taintBackoff (patchAttempt nodeName mutate) false.

Definition EnsureTaint (nodeName : string) (t : remediation.Taint) : prog (bool * option error) :=
  '(changed, err) ← patchTaintList nodeName (addTaint t);
  match (err : option error) with
  | Some e =>
      mret (false, Some (errors.Wrap errors.ErrApplyTaint
        [("node"%string, nodeName); ("key"%string, t.(remediation.Taint_Key))] e))
  | None => mret (changed, None)
  end.

Definition RemoveTaint (nodeName key : string) : prog (bool * option error) :=
  '(changed, err) ← patchTaintList nodeName (dropTaint key);
  match (err : option error) with
  | Some e =>
      mret (false, Some (errors.Wrap errors.ErrRemoveTaint
        [("node"%string, nodeName); ("key"%string, key)] e))
  | None => mret (changed, None)
  end.

(** ** What a taint operation may do to the cluster *)

(** The patches answered with success. *)
Definition succeeded (tr : trace) : list (corev1.Node * corev1.Node) :=
  omap (fun '(m, o, r) => match (r : option error) with None => Some (m, o) | Some _ => None end)
    (patches tr).

(** The taints a policy with the given key does not own. *)
Definition foreign (key : string) (taints : list corev1.Taint) : list corev1.Taint :=
  filter (fun t => t.(corev1.Taint_Key) <> key) taints.

(** Patches written from a copy of the node just read, changing nothing but its taint list, which
    the mutation asked for. *)
Definition patched_by (nodeName : string) (mutate : mutation) (tr : trace) : Prop :=
  Forall (fun '(m, o, _) =>
      (nodeName, inr o) ∈ node_reads tr
      /\ mutate o.(corev1.Node_Taints) = (m.(corev1.Node_Taints), true)
      /\ m = corev1.set_Taints o m.(corev1.Node_Taints)) (patches tr).

Definition is_taint_call (c : Call) : bool :=
  match c with ReaderGetNode _ | PatchNode _ _ => true | _ => false end.

(** A taint operation's trace: reads of the one node and its patches, nothing else, in at most
    [limit] attempts; [changed] tells whether a patch succeeded, and at most one does. *)
Definition taint_trace (limit : nat) (nodeName : string) (mutate : mutation) (tr : trace)
    (changed : bool) (err : option error) : Prop :=
  (1 <= length (node_reads tr) <= limit)%nat
  /\ Forall (fun nr => nr.1 = nodeName) (node_reads tr)
  /\ Forall (fun e => is_taint_call e.(ev_call)) tr
  /\ (length (patches tr) <= length (node_reads tr))%nat
  /\ patched_by nodeName mutate tr
  /\ length (succeeded tr) = (if changed then 1 else 0)%nat
  /\ (err = None -> changed = false ->
      exists o, (nodeName, inr o) ∈ node_reads tr /\ (mutate o.(corev1.Node_Taints)).2 = false)
  /\ (forall e, err = Some e -> changed = false).

(** One attempt, with its answers: a read of the node, and, if the mutation changes what was read, one
    patch of it, over that very answer. *)
Variant attempted (nodeName : string) (mutate : mutation) : trace -> bool -> option error -> Prop :=
  | attempted_unread err :
      attempted nodeName mutate [Ev (ReaderGetNode nodeName) (inl err)] false (Some err)
  | attempted_unchanged o :
      (mutate o.(corev1.Node_Taints)).2 = false ->
      attempted nodeName mutate [Ev (ReaderGetNode nodeName) (inr o)] false None
  | attempted_patch o updated r :
      mutate o.(corev1.Node_Taints) = (updated, true) ->
      attempted nodeName mutate
        [Ev (ReaderGetNode nodeName) (inr o); Ev (PatchNode (corev1.set_Taints o updated) o) r]
        (match r with None => true | Some _ => false end) r.

(** A trace of at most [limit] attempts, each with a read of its own: those that failed with a
    conflict, then the last one, whose outcome is the operation's; it may only be a conflict when no
    attempt is left. *)
Definition retried (limit : nat) (nodeName : string) (mutate : mutation) (tr : trace)
    (changed : bool) (err : option error) : Prop :=
  exists (conflicts : list (trace * error)) (last : trace),
    tr = mjoin conflicts.*1 ++ last
    /\ (length conflicts < limit)%nat
    /\ Forall (fun '(tr', e) => attempted nodeName mutate tr' false (Some e) /\ IsConflict e = true)
        conflicts
    /\ attempted nodeName mutate last changed err
    /\ (forall e, err = Some e -> IsConflict e = true -> S (length conflicts) = limit).

(** ** Lemmas: the mutations *)

Lemma addTaint_spec t taints updated :
  addTaint t taints = (updated, true) <->
  hasKey taints t.(remediation.Taint_Key) = false /\ updated = taints ++ [newTaint t].
Proof.
  unfold addTaint. destruct (hasKey taints _).
  - by split; [|intros []].
  - split; [by intros [= <-] | by intros [_ ->]].
Qed.

Lemma addTaint_noop t taints :
  (addTaint t taints).2 = false <-> hasKey taints t.(remediation.Taint_Key) = true.
Proof. unfold addTaint. by destruct (hasKey taints _). Qed.

Lemma foreign_length key taints :
  length (foreign key taints) = length taints <-> hasKey taints key = false.
Proof.
  unfold foreign. induction taints as [|t taints IH]; [done|]. simpl. rewrite filter_cons.
  pose proof (length_filter (fun t => t.(corev1.Taint_Key) <> key) taints).
  destruct (decide (t.(corev1.Taint_Key) = key)) as [->|Hne].
  - rewrite decide_False by naive_solver. split; [lia|done].
  - rewrite decide_True by done. simpl. rewrite <- IH. lia.
Qed.

Lemma dropTaint_spec key taints updated :
  dropTaint key taints = (updated, true) <->
  hasKey taints key = true /\ updated = foreign key taints.
Proof.
  unfold dropTaint. cbv zeta. fold (foreign key taints). case_decide as H; rewrite foreign_length in H.
  - rewrite H. split; [done | by intros [? _]].
  - apply not_false_is_true in H. rewrite H. split; [by intros [= <-] | by intros [_ ->]].
Qed.

Lemma dropTaint_noop key taints : (dropTaint key taints).2 = false <-> hasKey taints key = false.
Proof.
  unfold dropTaint. cbv zeta. fold (foreign key taints).
  case_decide as H; rewrite foreign_length in H; simpl; [done|]. by split.
Qed.

Lemma hasKey_app taints taints' key :
  hasKey (taints ++ taints') key = hasKey taints key || hasKey taints' key.
Proof. induction taints as [|t taints IH]; [done|]. simpl. by case_decide. Qed.

Lemma hasKey_foreign key k taints :
  hasKey (foreign key taints) k = hasKey taints k && negb (bool_decide (k = key)).
Proof.
  unfold foreign. induction taints as [|t taints IH]; [done|]. rewrite filter_cons. simpl.
  destruct (decide (t.(corev1.Taint_Key) = key)) as [Hk|Hk].
  - rewrite decide_False by naive_solver. rewrite IH, Hk. destruct (decide (key = k)) as [->|]; [|done].
    rewrite bool_decide_eq_true_2 by done. by rewrite andb_false_r.
  - rewrite decide_True by done. simpl. rewrite IH.
    destruct (decide (corev1.Taint_Key t = k)) as [<-|]; [|done].
    by rewrite bool_decide_eq_false_2 by done.
Qed.

Lemma foreign_idem key taints : foreign key (foreign key taints) = foreign key taints.
Proof.
  unfold foreign. rewrite list_filter_filter. apply filter_ext_in. tauto.
Qed.

Lemma foreign_addTaint t taints :
  foreign t.(remediation.Taint_Key) (taints ++ [newTaint t])
  = foreign t.(remediation.Taint_Key) taints.
Proof.
  unfold foreign. rewrite filter_app, filter_cons. simpl. rewrite decide_False by naive_solver.
  by rewrite filter_nil, app_nil_r.
Qed.

(** ** Lemmas: traces *)

Lemma succeeded_app tr tr' : succeeded (tr ++ tr') = succeeded tr ++ succeeded tr'.
Proof. unfold succeeded. by rewrite patches_app, omap_app. Qed.

(** A trace of taint calls touches nothing else. *)
Lemma taint_calls_only tr :
  Forall (fun e => is_taint_call e.(ev_call)) tr ->
  updates tr = [] /\ status_patches tr = [] /\ emitted tr = [] /\ node_lists tr = []
  /\ enqueued tr = [] /\ length (writes tr) = length (patches tr).
Proof.
  induction 1 as [|[c x] tr Hc _ IH]; [done|].
  destruct IH as (IHu & IHs & IHe & IHl & IHq & IHw).
  unfold updates, status_patches, emitted, node_lists, enqueued, writes, patches in *.
  destruct c; try done; simpl; rewrite ?filter_cons; simpl; auto 10.
Qed.

(** The three shapes of one attempt. *)
Lemma patchAttempt_attempted nodeName mutate b tr changed err :
  exec (patchAttempt nodeName mutate b) tr (changed, err) -> attempted nodeName mutate tr changed err.
Proof.
  unfold patchAttempt. intros (r & tr' & -> & H). destruct r as [e|o].
  - destruct H as [-> [= <- <-]]. constructor.
  - simpl in H. destruct (mutate o.(corev1.Node_Taints)) as [updated ok] eqn:Hm.
    destruct ok; simpl in H.
    + destruct H as (r & tr2 & -> & H).
      assert (tr2 = [] /\ (match r with None => true | Some _ => false end, r) = (changed, err)) as [-> [= <- <-]]
        by (by destruct r).
      by apply (attempted_patch _ _ o updated).
    + destruct H as [-> [= <- <-]]. constructor. by rewrite Hm.
Qed.

Lemma patchAttempt_cases nodeName mutate b tr changed err :
  exec (patchAttempt nodeName mutate b) tr (changed, err) ->
  (exists e, tr = [Ev (ReaderGetNode nodeName) (inl e)] /\ changed = false /\ err = Some e)
  \/ (exists o, tr = [Ev (ReaderGetNode nodeName) (inr o)]
        /\ (mutate o.(corev1.Node_Taints)).2 = false /\ changed = false /\ err = None)
  \/ (exists o updated r, tr = [Ev (ReaderGetNode nodeName) (inr o);
                              Ev (PatchNode (corev1.set_Taints o updated) o) r]
        /\ mutate o.(corev1.Node_Taints) = (updated, true)
        /\ err = r /\ changed = match r with None => true | Some _ => false end).
Proof.
  intros [e|o Hm|o updated r Hm]%patchAttempt_attempted; [by left; eauto|right; left|right; right].
  - by exists o.
  - by exists o, updated, r.
Qed.

Lemma patched_by_app nodeName mutate tr tr' :
  patched_by nodeName mutate tr -> patched_by nodeName mutate tr' ->
  patched_by nodeName mutate (tr ++ tr').
Proof.
  unfold patched_by. rewrite patches_app, node_reads_app, Forall_app. rewrite !Forall_forall.
  intros H H'. split; intros [[m o] r] Hx; rewrite elem_of_app; [apply H in Hx|apply H' in Hx]; tauto.
Qed.

Lemma patchAttempt_trace nodeName mutate b tr changed err :
  exec (patchAttempt nodeName mutate b) tr (changed, err) ->
  taint_trace 1 nodeName mutate tr changed err.
Proof.
  intros [(e & -> & -> & ->)|[(o & -> & Hm & -> & ->)|(o & u & r & -> & Hm & -> & ->)]]%patchAttempt_cases;
    unfold taint_trace, patched_by, succeeded; simpl; split_and!; try done; try lia;
    try (by repeat (apply List.Forall_cons || apply List.Forall_nil)).
  - intros _ _. exists o. split; [by left|done].
  - apply Forall_singleton. split; [by left|]. by rewrite Hm.
  - by destruct r.
  - by destruct r.
  - by destruct r.
Qed.

Lemma attempts_trace nodeName mutate n b tr changed err :
  attempts (patchAttempt nodeName mutate) n b tr changed err ->
  taint_trace n nodeName mutate tr changed err.
Proof.
  induction 1 as [n b tr changed err H _|b tr changed err H _|n b tr1 changed1 err1 tr2 changed err H1 _ H2 IH].
  - apply patchAttempt_trace in H. unfold taint_trace in *. crush_and; try done; lia.
  - by apply patchAttempt_trace in H.
  - apply patchAttempt_trace in H1 as (Hn1 & Hf1 & Hl1 & Hp1 & Hb1 & Hs1 & _ & He1).
    destruct IH as (Hn & Hf & Hl & Hp & Hb & Hs & Hno & He).
    rewrite (He1 _ eq_refl) in Hs1. unfold taint_trace.
    rewrite node_reads_app, patches_app, succeeded_app, !length_app, !Forall_app.
    split_and!; try done; try lia; [by apply patched_by_app|].
    intros Herr Hch. destruct (Hno Herr Hch) as (o & Ho & Hm). exists o. set_solver.
Qed.

Lemma attempts_retried nodeName mutate n b tr changed err :
  attempts (patchAttempt nodeName mutate) n b tr changed err -> retried n nodeName mutate tr changed err.
Proof.
  induction 1 as [n b tr changed err H Hc|b tr changed err H Hc|n b tr1 changed1 err1 tr2 changed err H1 Hc _ IH].
  - exists [], tr. split_and!; [done|simpl; lia|done|by apply patchAttempt_attempted in H|].
    intros e -> He. specialize (Hc e eq_refl). congruence.
  - exists [], tr. split_and!; [done|simpl; lia|done|by apply patchAttempt_attempted in H|done].
  - destruct IH as (conflicts & last & -> & Hl & Hf & Ha & He). exists ((tr1, err1) :: conflicts), last.
    apply patchAttempt_attempted in H1. simpl. split_and!; [by rewrite app_assoc|lia| |done|].
    + apply Forall_cons. split; [|done]. split; [|done].
      assert (changed1 = false) as -> by (by inversion H1; subst). done.
    + intros e Hs Hce. by rewrite (He e Hs Hce).
Qed.

Context `{RL : !RetryLaws K R}.

Lemma patchTaintList_retried nodeName mutate tr changed err :
  exec (patchTaintList nodeName mutate) tr (changed, err) -> retried 5 nodeName mutate tr changed err.
Proof.
  intros H. apply RetryOnConflict_attempts in H; [|simpl; lia]. by apply attempts_retried in H.
Qed.

Lemma patchTaintList_trace nodeName mutate tr changed err :
  exec (patchTaintList nodeName mutate) tr (changed, err) ->
  taint_trace 5 nodeName mutate tr changed err.
Proof.
  intros H. apply RetryOnConflict_attempts in H; [|simpl; lia]. by apply attempts_trace in H.
Qed.

Lemma EnsureTaint_exec nodeName t tr changed err :
  exec (EnsureTaint nodeName t) tr (changed, err) ->
  exists err', exec (patchTaintList nodeName (addTaint t)) tr (changed, err')
    /\ err = (fun e => errors.Wrap errors.ErrApplyTaint
                [("node"%string, nodeName); ("key"%string, t.(remediation.Taint_Key))] e) <$> err'.
Proof.
  unfold EnsureTaint. intros (tr1 & [c e] & tr2 & -> & H1 & H2)%exec_bind. destruct e as [e|].
  - apply exec_ret in H2 as [-> [= <- <-]]. exists (Some e). rewrite app_nil_r. split; [|done].
    pose proof (patchTaintList_trace _ _ _ _ _ H1) as (_ & _ & _ & _ & _ & _ & _ & He).
    by rewrite <- (He e eq_refl).
  - apply exec_ret in H2 as [-> [= <- <-]]. exists None. by rewrite app_nil_r.
Qed.

Lemma RemoveTaint_exec nodeName key tr changed err :
  exec (RemoveTaint nodeName key) tr (changed, err) ->
  exists err', exec (patchTaintList nodeName (dropTaint key)) tr (changed, err')
    /\ err = (fun e => errors.Wrap errors.ErrRemoveTaint
                [("node"%string, nodeName); ("key"%string, key)] e) <$> err'.
Proof.
  unfold RemoveTaint. intros (tr1 & [c e] & tr2 & -> & H1 & H2)%exec_bind. destruct e as [e|].
  - apply exec_ret in H2 as [-> [= <- <-]]. exists (Some e). rewrite app_nil_r. split; [|done].
    pose proof (patchTaintList_trace _ _ _ _ _ H1) as (_ & _ & _ & _ & _ & _ & _ & He).
    by rewrite <- (He e eq_refl).
  - apply exec_ret in H2 as [-> [= <- <-]]. exists None. by rewrite app_nil_r.
Qed.

Lemma EnsureTaint_taint_trace nodeName t tr changed err :
  exec (EnsureTaint nodeName t) tr (changed, err) ->
  taint_trace 5 nodeName (addTaint t) tr changed err.
Proof.
  intros (err' & H & ->)%EnsureTaint_exec. apply patchTaintList_trace in H.
  unfold taint_trace in *. destruct err'; naive_solver.
Qed.

Lemma RemoveTaint_taint_trace nodeName key tr changed err :
  exec (RemoveTaint nodeName key) tr (changed, err) ->
  taint_trace 5 nodeName (dropTaint key) tr changed err.
Proof.
  intros (err' & H & ->)%RemoveTaint_exec. apply patchTaintList_trace in H.
  unfold taint_trace in *. destruct err'; naive_solver.
Qed.

End taint.
End taint.
