(* ===== verification/Reconcile.v ===== *)
(** The reconcile loop, [internal/controller/noderemediationpolicy_controller.go]: [Reconcile], the
    finalizer's [cleanupTaints] and the taint events. *)

From S2P Require Import Prelude GoTime Types K8sLib PolicyApi Remediation Project Effects Taint.
Import project taint.

Module reconcile.

Definition taintCleanupFinalizer : string := "warden.scality.com/taint-cleanup".

Definition reasonTaintApplied : string := "TaintApplied".
Definition reasonTaintRemoved : string := "TaintRemoved".
Definition reasonMissingTransitionTime : string := "MissingTransitionTime".

Definition EventTypeNormal : string := "Normal".
Definition EventTypeWarning : string := "Warning".

(** [ctrl.Result]; the zero value asks for no requeue. *)
Record Result := mkResult { RequeueAfter : time.Duration }.
Definition noRequeue : Result := mkResult 0.

Section reconcile.
Context `{K : K8s} `{R : Retry}.

Definition contains (fs : v1alpha1.NodeRemediationPolicy) : bool :=
  ContainsFinalizer fs.(v1alpha1.ObjectMeta).(metav1.ObjectMeta_Finalizers) taintCleanupFinalizer.

Definition withFinalizer (p : v1alpha1.NodeRemediationPolicy) : v1alpha1.NodeRemediationPolicy :=
  v1alpha1.set_Finalizers p
    (AddFinalizer p.(v1alpha1.ObjectMeta).(metav1.ObjectMeta_Finalizers) taintCleanupFinalizer).

Definition withoutFinalizer (p : v1alpha1.NodeRemediationPolicy) : v1alpha1.NodeRemediationPolicy :=
  v1alpha1.set_Finalizers p
    (RemoveFinalizer p.(v1alpha1.ObjectMeta).(metav1.ObjectMeta_Finalizers) taintCleanupFinalizer).

(** [errors.Wrap(s, errors.WithProperty("policy", policy.Name), errors.CausedBy(err))] *)
Definition wrapPolicy (s : errors.sentinel) (p : v1alpha1.NodeRemediationPolicy) (err : error) : error :=
  errors.Wrap s [("policy"%string, v1alpha1.Name p)] err.

(** ** Events *)

Definition recordTaintAction (node : option corev1.Node) (policy : v1alpha1.NodeRemediationPolicy)
    (reason : string) (pure : remediation.Policy) (nodeName : string) : prog unit :=
  let '(action, verb, prep) :=
    if decide (reason = reasonTaintRemoved) then ("RemoveTaint", "removed", "from")%string
    else ("ApplyTaint", "applied", "to")%string in
  let taint := pure.(remediation.Policy_Taint) in
  match node with
  | Some n =>
      call (Eventf (mkEvent (NodeObject n) (Some (PolicyObject policy)) EventTypeNormal reason action
        "%s %s taint %q (policy %s, condition %s=%s)"
        [ArgString verb; ArgString taint.(remediation.Taint_Effect);
         ArgString taint.(remediation.Taint_Key); ArgString (v1alpha1.Name policy);
         ArgString pure.(remediation.Policy_ConditionType);
         ArgString pure.(remediation.Policy_ConditionStatus)]))
  | None => mret tt
  end ;;
  call (Eventf (mkEvent (PolicyObject policy) (NodeObject <$> node) EventTypeNormal reason action
    "%s %s taint %q %s node %s"
    [ArgString verb; ArgString taint.(remediation.Taint_Effect);
     ArgString taint.(remediation.Taint_Key); ArgString prep; ArgString nodeName])).

(** ** The finalizer's cleanup *)

(** One node of the cleanup loop, collecting the errors. *)
Definition cleanupNode (policy : v1alpha1.NodeRemediationPolicy) (pure : remediation.Policy)
    (errs : list error) (node : corev1.Node) : prog (list error) :=
  let key := pure.(remediation.Policy_Taint).(remediation.Taint_Key) in
  let name := node.(corev1.Node_Name) in
  if negb (hasTaintKey node key) then mret errs
  else
    '(changed, err) ← RemoveTaint name key;
    match (err : option error) with
    | Some e => mret (errs ++ [e])
    | None =>
        if (changed : bool) then
          call (Log (mkLog None "removed remediation taint on policy deletion"
            [("node"%string, ArgString name); ("key"%string, ArgString key)])) ;;
          recordTaintAction (Some node) policy reasonTaintRemoved pure name ;;
          mret errs
        else mret errs
    end.

Definition cleanupTaints (policy : v1alpha1.NodeRemediationPolicy) : prog (option error) :=
  match policy.(v1alpha1.Spec).(v1alpha1.Spec_Remediations).(v1alpha1.Remediations_Taint) with
  | None => mret None
  | Some taintSpec =>
      let pure := {| remediation.Policy_Selector := None;
                     remediation.Policy_ConditionType :=
                       policy.(v1alpha1.Spec).(v1alpha1.Spec_Condition).(v1alpha1.ConditionMatch_Type);
                     remediation.Policy_ConditionStatus :=
                       defaults.StatusOrDefault policy.(v1alpha1.Spec).(v1alpha1.Spec_Condition);
                     remediation.Policy_Taint := taintFromSpec taintSpec;
                     remediation.Policy_DebounceEnter := 0;
                     remediation.Policy_DebounceExit := 0;
                     remediation.Policy_MaxAffectedPercent := 0 |} in
      r ← call ReaderListNodes;
      match (r : error + list corev1.Node) with
      | inl err => mret (Some (errors.Wrap errors.ErrListNodes [] err))
      | inr nodes =>
          errs ← forEach (cleanupNode policy pure) [] nodes;
          mret (NewAggregate errs)
      end
  end.

(** ** ACT: the two taint loops *)

Definition applyNode (policy : v1alpha1.NodeRemediationPolicy) (pure : remediation.Policy)
    (nodesByName : gmap string corev1.Node) (taintErrs : list error) (name : string) :
    prog (list error) :=
  let taint := pure.(remediation.Policy_Taint) in
  '(changed, err) ← EnsureTaint name taint;
  match (err : option error) with
  | Some e => mret (taintErrs ++ [e])
  | None =>
      if negb changed then mret taintErrs
      else
        call (Log (mkLog None "applied remediation taint"
          [("node"%string, ArgString name); ("key"%string, ArgString taint.(remediation.Taint_Key));
           ("effect"%string, ArgString taint.(remediation.Taint_Effect))])) ;;
        recordTaintAction (nodesByName !! name) policy reasonTaintApplied pure name ;;
        mret taintErrs
  end.

Definition removeNode (policy : v1alpha1.NodeRemediationPolicy) (pure : remediation.Policy)
    (nodesByName : gmap string corev1.Node) (taintErrs : list error) (name : string) :
    prog (list error) :=
  let key := pure.(remediation.Policy_Taint).(remediation.Taint_Key) in
  '(changed, err) ← RemoveTaint name key;
  match (err : option error) with
  | Some e => mret (taintErrs ++ [e])
  | None =>
      if negb changed then mret taintErrs
      else
        call (Log (mkLog None "removed remediation taint"
          [("node"%string, ArgString name); ("key"%string, ArgString key)])) ;;
        recordTaintAction (nodesByName !! name) policy reasonTaintRemoved pure name ;;
        mret taintErrs
  end.

(** ** Policy-level warnings *)

Definition warnGuard (policy : v1alpha1.NodeRemediationPolicy) (pure : remediation.Policy)
    (decision : remediation.Decision) (oldReason : string) : prog unit :=
  let s := decision.(remediation.Decision_Status) in
  let matched := ArgInt (len s.(remediation.Status_MatchedNodes)) in
  let determinate := ArgInt s.(remediation.Status_DeterminateCount) in
  let remediated := ArgInt (len s.(remediation.Status_RemediatedNodes)) in
  let percent := ArgInt pure.(remediation.Policy_MaxAffectedPercent) in
  if s.(remediation.Status_GuardTripped) && negb (bool_decide (oldReason = status.ReasonGuardTripped))
  then
    call (Log (mkLog None "guard tripped, holding new remediations"
      [("matched"%string, matched); ("determinate"%string, determinate);
       ("remediated"%string, remediated); ("maxAffectedPercent"%string, percent)])) ;;
    call (Eventf (mkEvent (PolicyObject policy) None EventTypeWarning status.ReasonGuardTripped
      "HoldRemediation"
      "guard tripped: %d of %d nodes with a determinate condition match, exceeding maxAffectedPercent %d; holding new remediations, %d node(s) currently remediated"
      [matched; determinate; percent; remediated]))
  else mret tt.

Definition warnHeld (policy : v1alpha1.NodeRemediationPolicy) (pure : remediation.Policy)
    (oldHeld : list string) (_ : unit) (name : string) : prog unit :=
  if decide (name ∈ oldHeld) then mret tt
  else
    let type := ArgString pure.(remediation.Policy_ConditionType) in
    call (Log (mkLog None "holding: condition has no lastTransitionTime, debounce cannot be evaluated"
      [("node"%string, ArgString name); ("condition"%string, type)])) ;;
    call (Eventf (mkEvent (PolicyObject policy) None EventTypeWarning reasonMissingTransitionTime
      "HoldRemediation"
      "condition %q on node %s has no lastTransitionTime; debounce cannot be evaluated, so the taint is left unchanged"
      [type; ArgString name])).

(** ** OBSERVE, DECIDE, ACT

    Returns the policy as the deferred status write finds it, and the results.  The clock is read
    for [Decide], and before each mark for [SetStatusCondition].  The library reads it only where the
    condition changes: a trace of this model may have one reading more than the code makes, whose
    answer is then not used. *)
Definition observeDecideAct (policy original : v1alpha1.NodeRemediationPolicy) :
    prog (v1alpha1.NodeRemediationPolicy * Result * option error) :=
  match projectPolicy policy with
  | inl err =>
      stamp ← call Now;
      let policy := status.MarkInvalidSpec stamp policy (Error err) in
      if negb (DeepEqual original.(v1alpha1.Status) policy.(v1alpha1.Status)) then
        call (Log (mkLog (Some err) "invalid policy spec" [])) ;;
        call (Eventf (mkEvent (PolicyObject policy) None EventTypeWarning status.ReasonInvalidSpec
          "RejectSpec" "invalid spec: %v" [ArgError err])) ;;
        mret (policy, noRequeue, None)
      else mret (policy, noRequeue, None)
  | inr pure =>
      r ← call ListNodes;
      match (r : error + list corev1.Node) with
      | inl err => mret (policy, noRequeue, Some (errors.Wrap errors.ErrListNodes [] err))
      | inr nodes =>
          let '(facts, nodesByName) := observeNodes nodes pure in
          now ← call Now;
          let decision := remediation.Decide pure facts now in
          taintErrs ← forEach (applyNode policy pure nodesByName) []
                        decision.(remediation.Decision_ApplyTaint);
          taintErrs ← forEach (removeNode policy pure nodesByName) taintErrs
                        decision.(remediation.Decision_RemoveTaint);
          let oldHeld := policy.(v1alpha1.Status).(v1alpha1.Status_HeldNodes) in
          let oldReason :=
            match FindStatusCondition original.(v1alpha1.Status).(v1alpha1.Status_Conditions)
                    status.ConditionRemediating with
            | Some c => c.(metav1.Condition_Reason)
            | None => EmptyString
            end in
          stamp ← call Now;
          let '(policy, decision) := writeStatus stamp policy decision in
          warnGuard policy pure decision oldReason ;;
          forEach (warnHeld policy pure oldHeld) tt
            decision.(remediation.Decision_HeldMissingTimestamp) ;;
          match NewAggregate taintErrs with
          | Some err => mret (policy, noRequeue, Some err)
          | None => mret (policy, mkResult decision.(remediation.Decision_RequeueAfter), None)
          end
      end
  end.

(** The deferred status write. *)
Definition deferredStatusWrite (original policy : v1alpha1.NodeRemediationPolicy)
    (retErr : option error) : prog (option error) :=
  if DeepEqual original.(v1alpha1.Status) policy.(v1alpha1.Status) then mret retErr
  else
    e ← call (PatchPolicyStatus policy original);
    match IgnoreNotFound e with
    | None => mret retErr
    | Some err =>
        call (Log (mkLog (Some err) "writing NodeRemediationPolicy status"
          [("policy"%string, ArgString (v1alpha1.Name policy))])) ;;
        match retErr with
        | None => mret (Some (wrapPolicy errors.ErrWriteStatus policy err))
        | Some _ => mret retErr
        end
    end.

(** The live branch registers the finalizer first; the policy is then what the server returned. *)
Definition ensureFinalizer (policy : v1alpha1.NodeRemediationPolicy) :
    prog (error + v1alpha1.NodeRemediationPolicy) :=
  if negb (contains policy) then
    let policy := withFinalizer policy in
    r ← call (UpdatePolicy policy);
    match (r : error + v1alpha1.NodeRemediationPolicy) with
    | inl err => mret (inl (wrapPolicy errors.ErrEnsureFinalizer policy err))
    | inr policy => mret (inr policy)
    end
  else mret (inr policy).

(** The deletion branch. *)
Definition finalize (policy : v1alpha1.NodeRemediationPolicy) : prog (Result * option error) :=
  if contains policy then
    e ← cleanupTaints policy;
    match (e : option error) with
    | Some err => mret (noRequeue, Some err)
    | None =>
        let policy := withoutFinalizer policy in
        r ← call (UpdatePolicy policy);
        match (r : error + v1alpha1.NodeRemediationPolicy) with
        | inl err => mret (noRequeue, Some (wrapPolicy errors.ErrRemoveFinalizer policy err))
        | inr _ => mret (noRequeue, None)
        end
    end
  else mret (noRequeue, None).

Definition Reconcile (name : string) : prog (Result * option error) :=
  r ← call (GetPolicy name);
  match (r : error + v1alpha1.NodeRemediationPolicy) with
  | inl err => mret (noRequeue, IgnoreNotFound (Some err))
  | inr policy =>
      if Time_IsZero policy.(v1alpha1.ObjectMeta).(metav1.ObjectMeta_DeletionTimestamp) then
        f ← ensureFinalizer policy;
        match (f : error + v1alpha1.NodeRemediationPolicy) with
        | inl err => mret (noRequeue, Some err)
        | inr policy =>
            let original := policy in
            '(policy, result, retErr) ← observeDecideAct policy original;
            retErr ← deferredStatusWrite original policy retErr;
            mret (result, retErr)
        end
      else finalize policy
  end.

End reconcile.
End reconcile.
