(* ===== verification/Scenarios.v ===== *)
(** Concrete clusters and the runs of the controller on them, for the witnesses of the reconcile
    theorems. *)

From S2P Require Import Prelude GoTime Types K8sLib PolicyApi Remediation Fixtures Project Effects.
From S2P Require Import Cluster Taint Reconcile.
Import project taint reconcile ReferenceServer.

#[global] Existing Instance Reference.reference_k8s.
#[global] Existing Instance ReferenceRetry.reference_retry.

Definition other_taint : corev1.Taint :=
  corev1.mkTaint "example.com/maintenance" "soon" "NoSchedule" (Some t0).

(** A node whose watched condition has no transition time. *)
Definition untimed_node (name : string) : corev1.Node :=
  corev1.mkNode name ("uid-" +:+ name) "1" role_wp []
    [corev1.mkNodeCondition "WPUnavailable" "True" t0 time.zero].

Definition demo_node_list : list corev1.Node := [
  wp_node "a" "True" 300 [other_taint];
  wp_node "b" "False" 300 [wp_spec_taint; other_taint];
  wp_node "c" "True" 20 [];
  wp_node "d" "False" 300 [];
  untimed_node "e" ].

Definition by_name (l : list corev1.Node) : gmap string corev1.Node :=
  list_to_map ((fun n => (n.(corev1.Node_Name), n)) <$> l).

Definition cluster_with (p : v1alpha1.NodeRemediationPolicy) : state :=
  mkState (by_name demo_node_list) {[ v1alpha1.Name p := p ]} t0.

(** The policy as first created, as deleted by its owner, with a guard that trips, and with a
    selector that does not parse. *)
Definition new_policy : v1alpha1.NodeRemediationPolicy := v1alpha1.set_Finalizers wp_policy [].

Definition deleted_policy : v1alpha1.NodeRemediationPolicy :=
  v1alpha1.mkNodeRemediationPolicy
    (metav1.mkObjectMeta "wp-policy" "1" 1 (Some t0) [finalizer_name]) wp_spec empty_status.

Definition with_spec (s : v1alpha1.NodeRemediationPolicySpec) : v1alpha1.NodeRemediationPolicy :=
  v1alpha1.mkNodeRemediationPolicy wp_policy.(v1alpha1.ObjectMeta) s empty_status.

Definition strict_policy : v1alpha1.NodeRemediationPolicy :=
  with_spec (v1alpha1.mkNodeRemediationPolicySpec
    wp_spec.(v1alpha1.Spec_NodeSelector) wp_spec.(v1alpha1.Spec_Condition)
    wp_spec.(v1alpha1.Spec_Remediations) wp_spec.(v1alpha1.Spec_Debounce)
    (v1alpha1.mkGuard (Some 10))).

Definition broken_policy : v1alpha1.NodeRemediationPolicy :=
  with_spec (v1alpha1.mkNodeRemediationPolicySpec
    (Some (metav1.mkLabelSelector ∅ [metav1.mkLabelSelectorRequirement "role" "Near" []]))
    wp_spec.(v1alpha1.Spec_Condition) wp_spec.(v1alpha1.Spec_Remediations)
    wp_spec.(v1alpha1.Spec_Debounce) wp_spec.(v1alpha1.Spec_Guard)).

(** The run of one reconcile of a policy on its cluster. *)
Definition demo_run (p : v1alpha1.NodeRemediationPolicy) : trace * (Result * option error) :=
  record serve (Reconcile "wp-policy") (cluster_with p).

Definition demo_trace p : trace := (demo_run p).1.
Definition demo_result p : Result := (demo_run p).2.1.
Definition demo_error p : option error := (demo_run p).2.2.

Lemma demo_exec p : exec (Reconcile "wp-policy") (demo_trace p) (demo_result p, demo_error p).
Proof.
  unfold demo_trace, demo_result, demo_error. rewrite <- surjective_pairing. apply record_exec.
Qed.

(** The trace up to the nodes and the clock, and the rest. *)
Definition demo_nodes : list corev1.Node := (map_to_list (by_name demo_node_list)).*2.

Definition demo_rest p : trace := drop 3 (demo_trace p).

Definition demo_entry p : trace := [Ev (GetPolicy "wp-policy") (inr p)].


(** The trace cut at the first event with a property. *)
Lemma split_on (f : event -> bool) tr :
  existsb f tr = true -> exists tr1 e tr2, tr = tr1 ++ e :: tr2 /\ f e = true.
Proof.
  intros (e & He & Hf)%existsb_exists. apply in_split in He as (tr1 & tr2 & ->).
  by exists tr1, e, tr2.
Qed.

Definition is_node_patch (e : event) : bool :=
  match e.(ev_call) with PatchNode _ _ => true | _ => false end.
Definition is_status_patch (e : event) : bool :=
  match e.(ev_call) with PatchPolicyStatus _ _ => true | _ => false end.
Definition is_unregistering (e : event) : bool :=
  match e.(ev_call) with UpdatePolicy q => negb (contains q) | _ => false end.

(** A live policy with the finalizer, and its status as an earlier decision left it. *)
Definition strict_decision : remediation.Decision :=
  match projectPolicy strict_policy with
  | inr pure => remediation.Decide pure (observeNodes demo_nodes pure).1 t0
  | inl _ => remediation.Decide basePolicy [] t0
  end.

Definition warned_policy : v1alpha1.NodeRemediationPolicy :=
  (writeStatus t0 strict_policy strict_decision).1.
