(* ===== verification/ReconcileProps.v ===== *)
(** What every trace of the reconcile loop looks like, whatever the cluster answers: the vocabulary
    of the safety theorems and the lemma per sub-program that establishes it. *)

From S2P Require Import Prelude GoTime Types K8sLib PolicyApi Remediation Predicate Project.
From S2P Require Import ProjectProps Effects Taint Reconcile.
Import project taint reconcile.

(** ** Vocabulary *)

(** The taint a policy projects to. *)
Definition policy_taint (p : v1alpha1.NodeRemediationPolicy) : remediation.Taint :=
  match p.(v1alpha1.Spec).(v1alpha1.Spec_Remediations).(v1alpha1.Remediations_Taint) with
  | Some t => taintFromSpec t
  | None => zeroTaint
  end.

Definition policy_key (p : v1alpha1.NodeRemediationPolicy) : string :=
  (policy_taint p).(remediation.Taint_Key).

(** The policies the server returned in the course of the trace. *)
Definition policies_seen (tr : trace) : list v1alpha1.NodeRemediationPolicy :=
  omap (fun e => match e return option v1alpha1.NodeRemediationPolicy with
                 | Ev (GetPolicy _) (inr p) => Some p
                 | Ev (UpdatePolicy _) (inr p) => Some p
                 | _ => None end) tr.

(** A legal patch for the owner of taint [t]: written over a fresh, uncached read of the node,
    touching nothing but the taint list, and of that list only the owner's key: the taint appended
    where the key was absent, or every taint of the key dropped where it was present. *)
Definition legal_patch (t : remediation.Taint) (reads : list (string * (error + corev1.Node)))
    (x : corev1.Node * corev1.Node * option error) : Prop :=
  let '(m, o, _) := x in
  let key := t.(remediation.Taint_Key) in
  m = corev1.set_Taints o m.(corev1.Node_Taints)
  /\ (exists name, (name, inr o) ∈ reads)
  /\ (hasTaintKey o key = false
        /\ m.(corev1.Node_Taints) = o.(corev1.Node_Taints) ++ [newTaint t]
      \/ hasTaintKey o key = true
        /\ m.(corev1.Node_Taints) = foreign key o.(corev1.Node_Taints)).

Definition legal (t : remediation.Taint) (tr : trace) : Prop :=
  Forall (legal_patch t (node_reads tr)) (patches tr).

(** The taint events recorded on the policy. *)
Definition is_taint_event (e : event_record) : bool :=
  match e.(regarding) with
  | PolicyObject _ => bool_decide (e.(reason) = reasonTaintApplied \/ e.(reason) = reasonTaintRemoved)
  | NodeObject _ => false
  end.

Definition taint_events (tr : trace) : list event_record :=
  filter (fun e => Is_true (is_taint_event e)) (emitted tr).

Definition has_taint_reason (e : event_record) : Prop :=
  e.(reason) = reasonTaintApplied \/ e.(reason) = reasonTaintRemoved.

(** One event per taint that changed. *)
Definition announced (tr : trace) : Prop := length (taint_events tr) = length (succeeded tr).

(** What the taint loops do: legal, announced patches, and no write of a policy. *)
Definition act_trace (t : remediation.Taint) (tr : trace) : Prop :=
  legal t tr /\ announced tr /\ updates tr = [] /\ status_patches tr = [].

(** By the trace's end the named node was seen, or left by a successful patch of what was read, with
    the key present ([b] true) or absent. *)
Definition settled_to (b : bool) (key name : string) (tr : trace) : Prop :=
  exists o, (name, inr o) ∈ node_reads tr /\
    (hasTaintKey o key = b \/ exists m, (m, o) ∈ succeeded tr /\ hasTaintKey m key = b).

(** One operation of a loop: its trace, and the error it adds to the collected ones, if any; without
    one the node's key is as wanted. *)
Definition node_step (t : remediation.Taint) (b : bool) (name : string) (tr : trace)
    (errs errs' : list error) : Prop :=
  act_trace t tr /\ policies_seen tr = [] /\ node_lists tr = []
  /\ Forall has_taint_reason (emitted tr) /\ name ∈ (node_reads tr).*1
  /\ exists oe : option error, errs' = errs ++ option_list oe
       /\ (oe = None -> settled_to b t.(remediation.Taint_Key) name tr).

(** A trace of log lines and events that are not taint events. *)
Definition is_quiet (e : event) : bool :=
  match e.(ev_call) with
  | Log _ | Now | ListNodes | ReaderListNodes | GetPolicy _ | ListPolicies | ReaderListPolicies => true
  | Eventf r => negb (is_taint_event r)
  | _ => false
  end.
Definition quiet (tr : trace) : Prop := Forall (fun e => is_quiet e) tr.

Section lemmas.
Context `{K : K8s} `{R : Retry}.

(** ** Composition *)

Lemma legal_app t tr tr' : legal t tr -> legal t tr' -> legal t (tr ++ tr').
Proof.
  unfold legal. rewrite patches_app, node_reads_app, Forall_app, !Forall_forall.
  intros H H'. split; intros [[m o] r] Hx; [apply H in Hx|apply H' in Hx];
    destruct Hx as (? & [name ?] & ?); (split_and!; [done| |done]); exists name;
    apply elem_of_app; auto.
Qed.

Lemma announced_app tr tr' : announced tr -> announced tr' -> announced (tr ++ tr').
Proof.
  unfold announced, taint_events. rewrite emitted_app, filter_app, succeeded_app, !length_app. lia.
Qed.

Lemma act_trace_nil t : act_trace t [].
Proof. split_and!; try done. by apply List.Forall_nil. Qed.

Lemma act_trace_app t tr tr' : act_trace t tr -> act_trace t tr' -> act_trace t (tr ++ tr').
Proof.
  intros (?&?&Hu&Hs) (?&?&Hu'&Hs'). split_and!; [by apply legal_app | by apply announced_app | |].
  - by rewrite updates_app, Hu, Hu'.
  - by rewrite status_patches_app, Hs, Hs'.
Qed.

Lemma policies_seen_app tr tr' : policies_seen (tr ++ tr') = policies_seen tr ++ policies_seen tr'.
Proof. apply omap_app. Qed.

Lemma quiet_app tr tr' : quiet (tr ++ tr') <-> quiet tr /\ quiet tr'.
Proof. apply Forall_app. Qed.

Lemma quiet_observations tr :
  quiet tr -> patches tr = [] /\ node_reads tr = [] /\ updates tr = [] /\ status_patches tr = []
    /\ taint_events tr = [] /\ succeeded tr = [] /\ writes tr = [].
Proof.
  unfold quiet. induction 1 as [|[c x] tr Hc _ IH]; [done|].
  destruct IH as (IHp & IHr & IHu & IHs & IHe & IHk & IHw).
  unfold taint_events, succeeded, updates, status_patches, emitted, writes, patches, node_reads in *.
  destruct c; try done; simpl; rewrite ?filter_cons; simpl; auto 10.
  unfold is_quiet in Hc. simpl in Hc. rewrite decide_False; [auto 10|].
  revert Hc. destruct (is_taint_event e); simpl; tauto.
Qed.

Lemma quiet_act_trace t tr : quiet tr -> act_trace t tr.
Proof.
  intros (Hp & Hr & Hu & Hs & He & Hk & _)%quiet_observations.
  split_and!; [|unfold announced; by rewrite He, Hk|done|done].
  unfold legal. by rewrite Hp.
Qed.

(** A property of traces that holds of each iteration holds of the loop. *)
Lemma forEach_trace {A S} (P : trace -> Prop) (body : S -> A -> prog S) s l tr s' :
  P [] -> (forall tr1 tr2, P tr1 -> P tr2 -> P (tr1 ++ tr2)) ->
  (forall s x tr s', x ∈ l -> exec (body s x) tr s' -> P tr) ->
  exec (forEach body s l) tr s' -> P tr.
Proof.
  intros Hnil Happ. revert s tr. induction l as [|x l IH]; intros s tr Hbody H.
  - simpl in H. by destruct H as [-> _].
  - apply exec_forEach_cons in H as (tr1 & s1 & tr2 & -> & H1 & H2).
    apply Happ; [apply (Hbody s x _ s1); [by left|done]|].
    apply (IH s1); [|done]. intros s0 y tr0 s0' Hy. apply Hbody. by right.
Qed.

(** ** One taint operation *)

Context `{RL : !RetryLaws K R}.

Lemma patched_by_legal t nodeName mutate tr :
  (forall taints updated, mutate taints = (updated, true) ->
     hasKey taints t.(remediation.Taint_Key) = false /\ updated = taints ++ [newTaint t]
     \/ hasKey taints t.(remediation.Taint_Key) = true
        /\ updated = foreign t.(remediation.Taint_Key) taints) ->
  patched_by nodeName mutate tr -> legal t tr.
Proof.
  intros Hm. unfold patched_by, legal. rewrite !Forall_forall. intros H [[m o] r] Hx.
  apply H in Hx as (Hin & Hmut & Heq). split_and!; [done|by eauto|]. by apply Hm.
Qed.

Lemma recordTaintAction_trace node policy reason pure nodeName tr u :
  reason = reasonTaintApplied \/ reason = reasonTaintRemoved ->
  exec (recordTaintAction node policy reason pure nodeName) tr u ->
  length (taint_events tr) = 1%nat /\ patches tr = [] /\ node_reads tr = [] /\ updates tr = []
    /\ status_patches tr = [] /\ policies_seen tr = [] /\ node_lists tr = []
    /\ Forall has_taint_reason (emitted tr).
Proof.
  intros Hr H. unfold recordTaintAction in H.
  destruct (decide (reason = reasonTaintRemoved)), node as [nd|];
    apply exec_bind in H as (tr1 & ? & tr2 & -> & H1 & H2); exec_inv;
    unfold taint_events, is_taint_event; simpl; rewrite ?filter_cons; simpl;
    rewrite ?bool_decide_eq_true_2 by done; split_and!; try done;
    rewrite ?Forall_cons, ?Forall_nil; unfold has_taint_reason; simpl; tauto.
Qed.

(** A finished operation of either kind, with the log line and event that follow a change. *)
Lemma taint_trace_act t limit nodeName mutate tr changed err :
  (forall taints updated, mutate taints = (updated, true) ->
     hasKey taints t.(remediation.Taint_Key) = false /\ updated = taints ++ [newTaint t]
     \/ hasKey taints t.(remediation.Taint_Key) = true
        /\ updated = foreign t.(remediation.Taint_Key) taints) ->
  taint_trace limit nodeName mutate tr changed err ->
  legal t tr /\ length (succeeded tr) = (if changed then 1 else 0)%nat /\ taint_events tr = []
    /\ updates tr = [] /\ status_patches tr = [].
Proof.
  intros Hm (_ & _ & Hc & _ & Hb & Hs & _). apply taint_calls_only in Hc as (Hu & Hst & He & _).
  split_and!; [by eapply patched_by_legal|done| |done|done]. unfold taint_events. by rewrite He.
Qed.

Lemma changed_act_trace t tr1 tr2 tr3 :
  legal t tr1 -> length (succeeded tr1) = 1%nat -> taint_events tr1 = [] -> updates tr1 = [] ->
  status_patches tr1 = [] -> quiet tr2 ->
  length (taint_events tr3) = 1%nat -> patches tr3 = [] -> node_reads tr3 = [] -> updates tr3 = [] ->
  status_patches tr3 = [] ->
  act_trace t (tr1 ++ tr2 ++ tr3).
Proof.
  intros Hl Hs He Hu Hst Hq He3 Hp3 Hr3 Hu3 Hst3.
  apply quiet_observations in Hq as (Hp2 & Hr2 & Hu2 & Hs2 & He2 & Hk2 & _).
  split_and!.
  - unfold legal. rewrite !patches_app, !node_reads_app, Hp2, Hp3, Hr2, Hr3, !app_nil_r. exact Hl.
  - unfold announced, taint_events in *. rewrite !emitted_app, !filter_app, He, He2, !succeeded_app.
    rewrite !length_app, Hs, Hk2, He3. unfold succeeded. by rewrite Hp3.
  - by rewrite !updates_app, Hu, Hu2, Hu3.
  - by rewrite !status_patches_app, Hst, Hs2, Hst3.
Qed.

Lemma settled_to_app_l b key name tr tr' : settled_to b key name tr -> settled_to b key name (tr ++ tr').
Proof.
  intros (o & Ho & H). exists o. rewrite node_reads_app, succeeded_app. setoid_rewrite elem_of_app.
  naive_solver.
Qed.

Lemma settled_to_app_r b key name tr tr' : settled_to b key name tr' -> settled_to b key name (tr ++ tr').
Proof.
  intros (o & Ho & H). exists o. rewrite node_reads_app, succeeded_app. setoid_rewrite elem_of_app.
  naive_solver.
Qed.

Lemma taint_calls_policies_seen tr :
  Forall (fun e => is_taint_call e.(ev_call)) tr -> policies_seen tr = [].
Proof. unfold policies_seen. induction 1 as [|[c x] tr Hc _ IH]; [done|]. by destruct c. Qed.

Lemma elem_of_succeeded m o tr : (m, o) ∈ succeeded tr <-> (m, o, None) ∈ patches tr.
Proof.
  unfold succeeded. rewrite list_elem_of_omap. split.
  - intros ([[m' o'] [e|]] & Hx & Hs); by simplify_eq.
  - intros H. by exists (m, o, None).
Qed.

(** An operation that returned no error left the key as its mutation wants it. *)
Lemma taint_trace_settled limit b key nodeName mutate tr changed :
  (forall taints updated, mutate taints = (updated, true) -> hasKey updated key = b) ->
  (forall taints, (mutate taints).2 = false -> hasKey taints key = b) ->
  taint_trace limit nodeName mutate tr changed None -> settled_to b key nodeName tr.
Proof.
  intros Hm Hn (_ & _ & _ & _ & Hb & Hs & Hno & _). destruct changed.
  - destruct (succeeded tr) as [|[m o] l] eqn:E; [done|].
    assert ((m, o) ∈ succeeded tr) as Hin by (rewrite E; by left).
    pose proof Hin as Hp. rewrite elem_of_succeeded in Hp.
    unfold patched_by in Hb. rewrite Forall_forall in Hb. apply Hb in Hp as (Hr & Hmut & _).
    exists o. split; [done|]. right. exists m. split; [done|]. by eapply Hm.
  - destruct (Hno eq_refl eq_refl) as (o & Ho & Hmut). exists o. split; [done|]. left. by apply Hn.
Qed.

Lemma addTaint_legal t taints updated :
  addTaint t taints = (updated, true) ->
  hasKey taints t.(remediation.Taint_Key) = false /\ updated = taints ++ [newTaint t]
  \/ hasKey taints t.(remediation.Taint_Key) = true
     /\ updated = foreign t.(remediation.Taint_Key) taints.
Proof. rewrite addTaint_spec. tauto. Qed.

Lemma dropTaint_legal t taints updated :
  dropTaint t.(remediation.Taint_Key) taints = (updated, true) ->
  hasKey taints t.(remediation.Taint_Key) = false /\ updated = taints ++ [newTaint t]
  \/ hasKey taints t.(remediation.Taint_Key) = true
     /\ updated = foreign t.(remediation.Taint_Key) taints.
Proof. rewrite dropTaint_spec. tauto. Qed.

(** The common tail of the three loop bodies, after the operation: on a change a log line and the
    event, on an error the error collected, otherwise nothing. *)
Lemma node_step_intro t b limit name mutate tr1 changed err tr2 errs errs' :
  (forall taints updated, mutate taints = (updated, true) ->
     hasKey taints t.(remediation.Taint_Key) = false /\ updated = taints ++ [newTaint t]
     \/ hasKey taints t.(remediation.Taint_Key) = true
        /\ updated = foreign t.(remediation.Taint_Key) taints) ->
  (forall taints updated, mutate taints = (updated, true) ->
     hasKey updated t.(remediation.Taint_Key) = b) ->
  (forall taints, (mutate taints).2 = false -> hasKey taints t.(remediation.Taint_Key) = b) ->
  taint_trace limit name mutate tr1 changed err ->
  match err with
  | Some e => tr2 = [] /\ errs' = errs ++ [e]
  | None => if changed then
              errs' = errs /\ exists l node policy reason pure u tr3,
                tr2 = [Ev (Log l) tt] ++ tr3
                /\ (reason = reasonTaintApplied \/ reason = reasonTaintRemoved)
                /\ exec (recordTaintAction node policy reason pure name) tr3 u
            else tr2 = [] /\ errs' = errs
  end ->
  node_step t b name (tr1 ++ tr2) errs errs'.
Proof.
  intros Hl Hm Hn Ht Htail.
  pose proof (taint_trace_act t limit name mutate tr1 changed err Hl Ht) as (Hleg & Hs & He & Hu & Hst).
  pose proof (taint_trace_settled limit b _ name mutate tr1 changed Hm Hn) as Hset.
  pose proof Ht as (Hreads & Hnames & Hc & _ & _ & _ & _ & Herr).
  pose proof (taint_calls_only _ Hc) as (_ & _ & Hem & Hnl & _).
  apply taint_calls_policies_seen in Hc.
  assert (name ∈ (node_reads tr1).*1) as Hname.
  { destruct (node_reads tr1) as [|nr l]; [simpl in Hreads; lia|].
    apply Forall_cons in Hnames as [<- _]. by left. }
  assert (forall tr, name ∈ (node_reads (tr1 ++ tr)).*1) as Hname'.
  { intros tr. rewrite node_reads_app, fmap_app, elem_of_app. by left. }
  destruct err as [e|].
  - destruct Htail as [-> ->]. rewrite (Herr e eq_refl) in Hs. rewrite app_nil_r.
    split_and!; [|done|done|by rewrite Hem|done|by exists (Some e)].
    split_and!; try done. unfold announced. by rewrite He, Hs.
  - specialize (Hset Ht). destruct changed.
    + destruct Htail as (-> & l & node & policy & rs & pure & u & tr3 & -> & Hr & H3).
      apply recordTaintAction_trace in H3 as (He3 & Hp3 & Hr3 & Hu3 & Hst3 & Hps3 & Hnl3 & Hem3); [|done].
      split_and!; [|by rewrite !policies_seen_app, Hc, Hps3|by rewrite !node_lists_app, Hnl, Hnl3
        |by rewrite !emitted_app, Hem|done|].
      * apply changed_act_trace; try done. by apply Forall_singleton.
      * exists None. split; [by rewrite app_nil_r|]. intros _. by apply settled_to_app_l.
    + destruct Htail as [-> ->]. rewrite app_nil_r. split_and!; [|done|done|by rewrite Hem|done|].
      * split_and!; try done. unfold announced. by rewrite He, Hs.
      * exists None. by rewrite app_nil_r.
Qed.

(** What the loop bodies do after a change. *)
Lemma changed_tail l node policy reason pure name (errs : list error) tr errs' :
  reason = reasonTaintApplied \/ reason = reasonTaintRemoved ->
  exec (call (Log l) ;; recordTaintAction node policy reason pure name ;; mret errs) tr errs' ->
  errs' = errs /\ exists l node policy reason pure u tr3,
    tr = [Ev (Log l) tt] ++ tr3
    /\ (reason = reasonTaintApplied \/ reason = reasonTaintRemoved)
    /\ exec (recordTaintAction node policy reason pure name) tr3 u.
Proof.
  intros Hr (tr1 & [] & tr2 & -> & ->%exec_call & H)%exec_bind.
  apply exec_bind in H as (tr3 & u & tr4 & -> & H & [-> ->]%exec_ret).
  rewrite app_nil_r. split; [done|]. by exists l, node, policy, reason, pure, u, tr3.
Qed.

Lemma applyNode_step policy pure byName errs name tr errs' :
  exec (applyNode policy pure byName errs name) tr errs' ->
  node_step pure.(remediation.Policy_Taint) true name tr errs errs'.
Proof.
  unfold applyNode. intros (tr1 & [changed err] & tr2 & -> & H1 & H2)%exec_bind.
  apply EnsureTaint_taint_trace in H1.
  eapply node_step_intro; [apply addTaint_legal| | |exact H1|].
  - intros taints updated [_ ->]%addTaint_spec. rewrite hasKey_app. simpl.
    by rewrite decide_True, orb_true_r.
  - apply addTaint_noop.
  - destruct err as [e|]; [by apply exec_ret in H2 as [-> ->]|].
    destruct changed; [|by apply exec_ret in H2 as [-> ->]].
    eapply changed_tail; [|exact H2]. by left.
Qed.

Lemma removeNode_step policy pure byName errs name tr errs' :
  exec (removeNode policy pure byName errs name) tr errs' ->
  node_step pure.(remediation.Policy_Taint) false name tr errs errs'.
Proof.
  unfold removeNode. intros (tr1 & [changed err] & tr2 & -> & H1 & H2)%exec_bind.
  apply RemoveTaint_taint_trace in H1.
  eapply node_step_intro; [apply dropTaint_legal| | |exact H1|].
  - intros taints updated [_ ->]%dropTaint_spec. rewrite hasKey_foreign.
    by rewrite bool_decide_eq_true_2, andb_false_r.
  - apply dropTaint_noop.
  - destruct err as [e|]; [by apply exec_ret in H2 as [-> ->]|].
    destruct changed; [|by apply exec_ret in H2 as [-> ->]].
    eapply changed_tail; [|exact H2]. by right.
Qed.

Lemma cleanupNode_step policy pure errs node tr errs' :
  hasTaintKey node pure.(remediation.Policy_Taint).(remediation.Taint_Key) = true ->
  exec (cleanupNode policy pure errs node) tr errs' ->
  node_step pure.(remediation.Policy_Taint) false node.(corev1.Node_Name) tr errs errs'.
Proof.
  unfold cleanupNode. intros ->. cbn [negb]. intros (tr1 & [changed err] & tr2 & -> & H1 & H2)%exec_bind.
  apply RemoveTaint_taint_trace in H1.
  eapply node_step_intro; [apply dropTaint_legal| | |exact H1|].
  - intros taints updated [_ ->]%dropTaint_spec. rewrite hasKey_foreign.
    by rewrite bool_decide_eq_true_2, andb_false_r.
  - apply dropTaint_noop.
  - destruct err as [e|]; [by apply exec_ret in H2 as [-> ->]|].
    destruct changed; [|by apply exec_ret in H2 as [-> ->]].
    eapply changed_tail; [|exact H2]. by right.
Qed.

End lemmas.
