(* ===== verification/ReconcileShape.v ===== *)
(** The runs of the reconcile loop, by cases: what the taint loops leave behind, the three outcomes
    of a pass over a live policy ([observed]) and the four of a request ([reconciled]), each with
    the shape of its trace. *)

From S2P Require Import Prelude GoTime Types K8sLib PolicyApi Remediation Predicate Project.
From S2P Require Import ProjectProps Effects Taint Reconcile ReconcileProps.
Import project taint reconcile.

(** ** The outcome of a loop *)

(** One outcome per node: the error of its operation, or none, and then the node's key is as
    wanted. *)
Definition settled_or_failed (b : bool) (key : string) (tr : trace) (name : string)
    (outcome : option error) : Prop :=
  name ∈ (node_reads tr).*1 /\ (outcome = None -> settled_to b key name tr).

Definition loop_outcome (t : remediation.Taint) (b : bool) (names : list string) (tr : trace)
    (outcomes : list (option error)) : Prop :=
  act_trace t tr /\ policies_seen tr = [] /\ node_lists tr = []
  /\ Forall has_taint_reason (emitted tr)
  /\ Forall2 (settled_or_failed b t.(remediation.Taint_Key) tr) names outcomes.

(** The errors of a list of outcomes, in order. *)
Definition failures (outcomes : list (option error)) : list error := omap id outcomes.

(** ** The runs of a pass over a live policy *)
Section runs.
Context `{K : K8s} `{R : Retry}.

Definition previous_reason (p : v1alpha1.NodeRemediationPolicy) : string :=
  match FindStatusCondition p.(v1alpha1.Status).(v1alpha1.Status_Conditions)
          status.ConditionRemediating with
  | Some c => c.(metav1.Condition_Reason)
  | None => EmptyString
  end.

Variant observed (p : v1alpha1.NodeRemediationPolicy) :
    trace -> v1alpha1.NodeRemediationPolicy -> Result -> option error -> Prop :=
  | observed_invalid err stamp tr :
      projectPolicy p = inl err ->
      quiet tr -> policies_seen tr = [] ->
      Forall (fun e => e.(reason) = status.ReasonInvalidSpec) (emitted tr) ->
      observed p (Ev Now stamp :: tr) (status.MarkInvalidSpec stamp p (Error err)) noRequeue None
  | observed_list_error pure err :
      projectPolicy p = inr pure ->
      observed p [Ev ListNodes (inl err)] p noRequeue (Some (errors.Wrap errors.ErrListNodes [] err))
  | observed_nodes pure nodes now stamp trA outsA trR outsR trW u trH u' :
      projectPolicy p = inr pure ->
      let d := remediation.Decide pure (observeNodes nodes pure).1 now in
      loop_outcome pure.(remediation.Policy_Taint) true d.(remediation.Decision_ApplyTaint)
        trA outsA ->
      loop_outcome pure.(remediation.Policy_Taint) false d.(remediation.Decision_RemoveTaint)
        trR outsR ->
      let w := writeStatus stamp p d in
      exec (warnGuard w.1 pure w.2 (previous_reason p)) trW u ->
      exec (forEach (warnHeld w.1 pure p.(v1alpha1.Status).(v1alpha1.Status_HeldNodes)) tt
              w.2.(remediation.Decision_HeldMissingTimestamp)) trH u' ->
      let err := NewAggregate (failures (outsA ++ outsR)) in
      observed p (Ev ListNodes (inr nodes) :: Ev Now now :: trA ++ trR ++ Ev Now stamp :: trW ++ trH)
        w.1
        (match err with None => mkResult d.(remediation.Decision_RequeueAfter) | _ => noRequeue end)
        err.

(** ** The runs of a request *)

(** The policy a live pass works on, with the trace that led to it: the one read, or the one the
    server returned for the update that adds the finalizer. *)
Variant entered (name : string) : trace -> v1alpha1.NodeRemediationPolicy -> Prop :=
  | entered_registered p :
      Time_IsZero p.(v1alpha1.ObjectMeta).(metav1.ObjectMeta_DeletionTimestamp) = true ->
      contains p = true ->
      entered name [Ev (GetPolicy name) (inr p)] p
  | entered_registering p p' :
      Time_IsZero p.(v1alpha1.ObjectMeta).(metav1.ObjectMeta_DeletionTimestamp) = true ->
      contains p = false ->
      entered name [Ev (GetPolicy name) (inr p); Ev (UpdatePolicy (withFinalizer p)) (inr p')] p'.

Variant reconciled (name : string) : trace -> Result -> option error -> Prop :=
  | reconciled_unread err :
      reconciled name [Ev (GetPolicy name) (inl err)] noRequeue (IgnoreNotFound (Some err))
  | reconciled_unregistered p err :
      Time_IsZero p.(v1alpha1.ObjectMeta).(metav1.ObjectMeta_DeletionTimestamp) = true ->
      contains p = false ->
      reconciled name [Ev (GetPolicy name) (inr p); Ev (UpdatePolicy (withFinalizer p)) (inl err)]
        noRequeue (Some (wrapPolicy errors.ErrEnsureFinalizer (withFinalizer p) err))
  | reconciled_live tr0 p tr1 p' res err tr2 err' :
      entered name tr0 p ->
      observed p tr1 p' res err ->
      exec (deferredStatusWrite p p' err) tr2 err' ->
      reconciled name (tr0 ++ tr1 ++ tr2) res err'
  | reconciled_deleted p tr res err :
      Time_IsZero p.(v1alpha1.ObjectMeta).(metav1.ObjectMeta_DeletionTimestamp) = false ->
      exec (finalize p) tr (res, err) ->
      reconciled name (Ev (GetPolicy name) (inr p) :: tr) res err.

(** ** Loops *)

Lemma loop_outcome_nil t b : loop_outcome t b [] [] [].
Proof. split_and!; try done; apply act_trace_nil. Qed.

Lemma settled_or_failed_app_l b key tr tr' name o :
  settled_or_failed b key tr name o -> settled_or_failed b key (tr ++ tr') name o.
Proof.
  intros [Hn Hs]. split; [rewrite node_reads_app, fmap_app, elem_of_app; by left|].
  intros Ho. by apply settled_to_app_l, Hs.
Qed.

Lemma settled_or_failed_app_r b key tr tr' name o :
  settled_or_failed b key tr' name o -> settled_or_failed b key (tr ++ tr') name o.
Proof.
  intros [Hn Hs]. split; [rewrite node_reads_app, fmap_app, elem_of_app; by right|].
  intros Ho. by apply settled_to_app_r, Hs.
Qed.

Lemma loop_outcome_app t b names names' tr tr' outs outs' :
  loop_outcome t b names tr outs -> loop_outcome t b names' tr' outs' ->
  loop_outcome t b (names ++ names') (tr ++ tr') (outs ++ outs').
Proof.
  intros (Ha & Hp & Hl & He & Hf) (Ha' & Hp' & Hl' & He' & Hf'). split_and!.
  - by apply act_trace_app.
  - by rewrite policies_seen_app, Hp, Hp'.
  - by rewrite node_lists_app, Hl, Hl'.
  - rewrite emitted_app. by apply Forall_app.
  - apply Forall2_app; (eapply Forall2_impl; [eassumption|]); intros ??.
    + apply settled_or_failed_app_l.
    + apply settled_or_failed_app_r.
Qed.

Lemma node_step_outcome t b name tr errs errs' :
  node_step t b name tr errs errs' ->
  exists o, loop_outcome t b [name] tr [o] /\ errs' = errs ++ failures [o].
Proof.
  intros (Ha & Hp & Hl & He & Hn & o & -> & Hs). exists o. split; [|by destruct o].
  split_and!; try done. by repeat constructor.
Qed.

(** A loop whose body does nothing but one operation per node to handle. *)
Lemma forEach_outcome {A} t b (body : list error -> A -> prog (list error)) (todo : A -> list string)
    l errs tr errs' :
  (forall errs x tr errs', exec (body errs x) tr errs' ->
     exists outs, loop_outcome t b (todo x) tr outs /\ errs' = errs ++ failures outs) ->
  exec (forEach body errs l) tr errs' ->
  exists outs, loop_outcome t b (mjoin (todo <$> l)) tr outs /\ errs' = errs ++ failures outs.
Proof.
  intros Hbody. revert errs tr. induction l as [|x l IH]; intros errs tr H.
  - destruct H as [-> ->]. exists []. split; [apply loop_outcome_nil | by rewrite app_nil_r].
  - apply exec_forEach_cons in H as (tr1 & errs1 & tr2 & -> & H1 & H2).
    apply Hbody in H1 as (outs1 & H1 & ->). apply IH in H2 as (outs2 & H2 & ->).
    exists (outs1 ++ outs2). split; [by apply loop_outcome_app|].
    unfold failures. by rewrite omap_app, app_assoc.
Qed.

Lemma mjoin_singletons {A} (l : list A) : mjoin ((fun x => [x]) <$> l) = l.
Proof. induction l as [|x l IH]; [done|]. exact (f_equal (cons x) IH). Qed.

Lemma forEach_singletons t b (body : list error -> string -> prog (list error)) l errs tr errs' :
  (forall errs x tr errs', exec (body errs x) tr errs' ->
     exists o, loop_outcome t b [x] tr [o] /\ errs' = errs ++ failures [o]) ->
  exec (forEach body errs l) tr errs' ->
  exists outs, loop_outcome t b l tr outs /\ errs' = errs ++ failures outs.
Proof.
  intros Hbody H. apply (forEach_outcome t b _ (fun x => [x])) in H.
  - by rewrite mjoin_singletons in H.
  - intros errs0 x tr0 errs0' H0. apply Hbody in H0 as (o & ? & ?). by exists [o].
Qed.

Context `{RL : !RetryLaws K R}.

Lemma applyLoop_outcome policy pure byName names errs tr errs' :
  exec (forEach (applyNode policy pure byName) errs names) tr errs' ->
  exists outs, loop_outcome pure.(remediation.Policy_Taint) true names tr outs
    /\ errs' = errs ++ failures outs.
Proof.
  apply forEach_singletons. intros. by eapply node_step_outcome, applyNode_step.
Qed.

Lemma removeLoop_outcome policy pure byName names errs tr errs' :
  exec (forEach (removeNode policy pure byName) errs names) tr errs' ->
  exists outs, loop_outcome pure.(remediation.Policy_Taint) false names tr outs
    /\ errs' = errs ++ failures outs.
Proof.
  apply forEach_singletons. intros. by eapply node_step_outcome, removeNode_step.
Qed.

(** The cleanup loop handles the nodes that carry the key. *)
Definition tainted_names (key : string) (nodes : list corev1.Node) : list string :=
  mjoin ((fun n => if hasTaintKey n key then [n.(corev1.Node_Name)] else []) <$> nodes).

Lemma elem_of_tainted_names key nodes n :
  n ∈ nodes -> hasTaintKey n key = true -> n.(corev1.Node_Name) ∈ tainted_names key nodes.
Proof.
  intros Hn Hk. apply list_elem_of_join. exists [n.(corev1.Node_Name)]. split; [by left|].
  apply list_elem_of_fmap. exists n. by rewrite Hk.
Qed.

Lemma cleanupLoop_outcome policy pure nodes errs tr errs' :
  exec (forEach (cleanupNode policy pure) errs nodes) tr errs' ->
  let t := pure.(remediation.Policy_Taint) in
  exists outs, loop_outcome t false (tainted_names t.(remediation.Taint_Key) nodes) tr outs
    /\ errs' = errs ++ failures outs.
Proof.
  intros H t. revert H. apply forEach_outcome. intros errs0 n tr0 errs0' H.
  destruct (hasTaintKey n t.(remediation.Taint_Key)) eqn:Hk.
  - apply cleanupNode_step, node_step_outcome in H as (o & H & ->); [|done]. by exists [o].
  - unfold cleanupNode in H. unfold t in Hk. rewrite Hk in H. destruct H as [-> <-].
    exists []. split; [apply loop_outcome_nil | by rewrite app_nil_r].
Qed.

(** ** The runs, by cases *)

Lemma observeDecideAct_cases p tr p' res err :
  exec (observeDecideAct p p) tr (p', res, err) -> observed p tr p' res err.
Proof.
  unfold observeDecideAct. destruct (projectPolicy p) as [perr|pure] eqn:Hp; intros H.
  - apply exec_bind in H as (tr1 & stamp & tr2 & -> & ->%exec_call & H).
    destruct (negb (DeepEqual _ _)).
    + destruct H as ([] & ? & -> & [] & ? & -> & -> & [= <- <- <-]).
      apply observed_invalid; [done| |done|]; by repeat constructor.
    + destruct H as [-> [= <- <- <-]]. apply observed_invalid; [done| |done|]; by repeat constructor.
  - apply exec_bind in H as (tr1 & r & tr2 & -> & ->%exec_call & H).
    destruct r as [lerr|nodes].
    { destruct H as [-> [= <- <- <-]]. by eapply observed_list_error. }
    destruct (observeNodes nodes pure) as [facts byName] eqn:Hobs.
    apply exec_bind in H as (tr3 & now & tr4 & -> & ->%exec_call & H).
    apply exec_bind in H as (trA & errsA & tr5 & -> & HA & H).
    apply exec_bind in H as (trR & errsR & tr6 & -> & HR & H).
    apply exec_bind in H as (tr7 & stamp & tr8 & -> & ->%exec_call & H).
    destruct (writeStatus stamp p _) as [pw dw] eqn:Hw.
    apply exec_bind in H as (trW & u & tr9 & -> & HW & H).
    apply exec_bind in H as (trH & u' & tr10 & -> & HH & H).
    apply applyLoop_outcome in HA as (outsA & HA & ->).
    apply removeLoop_outcome in HR as (outsR & HR & ->).
    simpl in H. unfold failures in H. rewrite <- omap_app in H. fold (failures (outsA ++ outsR)) in H.
    pose proof (observed_nodes p pure nodes now stamp trA outsA trR outsR trW u trH u' Hp) as Ho.
    rewrite Hobs in Ho. change ((facts, byName).1) with facts in Ho.
    cbv zeta in Ho. rewrite Hw in Ho. specialize (Ho HA HR HW HH). revert Ho H. simpl.
    unfold writeStatus in Hw. injection Hw as _ <-.
    by destruct (NewAggregate _); intros Ho [-> [= <- <- <-]]; rewrite app_nil_r.
Qed.

Lemma Reconcile_cases name tr res err :
  exec (Reconcile name) tr (res, err) -> reconciled name tr res err.
Proof.
  unfold Reconcile. intros (tr1 & r & tr2 & -> & ->%exec_call & H)%exec_bind.
  destruct r as [e|p]; [destruct H as [-> [= <- <-]]; apply reconciled_unread|].
  destruct (Time_IsZero _) eqn:Ht; [|by apply reconciled_deleted].
  apply exec_bind in H as (tr3 & f & tr4 & -> & Hf & H).
  assert (match f with
          | inl e => contains p = false /\ exists err0,
              tr3 = [Ev (UpdatePolicy (withFinalizer p)) (inl err0)]
              /\ e = wrapPolicy errors.ErrEnsureFinalizer (withFinalizer p) err0
          | inr p' => entered name (Ev (GetPolicy name) (inr p) :: tr3) p'
          end) as Hent.
  { unfold ensureFinalizer in Hf. destruct (contains p) eqn:Hc; simpl in Hf.
    - destruct Hf as [-> <-]. by constructor.
    - destruct Hf as (r & tr' & -> & Hf). destruct r; destruct Hf as [-> <-]; [by eauto|].
      by constructor. }
  destruct f as [e|p'].
  - destruct Hent as (Hc & err0 & -> & ->), H as [-> [= <- <-]]. by apply reconciled_unregistered.
  - apply exec_bind in H as (tr5 & [[p1 res1] err1] & tr6 & -> & H1 & H).
    apply exec_bind in H as (tr7 & err2 & tr8 & -> & H2 & H).
    destruct H as [-> [= <- <-]]. rewrite app_nil_r.
    exact (reconciled_live name _ _ _ _ _ _ _ _ Hent (observeDecideAct_cases _ _ _ _ _ H1) H2).
Qed.

(** A request that lists the nodes runs one full pass over them. *)

Definition answered_policy (e : event) : option (error + v1alpha1.NodeRemediationPolicy) :=
  match e with
  | Ev (GetPolicy _) r => Some r
  | Ev (UpdatePolicy _) r => Some r
  | _ => None
  end.

Definition answered_nodes (e : event) : option (error + list corev1.Node) :=
  match e with Ev ListNodes r => Some r | _ => None end.

Definition answered_now (e : event) : option time.Time :=
  match e with Ev Now r => Some r | _ => None end.

Lemma entered_runs name tr0 p tr res err :
  entered name tr0 p -> exec (Reconcile name) (tr0 ++ tr) (res, err) ->
  exists tr1 tr2 p' err1, tr = tr1 ++ tr2 /\ exec (observeDecideAct p p) tr1 (p', res, err1)
    /\ exec (deferredStatusWrite p p' err1) tr2 err.
Proof.
  intros Hent (r & tr' & Heq & H).
  destruct Hent as [p Ht Hc|p p' Ht Hc]; apply cons_eq_inv in Heq as [He <-];
    apply (f_equal answered_policy) in He; injection He as <-; simpl in H; rewrite Ht in H;
    unfold ensureFinalizer in H; rewrite Hc in H.
  - apply exec_bind in H as (tr3 & f & tr4 & -> & [-> <-] & H).
    apply exec_bind in H as (tr5 & [[p1 res1] err1] & tr6 & -> & H1 & H).
    apply exec_bind in H as (tr7 & err2 & tr8 & -> & H2 & [-> [= <- <-]]).
    rewrite app_nil_r. by exists tr5, tr7, p1, err1.
  - destruct H as (r & tr' & Heq & H). apply cons_eq_inv in Heq as [He <-].
    apply (f_equal answered_policy) in He. injection He as <-. simpl in H.
    apply exec_bind in H as (tr5 & [[p1 res1] err1] & tr6 & -> & H1 & H).
    apply exec_bind in H as (tr7 & err2 & tr8 & -> & H2 & [-> [= <- <-]]).
    rewrite app_nil_r. by exists tr5, tr7, p1, err1.
Qed.

Lemma entered_prefix name tr0 p tr res err :
  entered name tr0 p -> exec (Reconcile name) (tr0 ++ tr) (res, err) ->
  exists tr1 tr2 p' err1, tr = tr1 ++ tr2 /\ observed p tr1 p' res err1
    /\ exec (deferredStatusWrite p p' err1) tr2 err.
Proof.
  intros Hent H. apply (entered_runs _ _ _ _ _ _ Hent) in H as (tr1 & tr2 & p' & err1 & -> & H & ?).
  apply observeDecideAct_cases in H. by exists tr1, tr2, p', err1.
Qed.

Lemma live_pass name tr0 p nodes now tr res err :
  entered name tr0 p ->
  exec (Reconcile name) (tr0 ++ Ev ListNodes (inr nodes) :: Ev Now now :: tr) (res, err) ->
  exists pure stamp trA outsA trR outsR trW u trH u' tr2,
    projectPolicy p = inr pure
    /\ let t := pure.(remediation.Policy_Taint) in
       let d := remediation.Decide pure (observeNodes nodes pure).1 now in
       let w := writeStatus stamp p d in
       let err1 := NewAggregate (failures (outsA ++ outsR)) in
       tr = trA ++ trR ++ Ev Now stamp :: (trW ++ trH) ++ tr2
       /\ loop_outcome t true d.(remediation.Decision_ApplyTaint) trA outsA
       /\ loop_outcome t false d.(remediation.Decision_RemoveTaint) trR outsR
       /\ exec (warnGuard w.1 pure w.2 (previous_reason p)) trW u
       /\ exec (forEach (warnHeld w.1 pure p.(v1alpha1.Status).(v1alpha1.Status_HeldNodes)) tt
                 w.2.(remediation.Decision_HeldMissingTimestamp)) trH u'
       /\ exec (deferredStatusWrite p w.1 err1) tr2 err
       /\ res = match err1 with
                | None => mkResult d.(remediation.Decision_RequeueAfter)
                | Some _ => noRequeue
                end.
Proof.
  intros Hent H. apply (entered_prefix _ _ _ _ _ _ Hent) in H as (tr1 & tr2 & p' & err1 & Heq & Ho & H2).
  destruct Ho as [perr stamp trq Hp _ _ _|pure lerr Hp
    |pure nodes' now' stamp trA outsA trR outsR trW u trH u' Hp d HA HR w HW HH err1].
  - apply cons_eq_inv in Heq as [He _]. by apply (f_equal answered_nodes) in He.
  - apply cons_eq_inv in Heq as [He _]. by apply (f_equal answered_nodes) in He.
  - apply cons_eq_inv in Heq as [He Heq]. apply cons_eq_inv in Heq as [Hn ->].
    apply (f_equal answered_nodes) in He. injection He as ->.
    apply (f_equal answered_now) in Hn. injection Hn as ->.
    exists pure, stamp, trA, outsA, trR, outsR, trW, u, trH, u', tr2. split; [done|].
    cbv zeta. split_and!; try done.
    change ((trA ++ trR ++ Ev Now stamp :: trW ++ trH) ++ tr2
            = trA ++ trR ++ (Ev Now stamp :: trW ++ trH) ++ tr2). by rewrite <- !app_assoc.
Qed.

(** ** Summaries *)

(** All nodes listed with the key have lost it. *)
Definition cleaned (p : v1alpha1.NodeRemediationPolicy) (tr : trace) : Prop :=
  match p.(v1alpha1.Spec).(v1alpha1.Spec_Remediations).(v1alpha1.Remediations_Taint) with
  | None => True
  | Some t => exists nodes, node_lists tr = [inr nodes] /\
      forall n, n ∈ nodes -> hasTaintKey n t.(corev1.Taint_Key) = true ->
        settled_to false t.(corev1.Taint_Key) n.(corev1.Node_Name) tr
  end.

Lemma projectPolicy_taint p pure :
  projectPolicy p = inr pure -> pure.(remediation.Policy_Taint) = policy_taint p.
Proof. unfold projectPolicy. by destruct (nodeSelector p); intros; simplify_eq/=. Qed.

Lemma warnGuard_quiet p pure d old tr u :
  exec (warnGuard p pure d old) tr u -> quiet tr /\ policies_seen tr = [].
Proof.
  unfold warnGuard. destruct (_ && _).
  - intros ([] & ? & -> & [] & ? & -> & -> & _). split; [by repeat constructor|done].
  - intros [-> _]. split; [constructor|done].
Qed.

Lemma warnHeld_quiet p pure old l tr u :
  exec (forEach (warnHeld p pure old) tt l) tr u -> quiet tr /\ policies_seen tr = [].
Proof.
  apply (forEach_trace (fun tr => quiet tr /\ policies_seen tr = [])).
  - split; [constructor|done].
  - intros tr1 tr2 [? Hp] [? Hp']. rewrite quiet_app, policies_seen_app, Hp, Hp'. done.
  - intros s name tr0 s' _. unfold warnHeld. case_decide; [intros [-> _]; split; [constructor|done]|].
    intros ([] & ? & -> & [] & ? & -> & -> & _). split; [by repeat constructor|done].
Qed.

Lemma writeStatus_frame now p d :
  let p' := (writeStatus now p d).1 in
  p'.(v1alpha1.Spec) = p.(v1alpha1.Spec) /\ p'.(v1alpha1.ObjectMeta) = p.(v1alpha1.ObjectMeta).
Proof. unfold writeStatus. simpl. by rewrite markDecision_eq. Qed.

Lemma observed_trace p tr p' res err :
  observed p tr p' res err ->
  act_trace (policy_taint p) tr /\ policies_seen tr = []
  /\ p' = v1alpha1.set_Status p p'.(v1alpha1.Status).
Proof.
  destruct 1 as [perr stamp tr Hp Hq Hs _|pure lerr Hp
    |pure nodes now stamp trA outsA trR outsR trW u trH u' Hp d HA HR w HW HH err].
  - split_and!; [apply quiet_act_trace; by apply List.Forall_cons|done|done].
  - split_and!; [|done|by destruct p]. apply quiet_act_trace. by repeat constructor.
  - apply projectPolicy_taint in Hp as <-. destruct HA as (HA & HpA & _), HR as (HR & HpR & _).
    apply warnGuard_quiet in HW as [HW HpW]. apply warnHeld_quiet in HH as [HH HpH].
    pose proof (writeStatus_frame stamp p d) as [Hspec Hmeta]. fold w in Hspec, Hmeta.
    split_and!.
    + apply (act_trace_app _ [Ev ListNodes (inr nodes); Ev Now now]).
      { apply quiet_act_trace. by repeat constructor. }
      apply act_trace_app; [done|]. apply act_trace_app; [done|].
      apply quiet_act_trace. apply List.Forall_cons; [done|]. by apply quiet_app.
    + change (policies_seen (trA ++ trR ++ [Ev Now stamp] ++ trW ++ trH) = []).
      by rewrite !policies_seen_app, HpA, HpR, HpW, HpH.
    + clear -Hspec Hmeta. revert Hspec Hmeta. generalize w.1. intros [] Hs Hm. simpl in *. by subst.
Qed.

Lemma deferredStatusWrite_cases p p' err tr err' :
  exec (deferredStatusWrite p p' err) tr err' ->
  (tr = [] /\ err' = err /\ DeepEqual p.(v1alpha1.Status) p'.(v1alpha1.Status) = true)
  \/ (DeepEqual p.(v1alpha1.Status) p'.(v1alpha1.Status) = false
      /\ exists r trl, tr = Ev (PatchPolicyStatus p' p) r :: trl /\ quiet trl /\ policies_seen trl = []
        /\ match IgnoreNotFound r with
           | None => err' = err
           | Some e => err' = Some (default (wrapPolicy errors.ErrWriteStatus p' e) err)
           end).
Proof.
  unfold deferredStatusWrite. destruct (DeepEqual _ _); [intros [-> ->]; by left|].
  intros (r & tr' & -> & H). right. split; [done|]. exists r, tr'. split; [done|].
  simpl in H. destruct (IgnoreNotFound r) as [e|].
  - destruct H as ([] & tr2 & -> & H).
    destruct err; destruct H as [-> <-]; split_and!; try done; by repeat constructor.
  - destruct H as [-> <-]. split_and!; try done. constructor.
Qed.

(** A pass over a policy whose spec does not project, call by call. *)
Definition invalid_spec_event (m : v1alpha1.NodeRemediationPolicy) (perr : error) : event_record :=
  mkEvent (PolicyObject m) None EventTypeWarning status.ReasonInvalidSpec "RejectSpec"
    "invalid spec: %v" [ArgError perr].

Lemma observeDecideAct_invalid p perr tr p' res err :
  projectPolicy p = inl perr -> exec (observeDecideAct p p) tr (p', res, err) ->
  res = noRequeue /\ err = None /\ exists stamp, p' = status.MarkInvalidSpec stamp p (Error perr)
    /\ tr = Ev Now stamp ::
         if DeepEqual p.(v1alpha1.Status) p'.(v1alpha1.Status) then []
         else [Ev (Log (mkLog (Some perr) "invalid policy spec" [])) tt;
               Ev (Eventf (invalid_spec_event p' perr)) tt].
Proof.
  unfold observeDecideAct. intros -> (tr1 & stamp & tr2 & -> & ->%exec_call & H)%exec_bind.
  cbv zeta in H. remember (status.MarkInvalidSpec stamp p (Error perr)) as m eqn:Hm.
  destruct (DeepEqual _ _) eqn:Hd; cbn [negb] in H.
  - destruct H as [-> [= <- <- <-]]. split_and!; [done|done|]. exists stamp. by rewrite <- Hm, Hd.
  - destruct H as ([] & ? & -> & [] & ? & -> & -> & [= <- <- <-]). split_and!; [done|done|].
    exists stamp. by rewrite <- Hm, Hd.
Qed.

Lemma deferredStatusWrite_calls p p' err tr err' :
  exec (deferredStatusWrite p p' err) tr err' ->
  Forall (fun e => is_node_call e.(ev_call) = false) tr /\ emitted tr = [].
Proof.
  unfold deferredStatusWrite. destruct (DeepEqual _ _); [by intros [-> _]|].
  intros (r & tr' & -> & H). simpl in H. destruct (IgnoreNotFound r) as [e|].
  - destruct H as ([] & tr2 & -> & H). assert (tr2 = []) as -> by (by destruct err, H).
    split; [by repeat constructor|done].
  - destruct H as [-> _]. split; [by repeat constructor|done].
Qed.

Lemma deferredStatusWrite_idle p p' err tr err' :
  exec (deferredStatusWrite p p' err) tr err' ->
  patches tr = [] /\ taint_events tr = [] /\ updates tr = [] /\ policies_seen tr = [].
Proof.
  intros [(-> & _)|(_ & r & trl & -> & Hq & Hs & _)]%deferredStatusWrite_cases; [done|].
  apply quiet_observations in Hq as (Hp & _ & Hu & _ & He & _). split_and!; try done.
Qed.

Context `{L : !K8sLaws K}.

(** The status already says that the spec does not project, for this reason and this generation. *)
Definition reports_invalid (p : v1alpha1.NodeRemediationPolicy) (perr : error) : Prop :=
  exists c, FindStatusCondition p.(v1alpha1.Status).(v1alpha1.Status_Conditions)
              status.ConditionRemediating = Some c
    /\ condition_content c
       = status.remediating_content p metav1.ConditionFalse status.ReasonInvalidSpec (Error perr).

Lemma MarkInvalidSpec_reports stamp p perr :
  reports_invalid (status.MarkInvalidSpec stamp p (Error perr)) perr.
Proof. exact (status.setRemediatingCondition_find stamp p metav1.ConditionFalse status.ReasonInvalidSpec _). Qed.

Lemma MarkInvalidSpec_DeepEqual stamp p perr :
  DeepEqual p.(v1alpha1.Status) (status.MarkInvalidSpec stamp p (Error perr)).(v1alpha1.Status) = true
  <-> reports_invalid p perr.
Proof.
  rewrite DeepEqual_spec. split.
  - intros Hs. destruct (MarkInvalidSpec_reports stamp p perr) as (c & Hf & Hc).
    rewrite <- Hs in Hf. by exists c.
  - intros (c & Hf & Hc). unfold status.MarkInvalidSpec.
    by rewrite (status.setRemediatingCondition_same _ _ _ _ _ c).
Qed.

Lemma NewAggregate_None outcomes :
  NewAggregate (failures outcomes) = None <-> Forall (fun o => o = None) outcomes.
Proof.
  rewrite NewAggregate_spec. unfold failures. induction outcomes as [|[e|] l IH]; simpl.
  - split; [constructor|done].
  - split; [done | intros H; by apply Forall_cons in H as [? _]].
  - rewrite Forall_cons. unfold omap in *. naive_solver.
Qed.

Lemma loop_all_settled t b names tr outcomes :
  loop_outcome t b names tr outcomes -> Forall (fun o => o = None) outcomes ->
  Forall (fun name => settled_to b t.(remediation.Taint_Key) name tr) names.
Proof.
  intros (_ & _ & _ & _ & H) Hn. induction H as [|name o names outs [_ Hs] _ IH]; [constructor|].
  apply Forall_cons in Hn as [-> Hn]. constructor; auto.
Qed.

Lemma cleanupTaints_trace p tr err :
  exec (cleanupTaints p) tr err ->
  act_trace (policy_taint p) tr /\ policies_seen tr = [] /\ (err = None -> cleaned p tr).
Proof.
  unfold cleanupTaints, cleaned, policy_taint. destruct (v1alpha1.Remediations_Taint _) as [t|].
  2:{ intros [-> ->]. split_and!; [apply act_trace_nil|done|done]. }
  intros (tr1 & r & tr2 & -> & ->%exec_call & H)%exec_bind. destruct r as [e|nodes].
  { destruct H as [-> <-]. split_and!; [|done|done]. apply quiet_act_trace. by repeat constructor. }
  apply exec_bind in H as (tr3 & errs & tr4 & -> & H & [-> <-]).
  apply cleanupLoop_outcome in H as (outs & H & ->). simpl in H.
  pose proof H as (Ha & Hp & Hl & _). rewrite app_nil_r. split_and!.
  - apply (act_trace_app _ [Ev ReaderListNodes (inr nodes)]); [|done].
    apply quiet_act_trace. by repeat constructor.
  - done.
  - intros Hnone. apply NewAggregate_None in Hnone. exists nodes. split.
    { change (inr nodes :: node_lists tr3 = [inr nodes]). by rewrite Hl. }
    intros n Hn Hk. apply (loop_all_settled _ _ _ _ _ H) in Hnone. rewrite Forall_forall in Hnone.
    apply (settled_to_app_r _ _ _ [Ev ReaderListNodes (inr nodes)]). apply Hnone.
    by apply elem_of_tainted_names.
Qed.

Lemma finalize_cases p tr res err :
  exec (finalize p) tr (res, err) ->
  res = noRequeue
  /\ ((contains p = false /\ tr = [] /\ err = None)
      \/ (contains p = true /\ exists tr1 tr2, tr = tr1 ++ tr2
         /\ act_trace (policy_taint p) tr1 /\ policies_seen tr1 = []
         /\ ((tr2 = [] /\ is_Some err)
             \/ (cleaned p tr1 /\ exists r, tr2 = [Ev (UpdatePolicy (withoutFinalizer p)) r])))).
Proof.
  unfold finalize. destruct (contains p); [|intros [-> [= <- <-]]; auto].
  intros (tr1 & e & tr2 & -> & H1 & H)%exec_bind.
  apply cleanupTaints_trace in H1 as (Ha & Hp & Hc). destruct e as [e|].
  - destruct H as [-> [= <- <-]]. split; [done|]. right. split; [done|]. exists tr1, [].
    split_and!; try done. left. by split; [|eexists].
  - apply exec_bind in H as (tr3 & r & tr4 & -> & ->%exec_call & H).
    assert (tr4 = [] /\ res = noRequeue) as [-> ->]
      by (destruct r; destruct H as [-> [= <- <-]]; done).
    split; [done|]. right. split; [done|]. exists tr1, [Ev (UpdatePolicy (withoutFinalizer p)) r].
    split_and!; try done. right. split; [by apply Hc|by exists r].
Qed.

(** ** Activity outside the taint loops *)

Lemma legal_idle t tr : patches tr = [] -> legal t tr.
Proof. unfold legal. by intros ->. Qed.

Lemma announced_idle tr : patches tr = [] -> taint_events tr = [] -> announced tr.
Proof. unfold announced, succeeded. by intros -> ->. Qed.

Lemma elem_of_updates tr1 q r tr2 : q ∈ (updates (tr1 ++ Ev (UpdatePolicy q) r :: tr2)).*1.
Proof. rewrite updates_app, fmap_app, elem_of_app. right. by left. Qed.

Lemma elem_of_patches tr1 m o r tr2 : (m, o, r) ∈ patches (tr1 ++ Ev (PatchNode m o) r :: tr2).
Proof. rewrite patches_app, elem_of_app. right. by left. Qed.

Lemma elem_of_status_patches tr1 m o r tr2 :
  (m, o, r) ∈ status_patches (tr1 ++ Ev (PatchPolicyStatus m o) r :: tr2).
Proof. rewrite status_patches_app, elem_of_app. right. by left. Qed.

Lemma entered_idle name tr p :
  entered name tr p -> patches tr = [] /\ taint_events tr = [] /\ p ∈ policies_seen tr.
Proof. destruct 1; split_and!; try done; simpl; set_solver. Qed.

Lemma contains_withFinalizer p : contains (withFinalizer p) = true.
Proof.
  unfold contains, withFinalizer. simpl. apply ContainsFinalizer_spec, AddFinalizer_elem. by right.
Qed.

(** ** The two facts about all runs *)

Lemma reconciled_activity name tr res err :
  reconciled name tr res err ->
  announced tr /\ (patches tr = [] \/ exists p, p ∈ policies_seen tr /\ legal (policy_taint p) tr).
Proof.
  destruct 1 as [e|p e|tr0 p tr1 p' res err1 tr2 err' Hent Ho H2|p tr res err Ht Hf].
  - split; [done|by left].
  - split; [done|by left].
  - apply entered_idle in Hent as (Hp0 & He0 & Hin).
    apply observed_trace in Ho as ((Hl & Ha & _) & _).
    apply deferredStatusWrite_idle in H2 as (Hp2 & He2 & _). split.
    + apply announced_app; [by apply announced_idle|].
      apply announced_app; [done|by apply announced_idle].
    + right. exists p. split; [rewrite policies_seen_app, elem_of_app; by left|].
      apply legal_app; [by apply legal_idle|]. apply legal_app; [done|by apply legal_idle].
  - apply finalize_cases in Hf as (_ & [(_ & -> & _)|(_ & tr1 & tr2 & -> & (Hl & Ha & _) & _ & H)]).
    { split; [done|by left]. }
    assert (patches tr2 = [] /\ taint_events tr2 = []) as [Hp2 He2]
      by (destruct H as [[-> _]|(_ & r & ->)]; done).
    split.
    + apply (announced_app [_]); [done|]. apply announced_app; [done|by apply announced_idle].
    + right. exists p. split; [by left|].
      apply (legal_app _ [_]); [by apply legal_idle|]. apply legal_app; [done|by apply legal_idle].
Qed.

End runs.
