(* ===== verification/ReconcileTheorems.v ===== *)
(** The theorems about the reconcile loop.  They hold of every run, whatever the API server, the
    caches, the clock and other writers answer; only the two interfaces [K8sLaws] and [RetryLaws]
    are assumed. *)

From S2P Require Import Prelude GoTime Types K8sLib PolicyApi Remediation DecideSpec Fixtures.
From S2P Require Import DecideProps Predicate Project ProjectProps Effects Cluster Taint Reconcile.
From S2P Require Import Scenarios ReconcileProps ReconcileShape.
Import project taint reconcile.

(** ** Vocabulary *)

(** A warning about the guard, and the node names of the warnings about a missing timestamp. *)
Definition guard_warnings (tr : trace) : list event_record :=
  filter (fun e => e.(reason) = status.ReasonGuardTripped) (emitted tr).

Definition held_warning (e : event_record) : option string :=
  if decide (e.(reason) = reasonMissingTransitionTime)
  then match e.(args) with [_; ArgString name] => Some name | _ => None end
  else None.

Definition held_warnings (tr : trace) : list string := omap held_warning (emitted tr).

Section lemmas.
Context `{K : K8s} `{R : Retry} `{L : !K8sLaws K} `{RL : !RetryLaws K R}.

(** The one status patch of a trace is where it is. *)
Lemma app_cons_status l m o r l' k m' o' r' k' :
  l ++ Ev (PatchPolicyStatus m o) r :: l' = k ++ Ev (PatchPolicyStatus m' o') r' :: k' ->
  status_patches l = [] -> status_patches l' = [] ->
  l = k /\ m = m' /\ o = o' /\ r = r' /\ l' = k'.
Proof.
  intros Heq Hl Hl'. revert k Heq Hl. induction l as [|x l IH]; intros k Heq Hl.
  - destruct k as [|y k]; simpl in Heq; apply cons_eq_inv in Heq as [He ->].
    + apply (f_equal (fun e => status_patches [e])) in He. simpl in He. by simplify_eq.
    + pose proof (elem_of_status_patches k m' o' r' k') as Hin. rewrite Hl' in Hin.
      by apply elem_of_nil in Hin.
  - destruct k as [|y k]; simpl in Heq; apply cons_eq_inv in Heq as [-> Heq]; [done|].
    apply (IH k) in Heq as (-> & ?); [done|].
    change (status_patches ([y] ++ l) = []) in Hl. rewrite status_patches_app in Hl.
    by apply app_eq_nil in Hl as [_ Hl].
Qed.

(** Every update of the policy is one of the two finalizer writes. *)
Lemma reconciled_updates name tr res err q r tr1 tr2 :
  reconciled name tr res err -> tr = tr1 ++ Ev (UpdatePolicy q) r :: tr2 ->
  contains q = true
  \/ (tr2 = [] /\ exists p tr1', tr1 = Ev (GetPolicy name) (inr p) :: tr1'
     /\ Time_IsZero p.(v1alpha1.ObjectMeta).(metav1.ObjectMeta_DeletionTimestamp) = false
     /\ q = withoutFinalizer p /\ cleaned p tr1').
Proof.
  intros Hr Heq. pose proof (elem_of_updates tr1 q r tr2) as Hq. rewrite <- Heq in Hq.
  destruct Hr as [e|p e|tr0 p tra p' res err1 trb err' Hent Ho H2|p tr res err Ht Hf].
  - by apply elem_of_nil in Hq.
  - apply list_elem_of_singleton in Hq as ->. left. apply contains_withFinalizer.
  - rewrite !updates_app, !fmap_app in Hq.
    apply observed_trace in Ho as ((_ & _ & Hu & _) & _). rewrite Hu in Hq.
    apply deferredStatusWrite_idle in H2 as (_ & _ & Hu2 & _). rewrite Hu2, app_nil_r in Hq.
    destruct Hent; [by apply elem_of_nil in Hq|].
    apply list_elem_of_singleton in Hq as ->. left. apply contains_withFinalizer.
  - apply finalize_cases in Hf as (_ & [(_ & -> & _)|(_ & trc & trd & -> & (_ & _ & Hu & _) & _ & H)]).
    { by apply elem_of_nil in Hq. }
    apply cons_eq_app_cons in Heq as (tr1' & -> & Heq); [|done].
    destruct H as [[-> _]|(Hc & r' & ->)].
    { rewrite app_nil_r in Heq. subst. pose proof (elem_of_updates tr1' q r tr2) as Hn.
      rewrite Hu in Hn. by apply elem_of_nil in Hn. }
    apply snoc_eq_app_cons in Heq as (-> & He & ->).
    + right. split; [done|]. exists p, trc. split_and!; try done. congruence.
    + intros [la [lb Hab]]%list_elem_of_split. subst.
      pose proof (elem_of_updates la q r lb) as Hn. rewrite Hu in Hn. by apply elem_of_nil in Hn.
Qed.

(** ** Warnings *)

Lemma guard_warnings_app tr tr' : guard_warnings (tr ++ tr') = guard_warnings tr ++ guard_warnings tr'.
Proof. unfold guard_warnings. by rewrite emitted_app, filter_app. Qed.

Lemma held_warnings_app tr tr' : held_warnings (tr ++ tr') = held_warnings tr ++ held_warnings tr'.
Proof. unfold held_warnings. by rewrite emitted_app, omap_app. Qed.

Lemma taint_reasons_no_warnings tr :
  Forall has_taint_reason (emitted tr) -> guard_warnings tr = [] /\ held_warnings tr = [].
Proof.
  unfold guard_warnings, held_warnings. induction 1 as [|e l He _ [IHg IHh]]; [done|].
  rewrite filter_cons. simpl. unfold held_warning at 1.
  destruct He as [->| ->]; (rewrite decide_False by done); by rewrite decide_False.
Qed.

Lemma deferredStatusWrite_emits p p' err tr err' :
  exec (deferredStatusWrite p p' err) tr err' -> emitted tr = [].
Proof.
  unfold deferredStatusWrite. destruct (DeepEqual _ _); [by intros [-> _]|].
  intros (r & tr' & -> & H). simpl in H. destruct (IgnoreNotFound r).
  - destruct H as ([] & tr2 & -> & H). by destruct err; destruct H as [-> _].
  - by destruct H as [-> _].
Qed.

Lemma warnGuard_warnings p pure d old tr u :
  exec (warnGuard p pure d old) tr u ->
  length (guard_warnings tr)
  = (if d.(remediation.Decision_Status).(remediation.Status_GuardTripped)
        && negb (bool_decide (old = status.ReasonGuardTripped)) then 1 else 0)%nat
  /\ held_warnings tr = [].
Proof.
  unfold warnGuard. destruct (_ && _); [|by intros [-> _]].
  by intros ([] & ? & -> & [] & ? & -> & -> & _).
Qed.

Lemma warnHeld_warnings p pure old l tr u :
  exec (forEach (warnHeld p pure old) tt l) tr u ->
  guard_warnings tr = [] /\ held_warnings tr = filter (fun n => n ∉ old) l.
Proof.
  revert tr. generalize tt. induction l as [|n l IH]; intros s tr H; [by destruct H as [-> _]|].
  apply exec_forEach_cons in H as (tr1 & s1 & tr2 & -> & H1 & H2). apply IH in H2 as [Hg Hh].
  rewrite guard_warnings_app, held_warnings_app, Hg, Hh, filter_cons.
  unfold warnHeld in H1. case_decide.
  - destruct H1 as [-> _]. rewrite decide_False by tauto. done.
  - destruct H1 as ([] & ? & -> & [] & ? & -> & -> & _). by rewrite decide_True.
Qed.

Lemma pass_warnings name tr0 p nodes now tr res err pure :
  entered name tr0 p ->
  exec (Reconcile name) (tr0 ++ Ev ListNodes (inr nodes) :: Ev Now now :: tr) (res, err) ->
  projectPolicy p = inr pure ->
  let d := remediation.Decide pure (observeNodes nodes pure).1 now in
  length (guard_warnings tr)
  = (if d.(remediation.Decision_Status).(remediation.Status_GuardTripped)
        && negb (bool_decide (previous_reason p = status.ReasonGuardTripped)) then 1 else 0)%nat
  /\ held_warnings tr
     = filter (fun n => n ∉ p.(v1alpha1.Status).(v1alpha1.Status_HeldNodes))
         (sort_strings d.(remediation.Decision_HeldMissingTimestamp)).
Proof.
  intros Hent Hexec Hp. apply (live_pass _ _ _ _ _ _ _ _ Hent) in Hexec
    as (pure' & stamp & trA & outsA & trR & outsR & trW & u & trH & u' & tr2 & Hp' & H).
  rewrite Hp in Hp'. injection Hp' as <-. simpl in H.
  destruct H as (-> & HA & HR & HW & HH & H2 & _).
  destruct HA as (_ & _ & _ & HeA & _), HR as (_ & _ & _ & HeR & _).
  apply taint_reasons_no_warnings in HeA as [HgA HhA], HeR as [HgR HhR].
  apply warnGuard_warnings in HW as [HgW HhW]. apply warnHeld_warnings in HH as [HgH HhH].
  apply deferredStatusWrite_emits in H2.
  assert (guard_warnings tr2 = [] /\ held_warnings tr2 = []) as [Hg2 Hh2]
    by (unfold guard_warnings, held_warnings; by rewrite H2).
  change (Ev Now stamp :: (trW ++ trH) ++ tr2) with ([Ev Now stamp] ++ (trW ++ trH) ++ tr2).
  rewrite !guard_warnings_app, !held_warnings_app, HgA, HgR, HgH, Hg2, HhA, HhR, HhW, HhH, Hh2.
  rewrite !app_nil_r. simpl. split; [exact HgW|done].
Qed.

End lemmas.

(** ** Theorems *)
Section theorems.
Context `{K : K8s} `{R : Retry} `{L : !K8sLaws K} `{RL : !RetryLaws K R}.

(** C4: safety of every node write.  Whatever the cluster answers, each patch a reconcile sends is
    computed from an uncached read of that node made in the same reconcile, for a policy the server
    returned, and differs from what was read in the taint list alone.  Of that list it changes
    only the policy's own key: the taint appended where no taint had the key, or all taints with the
    key dropped; the taints of every other key keep their values and their order. *)
Theorem Reconcile_patches_legal name tr res err :
  exec (Reconcile name) tr (res, err) ->
  Forall (fun '(m, o, r) => exists p, p ∈ policies_seen tr
    /\ legal_patch (policy_taint p) (node_reads tr) (m, o, r)
    /\ foreign (policy_key p) m.(corev1.Node_Taints) = foreign (policy_key p) o.(corev1.Node_Taints))
    (patches tr).
Proof.
  intros [_ [->|(p & Hin & Hl)]]%Reconcile_cases%reconciled_activity; [constructor|].
  unfold legal in Hl. rewrite Forall_forall in *. intros [[m o] r] Hx. apply Hl in Hx.
  exists p. split_and!; [done|done|]. destruct Hx as (_ & _ & [[_ ->]|[_ ->]]).
  - apply foreign_addTaint.
  - apply foreign_idem.
Qed.

(** C10: a node is never written before the policy's cleanup finalizer is persisted: ahead of every
    patch of the trace, the server returned the policy with the finalizer or accepted the update that
    adds it.  Deleting the policy can therefore always undo what it did to the nodes. *)
Theorem Reconcile_registers_before_tainting name tr1 m o r tr2 res err :
  exec (Reconcile name) (tr1 ++ Ev (PatchNode m o) r :: tr2) (res, err) ->
  exists p, contains p = true
    /\ (Ev (GetPolicy name) (inr p) ∈ tr1 \/ exists p', Ev (UpdatePolicy p) (inr p') ∈ tr1).
Proof.
  intros H%Reconcile_cases.
  remember (tr1 ++ Ev (PatchNode m o) r :: tr2) as tr eqn:Heq.
  destruct H as [e|p e Ht Hc|tr0 p tra p' res err1 trb err' Hent Ho H2|p tr res err Ht Hf].
  - by apply cons_eq_app_cons in Heq as (l & -> & Heq%app_cons_not_nil).
  - apply cons_eq_app_cons in Heq as (l & -> & Heq); [|done].
    by apply cons_eq_app_cons in Heq as (l' & -> & Heq%app_cons_not_nil).
  - destruct Hent as [p Ht Hc|p p0 Ht Hc].
    + apply cons_eq_app_cons in Heq as (l & -> & Heq); [|done]. exists p. split; [done|]. left. by left.
    + apply cons_eq_app_cons in Heq as (l & -> & Heq); [|done].
      apply cons_eq_app_cons in Heq as (l' & -> & Heq); [|done].
      exists (withFinalizer p). split; [apply contains_withFinalizer|]. right. exists p0. right. by left.
  - apply cons_eq_app_cons in Heq as (l & -> & Heq); [|done].
    apply finalize_cases in Hf as (_ & [(_ & -> & _)|(Hc & _)]).
    + by apply app_cons_not_nil in Heq.
    + exists p. split; [done|]. left. by left.
Qed.

(** C9: the finalizer is given up only once nothing is left to clean: a policy update without it is
    the last call of a reconcile of a policy marked for deletion, and before it all nodes were
    listed uncached and each listed node with the policy's taint key was seen without it, or left so
    by a successful patch. *)
Theorem Reconcile_keeps_finalizer_until_clean name tr1 q r tr2 res err :
  exec (Reconcile name) (tr1 ++ Ev (UpdatePolicy q) r :: tr2) (res, err) ->
  contains q = false ->
  tr2 = [] /\ exists p, Ev (GetPolicy name) (inr p) ∈ tr1
    /\ Time_IsZero p.(v1alpha1.ObjectMeta).(metav1.ObjectMeta_DeletionTimestamp) = false
    /\ q = withoutFinalizer p /\ cleaned p tr1.
Proof.
  intros H%Reconcile_cases Hq.
  apply (reconciled_updates _ _ _ _ q r tr1 tr2) in H as [?|(-> & p & tr1' & -> & Ht & -> & Hc)];
    [congruence| |reflexivity].
  split; [done|]. exists p. split_and!; [by left|done|done|].
  unfold cleaned in *. destruct (v1alpha1.Remediations_Taint _) as [t|]; [|done].
  destruct Hc as (nodes & Hl & Hs). exists nodes. split; [done|]. intros n Hn Hk.
  apply (settled_to_app_r _ _ _ [_]). by apply Hs.
Qed.

(** C12: one failing node does not stop the others.  In a pass over the listed nodes every node the
    decision wants tainted, and every node it wants cleared, is read and operated on whatever the
    others' outcomes; a node without an error ends the pass with the key as decided; the pass returns
    no error only if no node failed, and then asks for the decision's requeue; otherwise it returns
    the aggregate of the failures and asks for none.  The status the decision projects to is written
    in either case. *)
Theorem Reconcile_isolates_errors name tr0 p nodes now tr res err :
  entered name tr0 p ->
  exec (Reconcile name) (tr0 ++ Ev ListNodes (inr nodes) :: Ev Now now :: tr) (res, err) ->
  exists pure stamp outsA outsR, projectPolicy p = inr pure
    /\ let key := policy_key p in
       let d := remediation.Decide pure (observeNodes nodes pure).1 now in
       let s := (writeStatus stamp p d).1 in
       Forall2 (settled_or_failed true key tr) d.(remediation.Decision_ApplyTaint) outsA
       /\ Forall2 (settled_or_failed false key tr) d.(remediation.Decision_RemoveTaint) outsR
       /\ (err = None -> Forall (fun o => o = None) (outsA ++ outsR)
             /\ res = mkResult d.(remediation.Decision_RequeueAfter))
       /\ (~ Forall (fun o => o = None) (outsA ++ outsR) ->
             err = Some (errors.Aggregate (failures (outsA ++ outsR))) /\ res = noRequeue)
       /\ (s.(v1alpha1.Status) = p.(v1alpha1.Status)
           \/ exists r, Ev (PatchPolicyStatus s p) r ∈ tr).
Proof.
  intros Hent Hexec. apply (live_pass _ _ _ _ _ _ _ _ Hent) in Hexec
    as (pure & stamp & trA & outsA & trR & outsR & trW & u & trH & u' & tr2 & Hp & H). simpl in H. destruct H as (-> & HA & HR & _ & _ & H2 & ->).
  pose proof (projectPolicy_taint _ _ Hp) as Ht.
  exists pure, stamp, outsA, outsR. split; [done|]. simpl. unfold policy_key. rewrite <- Ht.
  destruct HA as (_ & _ & _ & _ & HA), HR as (_ & _ & _ & _ & HR). split_and!.
  - eapply Forall2_impl; [exact HA|]. intros. by apply settled_or_failed_app_l.
  - eapply Forall2_impl; [exact HR|]. intros.
    by apply settled_or_failed_app_r, settled_or_failed_app_l.
  - intros ->. pose proof (NewAggregate_None (outsA ++ outsR)) as Hagg.
    destruct (NewAggregate _) as [e|]; [exfalso | by rewrite <- Hagg].
    apply deferredStatusWrite_cases in H2 as [(_ & H & _)|(_ & r & trl & _ & _ & _ & H)]; [done|].
    by destruct (IgnoreNotFound r).
  - rewrite <- NewAggregate_None, NewAggregate_spec in *. destruct (failures _) as [|e es]; [done|].
    intros _. split; [|done].
    apply deferredStatusWrite_cases in H2 as [(_ & -> & _)|(_ & r & trl & _ & _ & _ & H)]; [done|].
    by destruct (IgnoreNotFound r).
  - apply deferredStatusWrite_cases in H2 as [(_ & _ & H)|(_ & r & trl & -> & _)].
    + left. symmetry. by apply DeepEqual_spec.
    + right. exists r. rewrite !elem_of_app, elem_of_cons, elem_of_app. right; right; right; right. by left.
Qed.

(** C32: the status is written at most once per reconcile, only when it differs from what the server
    returned, as a patch of the status alone, after every other write; and a failure of that write,
    other than the policy being gone, is never dropped: the reconcile returns an error. *)
Theorem Reconcile_writes_status_once name tr1 m o r tr2 res err :
  exec (Reconcile name) (tr1 ++ Ev (PatchPolicyStatus m o) r :: tr2) (res, err) ->
  o ∈ policies_seen tr1 /\ m = v1alpha1.set_Status o m.(v1alpha1.Status)
  /\ m.(v1alpha1.Status) <> o.(v1alpha1.Status)
  /\ status_patches tr1 = [] /\ writes tr2 = []
  /\ (forall e, r = Some e -> IsNotFound e = false -> is_Some err).
Proof.
  intros H%Reconcile_cases.
  remember (tr1 ++ Ev (PatchPolicyStatus m o) r :: tr2) as tr eqn:Heq.
  pose proof (elem_of_status_patches tr1 m o r tr2) as Hin. rewrite <- Heq in Hin.
  destruct H as [e|p e Ht Hc|tr0 p tra p' res err1 trb err' Hent Ho H2|p tr res err Ht Hf].
  - by apply elem_of_nil in Hin.
  - by apply elem_of_nil in Hin.
  - assert (status_patches tr0 = []) as Hs0 by (by destruct Hent).
    apply entered_idle in Hent as (_ & _ & Hseen).
    apply observed_trace in Ho as ((_ & _ & _ & Hsa) & _ & Hframe).
    apply deferredStatusWrite_cases in H2 as [(-> & _)|(Hd & r' & trl & -> & Hq & _ & Herr)].
    { rewrite app_nil_r, status_patches_app, Hs0, Hsa in Hin. by apply elem_of_nil in Hin. }
    rewrite app_assoc in Heq.
    apply quiet_observations in Hq as (_ & _ & _ & Hsl & _ & _ & Hw).
    apply app_cons_status in Heq as (<- & <- & <- & <- & <-);
      [|by rewrite status_patches_app, Hs0, Hsa|done].
    split_and!; try done.
    + rewrite policies_seen_app, elem_of_app. by left.
    + intros Hst. assert (DeepEqual p.(v1alpha1.Status) p'.(v1alpha1.Status) = true)
        by (by apply DeepEqual_spec). congruence.
    + by rewrite status_patches_app, Hs0, Hsa.
    + intros e -> He. rewrite IgnoreNotFound_spec, He in Herr. by rewrite Herr.
  - apply finalize_cases in Hf as (_ & [(_ & -> & _)|(_ & trc & trd & -> & (_ & _ & _ & Hs) & _ & H)]).
    { by apply elem_of_nil in Hin. }
    assert (status_patches (Ev (GetPolicy name) (inr p) :: trc ++ trd) = []) as Hn.
    { change (status_patches (trc ++ trd) = []). rewrite status_patches_app, Hs.
      by destruct H as [[-> _]|(_ & r' & ->)]. }
    rewrite Hn in Hin. by apply elem_of_nil in Hin.
Qed.

(** C36: the event stream counts the taint changes: a reconcile records exactly one TaintApplied or
    TaintRemoved event on the policy for each of its patches that succeeded. *)
Theorem Reconcile_announces_changes name tr res err :
  exec (Reconcile name) tr (res, err) -> length (taint_events tr) = length (succeeded tr).
Proof. by intros [H _]%Reconcile_cases%reconciled_activity. Qed.

(** C37: warnings are edge-triggered.  A pass warns about the guard once if it is tripped and the
    status the policy came with did not say so, and otherwise not; it warns about a missing
    timestamp for exactly the held nodes the status did not list as held, in name order. *)
Theorem Reconcile_warns_on_edges name tr0 p nodes now tr res err pure :
  entered name tr0 p ->
  exec (Reconcile name) (tr0 ++ Ev ListNodes (inr nodes) :: Ev Now now :: tr) (res, err) ->
  projectPolicy p = inr pure ->
  let d := remediation.Decide pure (observeNodes nodes pure).1 now in
  length (guard_warnings tr)
  = (if d.(remediation.Decision_Status).(remediation.Status_GuardTripped)
        && negb (bool_decide (previous_reason p = status.ReasonGuardTripped)) then 1 else 0)%nat
  /\ held_warnings tr
     = filter (fun n => n ∉ p.(v1alpha1.Status).(v1alpha1.Status_HeldNodes))
         (sort_strings d.(remediation.Decision_HeldMissingTimestamp)).
Proof. apply pass_warnings. Qed.

(** C30: a warning is not repeated while its cause lasts: in a pass that starts from the status an
    earlier decision was published with, there is no guard warning if that decision had tripped the
    guard, and no missing-timestamp warning for a node it had held. *)
Theorem Reconcile_never_repeats_warnings name tr0 p nodes now tr res err pure stamp p0 d0 :
  entered name tr0 p ->
  exec (Reconcile name) (tr0 ++ Ev ListNodes (inr nodes) :: Ev Now now :: tr) (res, err) ->
  projectPolicy p = inr pure ->
  p.(v1alpha1.Status) = (writeStatus stamp p0 d0).1.(v1alpha1.Status) ->
  (d0.(remediation.Decision_Status).(remediation.Status_GuardTripped) = true -> guard_warnings tr = [])
  /\ (forall n, n ∈ d0.(remediation.Decision_HeldMissingTimestamp) -> n ∉ held_warnings tr).
Proof.
  intros Hent Hexec Hp Hst.
  destruct (pass_warnings _ _ _ _ _ _ _ _ _ Hent Hexec Hp) as [Hg Hh]. split.
  - intros Ht. assert (previous_reason p = status.ReasonGuardTripped) as Hr.
    { unfold previous_reason. rewrite Hst. unfold writeStatus. simpl. rewrite markDecision_eq.
      edestruct status.setRemediatingCondition_find as (c & -> & Hc).
      unfold condition_content, status.remediating_content in Hc. injection Hc as _ _ _ -> _.
      rewrite sortDecision_reason. unfold decision_reason. by rewrite Ht. }
    rewrite Hr, bool_decide_eq_true_2, andb_false_r in Hg by done. by apply nil_length_inv.
  - intros n Hn. rewrite Hh, list_elem_of_filter, Hst. unfold writeStatus. simpl.
    rewrite markDecision_eq. simpl. rewrite sort_strings_elem. tauto.
Qed.

(** C33: a spec that cannot be projected stops the loop from acting and not from reporting.  The
    reconcile makes no call that reads, lists or writes a node, updates no policy and asks for no
    requeue.  If the status already says so, for this spec, it writes nothing; otherwise it sends one
    status patch and one event, both with the policy marked InvalidSpec, and its only error is that
    patch's.  The marked policy reports the condition, and keeps everything else, the node lists
    included, as the status had it. *)
Theorem Reconcile_invalid_spec_inert name tr0 p tr res err perr :
  entered name tr0 p ->
  projectPolicy p = inl perr ->
  exec (Reconcile name) (tr0 ++ tr) (res, err) ->
  Forall (fun e => is_node_call e.(ev_call) = false) tr /\ updates tr = [] /\ res = noRequeue
  /\ (reports_invalid p perr -> status_patches tr = [] /\ emitted tr = [] /\ err = None)
  /\ (~ reports_invalid p perr -> exists stamp r,
        let m := status.MarkInvalidSpec stamp p (Error perr) in
        Ev Now stamp ∈ tr
        /\ status_patches tr = [(m, p, r)] /\ emitted tr = [invalid_spec_event m perr]
        /\ err = wrapPolicy errors.ErrWriteStatus m <$> IgnoreNotFound r
        /\ reports_invalid m perr
        /\ m = v1alpha1.set_Status p (v1alpha1.set_Conditions p.(v1alpha1.Status)
                 m.(v1alpha1.Status).(v1alpha1.Status_Conditions))).
Proof.
  intros Hent Hp Hexec.
  apply (entered_runs _ _ _ _ _ _ Hent) in Hexec as (tr1 & tr2 & p' & err1 & -> & H1 & H2).
  apply (observeDecideAct_invalid p perr) in H1 as (-> & -> & stamp & Hm & ->); [|done].
  pose proof (deferredStatusWrite_calls _ _ _ _ _ H2) as [Hn2 He2].
  pose proof (MarkInvalidSpec_DeepEqual stamp p perr) as Hd. rewrite <- Hm in Hd.
  rewrite Forall_app, updates_app, status_patches_app, emitted_app, He2, app_nil_r.
  apply deferredStatusWrite_cases in H2 as [(-> & -> & Heq)|(Hne & r & trl & -> & Hq & _ & Herr)].
  - rewrite Heq in *. split_and!; try done; [by repeat constructor|]. intros []. by apply Hd.
  - rewrite Hne in *. apply quiet_observations in Hq as (_ & _ & Hu & Hs & _).
    change (updates (Ev (PatchPolicyStatus p' p) r :: trl)) with (updates trl).
    change (status_patches (Ev (PatchPolicyStatus p' p) r :: trl)) with ((p', p, r) :: status_patches trl).
    rewrite Hu, Hs. split_and!; try done; [by repeat constructor|by intros ?%Hd|].
    intros _. exists stamp, r. cbv zeta. rewrite <- Hm. split_and!; [apply elem_of_app; left; by left|done|done| | |].
    + by destruct (IgnoreNotFound r).
    + rewrite Hm. apply MarkInvalidSpec_reports.
    + by rewrite Hm.
Qed.

(** C35: applying a taint to a node: at most five attempts, each an uncached read of that node and, if
    the key was absent there, one patch of that very answer, which appends the taint; the next
    attempt is made only after a conflict.  At most one patch succeeds, and [changed] says whether
    one did.  Without an error the node was seen with the key or left with it; an error is the last
    attempt's, names the node and the key, and means nothing was changed. *)
Theorem EnsureTaint_contract nodeName t tr changed err :
  exec (EnsureTaint nodeName t) tr (changed, err) ->
  let key := t.(remediation.Taint_Key) in
  (exists cause, retried 5 nodeName (addTaint t) tr changed cause
     /\ err = errors.Wrap errors.ErrApplyTaint [("node"%string, nodeName); ("key"%string, key)] <$> cause)
  /\ (length (patches tr) <= length (node_reads tr) <= 5)%nat
  /\ legal t tr /\ Forall (fun '(_, o, _) => hasTaintKey o key = false) (patches tr)
  /\ length (succeeded tr) = (if changed then 1 else 0)%nat
  /\ (err = None -> settled_to true key nodeName tr)
  /\ (is_Some err -> changed = false).
Proof.
  intros H key. pose proof (EnsureTaint_taint_trace _ _ _ _ _ H) as Ht.
  pose proof Ht as (Hr & _ & _ & Hp & Hb & Hs & _ & He).
  apply EnsureTaint_exec in H as (cause & H & Heq). apply patchTaintList_retried in H.
  split; [by exists cause|]. split; [lia|].
  split; [apply (patched_by_legal t nodeName (addTaint t)); [apply addTaint_legal|done]|].
  split_and!; [|done| |by intros [e Hsome]; apply (He e)].
  - unfold patched_by in Hb. eapply Forall_impl; [exact Hb|]. intros [[m o] r] (_ & Hm & _).
    by apply addTaint_spec in Hm as [? _].
  - intros ->. eapply taint_trace_settled; [| |exact Ht].
    + intros taints updated [_ ->]%addTaint_spec. rewrite hasKey_app. simpl.
      by rewrite decide_True, orb_true_r.
    + apply addTaint_noop.
Qed.

(** Removing a taint from a node: the same attempts and the same reporting; without an error no
    taint of the node has the key, and no patch is sent for a node that has none. *)
Theorem RemoveTaint_contract nodeName t tr changed err :
  exec (RemoveTaint nodeName t.(remediation.Taint_Key)) tr (changed, err) ->
  let key := t.(remediation.Taint_Key) in
  (exists cause, retried 5 nodeName (dropTaint t.(remediation.Taint_Key)) tr changed cause
     /\ err = errors.Wrap errors.ErrRemoveTaint [("node"%string, nodeName); ("key"%string, key)] <$> cause)
  /\ (length (patches tr) <= length (node_reads tr) <= 5)%nat
  /\ legal t tr /\ Forall (fun '(_, o, _) => hasTaintKey o key = true) (patches tr)
  /\ length (succeeded tr) = (if changed then 1 else 0)%nat
  /\ (err = None -> settled_to false key nodeName tr)
  /\ (is_Some err -> changed = false).
Proof.
  intros H key. pose proof (RemoveTaint_taint_trace _ _ _ _ _ H) as Ht.
  pose proof Ht as (Hr & _ & _ & Hp & Hb & Hs & _ & He).
  apply RemoveTaint_exec in H as (cause & H & Heq). apply patchTaintList_retried in H.
  split; [by exists cause|]. split; [lia|].
  split; [apply (patched_by_legal t nodeName (dropTaint t.(remediation.Taint_Key))); [apply dropTaint_legal|done]|].
  split_and!; [|done| |by intros [e Hsome]; apply (He e)].
  - unfold patched_by in Hb. eapply Forall_impl; [exact Hb|]. intros [[m o] r] (_ & Hm & _).
    by apply dropTaint_spec in Hm as [? _].
  - intros ->. eapply taint_trace_settled; [| |exact Ht].
    + intros taints updated [_ ->]%dropTaint_spec. rewrite hasKey_foreign.
      by rewrite bool_decide_eq_true_2, andb_false_r.
    + apply dropTaint_noop.
Qed.

End theorems.

(** ** Witnesses *)

Definition pure_of (p : v1alpha1.NodeRemediationPolicy) : remediation.Policy :=
  match projectPolicy p with inr pure => pure | inl _ => basePolicy end.

Lemma demo_live p :
  Time_IsZero p.(v1alpha1.ObjectMeta).(metav1.ObjectMeta_DeletionTimestamp) = true ->
  contains p = true -> entered "wp-policy" (demo_entry p) p.
Proof. by constructor. Qed.

Lemma Reconcile_patches_legal_witness :
  length (patches (demo_trace wp_policy)) = 2%nat
  /\ Forall (fun '(m, o, r) => exists p, p ∈ policies_seen (demo_trace wp_policy)
      /\ legal_patch (policy_taint p) (node_reads (demo_trace wp_policy)) (m, o, r)
      /\ foreign (policy_key p) m.(corev1.Node_Taints) = foreign (policy_key p) o.(corev1.Node_Taints))
    (patches (demo_trace wp_policy)).
Proof.
  split; [by vm_compute|]. exact (Reconcile_patches_legal _ _ _ _ (demo_exec wp_policy)).
Defined.

Lemma Reconcile_registers_before_tainting_witness :
  exists tr1 m o r tr2, demo_trace new_policy = tr1 ++ Ev (PatchNode m o) r :: tr2
  /\ exists p, contains p = true
    /\ (Ev (GetPolicy "wp-policy") (inr p) ∈ tr1 \/ exists p', Ev (UpdatePolicy p) (inr p') ∈ tr1).
Proof.
  destruct (split_on is_node_patch (demo_trace new_policy)) as (tr1 & [c r] & tr2 & H & He);
    [by vm_compute|]. destruct c as [| | | | |m o| | | | | | |]; try discriminate He.
  exists tr1, m, o, r, tr2. split; [exact H|].
  pose proof (demo_exec new_policy) as Hexec. rewrite H in Hexec.
  exact (Reconcile_registers_before_tainting _ _ _ _ _ _ _ _ Hexec).
Defined.

Lemma Reconcile_keeps_finalizer_until_clean_witness :
  exists tr1 q r tr2, demo_trace deleted_policy = tr1 ++ Ev (UpdatePolicy q) r :: tr2
  /\ contains q = false
  /\ (tr2 = [] /\ exists p, Ev (GetPolicy "wp-policy") (inr p) ∈ tr1
    /\ Time_IsZero p.(v1alpha1.ObjectMeta).(metav1.ObjectMeta_DeletionTimestamp) = false
    /\ q = withoutFinalizer p /\ cleaned p tr1).
Proof.
  destruct (split_on is_unregistering (demo_trace deleted_policy)) as (tr1 & [c r] & tr2 & H & He);
    [by vm_compute|]. destruct c as [| | |q| | | | | | | | |]; try discriminate He.
  apply negb_true_iff in He. exists tr1, q, r, tr2. split; [exact H|]. split; [exact He|].
  pose proof (demo_exec deleted_policy) as Hexec. rewrite H in Hexec.
  exact (Reconcile_keeps_finalizer_until_clean _ _ _ _ _ _ _ Hexec He).
Defined.

Lemma demo_pass p :
  take 3 (demo_trace p) = demo_entry p ++ [Ev ListNodes (inr demo_nodes); Ev Now t0] ->
  exec (Reconcile "wp-policy")
    (demo_entry p ++ Ev ListNodes (inr demo_nodes) :: Ev Now t0 :: demo_rest p)
    (demo_result p, demo_error p).
Proof.
  intros H. pose proof (demo_exec p) as He. rewrite <- (take_drop 3 (demo_trace p)), H in He.
  by rewrite <- app_assoc in He.
Qed.

Lemma wp_live : entered "wp-policy" (demo_entry wp_policy) wp_policy.
Proof. by apply demo_live; vm_compute. Qed.
Lemma strict_live : entered "wp-policy" (demo_entry strict_policy) strict_policy.
Proof. by apply demo_live; vm_compute. Qed.
Lemma warned_live : entered "wp-policy" (demo_entry warned_policy) warned_policy.
Proof. by apply demo_live; vm_compute. Qed.
Lemma broken_live : entered "wp-policy" (demo_entry broken_policy) broken_policy.
Proof. by apply demo_live; vm_compute. Qed.

Lemma Reconcile_isolates_errors_witness :
  exists pure (stamp : time.Time) outsA outsR, projectPolicy wp_policy = inr pure
  /\ let d := remediation.Decide pure (observeNodes demo_nodes pure).1 t0 in
     Forall2 (settled_or_failed true (policy_key wp_policy) (demo_rest wp_policy))
       d.(remediation.Decision_ApplyTaint) outsA
     /\ Forall2 (settled_or_failed false (policy_key wp_policy) (demo_rest wp_policy))
       d.(remediation.Decision_RemoveTaint) outsR
     /\ Forall (fun o => o = None) (outsA ++ outsR).
Proof.
  assert (take 3 (demo_trace wp_policy)
          = demo_entry wp_policy ++ [Ev ListNodes (inr demo_nodes); Ev Now t0]) as Ht by by vm_compute.
  destruct (Reconcile_isolates_errors "wp-policy" _ _ _ _ _ _ _ wp_live (demo_pass wp_policy Ht))
    as (pure & stamp & outsA & outsR & Hp & HA & HR & Hok & _).
  assert (demo_error wp_policy = None) as He by by vm_compute.
  exists pure, stamp, outsA, outsR. exact (conj Hp (conj HA (conj HR (proj1 (Hok He))))).
Defined.

Lemma Reconcile_writes_status_once_witness :
  exists tr1 m o r tr2, demo_trace wp_policy = tr1 ++ Ev (PatchPolicyStatus m o) r :: tr2
  /\ o ∈ policies_seen tr1 /\ m = v1alpha1.set_Status o m.(v1alpha1.Status)
  /\ writes tr2 = [].
Proof.
  destruct (split_on is_status_patch (demo_trace wp_policy)) as (tr1 & [c r] & tr2 & H & He);
    [by vm_compute|]. destruct c as [| | | |m o| | | | | | | |]; try discriminate He.
  exists tr1, m, o, r, tr2. split; [exact H|].
  pose proof (demo_exec wp_policy) as Hexec. rewrite H in Hexec.
  destruct (Reconcile_writes_status_once _ _ _ _ _ _ _ _ Hexec) as (Ho & Hm & _ & _ & Hw & _).
  exact (conj Ho (conj Hm Hw)).
Defined.

Lemma Reconcile_announces_changes_witness :
  length (succeeded (demo_trace wp_policy)) = 2%nat
  /\ length (taint_events (demo_trace wp_policy)) = length (succeeded (demo_trace wp_policy)).
Proof.
  split; [by vm_compute|]. exact (Reconcile_announces_changes _ _ _ _ (demo_exec wp_policy)).
Defined.

Lemma Reconcile_warns_on_edges_witness :
  projectPolicy strict_policy = inr (pure_of strict_policy)
  /\ length (guard_warnings (demo_rest strict_policy)) = 1%nat
  /\ held_warnings (demo_rest strict_policy) = ["e"%string].
Proof.
  assert (take 3 (demo_trace strict_policy)
          = demo_entry strict_policy ++ [Ev ListNodes (inr demo_nodes); Ev Now t0]) as Ht by by vm_compute.
  assert (projectPolicy strict_policy = inr (pure_of strict_policy)) as Hp by by vm_compute.
  destruct (Reconcile_warns_on_edges "wp-policy" _ _ _ _ _ _ _ _ strict_live
    (demo_pass strict_policy Ht) Hp) as [Hg Hh].
  split; [exact Hp|]. rewrite Hg, Hh. split; by vm_compute.
Defined.

Lemma Reconcile_never_repeats_warnings_witness :
  strict_decision.(remediation.Decision_Status).(remediation.Status_GuardTripped) = true
  /\ strict_decision.(remediation.Decision_HeldMissingTimestamp) = ["e"%string]
  /\ guard_warnings (demo_rest warned_policy) = [] /\ "e"%string ∉ held_warnings (demo_rest warned_policy).
Proof.
  assert (take 3 (demo_trace warned_policy)
          = demo_entry warned_policy ++ [Ev ListNodes (inr demo_nodes); Ev Now t0]) as Ht by by vm_compute.
  assert (projectPolicy warned_policy = inr (pure_of warned_policy)) as Hp by by vm_compute.
  destruct (Reconcile_never_repeats_warnings "wp-policy" _ _ _ _ _ _ _ _ t0 strict_policy strict_decision
    warned_live (demo_pass warned_policy Ht) Hp eq_refl) as [Hg Hh].
  assert (strict_decision.(remediation.Decision_Status).(remediation.Status_GuardTripped) = true) as Hs
    by by vm_compute.
  assert (strict_decision.(remediation.Decision_HeldMissingTimestamp) = ["e"%string]) as He
    by by vm_compute.
  split; [exact Hs|]. split; [exact He|]. split; [exact (Hg Hs)|]. apply Hh. rewrite He. by left.
Defined.

Lemma Reconcile_invalid_spec_inert_witness :
  exists perr stamp r, projectPolicy broken_policy = inl perr
  /\ let m := status.MarkInvalidSpec stamp broken_policy (Error perr) in
     let tr := drop 1 (demo_trace broken_policy) in
     status_patches tr = [(m, broken_policy, r)] /\ emitted tr = [invalid_spec_event m perr]
     /\ reports_invalid m perr.
Proof.
  assert (exists perr, projectPolicy broken_policy = inl perr) as [perr Hp] by (eexists; reflexivity).
  assert (demo_trace broken_policy = demo_entry broken_policy ++ drop 1 (demo_trace broken_policy))
    as Ht by by vm_compute.
  pose proof (demo_exec broken_policy) as Hexec. rewrite Ht in Hexec.
  destruct (Reconcile_invalid_spec_inert "wp-policy" _ _ _ _ _ perr broken_live Hp Hexec)
    as (_ & _ & _ & _ & H).
  assert (~ reports_invalid broken_policy perr) as Hno by (intros (c & Hf & _); vm_compute in Hf; discriminate).
  destruct (H Hno) as (stamp & r & _ & Hs & He & _ & Hm & _).
  exists perr, stamp, r. split; [exact Hp|]. split; [exact Hs|]. split; [exact He|exact Hm].
Defined.

(** The server answers the first patch with a conflict, another writer having been faster. *)
Definition conflict_once : handler (ReferenceServer.state * bool) := fun c st =>
  match c return Answer c * (ReferenceServer.state * bool) with
  | PatchNode m o =>
      if st.2 then (Some (errors.Conflict o.(corev1.Node_Name)), (st.1, false))
      else let '(x, st') := ReferenceServer.serve (PatchNode m o) st.1 in (x, (st', false))
  | c => let '(x, st') := ReferenceServer.serve c st.1 in (x, (st', st.2))
  end.

Lemma EnsureTaint_contract_witness :
  let r := record conflict_once (EnsureTaint "a" wp_taint) (cluster_with wp_policy, true) in
  r.2 = (true, None)
  /\ length (node_reads r.1) = 2%nat /\ length (patches r.1) = 2%nat /\ length (succeeded r.1) = 1%nat
  /\ (exists cause, retried 5 "a" (addTaint wp_taint) r.1 true cause)
  /\ settled_to true wp_taint.(remediation.Taint_Key) "a" r.1.
Proof.
  intros r. assert (r.2 = (true, None)) as Hr by by vm_compute. split; [exact Hr|].
  split; [by vm_compute|]. split; [by vm_compute|]. split; [by vm_compute|].
  assert (exec (EnsureTaint "a" wp_taint) r.1 (true, None)) as He
    by (rewrite <- Hr; apply record_exec).
  destruct (EnsureTaint_contract _ _ _ _ _ He) as ((cause & Ha & _) & _ & _ & _ & _ & Hs & _).
  split; [exists cause; exact Ha|]. exact (Hs eq_refl).
Defined.

Lemma RemoveTaint_contract_witness :
  let r := record ReferenceServer.serve (RemoveTaint "b" wp_taint.(remediation.Taint_Key))
             (cluster_with wp_policy) in
  r.2 = (true, None) /\ settled_to false wp_taint.(remediation.Taint_Key) "b" r.1.
Proof.
  intros r. assert (r.2 = (true, None)) as Hr by by vm_compute. split; [exact Hr|].
  assert (exec (RemoveTaint "b" wp_taint.(remediation.Taint_Key)) r.1 (true, None)) as He
    by (rewrite <- Hr; apply record_exec).
  destruct (RemoveTaint_contract "b" wp_taint _ _ _ He) as (_ & _ & _ & _ & _ & Hs & _).
  exact (Hs eq_refl).
Defined.
