(* ===== verification/Watch.v ===== *)
(** The Node watch of [internal/controller/noderemediationpolicy_controller.go]: which Node events
    pass the predicates of [SetupWithManager], and which policies [nodeEventHandler] then enqueues;
    the theorems about it are in [WatchTheorems]. *)

From S2P Require Import Prelude GoTime Types K8sLib PolicyApi Remediation DecideSpec Fixtures.
From S2P Require Import DecideProps Predicate Project ProjectProps Effects Cluster Taint Reconcile.
From S2P Require Import Scenarios.
Import project predicate.

Module watch.
Section watch.
Context `{K : K8s}.

Inductive NodeEvent :=
  | CreateEvent (o : Object)
  | UpdatedEvent (e : UpdateEvent)
  | DeleteEvent (o : Object)
  | GenericEvent (o : Object).

(** [predicate.Or(ConditionStatusChanged(), TaintsChanged(), LabelChangedPredicate{})]: only updates
    are filtered.  Labels are finite maps, so a nil and an empty label map are one here;
    [LabelChangedPredicate] compares with [reflect.DeepEqual] and lets a change between the two pass,
    in which [wantUpdate], which compares with [maps.Equal], sees no change of the labels. *)
Definition nodePredicate (e : NodeEvent) : bool :=
  match e with
  | UpdatedEvent u =>
      ConditionStatusChanged u || TaintsChanged u
      || LabelChanged (labels_of u.(ObjectOld)) (labels_of u.(ObjectNew))
  | _ => true
  end.

(** The closure of [enqueueSelectingPolicies]. *)
Definition wantSelecting (node : corev1.Node) (p : v1alpha1.NodeRemediationPolicy) : bool :=
  match nodeSelector p with
  | inl _ => false
  | inr sel => sel node.(corev1.Node_Labels)
  end.

(** The closure of the [UpdateFunc]. *)
Definition wantUpdate (oldNode newNode : corev1.Node) (p : v1alpha1.NodeRemediationPolicy) : bool :=
  let changedConditions :=
    ChangedConditionTypes oldNode.(corev1.Node_Conditions) newNode.(corev1.Node_Conditions) in
  let changedTaints := ChangedTaintKeys oldNode.(corev1.Node_Taints) newNode.(corev1.Node_Taints) in
  let labelsChanged :=
    negb (bool_decide (oldNode.(corev1.Node_Labels) = newNode.(corev1.Node_Labels))) in
  match nodeSelector p with
  | inl _ => false
  | inr sel =>
      if labelsChanged then sel newNode.(corev1.Node_Labels) || sel oldNode.(corev1.Node_Labels)
      else if negb (sel newNode.(corev1.Node_Labels)) then false
      else if is_set changedConditions
                p.(v1alpha1.Spec).(v1alpha1.Spec_Condition).(v1alpha1.ConditionMatch_Type) then true
      else match p.(v1alpha1.Spec).(v1alpha1.Spec_Remediations).(v1alpha1.Remediations_Taint) with
           | Some t => is_set changedTaints t.(corev1.Taint_Key)
           | None => false
           end
  end.

Definition enqueueIf (want : v1alpha1.NodeRemediationPolicy -> bool) (_ : unit)
    (p : v1alpha1.NodeRemediationPolicy) : prog unit :=
  if want p then call (Enqueue (v1alpha1.Name p)) else mret tt.

Definition enqueuePolicies (want : v1alpha1.NodeRemediationPolicy -> bool) : prog unit :=
  r ← call ListPolicies;
  match (r : error + list v1alpha1.NodeRemediationPolicy) with
  | inl err =>
      call (Log (mkLog (Some err) "listing policies to enqueue for a Node event" []))
  | inr policies => forEach (enqueueIf want) tt policies
  end.

Definition enqueueSelectingPolicies (node : corev1.Node) : prog unit :=
  enqueuePolicies (wantSelecting node).

Definition nodeEventHandler (e : NodeEvent) : prog unit :=
  match e with
  | CreateEvent (NodeObject node) => enqueueSelectingPolicies node
  | DeleteEvent (NodeObject node) => enqueueSelectingPolicies node
  | UpdatedEvent (mkUpdateEvent (NodeObject oldNode) (NodeObject newNode)) =>
      enqueuePolicies (wantUpdate oldNode newNode)
  | _ => mret tt
  end.

(** The watch as the manager runs it: the predicates, then the handler. *)
Definition watchNode (e : NodeEvent) : prog unit :=
  if nodePredicate e then nodeEventHandler e else mret tt.

(** ** What a policy observes of a node *)

Definition selects (pure : remediation.Policy) (n : corev1.Node) : bool :=
  in_scope pure (observeNode pure n).

Definition transition_time (pure : remediation.Policy) (n : corev1.Node) : time.Time :=
  (observeNode pure n).(remediation.NodeFact_Condition).(remediation.ConditionFact_LastTransition).

(** The two versions of a node give the policy the same signal: the watched condition's status, and
    whether its transition time is known; and the policy's taint is on both or on neither. *)
Definition same_signal (pure : remediation.Policy) (o n : corev1.Node) : Prop :=
  let fo := observeNode pure o in
  let fn := observeNode pure n in
  fo.(remediation.NodeFact_Condition).(remediation.ConditionFact_Status)
  = fn.(remediation.NodeFact_Condition).(remediation.ConditionFact_Status)
  /\ time.IsZero fo.(remediation.NodeFact_Condition).(remediation.ConditionFact_LastTransition)
     = time.IsZero fn.(remediation.NodeFact_Condition).(remediation.ConditionFact_LastTransition)
  /\ fo.(remediation.NodeFact_HasTaint) = fn.(remediation.NodeFact_HasTaint).

End watch.
End watch.
