(* ===== verification/WatchTheorems.v ===== *)
(** The theorems about the Node watch: no change of a node's scope, or of the signal of a node in
    scope, is lost, and nothing else wakes a policy; with the one gap there is, on nodes out of
    scope. *)

From S2P Require Import Prelude GoTime Types K8sLib PolicyApi Remediation DecideSpec Fixtures.
From S2P Require Import DecideProps Predicate Project ProjectProps Effects Cluster Taint Reconcile.
From S2P Require Import Scenarios Watch.
Import project predicate watch.

Section lemmas.
Context `{K : K8s} `{L : !K8sLaws K}.
Implicit Types (p : v1alpha1.NodeRemediationPolicy) (o n : corev1.Node).

(** ** Listing and enqueueing *)

Lemma forEach_enqueueIf want l s tr u :
  exec (forEach (enqueueIf want) s l) tr u ->
  enqueued tr = v1alpha1.Name <$> filter (fun p => Is_true (want p)) l
  /\ Forall (fun e => exists name, e.(ev_call) = Enqueue name) tr.
Proof.
  revert s tr. induction l as [|p l IH]; intros s tr H; [by destruct H as [-> _]|].
  apply exec_forEach_cons in H as (tr1 & s1 & tr2 & -> & H1 & H2). apply IH in H2 as [He Hf].
  rewrite enqueued_app, He, filter_cons. unfold enqueueIf in H1. destruct (want p); simpl in H1.
  - destruct H1 as ([] & ? & -> & -> & _). rewrite decide_True by done. split; [done|].
    apply List.Forall_cons; [by eexists|done].
  - destruct H1 as [-> _]. by rewrite decide_False by tauto.
Qed.

Definition answered_policies (e : event) : option (error + list v1alpha1.NodeRemediationPolicy) :=
  match e with Ev ListPolicies r => Some r | _ => None end.

Lemma listed_inv r r' tr tr' : Ev ListPolicies r :: tr = Ev ListPolicies r' :: tr' -> r = r' /\ tr = tr'.
Proof.
  intros [H ->]%cons_eq_inv. apply (f_equal answered_policies) in H. injection H as <-. done.
Qed.

Lemma enqueuePolicies_trace want tr u :
  exec (enqueuePolicies want) tr u ->
  (exists err, tr = [Ev ListPolicies (inl err);
                     Ev (Log (mkLog (Some err) "listing policies to enqueue for a Node event" [])) tt]
     /\ enqueued tr = [])
  \/ (exists l tr', tr = Ev ListPolicies (inr l) :: tr'
     /\ enqueued tr = v1alpha1.Name <$> filter (fun p => Is_true (want p)) l
     /\ Forall (fun e => exists name, e.(ev_call) = Enqueue name) tr').
Proof.
  intros (r & tr' & -> & H). destruct r as [err|l].
  - left. exists err. destruct H as ([] & ? & -> & -> & _). done.
  - right. exists l, tr'. split; [done|]. by apply forEach_enqueueIf in H.
Qed.

(** ** What a policy observes *)

Lemma projectPolicy_fields p pure :
  projectPolicy p = inr pure ->
  exists sel, nodeSelector p = inr sel /\ pure.(remediation.Policy_Selector) = Some sel
    /\ pure.(remediation.Policy_ConditionType)
       = p.(v1alpha1.Spec).(v1alpha1.Spec_Condition).(v1alpha1.ConditionMatch_Type)
    /\ (forall t, p.(v1alpha1.Spec).(v1alpha1.Spec_Remediations).(v1alpha1.Remediations_Taint) = Some t ->
        pure.(remediation.Policy_Taint).(remediation.Taint_Key) = t.(corev1.Taint_Key)).
Proof.
  unfold projectPolicy. destruct (nodeSelector p) as [e|sel] eqn:Hs; [done|]. intros [= <-].
  exists sel. simpl. split_and!; try done. by intros t ->.
Qed.

Lemma projectPolicy_total p sel : nodeSelector p = inr sel -> exists pure, projectPolicy p = inr pure.
Proof. unfold projectPolicy. intros ->. by eexists. Qed.

Lemma selects_sel p pure sel n :
  projectPolicy p = inr pure -> nodeSelector p = inr sel -> selects pure n = sel n.(corev1.Node_Labels).
Proof.
  intros (sel' & Hs & Hp & _)%projectPolicy_fields Hs'. unfold selects, in_scope. rewrite Hp. simpl.
  congruence.
Qed.

Lemma wantSelecting_selects p pure n :
  projectPolicy p = inr pure -> wantSelecting n p = selects pure n.
Proof.
  intros Hp. destruct (projectPolicy_fields p pure Hp) as (sel & Hs & _).
  rewrite (selects_sel p pure sel) by done. unfold wantSelecting. by rewrite Hs.
Qed.

Lemma same_signal_iff p pure t o n :
  projectPolicy p = inr pure ->
  p.(v1alpha1.Spec).(v1alpha1.Spec_Remediations).(v1alpha1.Remediations_Taint) = Some t ->
  NoDup (corev1.NodeCondition_Type <$> o.(corev1.Node_Conditions)) ->
  NoDup (corev1.NodeCondition_Type <$> n.(corev1.Node_Conditions)) ->
  let type := p.(v1alpha1.Spec).(v1alpha1.Spec_Condition).(v1alpha1.ConditionMatch_Type) in
  condition_state o.(corev1.Node_Conditions) type = condition_state n.(corev1.Node_Conditions) type
  /\ (has_key o.(corev1.Node_Taints) t.(corev1.Taint_Key)
      <-> has_key n.(corev1.Node_Taints) t.(corev1.Taint_Key))
  <-> same_signal pure o n.
Proof.
  intros (sel & _ & _ & Hty & Hkey)%projectPolicy_fields Ht Ho Hn. simpl.
  unfold same_signal. simpl. unfold hasTaintKey. rewrite Hty, (Hkey t Ht).
  rewrite !observeCondition_state, <- !hasKey_iff by done. split.
  - intros [[= Hs Hz%(f_equal negb)] Hk]. rewrite !negb_involutive in Hz. split_and!; [done|done|].
    by apply Bool.eq_iff_eq_true.
  - intros (-> & -> & ->). done.
Qed.

(** The signal, the name, the labels and the transition time are all there is to a fact. *)
Lemma same_fact pure o n :
  same_signal pure o n -> o.(corev1.Node_Labels) = n.(corev1.Node_Labels) ->
  o.(corev1.Node_Name) = n.(corev1.Node_Name) -> transition_time pure o = transition_time pure n ->
  observeNode pure o = observeNode pure n.
Proof.
  unfold same_signal, transition_time, observeNode. simpl. intros (Hs & _ & Hk) Hl Hn Ht.
  destruct (observeCondition o.(corev1.Node_Conditions) _), (observeCondition n.(corev1.Node_Conditions) _).
  simpl in *. congruence.
Qed.

(** An update nobody is enqueued for. *)
Lemma wantUpdate_false p pure t o n :
  projectPolicy p = inr pure ->
  p.(v1alpha1.Spec).(v1alpha1.Spec_Remediations).(v1alpha1.Remediations_Taint) = Some t ->
  NoDup (corev1.NodeCondition_Type <$> o.(corev1.Node_Conditions)) ->
  NoDup (corev1.NodeCondition_Type <$> n.(corev1.Node_Conditions)) ->
  wantUpdate o n p = false ->
  (selects pure o = false /\ selects pure n = false)
  \/ (o.(corev1.Node_Labels) = n.(corev1.Node_Labels) /\ selects pure n = true /\ same_signal pure o n).
Proof.
  intros Hp Ht Ho Hn. rewrite <- (same_signal_iff p pure t o n) by done.
  destruct (projectPolicy_fields p pure Hp) as (sel & Hs & _).
  rewrite !(selects_sel p pure sel) by done. unfold wantUpdate. rewrite Hs, Ht.
  case_bool_decide as Hl; simpl; [|rewrite orb_false_iff; tauto]. rewrite Hl.
  destruct (sel _); simpl; [|by left]. right. destruct (is_set (ChangedConditionTypes _ _) _) eqn:Hc; [done|].
  split_and!; try done.
  - destruct (decide (condition_state o.(corev1.Node_Conditions)
      p.(v1alpha1.Spec).(v1alpha1.Spec_Condition).(v1alpha1.ConditionMatch_Type)
      = condition_state n.(corev1.Node_Conditions)
          p.(v1alpha1.Spec).(v1alpha1.Spec_Condition).(v1alpha1.ConditionMatch_Type))) as [|Hne]; [done|].
    apply is_set_ChangedConditionTypes in Hne. congruence.
  - destruct (decide (has_key o.(corev1.Node_Taints) t.(corev1.Taint_Key)
                      <-> has_key n.(corev1.Node_Taints) t.(corev1.Taint_Key))) as [|Hne]; [done|].
    apply is_set_ChangedTaintKeys in Hne. congruence.
Qed.

(** The predicates let through every update some policy is enqueued for. *)
Lemma nodePredicate_sound o n p :
  wantUpdate o n p = true ->
  nodePredicate (UpdatedEvent (mkUpdateEvent (NodeObject o) (NodeObject n))) = true.
Proof.
  unfold wantUpdate, nodePredicate. destruct (nodeSelector p) as [|sel]; [done|]. cbn [ObjectOld ObjectNew labels_of].
  rewrite !orb_true_iff. case_bool_decide as Hl; simpl.
  - destruct (sel _); simpl; [|done]. destruct (is_set (ChangedConditionTypes _ _) _) eqn:Hc.
    + intros _. left. left. apply ConditionStatusChanged_iff. eexists.
      by apply is_set_ChangedConditionTypes.
    + destruct (v1alpha1.Remediations_Taint _) as [t|]; [|done]. intros Hk. left. right.
      apply TaintsChanged_iff. eexists. by apply is_set_ChangedTaintKeys.
  - intros _. right. by apply LabelChanged_spec.
Qed.

Lemma not_enqueued_not_wanted want (l : list v1alpha1.NodeRemediationPolicy) p :
  p ∈ l -> v1alpha1.Name p ∉ v1alpha1.Name <$> filter (fun p => Is_true (want p)) l -> want p = false.
Proof.
  intros Hp Hn. apply not_true_is_false. intros Hw. apply Hn, list_elem_of_fmap_2, list_elem_of_filter.
  split; [by apply Is_true_true|done].
Qed.

End lemmas.

(** ** Theorems *)
Section theorems.
Context `{K : K8s} `{L : !K8sLaws K}.
Implicit Types (p : v1alpha1.NodeRemediationPolicy) (o n : corev1.Node).

(** C14: what an update can have changed for a policy the watch listed and did not enqueue.  Either the
    policy selects the node under neither its old nor its new labels; its own taint may then have
    come or gone, which is the gap of the last theorem here.  Or the labels are the same and select
    it, the watched condition has the same status, its transition time is known in both or in
    neither, and its own taint is on both or on neither.  [Decide] is then given the same fact, but
    for the value of that transition time: if it did not move either, the fact is the same. *)
Theorem watch_loses_no_signal o n p pure tr u :
  NoDup (corev1.NodeCondition_Type <$> o.(corev1.Node_Conditions)) ->
  NoDup (corev1.NodeCondition_Type <$> n.(corev1.Node_Conditions)) ->
  projectPolicy p = inr pure ->
  p.(v1alpha1.Spec).(v1alpha1.Spec_Remediations).(v1alpha1.Remediations_Taint) <> None ->
  exec (watchNode (UpdatedEvent (mkUpdateEvent (NodeObject o) (NodeObject n)))) tr u ->
  (forall r, Ev ListPolicies r ∈ tr -> exists l, r = inr l /\ p ∈ l) ->
  v1alpha1.Name p ∉ enqueued tr ->
  (selects pure o = false /\ selects pure n = false)
  \/ (selects pure o = true /\ selects pure n = true
      /\ o.(corev1.Node_Labels) = n.(corev1.Node_Labels) /\ same_signal pure o n
      /\ (o.(corev1.Node_Name) = n.(corev1.Node_Name) ->
          transition_time pure o = transition_time pure n -> observeNode pure o = observeNode pure n)).
Proof.
  intros Ho Hn Hp Ht Hexec Hlist Hne.
  destruct (v1alpha1.Remediations_Taint _) as [t|] eqn:Htaint; [|done].
  assert (wantUpdate o n p = false) as Hw.
  { unfold watchNode in Hexec. destruct (nodePredicate _) eqn:Hpred.
    - simpl in Hexec. apply enqueuePolicies_trace in Hexec
        as [(err & -> & _)|(l & tr' & -> & He & _)].
      + destruct (Hlist (inl err)) as (l & ? & _); [by left|done].
      + destruct (Hlist (inr l)) as (l' & [= <-] & Hl); [by left|].
        rewrite He in Hne. by eapply not_enqueued_not_wanted.
    - apply not_true_is_false. intros Hw%nodePredicate_sound. congruence. }
  destruct (wantUpdate_false p pure t o n Hp Htaint Ho Hn Hw) as [?|(Hl & Hs & Hsig)]; [by left|].
  right. split_and!; [|done|done|done|intros; by apply same_fact].
  destruct (projectPolicy_fields p pure Hp) as (sel & Hsel & _).
  rewrite !(selects_sel p pure sel) in * by done. by rewrite Hl.
Qed.

(** C38: no policy is woken for nothing.  A policy enqueued for an update of a node has a valid
    selector matching the node's old or new labels, and the labels changed, or the watched
    condition's status or the presence of its transition time did, or the policy's taint key was
    added or removed. *)
Theorem watch_wakes_only_affected o n tr u name :
  exec (watchNode (UpdatedEvent (mkUpdateEvent (NodeObject o) (NodeObject n)))) tr u ->
  name ∈ enqueued tr ->
  exists l p sel, Ev ListPolicies (inr l) ∈ tr /\ p ∈ l /\ v1alpha1.Name p = name
    /\ nodeSelector p = inr sel
    /\ (sel o.(corev1.Node_Labels) = true \/ sel n.(corev1.Node_Labels) = true)
    /\ (o.(corev1.Node_Labels) <> n.(corev1.Node_Labels)
        \/ (let type := p.(v1alpha1.Spec).(v1alpha1.Spec_Condition).(v1alpha1.ConditionMatch_Type) in
            condition_state o.(corev1.Node_Conditions) type
            <> condition_state n.(corev1.Node_Conditions) type)
        \/ (exists t, p.(v1alpha1.Spec).(v1alpha1.Spec_Remediations).(v1alpha1.Remediations_Taint) = Some t
            /\ ~ (has_key o.(corev1.Node_Taints) t.(corev1.Taint_Key)
                  <-> has_key n.(corev1.Node_Taints) t.(corev1.Taint_Key)))).
Proof.
  unfold watchNode. destruct (nodePredicate _); [|by intros [-> _] ?%elem_of_nil].
  intros [(err & -> & ->)|(l & tr' & -> & -> & _)]%enqueuePolicies_trace; [by intros ?%elem_of_nil|].
  intros (p & -> & [Hw Hl]%list_elem_of_filter)%list_elem_of_fmap. apply Is_true_true in Hw.
  unfold wantUpdate in Hw. destruct (nodeSelector p) as [|sel] eqn:Hs; [done|].
  exists l, p, sel. split_and!; try done; [by left| |].
  - case_bool_decide as Hlab; simpl in Hw; [|apply orb_true_iff in Hw; tauto].
    right. by destruct (sel n.(corev1.Node_Labels)).
  - case_bool_decide as Hlab; simpl in Hw; [|by left]. right.
    destruct (sel _); simpl in Hw; [|done]. destruct (is_set (ChangedConditionTypes _ _) _) eqn:Hc.
    + left. by apply is_set_ChangedConditionTypes.
    + right. destruct (v1alpha1.Remediations_Taint _) as [t|]; [|done]. exists t. split; [done|].
      by apply is_set_ChangedTaintKeys.
Qed.

(** C39: heartbeats cost nothing.  An update that keeps the labels, the set of taint keys, and of
    every condition the status and whether it has a transition time, whatever the order of the
    conditions, their heartbeats and their times, is dropped by the predicates: the policies are not
    even listed. *)
Theorem watch_ignores_churn o n tr u :
  only_churn o.(corev1.Node_Conditions) n.(corev1.Node_Conditions) ->
  (forall k, has_key o.(corev1.Node_Taints) k <-> has_key n.(corev1.Node_Taints) k) ->
  o.(corev1.Node_Labels) = n.(corev1.Node_Labels) ->
  exec (watchNode (UpdatedEvent (mkUpdateEvent (NodeObject o) (NodeObject n)))) tr u ->
  tr = [].
Proof.
  intros Hc Ht Hl. unfold watchNode.
  assert (nodePredicate (UpdatedEvent (mkUpdateEvent (NodeObject o) (NodeObject n))) = false) as ->;
    [|by intros [-> _]].
  apply not_true_is_false. unfold nodePredicate. cbn [ObjectOld ObjectNew labels_of].
  rewrite !orb_true_iff. intros [[H|H]|H].
  - apply ConditionStatusChanged_iff in H as [t H]. by destruct H; apply condition_state_churn.
  - apply TaintsChanged_iff in H as [k H]. by destruct H.
  - by apply LabelChanged_spec in H.
Qed.

(** a node that appears or disappears wakes exactly the policies that select it; a policy whose
    selector does not parse is not woken. *)
Theorem watch_lifecycle n e l tr u :
  e = CreateEvent (NodeObject n) \/ e = DeleteEvent (NodeObject n) ->
  exec (watchNode e) (Ev ListPolicies (inr l) :: tr) u ->
  (forall p pure, p ∈ l -> projectPolicy p = inr pure -> selects pure n = true ->
     v1alpha1.Name p ∈ enqueued tr)
  /\ (forall name, name ∈ enqueued tr -> exists p pure, p ∈ l /\ v1alpha1.Name p = name
        /\ projectPolicy p = inr pure /\ selects pure n = true).
Proof.
  intros He Hexec. assert (exec (enqueuePolicies (wantSelecting n)) (Ev ListPolicies (inr l) :: tr) u) as H
    by (by destruct He as [->| ->]).
  apply enqueuePolicies_trace in H as [(err & [H _]%listed_inv & _)|(l' & tr' & [H _]%listed_inv & Henq & _)];
    [done|]. injection H as <-.
  change (enqueued (Ev ListPolicies (inr l) :: tr)) with (enqueued tr) in Henq. rewrite Henq. split.
  - intros p pure Hp Hpure Hs. apply list_elem_of_fmap_2, list_elem_of_filter. split; [|done].
    by rewrite (wantSelecting_selects p pure), Hs.
  - intros name (p & -> & [Hw Hp]%list_elem_of_filter)%list_elem_of_fmap. apply Is_true_true in Hw.
    destruct (nodeSelector p) as [err|sel] eqn:Hsel; [unfold wantSelecting in Hw; by rewrite Hsel in Hw|].
    destruct (projectPolicy_total p sel Hsel) as [pure Hpure]. exists p, pure.
    by rewrite <- (wantSelecting_selects p pure).
Qed.

(** C40: the gap.  When a node the policy does not select gains the policy's taint, by another
    writer's hand, the policy is not enqueued, although its decision over the new node would remove
    that taint: the stray taint stays until something else wakes the policy. *)
Theorem watch_misses_out_of_scope_taint o n p pure l tr u nodes now :
  o.(corev1.Node_Labels) = n.(corev1.Node_Labels) ->
  projectPolicy p = inr pure -> selects pure n = false ->
  p ∈ l -> NoDup (v1alpha1.Name <$> l) ->
  exec (watchNode (UpdatedEvent (mkUpdateEvent (NodeObject o) (NodeObject n))))
    (Ev ListPolicies (inr l) :: tr) u ->
  hasTaintKey n pure.(remediation.Policy_Taint).(remediation.Taint_Key) = true ->
  n ∈ nodes -> in_bounds pure (observeNodes nodes pure).1 ->
  (v1alpha1.Name p ∉ enqueued (Ev ListPolicies (inr l) :: tr))
  /\ n.(corev1.Node_Name)
     ∈ (remediation.Decide pure (observeNodes nodes pure).1 now).(remediation.Decision_RemoveTaint).
Proof.
  intros Hl Hp Hs Hin Hd Hexec Hk Hn Hb. split.
  - unfold watchNode in Hexec. destruct (nodePredicate _); [|by destruct Hexec].
    simpl in Hexec. apply enqueuePolicies_trace in Hexec as [(err & _ & ->)|(l' & tr' & [H _]%listed_inv & -> & _)];
      [by intros ?%elem_of_nil|]. injection H as <-.
    intros (q & Hname & [Hw Hq]%list_elem_of_filter)%list_elem_of_fmap. apply Is_true_true in Hw.
    assert (q = p) as -> by (by apply (NoDup_fmap_inj v1alpha1.Name l)).
    destruct (projectPolicy_fields p pure Hp) as (sel & Hsel & _).
    rewrite (selects_sel p pure sel) in Hs by done. unfold wantUpdate in Hw.
    by rewrite Hsel, bool_decide_eq_true_2, Hs in Hw.
  - rewrite Decide_closed by done. simpl. apply elem_of_app. left. apply elem_of_names.
    rewrite observeNodes_facts. exists (observeNode pure n).
    split; [by apply list_elem_of_fmap_2|]. split; [done|].
    unfold left_scope, tainted. unfold selects in Hs. by rewrite Hs.
Qed.

End theorems.

(** ** Witnesses *)

(** A policy over all nodes but those of the role "db", which the node watched here moves between. *)
Definition old_node : corev1.Node := wp_node "a" "False" 300 [other_taint].
Definition new_node : corev1.Node := wp_node "a" "True" 5 [other_taint].
Definition stray_node (taints : list corev1.Taint) : corev1.Node :=
  corev1.mkNode "z" "uid-z" "1" role_db taints [corev1.mkNodeCondition "WPUnavailable" "False" t0 t0].

Definition watch_run (e : NodeEvent) : trace * unit :=
  record ReferenceServer.serve (watchNode e) (cluster_with wp_policy).

Definition update (o n : corev1.Node) : NodeEvent :=
  UpdatedEvent (mkUpdateEvent (NodeObject o) (NodeObject n)).

Lemma watch_exec e : exec (watchNode e) (watch_run e).1 (watch_run e).2.
Proof. apply record_exec. Qed.

Definition wp_pure : remediation.Policy :=
  match projectPolicy wp_policy with inr pure => pure | inl _ => basePolicy end.

Lemma wp_projects : projectPolicy wp_policy = inr wp_pure.
Proof. by vm_compute. Qed.

Lemma distinct_types (n : corev1.Node) :
  bool_decide (NoDup (corev1.NodeCondition_Type <$> n.(corev1.Node_Conditions))) = true ->
  NoDup (corev1.NodeCondition_Type <$> n.(corev1.Node_Conditions)).
Proof. apply bool_decide_eq_true_1. Qed.

(** A kubelet heartbeat: other times, nothing else. *)
Definition heartbeat (n : corev1.Node) : corev1.Node :=
  corev1.mkNode n.(corev1.Node_Name) n.(corev1.Node_UID) "2" n.(corev1.Node_Labels)
    n.(corev1.Node_Taints)
    ((fun c => corev1.mkNodeCondition c.(corev1.NodeCondition_Type) c.(corev1.NodeCondition_Status)
                (c.(corev1.NodeCondition_LastHeartbeatTime) + secs 10)
                c.(corev1.NodeCondition_LastTransitionTime)) <$> n.(corev1.Node_Conditions)).

Lemma watch_loses_no_signal_witness :
  exists u, exec (watchNode (update old_node (heartbeat old_node))) [] u
  /\ (v1alpha1.Name wp_policy ∉ enqueued [])
  /\ ((selects wp_pure old_node = false /\ selects wp_pure (heartbeat old_node) = false)
      \/ (selects wp_pure old_node = true /\ selects wp_pure (heartbeat old_node) = true
          /\ old_node.(corev1.Node_Labels) = (heartbeat old_node).(corev1.Node_Labels)
          /\ same_signal wp_pure old_node (heartbeat old_node)
          /\ (old_node.(corev1.Node_Name) = (heartbeat old_node).(corev1.Node_Name) ->
              transition_time wp_pure old_node = transition_time wp_pure (heartbeat old_node) ->
              observeNode wp_pure old_node = observeNode wp_pure (heartbeat old_node)))).
Proof.
  exists (watch_run (update old_node (heartbeat old_node))).2.
  assert (exec (watchNode (update old_node (heartbeat old_node))) []
            (watch_run (update old_node (heartbeat old_node))).2) as He by by vm_compute.
  assert (v1alpha1.Name wp_policy ∉ enqueued []) as Hn by (intros ?%elem_of_nil; done).
  split; [exact He|]. split; [exact Hn|].
  apply (watch_loses_no_signal old_node (heartbeat old_node) wp_policy wp_pure []
    (watch_run (update old_node (heartbeat old_node))).2).
  - apply distinct_types. by vm_compute.
  - apply distinct_types. by vm_compute.
  - exact wp_projects.
  - discriminate.
  - exact He.
  - intros r H%elem_of_nil. destruct H.
  - exact Hn.
Defined.

Lemma watch_wakes_only_affected_witness :
  let r := watch_run (update old_node new_node) in
  "wp-policy"%string ∈ enqueued r.1
  /\ exists l p, Ev ListPolicies (inr l) ∈ r.1 /\ p ∈ l /\ v1alpha1.Name p = "wp-policy"%string.
Proof.
  intros r. assert ("wp-policy"%string ∈ enqueued r.1) as Hin
    by (apply (bool_decide_unpack _); by vm_compute).
  split; [exact Hin|].
  destruct (watch_wakes_only_affected old_node new_node r.1 r.2 _ (watch_exec _) Hin)
    as (l & p & _ & Hl & Hp & Hname & _).
  exists l, p. exact (conj Hl (conj Hp Hname)).
Defined.

Lemma watch_ignores_churn_witness :
  old_node <> heartbeat old_node /\ (watch_run (update old_node (heartbeat old_node))).1 = [].
Proof.
  split; [by vm_compute|].
  apply (watch_ignores_churn old_node (heartbeat old_node) _
    (watch_run (update old_node (heartbeat old_node))).2).
  - split; [apply distinct_types; by vm_compute|]. exists (heartbeat old_node).(corev1.Node_Conditions).
    split; [reflexivity|]. by repeat (apply List.Forall2_cons; [by vm_compute|]).
  - intros k. reflexivity.
  - reflexivity.
  - apply watch_exec.
Defined.

Lemma watch_lifecycle_witness :
  exists tr, (watch_run (CreateEvent (NodeObject old_node))).1 = Ev ListPolicies (inr [wp_policy]) :: tr
  /\ v1alpha1.Name wp_policy ∈ enqueued tr.
Proof.
  exists [Ev (Enqueue "wp-policy") tt].
  assert ((watch_run (CreateEvent (NodeObject old_node))).1
          = Ev ListPolicies (inr [wp_policy]) :: [Ev (Enqueue "wp-policy") tt]) as H by by vm_compute.
  split; [exact H|]. pose proof (watch_exec (CreateEvent (NodeObject old_node))) as He. rewrite H in He.
  apply (proj1 (watch_lifecycle old_node _ _ _ _ (or_introl eq_refl) He) wp_policy wp_pure).
  - by left.
  - exact wp_projects.
  - by vm_compute.
Defined.

Lemma watch_misses_out_of_scope_taint_witness :
  let o := stray_node [] in
  let n := stray_node [wp_spec_taint] in
  (watch_run (update o n)).1 = [Ev ListPolicies (inr [wp_policy])]
  /\ ("wp-policy"%string ∉ enqueued [Ev ListPolicies (inr [wp_policy])])
  /\ "z"%string ∈ (remediation.Decide wp_pure (observeNodes [n] wp_pure).1 t0)
                    .(remediation.Decision_RemoveTaint).
Proof.
  intros o n. assert ((watch_run (update o n)).1 = [Ev ListPolicies (inr [wp_policy])]) as H
    by by vm_compute.
  assert (in_bounds wp_pure (observeNodes [n] wp_pure).1) as Hb by (split; [|split]; vm_compute; discriminate).
  split; [exact H|]. pose proof (watch_exec (update o n)) as He. rewrite H in He.
  apply (watch_misses_out_of_scope_taint o n wp_policy wp_pure [wp_policy] [] (watch_run (update o n)).2
    [n] t0 eq_refl wp_projects).
  - vm_compute. reflexivity.
  - apply list_elem_of_singleton. reflexivity.
  - apply NoDup_singleton.
  - exact He.
  - vm_compute. reflexivity.
  - apply list_elem_of_singleton. reflexivity.
  - exact Hb.
Defined.
