(* ===== verification/Webhook.v ===== *)
(** The validating webhook, [internal/webhook/v1alpha1/noderemediationpolicy_webhook.go]: a policy's
    taint key must be unique; and the theorems about what it admits, one request at a time and two at
    once, and about the controller's own updates. *)

From S2P Require Import Prelude GoTime Types K8sLib PolicyApi Remediation Fixtures Predicate.
From S2P Require Import Project ProjectProps Effects Cluster Taint Reconcile Scenarios.
From S2P Require Import ReconcileProps.
Import project taint reconcile.

Module webhook.

(** [admission.Warnings]. *)
Definition Warnings : Type := list string.

Definition Group : string := "warden.scality.com".
Definition Kind : string := "NodeRemediationPolicy".

Definition taint_of (p : v1alpha1.NodeRemediationPolicy) : option corev1.Taint :=
  p.(v1alpha1.Spec).(v1alpha1.Spec_Remediations).(v1alpha1.Remediations_Taint).

(** One iteration's test: another policy with a taint of that key. *)
Definition collides (name key : string) (other : v1alpha1.NodeRemediationPolicy) : bool :=
  if decide (v1alpha1.Name other = name) then false
  else match taint_of other with
       | Some t => bool_decide (t.(corev1.Taint_Key) = key)
       | None => false
       end.

(** The error returned for a collision with [other]. *)
Definition collision (name key : string) (other : v1alpha1.NodeRemediationPolicy) : error :=
  errors.Invalid Group Kind name
    [errors.mkForbidden ["spec"; "remediations"; "taint"; "key"]%string
       ("taint.key " +:+ key +:+ " is already used by NodeRemediationPolicy "
        +:+ v1alpha1.Name other +:+ "; each policy must own a unique taint key")].

(** The loop, which returns at the first collision. *)
Fixpoint findCollision (name key : string) (policies : list v1alpha1.NodeRemediationPolicy) :
    option error :=
  match policies with
  | [] => None
  | other :: rest =>
      if collides name key other then Some (collision name key other)
      else findCollision name key rest
  end.

Definition validateUniqueTaintKey (policy : v1alpha1.NodeRemediationPolicy) : prog (option error) :=
  match taint_of policy with
  | None => mret None
  | Some t =>
      let key := t.(corev1.Taint_Key) in
      r ← call ReaderListPolicies;
      match (r : error + list v1alpha1.NodeRemediationPolicy) with
      | inl err => mret (Some (errors.InternalError err))
      | inr policies => mret (findCollision (v1alpha1.Name policy) key policies)
      end
  end.

Definition ValidateCreate (obj : v1alpha1.NodeRemediationPolicy) : prog (Warnings * option error) :=
  call (Log (mkLog None "validating NodeRemediationPolicy on create"
    [("name"%string, ArgString (v1alpha1.Name obj))])) ;;
  err ← validateUniqueTaintKey obj;
  mret ([], err).

Definition ValidateUpdate (_ newObj : v1alpha1.NodeRemediationPolicy) : prog (Warnings * option error) :=
  call (Log (mkLog None "validating NodeRemediationPolicy on update"
    [("name"%string, ArgString (v1alpha1.Name newObj))])) ;;
  err ← validateUniqueTaintKey newObj;
  mret ([], err).

Definition ValidateDelete (_ : v1alpha1.NodeRemediationPolicy) : prog (Warnings * option error) :=
  mret ([], None).

(** ** Specification *)

(** The taint key a policy owns, if any. *)
Definition owned_key (p : v1alpha1.NodeRemediationPolicy) : option string :=
  corev1.Taint_Key <$> taint_of p.

Definition conflicts_with (p other : v1alpha1.NodeRemediationPolicy) : Prop :=
  v1alpha1.Name other <> v1alpha1.Name p /\ is_Some (owned_key p) /\ owned_key other = owned_key p.

(** The store of policies, by name, and the invariant the webhook is there for. *)
Abbreviation store := (gmap string v1alpha1.NodeRemediationPolicy).

Definition well_named (s : store) : Prop := map_Forall (fun n p => v1alpha1.Name p = n) s.

Definition keys_unique (s : store) : Prop :=
  forall n1 n2 p1 p2 k, s !! n1 = Some p1 -> s !! n2 = Some p2 ->
    owned_key p1 = Some k -> owned_key p2 = Some k -> n1 = n2.

Definition listing (s : store) : list v1alpha1.NodeRemediationPolicy := (map_to_list s).*2.

(** The request is admitted when the policies listed are [l]. *)
Definition admitted (m : prog (Warnings * option error)) (l : list v1alpha1.NodeRemediationPolicy) :
    Prop :=
  exists tr ws, exec m tr (ws, None) /\ (forall r, Ev ReaderListPolicies r ∈ tr -> r = inr l).

(** Admission one request at a time: each is judged against the store it is applied to. *)
Inductive admission : store -> store -> Prop :=
  | admit_create s p :
      s !! v1alpha1.Name p = None -> admitted (ValidateCreate p) (listing s) ->
      admission s (<[v1alpha1.Name p := p]> s)
  | admit_update s old p :
      s !! v1alpha1.Name p = Some old -> admitted (ValidateUpdate old p) (listing s) ->
      admission s (<[v1alpha1.Name p := p]> s)
  | admit_delete s p :
      s !! v1alpha1.Name p = Some p -> admitted (ValidateDelete p) (listing s) ->
      admission s (delete (v1alpha1.Name p) s).

(** Admission with requests in flight: judged at one moment, stored at a later one. *)
Inductive concurrent : store * list v1alpha1.NodeRemediationPolicy ->
    store * list v1alpha1.NodeRemediationPolicy -> Prop :=
  | judge s inflight p :
      s !! v1alpha1.Name p = None -> admitted (ValidateCreate p) (listing s) ->
      concurrent (s, inflight) (s, p :: inflight)
  | persist s inflight p :
      p ∈ inflight -> s !! v1alpha1.Name p = None ->
      concurrent (s, inflight) (<[v1alpha1.Name p := p]> s, filter (fun q => q <> p) inflight).

(** ** Lemmas *)

Lemma collides_spec p t other :
  taint_of p = Some t ->
  collides (v1alpha1.Name p) t.(corev1.Taint_Key) other = true <-> conflicts_with p other.
Proof.
  intros Ht. unfold collides, conflicts_with, owned_key. rewrite Ht. simpl.
  case_decide as Hn; [split; [done|tauto]|].
  destruct (taint_of other) as [t'|]; simpl; [|naive_solver].
  rewrite bool_decide_eq_true. split; [intros ->; eauto | by intros (_ & _ & [=])].
Qed.

Lemma findCollision_None name key l :
  findCollision name key l = None <-> Forall (fun other => collides name key other = false) l.
Proof.
  induction l as [|other l IH]; simpl; [split; [constructor|done]|].
  rewrite Forall_cons, <- IH. destruct (collides name key other); naive_solver.
Qed.

Lemma findCollision_Some name key l e :
  findCollision name key l = Some e ->
  exists other, other ∈ l /\ collides name key other = true /\ e = collision name key other.
Proof.
  induction l as [|other l IH]; simpl; [done|]. destruct (collides name key other) eqn:Hc.
  - intros [= <-]. exists other. split_and!; try done. by left.
  - intros (q & ? & ?)%IH. exists q. split; [by right|done].
Qed.

(** The four verdicts. *)
Lemma validate_cases p tr err :
  exec (validateUniqueTaintKey p) tr err ->
  (taint_of p = None /\ tr = [] /\ err = None)
  \/ (exists t, taint_of p = Some t /\
       ((exists e, tr = [Ev ReaderListPolicies (inl e)] /\ err = Some (errors.InternalError e))
        \/ (exists l, tr = [Ev ReaderListPolicies (inr l)]
           /\ err = findCollision (v1alpha1.Name p) t.(corev1.Taint_Key) l))).
Proof.
  unfold validateUniqueTaintKey. destruct (taint_of p) as [t|]; [|intros [-> <-]; by left].
  intros (r & tr' & -> & H). right. exists t. split; [done|].
  destruct r as [e|l]; destruct H as [-> <-]; [left|right]; by eexists.
Qed.

(** Both handlers are the check with a log line first. *)
Lemma ValidateCreate_exec p tr ws err :
  exec (ValidateCreate p) tr (ws, err) <->
  exists tr' l, tr = Ev (Log l) tt :: tr' /\ ws = []
    /\ l = mkLog None "validating NodeRemediationPolicy on create"
             [("name"%string, ArgString (v1alpha1.Name p))]
    /\ exec (validateUniqueTaintKey p) tr' err.
Proof.
  unfold ValidateCreate. split.
  - intros (tr0 & [] & tr' & -> & ->%exec_call & H)%exec_bind.
    apply exec_bind in H as (tr1 & e & tr2 & -> & H & [-> [= <- <-]]).
    rewrite app_nil_r. by eauto 10.
  - intros (tr' & l & -> & -> & -> & H). apply exec_bind.
    eexists [Ev (Log _) tt], tt, tr'. split; [done|]. split; [by apply exec_call|].
    apply exec_bind. exists tr', err, []. by rewrite app_nil_r.
Qed.

Lemma ValidateUpdate_exec old p tr ws err :
  exec (ValidateUpdate old p) tr (ws, err) <->
  exists tr' l, tr = Ev (Log l) tt :: tr' /\ ws = []
    /\ l = mkLog None "validating NodeRemediationPolicy on update"
             [("name"%string, ArgString (v1alpha1.Name p))]
    /\ exec (validateUniqueTaintKey p) tr' err.
Proof.
  unfold ValidateUpdate. split.
  - intros (tr0 & [] & tr' & -> & ->%exec_call & H)%exec_bind.
    apply exec_bind in H as (tr1 & e & tr2 & -> & H & [-> [= <- <-]]).
    rewrite app_nil_r. by eauto 10.
  - intros (tr' & l & -> & -> & -> & H). apply exec_bind.
    eexists [Ev (Log _) tt], tt, tr'. split; [done|]. split; [by apply exec_call|].
    apply exec_bind. exists tr', err, []. by rewrite app_nil_r.
Qed.

(** The check passes exactly when nothing listed conflicts. *)
Lemma validate_passes p tr l :
  exec (validateUniqueTaintKey p) tr None -> (forall r, Ev ReaderListPolicies r ∈ tr -> r = inr l) ->
  Forall (fun other => ~ conflicts_with p other) l.
Proof.
  intros [(Ht & _)|(t & Ht & [(e & _ & [=])|(l' & -> & Hf)])]%validate_cases Hl.
  - apply Forall_forall. intros other _ (_ & [k Hk] & _). unfold owned_key in Hk. by rewrite Ht in Hk.
  - assert (inr l' = inr l) as [= ->] by (apply Hl; by left).
    symmetry in Hf. apply findCollision_None in Hf. eapply Forall_impl; [exact Hf|].
    intros other Ho Hc%(collides_spec p t other Ht). simpl in Ho. congruence.
Qed.

Lemma validate_accepts p l :
  Forall (fun other => ~ conflicts_with p other) l ->
  exists tr, exec (validateUniqueTaintKey p) tr None
    /\ (forall r, Ev ReaderListPolicies r ∈ tr -> r = inr l).
Proof.
  intros Hf. unfold validateUniqueTaintKey. destruct (taint_of p) as [t|] eqn:Ht.
  2:{ exists []. split; [done|]. by intros r ?%elem_of_nil. }
  exists [Ev ReaderListPolicies (inr l)]. split.
  - exists (inr l), []. split; [done|]. split; [done|]. apply findCollision_None.
    eapply Forall_impl; [exact Hf|]. intros other Ho. apply not_true_is_false.
    by intros ?%(collides_spec p t other Ht).
  - intros r [He _]%list_elem_of_singleton%(fun H => conj H I).
    by apply (f_equal (fun e => match e with Ev ReaderListPolicies r => r | _ => inr [] end)) in He.
Qed.

Lemma admitted_ValidateCreate p l :
  admitted (ValidateCreate p) l <-> Forall (fun other => ~ conflicts_with p other) l.
Proof.
  unfold admitted. split.
  - intros (tr & ws & (tr' & lg & -> & -> & -> & H)%ValidateCreate_exec & Hl).
    apply (validate_passes p tr'); [done|]. intros r Hr. apply Hl. by right.
  - intros (tr & H & Hl)%validate_accepts. eexists (Ev (Log _) tt :: tr), []. split.
    + apply ValidateCreate_exec. by eauto 10.
    + intros r [[=]|Hr]%elem_of_cons. by apply Hl.
Qed.

Lemma admitted_ValidateUpdate old p l :
  admitted (ValidateUpdate old p) l <-> Forall (fun other => ~ conflicts_with p other) l.
Proof.
  unfold admitted. split.
  - intros (tr & ws & (tr' & lg & -> & -> & -> & H)%ValidateUpdate_exec & Hl).
    apply (validate_passes p tr'); [done|]. intros r Hr. apply Hl. by right.
  - intros (tr & H & Hl)%validate_accepts. eexists (Ev (Log _) tt :: tr), []. split.
    + apply ValidateUpdate_exec. by eauto 10.
    + intros r [[=]|Hr]%elem_of_cons. by apply Hl.
Qed.

Lemma elem_of_listing s n p : s !! n = Some p -> p ∈ listing s.
Proof.
  intros H. unfold listing. apply list_elem_of_fmap. exists (n, p). split; [done|].
  by apply elem_of_map_to_list.
Qed.

(** Storing a policy that nothing stored conflicts with keeps the keys unique. *)
Lemma keys_unique_insert s p :
  well_named s -> keys_unique s -> Forall (fun other => ~ conflicts_with p other) (listing s) ->
  keys_unique (<[v1alpha1.Name p := p]> s).
Proof.
  intros Hw Hu Hf. assert (forall n q k, s !! n = Some q -> owned_key p = Some k ->
    owned_key q = Some k -> n = v1alpha1.Name p) as Hq.
  { intros n q k Hq Hp Hk. destruct (decide (n = v1alpha1.Name p)) as [|Hne]; [done|].
    rewrite Forall_forall in Hf. destruct (Hf q (elem_of_listing s n q Hq)).
    split; [by rewrite (Hw n q Hq)|]. rewrite Hp. split; [by eexists|done]. }
  intros n1 n2 p1 p2 k. rewrite !lookup_insert.
  repeat case_decide; subst; intros; simplify_eq; [done| | |].
  - symmetry. by eapply Hq.
  - by eapply Hq.
  - by eapply Hu.
Qed.

End webhook.
