(* ===== verification/WebhookTheorems.v ===== *)
(** The theorems about admission: the verdict on every branch, the uniqueness of taint keys it
    maintains, what that uniqueness buys the controllers, and where it ends. *)

From S2P Require Import Prelude GoTime Types K8sLib PolicyApi Remediation Fixtures Predicate.
From S2P Require Import Project ProjectProps Effects Cluster Taint Reconcile Scenarios.
From S2P Require Import ReconcileProps ReconcileShape Webhook.
Import project taint reconcile webhook.

Section theorems.
Context `{K : K8s}.
Implicit Types (p q : v1alpha1.NodeRemediationPolicy) (s : store).

(** the verdict on an update or a create.  A policy without a taint is admitted without looking;
    otherwise the policies are listed once, uncached: a failed list is an internal error, a policy
    admitted conflicts with none of those listed, and a rejection names the policy, the field and
    one that it conflicts with, under another name and with the same key. *)
Theorem validate_verdict (create : bool) old p tr ws err :
  exec (if create then ValidateCreate p else ValidateUpdate old p) tr (ws, err) ->
  ws = [] /\ writes tr = []
  /\ match taint_of p with
     | None => err = None /\ length tr = 1%nat
     | Some t =>
         (exists e, Ev ReaderListPolicies (inl e) ∈ tr /\ err = Some (errors.InternalError e))
         \/ (exists l, Ev ReaderListPolicies (inr l) ∈ tr
             /\ match err with
                | None => Forall (fun other => ~ conflicts_with p other) l
                | Some e => exists other, other ∈ l /\ conflicts_with p other
                    /\ e = collision (v1alpha1.Name p) t.(corev1.Taint_Key) other
                end)
     end.
Proof.
  intros H. assert (exists tr' l, tr = Ev (Log l) tt :: tr' /\ ws = []
    /\ exec (validateUniqueTaintKey p) tr' err) as (tr' & l & -> & -> & Hv).
  { destruct create; [apply ValidateCreate_exec in H | apply ValidateUpdate_exec in H];
      destruct H as (tr' & l & ? & ? & _ & ?); eauto 10. }
  split; [done|].
  destruct (validate_cases p tr' err Hv) as [(-> & -> & ->)|(t & Ht & [(e & -> & ->)|(l' & -> & ->)])].
  - done.
  - split; [done|]. rewrite Ht. left. exists e. split; [by right; left|done].
  - split; [done|]. rewrite Ht. right. exists l'. split; [by right; left|].
    destruct (findCollision _ _ _) as [e|] eqn:Hf.
    + apply findCollision_Some in Hf as (other & Ho & Hc & ->). exists other.
      split_and!; [done| |done]. by apply (collides_spec p t other Ht).
    + apply findCollision_None in Hf. eapply Forall_impl; [exact Hf|].
      intros other Ho Hc%(collides_spec p t other Ht). simpl in Ho. congruence.
Qed.

(** C24: the invariant the webhook is there for.  Requests judged one at a time, each against the
    store it is applied to, never give two policies the same taint key, whatever creates, updates
    and deletes are asked for. *)
Theorem admission_keeps_keys_unique s s' :
  rtc admission s s' -> well_named s -> keys_unique s -> well_named s' /\ keys_unique s'.
Proof.
  induction 1 as [|s1 s2 s3 Hstep _ IH]; [done|]. intros Hw Hu. apply IH.
  - destruct Hstep as [s p _ _|s old p _ _|s p _ _].
    + by apply map_Forall_insert_2.
    + by apply map_Forall_insert_2.
    + by apply map_Forall_delete.
  - destruct Hstep as [s p _ Ha|s old p _ Ha|s p _ _].
    + apply admitted_ValidateCreate in Ha. by apply keys_unique_insert.
    + apply admitted_ValidateUpdate in Ha. by apply keys_unique_insert.
    + intros n1 n2 p1 p2 k [_ H1]%lookup_delete_Some [_ H2]%lookup_delete_Some. by eapply Hu.
Qed.

(** the race the webhook cannot close.  Two policies with one key, each judged before the other
    is stored, are both admitted and both stored: from an empty store a reachable store breaks the
    invariant, for any two such policies. *)
Theorem admission_race p q :
  v1alpha1.Name p <> v1alpha1.Name q -> is_Some (owned_key p) -> owned_key q = owned_key p ->
  exists s inflight, rtc concurrent (∅, []) (s, inflight) /\ ~ keys_unique s.
Proof.
  intros Hn [k Hk] Hq.
  assert (forall r, admitted (ValidateCreate r) (listing ∅)) as Hok.
  { intros r. apply admitted_ValidateCreate. unfold listing. rewrite map_to_list_empty. constructor. }
  exists (<[v1alpha1.Name q := q]> (<[v1alpha1.Name p := p]> ∅)). eexists. split.
  - eapply rtc_l; [by apply (judge ∅ [] p)|].
    eapply rtc_l; [by apply (judge ∅ [p] q)|].
    eapply rtc_l; [apply (persist ∅ [q; p] p); [by right; left|done]|].
    eapply rtc_l; [|apply rtc_refl]. apply persist.
    + apply list_elem_of_filter. split; [congruence|by left].
    + by rewrite lookup_insert_ne.
  - intros Hu. apply Hn. eapply Hu.
    + rewrite lookup_insert_ne by done. apply lookup_insert_eq.
    + apply lookup_insert_eq.
    + exact Hk.
    + by rewrite Hq.
Qed.

(** C34: where uniqueness ends in a deadlock.  Once two policies share a key, the webhook rejects
    every update of either that keeps its taint, the controller's own included: the update that
    would take the finalizer off a deleted policy is refused as long as the other exists, and the
    same holds of the other, so neither can be deleted. *)
Theorem shared_key_blocks_finalizer_removal p q l :
  p ∈ l -> q ∈ l -> v1alpha1.Name p <> v1alpha1.Name q ->
  is_Some (owned_key p) -> owned_key q = owned_key p ->
  ~ admitted (ValidateUpdate p (withoutFinalizer p)) l
  /\ ~ admitted (ValidateUpdate q (withoutFinalizer q)) l
  /\ ~ admitted (ValidateUpdate p (withFinalizer p)) l.
Proof.
  intros Hp Hq Hn Hk Heq. rewrite !admitted_ValidateUpdate, !Forall_forall.
  split_and!; intros H; [apply (H q Hq)|apply (H p Hp)|apply (H q Hq)];
    (split; [done|]); unfold owned_key, taint_of in *; simpl; by rewrite ?Heq.
Qed.

End theorems.

(** ** Witnesses *)

Definition twin : v1alpha1.NodeRemediationPolicy :=
  v1alpha1.mkNodeRemediationPolicy
    (metav1.mkObjectMeta "twin" "1" 1 None []) wp_spec empty_status.

Definition twin_cluster : ReferenceServer.state :=
  ReferenceServer.mkState ∅ {[ "wp-policy"%string := wp_policy ]} t0.

Lemma validate_verdict_witness :
  let r := record ReferenceServer.serve (ValidateCreate twin) twin_cluster in
  is_Some r.2.2 /\ r.2.1 = [] /\ writes r.1 = [].
Proof.
  intros r. split; [vm_compute; eexists; reflexivity|].
  assert (exec (ValidateCreate twin) r.1 (r.2.1, r.2.2)) as He
    by (rewrite <- surjective_pairing; apply record_exec).
  destruct (validate_verdict true twin twin _ _ _ He) as (Hw & Hr & _). exact (conj Hw Hr).
Defined.

Lemma admission_keeps_keys_unique_witness :
  let s := <[v1alpha1.Name twin := twin]> ∅ in
  rtc admission ∅ s /\ well_named ∅ /\ keys_unique ∅ /\ keys_unique s.
Proof.
  intros s. assert (rtc admission ∅ s) as Hs.
  { eapply rtc_l; [|apply rtc_refl]. apply admit_create; [reflexivity|].
    apply admitted_ValidateCreate. vm_compute. constructor. }
  assert (well_named ∅) as Hw by apply map_Forall_empty.
  assert (keys_unique ∅) as Hu by (intros n1 n2 p1 p2 k H; rewrite lookup_empty in H; discriminate H).
  split; [exact Hs|]. split; [exact Hw|]. split; [exact Hu|].
  exact (proj2 (admission_keeps_keys_unique ∅ s Hs Hw Hu)).
Defined.

Lemma admission_race_witness :
  v1alpha1.Name wp_policy <> v1alpha1.Name twin
  /\ exists s inflight, rtc concurrent (∅, []) (s, inflight) /\ ~ keys_unique s.
Proof.
  assert (v1alpha1.Name wp_policy <> v1alpha1.Name twin) as Hn by (vm_compute; discriminate).
  split; [exact Hn|]. apply (admission_race wp_policy twin Hn); [eexists|]; reflexivity.
Defined.

Lemma shared_key_blocks_finalizer_removal_witness :
  ~ admitted (ValidateUpdate wp_policy (withoutFinalizer wp_policy)) [wp_policy; twin].
Proof.
  apply (shared_key_blocks_finalizer_removal wp_policy twin [wp_policy; twin]).
  - left.
  - right. left.
  - vm_compute. discriminate.
  - eexists. reflexivity.
  - reflexivity.
Defined.
