(* ===== verification/ConvergenceProps.v ===== *)
(** What the controller's programs do to a cluster that answers as [ApiServerLaws] says: each taint
    operation succeeds and edits one node, the loops edit the nodes they name, the rest of a pass
    reads and reports. *)

From S2P Require Import Prelude GoTime Types K8sLib PolicyApi Remediation DecideSpec Fixtures.
From S2P Require Import DecideProps Predicate Project ProjectProps Effects Cluster Taint Reconcile.
From S2P Require Import Scenarios ReconcileProps ReconcileShape.
Import project taint reconcile.

(** ** Vocabulary *)

(** The node with another taint list; the resource version is free. *)
Definition node_with (taints : list corev1.Taint) (nd nd' : corev1.Node) : Prop :=
  nd'.(corev1.Node_Name) = nd.(corev1.Node_Name) /\ nd'.(corev1.Node_Labels) = nd.(corev1.Node_Labels)
  /\ nd'.(corev1.Node_Conditions) = nd.(corev1.Node_Conditions)
  /\ nd'.(corev1.Node_Taints) = taints.

(** The list a mutation leaves on the node. *)
Definition mutated (mutate : mutation) (taints : list corev1.Taint) : list corev1.Taint :=
  let '(updated, ok) := mutate taints in if ok then updated else taints.

Section cluster.
Context `{K : K8s} `{R : Retry} `{L : !K8sLaws K} `{RL : !RetryLaws K R}.
Context {St} (h : handler St) `{A : !ApiServer h} `{AL : !ApiServerLaws h A}.
Implicit Types (st : St).

(** No object changed. *)
Definition untouched st st' : Prop :=
  valid st' /\ time_of st <= time_of st' /\ nodes_of st' = nodes_of st
  /\ policies_of st' = policies_of st.

(** Every node's taint list went through [f] for its name, and nothing else of the nodes changed. *)
Definition nodes_edited (f : string -> list corev1.Taint -> list corev1.Taint) st st' : Prop :=
  forall n, match nodes_of st !! n with
    | None => nodes_of st' !! n = None
    | Some nd => exists nd', nodes_of st' !! n = Some nd' /\ node_with (f n nd.(corev1.Node_Taints)) nd nd'
    end.

(** The same, and no policy changed. *)
Definition edited (f : string -> list corev1.Taint -> list corev1.Taint) st st' : Prop :=
  valid st' /\ time_of st <= time_of st' /\ policies_of st' = policies_of st /\ nodes_edited f st st'.

(** ** Edits *)

Lemma edited_ext f g st st' : (forall n ts, f n ts = g n ts) -> edited f st st' -> edited g st st'.
Proof.
  intros Hfg (Hv & Ht & Hp & H). split_and!; try done. intros n. specialize (H n).
  destruct (nodes_of st !! n) as [nd|]; [|done]. by rewrite <- Hfg.
Qed.

Lemma edited_trans f g st st1 st2 :
  edited f st st1 -> edited g st1 st2 -> edited (fun n ts => g n (f n ts)) st st2.
Proof.
  intros (_ & Ht & Hp & H) (Hv & Ht' & Hp' & H'). split_and!; [done|lia|congruence|].
  intros n. specialize (H n). specialize (H' n). destruct (nodes_of st !! n) as [nd|].
  - destruct H as (nd1 & H1 & Hn & Hl & Hc & Hts). rewrite H1 in H'.
    destruct H' as (nd2 & H2 & Hn' & Hl' & Hc' & Hts'). exists nd2. split; [done|].
    rewrite <- Hts. split_and!; congruence.
  - by rewrite H in H'.
Qed.

Lemma untouched_edited st st' : untouched st st' -> edited (fun _ ts => ts) st st'.
Proof.
  intros (Hv & Ht & Hn & Hp). split_and!; try done. intros n. rewrite Hn.
  by destruct (nodes_of st !! n) as [nd|]; [exists nd|].
Qed.

Lemma untouched_trans st st1 st2 : untouched st st1 -> untouched st1 st2 -> untouched st st2.
Proof. intros (? & ? & ? & ?) (? & ? & ? & ?). split_and!; [done|lia|congruence|congruence]. Qed.

Lemma edited_untouched f st st1 st2 : edited f st st1 -> untouched st1 st2 -> edited f st st2.
Proof. intros H H'%untouched_edited. exact (edited_trans _ _ _ _ _ H H'). Qed.

Lemma edited_node f st st' n nd :
  edited f st st' -> nodes_of st !! n = Some nd -> is_Some (nodes_of st' !! n).
Proof. intros (_ & _ & _ & H) Hn. specialize (H n). rewrite Hn in H. destruct H as (nd' & -> & _). by eexists. Qed.

Lemma edited_valid f st st' : edited f st st' -> valid st'.
Proof. by intros [? _]. Qed.

(** ** Read-only programs *)

Lemma read_untouched c st x st1 :
  valid st -> h c st = (x, st1) -> is_read_only c = true -> untouched st st1.
Proof.
  intros Hv Hc Hr. destruct (serve_read_only c st x st1 Hc Hr).
  split_and!; [by eapply serve_valid|by eapply serve_time|done|done].
Qed.

Lemma follows_read_only st tr st' :
  valid st -> follows h st tr st' -> Forall (fun e => is_read_only e.(ev_call)) tr -> untouched st st'.
Proof.
  revert st. induction tr as [|[c x] tr IH]; intros st Hv Hf Hr.
  - simpl in Hf. subst. split_and!; [done|lia|done|done].
  - destruct Hf as (st1 & Hc & Hf). apply Forall_cons in Hr as [Hc' Hr].
    apply (untouched_trans st st1).
    + eapply read_untouched; [done|exact Hc|by apply Is_true_true].
    + apply IH; [by eapply serve_valid|done|done].
Qed.

Lemma quiet_read_only tr : quiet tr -> Forall (fun e => is_read_only e.(ev_call)) tr.
Proof. intros Hq. eapply Forall_impl; [exact Hq|]. intros [c x] Hc. by destruct c. Qed.

Lemma recordTaintAction_read_only node policy reason pure nodeName tr u :
  exec (recordTaintAction node policy reason pure nodeName) tr u ->
  Forall (fun e => is_read_only e.(ev_call)) tr.
Proof.
  unfold recordTaintAction. intros H.
  destruct (decide (reason = reasonTaintRemoved)), node as [nd|];
    apply exec_bind in H as (tr1 & ? & tr2 & -> & H1 & H2); exec_inv; by repeat constructor.
Qed.

(** ** One taint operation *)

Lemma patchAttempt_run n mutate b st tr st' changed err nd :
  exec (patchAttempt n mutate b) tr (changed, err) -> follows h st tr st' ->
  valid st -> nodes_of st !! n = Some nd ->
  err = None /\ edited (fun m ts => if decide (m = n) then mutated mutate ts else ts) st st'.
Proof.
  intros Hexec Hf Hv Hn. assert (nd.(corev1.Node_Name) = n) as Hname by (by eapply valid_node_name).
  assert (forall x st1, h (ReaderGetNode n) st = (x, st1) -> x = inr nd /\ untouched st st1) as Hget.
  { intros x st1 H. pose proof (serve_ReaderGetNode n st x st1 H) as Hx. rewrite Hn in Hx.
    split; [done|]. by eapply read_untouched. }
  apply patchAttempt_cases in Hexec
    as [(e & -> & _)|[(o & -> & Hm & -> & ->)|(o & u & r & -> & Hm & -> & _)]].
  - destruct Hf as (st1 & H & _). by destruct (Hget _ _ H).
  - destruct Hf as (st1 & H & Hst). simpl in Hst. subst st1. destruct (Hget _ _ H) as [[= ->] Hu].
    split; [done|]. eapply edited_untouched; [|exact Hu]. split_and!; [done|lia|done|].
    intros m. destruct (nodes_of st !! m) as [x|] eqn:Hx; [|done]. exists x. split; [done|].
    split_and!; try done. case_decide; [|done]. simplify_eq. unfold mutated.
    by destruct (mutate _) as [? []].
  - destruct Hf as (st1 & H & st2 & H2 & Hst). simpl in Hst. subst st2.
    destruct (Hget _ _ H) as [[= ->] (Hv1 & Ht1 & Hn1 & Hp1)].
    pose proof (serve_PatchNode _ _ _ _ _ H2) as (-> & Hp2 & nd' & Hnd & Hn2);
      [by rewrite Hn1, Hname|]. split; [done|].
    split_and!; [by eapply serve_valid| |congruence|].
    { pose proof (serve_time _ _ _ _ H2). lia. }
    intros m. rewrite Hn2, Hn1, Hname. destruct (decide (m = n)) as [->|Hne].
    + rewrite Hn, lookup_insert_eq. exists nd'. split; [done|].
      destruct Hnd as (? & ? & ? & Hts). split_and!; try done. unfold mutated. by rewrite Hm, Hts.
    + rewrite lookup_insert_ne by done. destruct (nodes_of st !! m) as [x|]; [|done].
      exists x. by split_and!.
Qed.

Lemma patchTaintList_run n mutate st tr st' changed err nd :
  exec (patchTaintList n mutate) tr (changed, err) -> follows h st tr st' ->
  valid st -> nodes_of st !! n = Some nd ->
  err = None /\ edited (fun m ts => if decide (m = n) then mutated mutate ts else ts) st st'.
Proof.
  unfold patchTaintList. intros Hexec%RetryOnConflict_attempts Hf Hv Hn; [|simpl; lia].
  destruct Hexec as [k b tr s' e H _|b tr s' e H _|k b tr1 s1 e tr2 s' e' H _ _].
  - by eapply patchAttempt_run.
  - by eapply patchAttempt_run.
  - apply follows_app in Hf as (st1 & Hf & _).
    by destruct (patchAttempt_run _ _ _ _ _ _ _ _ _ H Hf Hv Hn).
Qed.

Definition ensured (t : remediation.Taint) (ts : list corev1.Taint) : list corev1.Taint :=
  if hasKey ts t.(remediation.Taint_Key) then ts else ts ++ [newTaint t].

Lemma foreign_id key ts : hasKey ts key = false -> foreign key ts = ts.
Proof.
  induction ts as [|t ts IH]; [done|]. simpl. unfold foreign in *. rewrite filter_cons.
  case_decide; [done|]. intros ?. rewrite decide_True by done. by rewrite IH.
Qed.

Lemma mutated_addTaint t ts : mutated (addTaint t) ts = ensured t ts.
Proof. unfold mutated, addTaint, ensured. by destruct (hasKey _ _). Qed.

Lemma mutated_dropTaint key ts : mutated (dropTaint key) ts = foreign key ts.
Proof.
  unfold mutated. destruct (dropTaint key ts) as [u []] eqn:H.
  - by apply dropTaint_spec in H as [_ ->].
  - symmetry. apply foreign_id. apply dropTaint_noop. by rewrite H.
Qed.

Lemma ensured_idem t ts : ensured t (ensured t ts) = ensured t ts.
Proof.
  unfold ensured. destruct (hasKey ts _) eqn:H; [by rewrite H|].
  rewrite hasKey_app, H. simpl. by rewrite decide_True.
Qed.

(** ** The loops *)

(** A loop body that edits the node its element names, if any, and collects no error. *)
Definition edits_named {S B} (name : B -> option string) (body : S -> B -> prog S)
    (g : list corev1.Taint -> list corev1.Taint) : Prop :=
  forall s x tr s' st st', exec (body s x) tr s' -> follows h st tr st' -> valid st ->
    (forall n, name x = Some n -> is_Some (nodes_of st !! n)) ->
    s' = s /\ edited (fun m ts => if decide (name x = Some m) then g ts else ts) st st'.

Lemma forEach_edits {S B} (name : B -> option string) (body : S -> B -> prog S) g l s tr s' st st' :
  edits_named name body g -> (forall ts, g (g ts) = g ts) ->
  exec (forEach body s l) tr s' -> follows h st tr st' -> valid st ->
  Forall (fun n => is_Some (nodes_of st !! n)) (omap name l) ->
  s' = s /\ edited (fun m ts => if decide (m ∈ omap name l) then g ts else ts) st st'.
Proof.
  intros Hb Hg. revert s tr st. induction l as [|x l IH]; intros s tr st H Hf Hv Hn.
  - destruct H as [-> <-]. simpl in Hf. subst. split; [done|].
    eapply edited_ext; [|apply untouched_edited; by split_and!].
    intros m ts. by rewrite decide_False by apply not_elem_of_nil.
  - apply exec_forEach_cons in H as (tr1 & s1 & tr2 & -> & H1 & H2).
    apply follows_app in Hf as (st1 & Hf1 & Hf2). rewrite Forall_forall in Hn.
    assert (forall m, m ∈ omap name (x :: l) <-> name x = Some m \/ m ∈ omap name l) as Hin.
    { intros m. rewrite !list_elem_of_omap. setoid_rewrite elem_of_cons. naive_solver. }
    destruct (Hb _ _ _ _ _ _ H1 Hf1 Hv) as [-> He1]; [intros n Hx; apply Hn, Hin; by left|].
    destruct (IH _ _ _ H2 Hf2) as [-> He2]; [by eapply edited_valid| |].
    { apply Forall_forall. intros m Hm. destruct (Hn m) as [nd Hnd]; [apply Hin; by right|].
      by eapply edited_node. }
    split; [done|]. eapply edited_ext; [|exact (edited_trans _ _ _ _ _ He1 He2)].
    intros m ts. cbv beta. destruct (decide (name x = Some m)), (decide (m ∈ omap name l));
      (rewrite decide_True by (apply Hin; tauto)) || (rewrite decide_False by (rewrite Hin; tauto)); done.
Qed.

Lemma omap_Some {B} (l : list B) : omap Some l = l.
Proof. induction l as [|x l IH]; [done|]. exact (f_equal (cons x) IH). Qed.

Lemma changed_tail_untouched l node policy reason pure name (errs : list error) tr errs' st st' :
  reason = reasonTaintApplied \/ reason = reasonTaintRemoved ->
  exec (call (Log l) ;; recordTaintAction node policy reason pure name ;; mret errs) tr errs' ->
  follows h st tr st' -> valid st -> errs' = errs /\ untouched st st'.
Proof.
  intros Hr H Hf Hv. apply changed_tail in H as (-> & l' & nd & p & rs & pu & u & tr3 & -> & _ & H3);
    [|done].
  split; [done|]. apply (follows_read_only st ([Ev (Log l') tt] ++ tr3) st' Hv Hf).
  apply Forall_app. split; [by repeat constructor|]. by eapply recordTaintAction_read_only.
Qed.

(** The end of the three loop bodies, after an operation that succeeded. *)
Lemma operation_edits (changed : bool) l node policy reason pure name (errs : list error) (g : mutation)
    f tr errs' st st1 st' :
  reason = reasonTaintApplied \/ reason = reasonTaintRemoved ->
  exec (if changed then call (Log l) ;; recordTaintAction node policy reason pure name ;; mret errs
        else mret errs) tr errs' ->
  follows h st1 tr st' ->
  edited (fun m ts => if decide (m = name) then mutated g ts else ts) st st1 ->
  (forall ts, mutated g ts = f ts) ->
  errs' = errs /\ edited (fun m ts => if decide (Some name = Some m) then f ts else ts) st st'.
Proof.
  intros Hr H Hf He Hg. assert (errs' = errs /\ untouched st1 st') as [-> Hu].
  { destruct changed.
    - eapply changed_tail_untouched; [exact Hr|exact H|done|by eapply edited_valid].
    - destruct H as [-> <-]. simpl in Hf. subst. split; [done|].
      split_and!; [by eapply edited_valid|lia|done|done]. }
  split; [done|]. eapply edited_ext; [|eapply edited_untouched; [exact He|exact Hu]].
  intros m ts. cbv beta. rewrite Hg. repeat case_decide; congruence.
Qed.

Lemma if_negb {B} (b : bool) (x y : B) : (if negb b then x else y) = if b then y else x.
Proof. by destruct b. Qed.

Lemma applyNode_edits policy pure byName :
  edits_named Some (applyNode policy pure byName) (ensured pure.(remediation.Policy_Taint)).
Proof.
  intros errs n tr errs' st st' H Hf Hv Hn. destruct (Hn n) as [nd Hnd]; [done|]. unfold applyNode in H.
  apply exec_bind in H as (tr1 & [changed err] & tr2 & -> & H1 & H2).
  apply follows_app in Hf as (st1 & Hf1 & Hf2). apply EnsureTaint_exec in H1 as (err' & H1 & ->).
  destruct (patchTaintList_run _ _ _ _ _ _ _ _ H1 Hf1 Hv Hnd) as [-> He]. cbn [fmap option_fmap option_map] in H2.
  rewrite if_negb in H2. eapply operation_edits; [|exact H2|exact Hf2|exact He|apply mutated_addTaint]. by left.
Qed.

Lemma removeNode_edits policy pure byName :
  edits_named Some (removeNode policy pure byName)
    (foreign pure.(remediation.Policy_Taint).(remediation.Taint_Key)).
Proof.
  intros errs n tr errs' st st' H Hf Hv Hn. destruct (Hn n) as [nd Hnd]; [done|]. unfold removeNode in H.
  apply exec_bind in H as (tr1 & [changed err] & tr2 & -> & H1 & H2).
  apply follows_app in Hf as (st1 & Hf1 & Hf2). apply RemoveTaint_exec in H1 as (err' & H1 & ->).
  destruct (patchTaintList_run _ _ _ _ _ _ _ _ H1 Hf1 Hv Hnd) as [-> He]. cbn [fmap option_fmap option_map] in H2.
  rewrite if_negb in H2. eapply operation_edits; [|exact H2|exact Hf2|exact He|apply mutated_dropTaint].
  by right.
Qed.

(** The node a cleanup iteration is about. *)
Definition cleanup_name (key : string) (nd : corev1.Node) : option string :=
  if hasTaintKey nd key then Some nd.(corev1.Node_Name) else None.

Lemma cleanupNode_edits policy pure :
  let key := pure.(remediation.Policy_Taint).(remediation.Taint_Key) in
  edits_named (cleanup_name key) (cleanupNode policy pure) (foreign key).
Proof.
  intros key errs nd tr errs' st st' H Hf Hv Hn. unfold cleanupNode in H. unfold cleanup_name in *.
  fold key in H. destruct (hasTaintKey nd key); cbn [negb] in H.
  - destruct (Hn nd.(corev1.Node_Name)) as [nd' Hnd]; [done|].
    apply exec_bind in H as (tr1 & [changed err] & tr2 & -> & H1 & H2).
    apply follows_app in Hf as (st1 & Hf1 & Hf2). apply RemoveTaint_exec in H1 as (err' & H1 & ->).
    destruct (patchTaintList_run _ _ _ _ _ _ _ _ H1 Hf1 Hv Hnd) as [-> He].
    cbn [fmap option_fmap option_map] in H2.
    eapply operation_edits; [|exact H2|exact Hf2|exact He|apply mutated_dropTaint]. by right.
  - destruct H as [-> <-]. simpl in Hf. subst. split; [done|].
    eapply edited_ext; [|apply untouched_edited; by split_and!]. intros m ts. by case_decide.
Qed.

(** ** The nodes of the cluster, as the core sees them *)

(** The cluster is small enough for the machine integers of the guard. *)
Definition fits (pure : remediation.Policy) st : Prop :=
  Z.of_nat (size (nodes_of st)) <= 2 ^ 32 /\ is_int32 pure.(remediation.Policy_MaxAffectedPercent).

(** A list of all nodes. *)
Definition all_nodes st (nodes : list corev1.Node) : Prop :=
  nodes ≡ₚ (map_to_list (nodes_of st)).*2.

Lemma elem_of_all_nodes st nodes nd :
  valid st -> all_nodes st nodes ->
  nd ∈ nodes <-> nodes_of st !! nd.(corev1.Node_Name) = Some nd.
Proof.
  intros Hv Ha. unfold all_nodes in Ha. rewrite Ha, list_elem_of_fmap. split.
  - intros ([n x] & -> & Hx%elem_of_map_to_list). simpl.
    by rewrite (valid_node_name st n x).
  - intros Hn. exists (nd.(corev1.Node_Name), nd). split; [done|]. by apply elem_of_map_to_list.
Qed.

Lemma all_nodes_in_bounds pure st nodes :
  fits pure st -> all_nodes st nodes -> in_bounds pure (observeNodes nodes pure).1.
Proof.
  intros [Hs Hp] Ha. split; [|done]. rewrite observeNodes_facts. unfold all_nodes, len in *.
  by rewrite length_fmap, Ha, length_fmap, length_map_to_list.
Qed.

Lemma all_nodes_distinct pure st nodes :
  valid st -> all_nodes st nodes -> distinct_names (observeNodes nodes pure).1.
Proof.
  intros Hv Ha. unfold distinct_names. rewrite observeNodes_facts, <- list_fmap_compose.
  unfold all_nodes in Ha. rewrite Ha, <- list_fmap_compose.
  assert ((fun kv : string * corev1.Node => (remediation.NodeFact_Name ∘ observeNode pure) kv.2)
            <$> map_to_list (nodes_of st) = (map_to_list (nodes_of st)).*1) as Heq.
  { apply list_fmap_ext. intros i [n x] Hx%list_elem_of_lookup_2%elem_of_map_to_list. simpl.
    by apply (valid_node_name st). }
  unfold compose in *. rewrite Heq. apply NoDup_fst_map_to_list.
Qed.

(** The names a decision acts on are nodes of the cluster. *)
Lemma decided_nodes pure st nodes now n :
  valid st -> fits pure st -> all_nodes st nodes ->
  let d := remediation.Decide pure (observeNodes nodes pure).1 now in
  n ∈ d.(remediation.Decision_ApplyTaint) ++ d.(remediation.Decision_RemoveTaint) ->
  is_Some (nodes_of st !! n).
Proof.
  intros Hv Hf Ha. simpl. rewrite Decide_closed by by eapply all_nodes_in_bounds. simpl.
  rewrite observeNodes_facts, !elem_of_app, !elem_of_scoped_names, elem_of_names. intros H.
  assert (exists fact, fact ∈ observeNode pure <$> nodes /\ fact.(remediation.NodeFact_Name) = n)
    as (fact & (nd & -> & Hnd)%list_elem_of_fmap & <-) by naive_solver.
  exists nd. by eapply elem_of_all_nodes.
Qed.

(** ** A pass *)

(** What the two loops do to a node's taints. *)
Definition acted (t : remediation.Taint) (d : remediation.Decision) (n : string)
    (ts : list corev1.Taint) : list corev1.Taint :=
  let ts := if decide (n ∈ d.(remediation.Decision_ApplyTaint)) then ensured t ts else ts in
  if decide (n ∈ d.(remediation.Decision_RemoveTaint)) then foreign t.(remediation.Taint_Key) ts else ts.

Lemma pass_run p pure tr p' res err st st' :
  exec (observeDecideAct p p) tr (p', res, err) -> follows h st tr st' -> valid st ->
  projectPolicy p = inr pure -> fits pure st ->
  exists nodes now stamp, all_nodes st nodes /\ time_of st <= now <= time_of st'
    /\ let d := remediation.Decide pure (observeNodes nodes pure).1 now in
       p' = (writeStatus stamp p d).1 /\ res = mkResult d.(remediation.Decision_RequeueAfter)
       /\ err = None /\ edited (acted pure.(remediation.Policy_Taint) d) st st'
       /\ (d.(remediation.Decision_ApplyTaint) = [] -> d.(remediation.Decision_RemoveTaint) = [] ->
           patches tr = []).
Proof.
  intros H Hf Hv Hp Hfit. unfold observeDecideAct in H. rewrite Hp in H.
  apply exec_bind in H as (tr1 & r & tr2 & -> & ->%exec_call & H).
  destruct Hf as (st1 & Hlist & Hf). destruct (serve_ListNodes st r st1 Hlist) as (nodes & -> & Ha).
  pose proof (read_untouched _ _ _ _ Hv Hlist eq_refl) as Hu1.
  destruct (observeNodes nodes pure) as [facts byName] eqn:Hobs.
  apply exec_bind in H as (tr3 & now & tr4 & -> & ->%exec_call & H).
  destruct Hf as (st2 & Hnow & Hf). change (follows h st2 tr4 st') in Hf. pose proof (serve_Now _ _ _ Hnow) as Hclock.
  assert (untouched st1 st2) as Hu2 by (eapply read_untouched; [apply Hu1|exact Hnow|done]).
  pose proof (untouched_trans _ _ _ Hu1 Hu2) as Hu.
  set (d := remediation.Decide pure facts now) in *. cbv zeta in H.
  assert (forall n, n ∈ d.(remediation.Decision_ApplyTaint) ++ d.(remediation.Decision_RemoveTaint) ->
            is_Some (nodes_of st !! n)) as Hnodes.
  { intros n Hn. apply (decided_nodes pure st nodes now n Hv Hfit Ha). by rewrite Hobs. }
  apply exec_bind in H as (trA & errsA & tr5 & -> & HA & H).
  apply follows_app in Hf as (st3 & HfA & Hf).
  destruct (forEach_edits Some _ _ _ _ _ _ _ _ (applyNode_edits p pure byName) (ensured_idem _) HA HfA)
    as [-> HeA]; [apply Hu2|rewrite omap_Some|].
  { apply Forall_forall. intros n Hn. destruct Hu as (_ & _ & -> & _). apply Hnodes, elem_of_app. by left. }
  apply exec_bind in H as (trR & errsR & tr6 & -> & HR & H).
  apply follows_app in Hf as (st4 & HfR & Hf).
  destruct (forEach_edits Some _ _ _ _ _ _ _ _ (removeNode_edits p pure byName) (foreign_idem _) HR HfR)
    as [-> HeR]; [by eapply edited_valid|rewrite omap_Some|].
  { apply Forall_forall. intros n Hn. assert (is_Some (nodes_of st2 !! n)) as [nd Hnd].
    { destruct Hu as (_ & _ & -> & _). apply Hnodes, elem_of_app. by right. }
    by eapply edited_node. }
  apply exec_bind in H as (tr7 & stamp & tr8 & -> & ->%exec_call & H).
  destruct (writeStatus stamp p d) as [pw dw] eqn:Hw.
  apply exec_bind in H as (trW & u & tr9 & -> & HW & H).
  apply exec_bind in H as (trH & u' & tr10 & -> & HH & H).
  apply warnGuard_quiet in HW as [HW _]. apply warnHeld_quiet in HH as [HH _].
  rewrite NewAggregate_spec in H. simpl in H. destruct H as [-> [= <- <- <-]].
  assert (untouched st4 st') as Hu4.
  { eapply follows_read_only; [by eapply edited_valid|exact Hf|].
    apply (Forall_app _ [_]). split; [by repeat constructor|].
    rewrite app_nil_r. apply quiet_read_only. by apply quiet_app. }
  pose proof (edited_untouched _ _ _ _ (edited_trans _ _ _ _ _ HeA HeR) Hu4) as He.
  rewrite !omap_Some in He. exists nodes, now, stamp. rewrite Hobs. split; [done|]. split.
  { destruct Hu1 as (_ & ? & _), He as (_ & ? & _). lia. }
  change (facts, byName).1 with facts. fold d. cbv zeta. rewrite Hw. split_and!; try done.
  - unfold writeStatus in Hw. by injection Hw as _ <-.
  - exact (edited_trans _ _ _ _ _ (untouched_edited _ _ Hu) He).
  - intros Happ Hrem. rewrite Happ in HA. rewrite Hrem in HR. destruct HA as [-> _], HR as [-> _].
    apply quiet_observations in HW as (HpW & _), HH as (HpH & _).
    change (patches (trW ++ trH ++ []) = []). by rewrite !patches_app, HpW, HpH.
Qed.

(** ** A request *)

(** The same policy up to its status and the resource version. *)
Definition same_policy (p p' : v1alpha1.NodeRemediationPolicy) : Prop :=
  p'.(v1alpha1.Spec) = p.(v1alpha1.Spec)
  /\ p'.(v1alpha1.ObjectMeta).(metav1.ObjectMeta_Name) = p.(v1alpha1.ObjectMeta).(metav1.ObjectMeta_Name)
  /\ p'.(v1alpha1.ObjectMeta).(metav1.ObjectMeta_Generation)
     = p.(v1alpha1.ObjectMeta).(metav1.ObjectMeta_Generation)
  /\ p'.(v1alpha1.ObjectMeta).(metav1.ObjectMeta_DeletionTimestamp)
     = p.(v1alpha1.ObjectMeta).(metav1.ObjectMeta_DeletionTimestamp).

Lemma statusWrite_run p p' tr err st st' :
  exec (deferredStatusWrite p p' None) tr err -> follows h st tr st' -> valid st ->
  policies_of st !! v1alpha1.Name p = Some p -> p' = v1alpha1.set_Status p p'.(v1alpha1.Status) ->
  err = None /\ valid st' /\ time_of st <= time_of st' /\ nodes_of st' = nodes_of st
  /\ exists p1, policies_of st' = <[v1alpha1.Name p := p1]> (policies_of st)
     /\ same_policy p p1 /\ contains p1 = contains p /\ p1.(v1alpha1.Status) = p'.(v1alpha1.Status).
Proof.
  intros H Hf Hv Hp Hframe.
  apply deferredStatusWrite_cases in H as [(-> & -> & Hd)|(_ & r & trl & -> & Hq & _ & Herr)].
  - simpl in Hf. subst st'. apply DeepEqual_spec in Hd. split_and!; try done.
    exists p. by rewrite insert_id.
  - destruct Hf as (st1 & Hpatch & Hf).
    destruct (serve_PatchPolicyStatus _ _ _ _ _ _ Hpatch Hp)
      as (-> & Hn & p1 & Hp1 & Hspec & Hst & Hname & Hgen & Hdel & Hfin).
    assert (untouched st1 st') as (Hv' & Ht' & Hn' & Hp').
    { eapply follows_read_only; [by eapply serve_valid|exact Hf|by apply quiet_read_only]. }
    pose proof (serve_time _ _ _ _ Hpatch). rewrite IgnoreNotFound_spec in Herr.
    split_and!; [done|done|lia|congruence|]. exists p1. rewrite Hp', Hp1.
    split_and!; try done. unfold contains. by rewrite Hfin.
Qed.

Lemma ensureFinalizer_run p tr f st st' :
  exec (ensureFinalizer p) tr f -> follows h st tr st' -> valid st ->
  policies_of st !! v1alpha1.Name p = Some p ->
  p.(v1alpha1.ObjectMeta).(metav1.ObjectMeta_DeletionTimestamp) = None ->
  valid st' /\ time_of st <= time_of st' /\ nodes_of st' = nodes_of st
  /\ (contains p = true -> tr = [])
  /\ exists p1, f = inr p1 /\ policies_of st' = <[v1alpha1.Name p := p1]> (policies_of st)
     /\ same_policy p p1 /\ contains p1 = true /\ p1.(v1alpha1.Status) = p.(v1alpha1.Status).
Proof.
  intros H Hf Hv Hp Hlive. unfold ensureFinalizer in H. destruct (contains p) eqn:Hc; simpl in H.
  - destruct H as [-> <-]. simpl in Hf. subst st'. split_and!; try done.
    exists p. by rewrite insert_id.
  - destruct H as (r & tr' & -> & H). destruct Hf as (st1 & Hup & Hf).
    destruct (serve_UpdatePolicy _ _ _ _ _ Hup Hp) as (Hn & p1 & -> & Hspec & Hst & Hname & Hgen & Hdel & Hfin & Hp1);
      [done|done|].
    destruct H as [-> <-]. simpl in Hf. subst st'. pose proof (serve_time _ _ _ _ Hup).
    split_and!; [by eapply serve_valid|done|done|done|]. exists p1. rewrite Hp1, bool_decide_eq_false_2.
    2:{ rewrite Hlive. tauto. }
    split_and!; try done. unfold contains. rewrite Hfin. apply ContainsFinalizer_spec. simpl.
    apply AddFinalizer_elem. by right.
Qed.

(** The projection depends on the spec alone. *)
Lemma projectPolicy_spec p q pure :
  q.(v1alpha1.Spec) = p.(v1alpha1.Spec) -> projectPolicy p = inr pure -> projectPolicy q = inr pure.
Proof.
  unfold projectPolicy, nodeSelector. intros ->. by destruct (match v1alpha1.Spec_NodeSelector _ with
    None => _ | Some _ => _ end).
Qed.

(** A reconcile of a live policy with a valid spec. *)
Lemma live_run name p0 pure tr res err st st' :
  exec (Reconcile name) tr (res, err) -> follows h st tr st' -> valid st ->
  policies_of st !! name = Some p0 ->
  p0.(v1alpha1.ObjectMeta).(metav1.ObjectMeta_DeletionTimestamp) = None ->
  projectPolicy p0 = inr pure -> fits pure st ->
  valid st' /\ err = None /\
  exists nodes now stamp p p', all_nodes st nodes /\ time_of st <= now <= time_of st'
    /\ same_policy p0 p /\ p.(v1alpha1.Status) = p0.(v1alpha1.Status)
    /\ let d := remediation.Decide pure (observeNodes nodes pure).1 now in
       let s := (writeStatus stamp p d).1.(v1alpha1.Status) in
       res = mkResult d.(remediation.Decision_RequeueAfter)
       /\ nodes_edited (acted pure.(remediation.Policy_Taint) d) st st'
       /\ policies_of st' = <[name := p']> (policies_of st)
       /\ same_policy p0 p' /\ contains p' = true /\ p'.(v1alpha1.Status) = s
       /\ (contains p0 = true -> d.(remediation.Decision_ApplyTaint) = [] ->
           d.(remediation.Decision_RemoveTaint) = [] ->
           patches tr = [] /\ updates tr = [] /\ (s = p0.(v1alpha1.Status) -> status_patches tr = [])).
Proof.
  intros H Hf Hv Hp0 Hlive Hpure Hfit. unfold Reconcile in H.
  assert (v1alpha1.Name p0 = name) as Hname by (by eapply valid_policy_name).
  apply exec_bind in H as (tr1 & r & tr2 & -> & ->%exec_call & H).
  destruct Hf as (st1 & Hget & Hf). pose proof (serve_GetPolicy _ _ _ _ Hget) as Hr.
  rewrite Hp0 in Hr. subst r. change (follows h st1 tr2 st') in Hf.
  assert (untouched st st1) as (Hv1 & Ht1 & Hn1 & Hp1).
  { by eapply read_untouched. }
  rewrite Time_IsZero_spec, Hlive in H.
  apply exec_bind in H as (trF & f & tr3 & -> & HF & H). apply follows_app in Hf as (st2 & HfF & Hf).
  destruct (ensureFinalizer_run _ _ _ _ _ HF HfF) as (Hv2 & Ht2 & Hn2 & HtrF & p & -> & Hp2 & Hsame & Hcont & Hst);
    [done|by rewrite Hp1, Hname|done|].
  apply exec_bind in H as (trP & [[pw res1] err1] & tr4 & -> & HP & H).
  apply follows_app in Hf as (st3 & HfP & Hf).
  apply exec_bind in H as (trS & err2 & tr5 & -> & HS & [-> [= <- <-]]). rewrite app_nil_r in *.
  pose proof Hsame as (Hspec & Hpname & _).
  pose proof (observed_trace _ _ _ _ _ (observeDecideAct_cases _ _ _ _ _ HP)) as ((_ & _ & HuP & HsP) & _ & Hframe).
  destruct (pass_run p pure trP pw res1 err1 st2 st3 HP HfP Hv2) as (nodes & now & stamp & Ha & Hnow & Hd).
  { by apply (projectPolicy_spec p0 p). }
  { unfold fits in *. by rewrite Hn2, Hn1. }
  cbv zeta in Hd. destruct Hd as (Hpw & -> & -> & (Hv3 & Ht3 & Hp3 & Hed) & Hidle).
  assert (v1alpha1.Name p = name) as HnameP by (unfold v1alpha1.Name in *; congruence).
  destruct (statusWrite_run p pw trS err2 st3 st' HS Hf Hv3)
    as (-> & Hv4 & Ht4 & Hn4 & p' & Hp4 & Hsame' & Hcont' & Hst'); [|done|].
  { by rewrite Hp3, Hp2, HnameP, Hname, lookup_insert_eq. }
  split; [done|]. split; [done|]. exists nodes, now, stamp, p, p'.
  unfold all_nodes in *. rewrite Hn2, Hn1 in Ha. split; [done|]. split; [lia|]. split; [done|].
  split; [done|]. rewrite <- Hpw. split_and!; [done| | | | | |].
  - unfold nodes_edited in *. rewrite Hn4. by rewrite Hn2, Hn1 in Hed.
  - rewrite Hp4, Hp3, Hp2, HnameP, Hname, Hp1. by rewrite insert_insert_eq.
  - destruct Hsame as (? & ? & ? & ?), Hsame' as (? & ? & ? & ?). split_and!; congruence.
  - by rewrite Hcont'.
  - done.
  - intros Hc Happ Hrem. rewrite (HtrF Hc). specialize (Hidle Happ Hrem).
    pose proof (deferredStatusWrite_idle p pw None trS None HS) as (HpS & _ & HuS & _).
    change (patches (trP ++ trS) = [] /\ updates (trP ++ trS) = []
            /\ (v1alpha1.Status pw = v1alpha1.Status p0 -> status_patches (trP ++ trS) = [])).
    rewrite patches_app, updates_app, status_patches_app, Hidle, HuP, HsP, HpS, HuS.
    split_and!; try done. intros Heq.
    apply deferredStatusWrite_cases in HS as [(-> & _)|(Hd & _)]; [done|].
    rewrite (proj2 (DeepEqual_spec _ _)) in Hd; [done|]. by rewrite Hst.
Qed.

(** ** Deletion *)

(** The cleanup takes the key off every node. *)
Lemma cleanupTaints_run p t tr err st st' :
  exec (cleanupTaints p) tr err -> follows h st tr st' -> valid st ->
  p.(v1alpha1.Spec).(v1alpha1.Spec_Remediations).(v1alpha1.Remediations_Taint) = Some t ->
  err = None /\ edited (fun _ ts => foreign t.(corev1.Taint_Key) ts) st st'.
Proof.
  intros H Hf Hv Ht. unfold cleanupTaints in H. rewrite Ht in H.
  apply exec_bind in H as (tr1 & r & tr2 & -> & ->%exec_call & H).
  destruct Hf as (st1 & Hlist & Hf). change (follows h st1 tr2 st') in Hf.
  destruct (serve_ReaderListNodes st r st1 Hlist) as (nodes & -> & Ha).
  destruct (serve_read_only _ _ _ _ Hlist) as [Hn1 Hp1]; [done|].
  pose proof (read_untouched _ _ _ _ Hv Hlist eq_refl) as Hu1.
  apply exec_bind in H as (tr3 & errs & tr4 & -> & HC & [-> <-]). rewrite app_nil_r in Hf.
  set (pure := remediation.mkPolicy _ _ _ _ _ _ _) in HC.
  assert (forall n, n ∈ omap (cleanup_name t.(corev1.Taint_Key)) nodes <->
            exists nd, nodes_of st !! n = Some nd /\ hasTaintKey nd t.(corev1.Taint_Key) = true) as Hnames.
  { intros n. rewrite list_elem_of_omap. unfold cleanup_name. split.
    - intros (nd & Hnd & Hk). destruct (hasTaintKey nd _) eqn:Hkey; [|done]. injection Hk as <-.
      exists nd. split; [|done]. by apply (elem_of_all_nodes st nodes).
    - intros (nd & Hnd & Hk). exists nd. assert (nd.(corev1.Node_Name) = n) as <-
        by by apply (valid_node_name st). rewrite Hk. split; [|done].
      by apply (elem_of_all_nodes st nodes). }
  destruct (forEach_edits _ _ _ _ _ _ _ _ _ (cleanupNode_edits p pure) (foreign_idem _) HC Hf)
    as [-> He]; [apply Hu1| |].
  { apply Forall_forall. intros n (nd & Hnd & _)%Hnames. rewrite Hn1. by eexists. }
  split; [by rewrite NewAggregate_spec|].
  pose proof (edited_trans _ _ _ _ _ (untouched_edited _ _ Hu1) He) as (Hv' & Ht' & Hp' & Hed).
  split_and!; try done. intros n. specialize (Hed n). destruct (nodes_of st !! n) as [nd|] eqn:Hnd; [|done].
  destruct Hed as (nd' & Hnd' & Hw). exists nd'. split; [done|].
  cbv beta in Hw. case_decide as Hin; [exact Hw|]. rewrite foreign_id; [exact Hw|].
  apply not_true_is_false. intros Hk. apply Hin, Hnames. exists nd. split; [done|exact Hk].
Qed.

Lemma RemoveFinalizer_last f : RemoveFinalizer [f] f = [].
Proof.
  destruct (RemoveFinalizer [f] f) as [|g l] eqn:E; [done|].
  assert (g ∈ RemoveFinalizer [f] f) as Hg by (rewrite E; by left).
  apply RemoveFinalizer_elem in Hg as [->%list_elem_of_singleton Hg]. done.
Qed.

End cluster.
