(* ===== verification/ConvergenceTheorems.v ===== *)
(** The controller against a cluster that answers as documented: what one reconcile leaves behind,
    that repeated reconciles come to rest, and that a deleted policy leaves nothing. *)

From S2P Require Import Prelude GoTime Types K8sLib PolicyApi Remediation DecideSpec Fixtures.
From S2P Require Import DecideProps Predicate Project ProjectProps Effects Cluster Taint Reconcile.
From S2P Require Import Scenarios ReconcileProps ReconcileShape ConvergenceProps.
Import project taint reconcile.

Section lemmas.
Context `{K : K8s} `{R : Retry} `{L : !K8sLaws K} `{RL : !RetryLaws K R}.
Context {St} (h : handler St) `{A : !ApiServer h} `{AL : !ApiServerLaws h A}.
Implicit Types (st : St) (pure : remediation.Policy).

Lemma projectPolicy_key p pure :
  projectPolicy p = inr pure -> pure.(remediation.Policy_Taint).(remediation.Taint_Key) = policy_key p.
Proof. unfold policy_key. by intros ->%projectPolicy_taint. Qed.

(** No name is both to be tainted and to be cleared. *)
Lemma decided_disjoint pure facts now n :
  in_bounds pure facts -> distinct_names facts ->
  let d := remediation.Decide pure facts now in
  n ∈ d.(remediation.Decision_ApplyTaint) -> n ∉ d.(remediation.Decision_RemoveTaint).
Proof.
  intros Hb Hd. simpl. rewrite Decide_closed by done. simpl. intros Ha [Hl|Hr]%elem_of_app.
  - exact (left_scope_disjoint pure _ facts Hd n Hl Ha).
  - revert n Ha Hr. apply names_disjoint; [by apply distinct_scoped|].
    intros f. unfold applies, removes, pending, recovering, cleared.
    by destruct (matching pure f), (tainted f).
Qed.

Lemma ensured_hasKey t ts : hasKey (ensured t ts) t.(remediation.Taint_Key) = true.
Proof.
  unfold ensured. destruct (hasKey ts _) eqn:H; [done|]. rewrite hasKey_app. simpl.
  by rewrite decide_True, orb_true_r.
Qed.

Lemma foreign_hasKey key ts : hasKey (foreign key ts) key = false.
Proof. by rewrite hasKey_foreign, bool_decide_eq_true_2, andb_false_r. Qed.

Lemma foreign_ensured t ts :
  foreign t.(remediation.Taint_Key) (ensured t ts) = foreign t.(remediation.Taint_Key) ts.
Proof. unfold ensured. destruct (hasKey _ _); [done|apply foreign_addTaint]. Qed.

Lemma foreign_acted t d n ts :
  foreign t.(remediation.Taint_Key) (acted t d n ts) = foreign t.(remediation.Taint_Key) ts.
Proof.
  unfold acted. repeat case_decide; by rewrite ?foreign_idem, ?foreign_ensured.
Qed.

(** The edited node, as the core observes it, is the enacted node. *)
Lemma acted_observed pure facts now nd nd' :
  in_bounds pure facts -> distinct_names facts ->
  let d := remediation.Decide pure facts now in
  node_with (acted pure.(remediation.Policy_Taint) d nd.(corev1.Node_Name) nd.(corev1.Node_Taints)) nd nd' ->
  observeNode pure nd' = enact_node d (observeNode pure nd).
Proof.
  intros Hb Hd d (Hn & Hl & Hc & Ht). unfold observeNode, hasTaintKey. rewrite Hn, Hl, Hc, Ht.
  unfold enact_node, acted. cbn [remediation.NodeFact_Name].
  destruct (decide (_ ∈ remediation.Decision_ApplyTaint d)) as [Ha|Ha].
  - rewrite decide_False by by eapply decided_disjoint. by rewrite ensured_hasKey.
  - case_decide; [|done]. by rewrite foreign_hasKey.
Qed.

(** The facts of the cluster after the edits are the enacted facts. *)
Lemma acted_facts pure st st' nodes nodes' now :
  valid st -> valid st' -> fits h pure st -> all_nodes h st nodes -> all_nodes h st' nodes' ->
  let d := remediation.Decide pure (observeNodes nodes pure).1 now in
  nodes_edited h (acted pure.(remediation.Policy_Taint) d) st st' ->
  (observeNodes nodes' pure).1 ≡ₚ enact d (observeNodes nodes pure).1.
Proof.
  intros Hv Hv' Hfit Ha Ha' d He.
  pose proof (all_nodes_in_bounds h pure st nodes Hfit Ha) as Hb.
  pose proof (all_nodes_distinct h pure st nodes Hv Ha) as Hd.
  apply NoDup_Permutation.
  - apply (NoDup_fmap_1 remediation.NodeFact_Name), (all_nodes_distinct h pure st' nodes' Hv' Ha').
  - apply (NoDup_fmap_1 remediation.NodeFact_Name). unfold enact. rewrite <- list_fmap_compose.
    erewrite list_fmap_ext; [exact Hd|]. intros i f _. apply enact_node_name.
  - intros f. rewrite observeNodes_facts. unfold enact. rewrite observeNodes_facts, !list_elem_of_fmap. split.
    + intros (nd' & -> & Hnd'). apply (elem_of_all_nodes h st' nodes') in Hnd'; [|done..].
      specialize (He nd'.(corev1.Node_Name)).
      destruct (nodes_of st !! nd'.(corev1.Node_Name)) as [nd|] eqn:Hnd; [|congruence].
      destruct He as (nd1 & Hnd1 & Hw). assert (nd1 = nd') as -> by congruence.
      assert (nd.(corev1.Node_Name) = nd'.(corev1.Node_Name)) as Hname by by apply (valid_node_name st).
      rewrite <- Hname in Hw. exists (observeNode pure nd). split.
      * by apply (acted_observed pure (observeNodes nodes pure).1 now nd nd').
      * apply list_elem_of_fmap_2. apply (elem_of_all_nodes h st nodes); [done|done|].
        by rewrite Hname.
    + intros (fact & -> & (nd & -> & Hnd)%list_elem_of_fmap).
      apply (elem_of_all_nodes h st nodes) in Hnd; [|done..].
      specialize (He nd.(corev1.Node_Name)). rewrite Hnd in He. destruct He as (nd' & Hnd' & Hw).
      exists nd'. split; [symmetry; by apply (acted_observed pure (observeNodes nodes pure).1 now nd nd')|].
      apply (elem_of_all_nodes h st' nodes'); [done|done|].
      destruct Hw as (-> & _). done.
Qed.

Lemma nodes_edited_fits f pure st st' : fits h pure st -> nodes_edited h f st st' -> fits h pure st'.
Proof.
  intros [Hs Hp] He. split; [|done]. assert (dom (nodes_of st') = dom (nodes_of st)) as Hdom.
  { apply set_eq. intros n. rewrite !elem_of_dom. specialize (He n).
    destruct (nodes_of st !! n); [destruct He as (nd' & -> & _)|rewrite He]; split; done || by eexists. }
  by rewrite <- (size_dom (D := gset string)), Hdom, (size_dom (D := gset string)).
Qed.

(** A decision with nothing to do leaves the facts as they are. *)
Lemma enact_idle d facts :
  d.(remediation.Decision_ApplyTaint) = [] -> d.(remediation.Decision_RemoveTaint) = [] ->
  enact d facts = facts.
Proof.
  intros Ha Hr. unfold enact. rewrite <- (list_fmap_id facts) at 2. apply list_fmap_ext.
  intros i f _. unfold enact_node. rewrite Ha, Hr. by rewrite !decide_False by apply not_elem_of_nil.
Qed.

(** The published status depends on the decision and on the status and generation before. *)
Lemma writeStatus_status now p q d :
  p.(v1alpha1.Status) = q.(v1alpha1.Status) ->
  p.(v1alpha1.ObjectMeta).(metav1.ObjectMeta_Generation)
  = q.(v1alpha1.ObjectMeta).(metav1.ObjectMeta_Generation) ->
  (writeStatus now p d).1.(v1alpha1.Status) = (writeStatus now q d).1.(v1alpha1.Status).
Proof.
  intros Hs Hg. unfold writeStatus. simpl. rewrite !markDecision_eq.
  unfold status.setRemediatingCondition. simpl. by rewrite Hs, Hg.
Qed.

(** What a reconcile of a live policy with a valid spec needs of the cluster, and leaves. *)
Definition ready (name : string) (p : v1alpha1.NodeRemediationPolicy) pure st : Prop :=
  valid st /\ policies_of st !! name = Some p
  /\ p.(v1alpha1.ObjectMeta).(metav1.ObjectMeta_DeletionTimestamp) = None
  /\ projectPolicy p = inr pure /\ fits h pure st.

Lemma ready_kept name p p' pure f st st' :
  ready name p pure st -> valid st' -> nodes_edited h f st st' ->
  policies_of st' = <[name := p']> (policies_of st) -> same_policy p p' -> ready name p' pure st'.
Proof.
  intros (_ & _ & Hlive & Hpure & Hfit) Hv He Hpol (Hspec & _ & _ & Hdel). split_and!.
  - done.
  - by rewrite Hpol, lookup_insert_eq.
  - congruence.
  - by eapply projectPolicy_spec.
  - by eapply nodes_edited_fits.
Qed.

(** A reconcile at the same instant decides as over the enacted facts. *)
Lemma next_decision pure st st' nodes nodes' now :
  let d := remediation.Decide pure (observeNodes nodes pure).1 now in
  valid st -> valid st' -> fits h pure st -> all_nodes h st nodes ->
  nodes_edited h (acted pure.(remediation.Policy_Taint) d) st st' -> all_nodes h st' nodes' ->
  same_decision (remediation.Decide pure (observeNodes nodes' pure).1 now)
    (remediation.Decide pure (enact d (observeNodes nodes pure).1) now).
Proof.
  intros d Hv Hv' Hfit Ha He Ha'. apply Decide_perm.
  - eapply all_nodes_in_bounds; [by eapply nodes_edited_fits|done].
  - by apply (acted_facts pure st st' nodes nodes' now).
Qed.

Lemma same_decision_idle d d' :
  same_decision d' d -> d.(remediation.Decision_ApplyTaint) = [] ->
  d.(remediation.Decision_RemoveTaint) = [] ->
  d'.(remediation.Decision_ApplyTaint) = [] /\ d'.(remediation.Decision_RemoveTaint) = [].
Proof. intros (Ha & Hr & _) Ha0 Hr0. rewrite Ha0 in Ha. rewrite Hr0 in Hr. split; by apply Permutation_nil_r. Qed.

Lemma writes_nil tr : patches tr = [] -> updates tr = [] -> status_patches tr = [] -> writes tr = [].
Proof.
  induction tr as [|[c x] tr IH]; [done|]. unfold patches, updates, status_patches, writes in *.
  destruct c; simpl; rewrite ?filter_cons; simpl; try done; intros; auto.
Qed.

End lemmas.

(** ** Theorems *)
Section theorems.
Context `{K : K8s} `{R : Retry} `{L : !K8sLaws K} `{RL : !RetryLaws K R}.
Context {St} (h : handler St) `{A : !ApiServer h} `{AL : !ApiServerLaws h A}.
Implicit Types (st : St) (pure : remediation.Policy).

(** C2: one reconcile implements one decision.  On a cluster that answers as documented, reconciling
    a live policy with a valid spec succeeds and leaves the cluster as the decision over its nodes
    enacted: every node reads as the enacted node, its labels and conditions and the taints of every
    other key as they were; no node appears or goes; the policy has the finalizer and the status
    the decision projects to, with its spec and its other metadata; no other policy changes; and the
    requeue asked for is the decision's. *)
Theorem Reconcile_enacts_decision name p0 pure tr res err st st' :
  exec (Reconcile name) tr (res, err) -> follows h st tr st' -> valid st ->
  policies_of st !! name = Some p0 ->
  p0.(v1alpha1.ObjectMeta).(metav1.ObjectMeta_DeletionTimestamp) = None ->
  projectPolicy p0 = inr pure -> fits h pure st ->
  err = None /\ exists nodes now stamp p p', all_nodes h st nodes /\ time_of st <= now <= time_of st'
    /\ same_policy p0 p /\ p.(v1alpha1.Status) = p0.(v1alpha1.Status)
    /\ let d := remediation.Decide pure (observeNodes nodes pure).1 now in
       let key := policy_key p0 in
       res = mkResult d.(remediation.Decision_RequeueAfter)
       /\ (forall n, match nodes_of st !! n with
            | None => nodes_of st' !! n = None
            | Some nd => exists nd', nodes_of st' !! n = Some nd'
                /\ observeNode pure nd' = enact_node d (observeNode pure nd)
                /\ nd'.(corev1.Node_Conditions) = nd.(corev1.Node_Conditions)
                /\ foreign key nd'.(corev1.Node_Taints) = foreign key nd.(corev1.Node_Taints)
            end)
       /\ policies_of st' = <[name := p']> (policies_of st)
       /\ same_policy p0 p' /\ contains p' = true
       /\ p'.(v1alpha1.Status) = (writeStatus stamp p d).1.(v1alpha1.Status).
Proof.
  intros Hexec Hf Hv Hp0 Hlive Hpure Hfit.
  destruct (live_run h name p0 pure tr res err st st' Hexec Hf Hv Hp0 Hlive Hpure Hfit)
    as (_ & -> & nodes & now & stamp & p & p' & Ha & Hnow & Hsame & Hst & H).
  cbv zeta in H. destruct H as (-> & He & Hpol & Hsame' & Hc & Hst' & _).
  split; [done|]. exists nodes, now, stamp, p, p'. cbv zeta.
  do 4 (split; [done|]). split; [done|]. split; [|done].
  - intros n. specialize (He n). destruct (nodes_of st !! n) as [nd|] eqn:Hnd; [|done].
    destruct He as (nd' & Hnd' & Hw). exists nd'. split; [done|].
    assert (nd.(corev1.Node_Name) = n) as Hname by by apply (valid_node_name st).
    split_and!.
    + apply (acted_observed pure (observeNodes nodes pure).1 now nd nd').
      * by eapply all_nodes_in_bounds.
      * by eapply all_nodes_distinct.
      * by rewrite Hname.
    + by destruct Hw as (_ & _ & ? & _).
    + destruct Hw as (_ & _ & _ & ->). rewrite <- (projectPolicy_key p0 pure Hpure).
      apply foreign_acted.
Qed.

(** C3: the controller comes to rest.  Reconcile three times with no time passing: the second
    reconcile writes no node and asks for the same requeue as the first, and the third writes nothing
    at all.  Its own writes, which wake it again, die out. *)
Theorem Reconcile_comes_to_rest name p0 pure st st1 st2 st3 tr1 tr2 tr3 res1 res2 res3 err1 err2 err3 :
  valid st -> policies_of st !! name = Some p0 ->
  p0.(v1alpha1.ObjectMeta).(metav1.ObjectMeta_DeletionTimestamp) = None ->
  projectPolicy p0 = inr pure -> fits h pure st ->
  exec (Reconcile name) tr1 (res1, err1) -> follows h st tr1 st1 ->
  exec (Reconcile name) tr2 (res2, err2) -> follows h st1 tr2 st2 ->
  exec (Reconcile name) tr3 (res3, err3) -> follows h st2 tr3 st3 ->
  time_of st3 = time_of st ->
  patches tr2 = [] /\ updates tr2 = [] /\ res2 = res1 /\ writes tr3 = [] /\ res3 = res1
  /\ err1 = None /\ err2 = None /\ err3 = None.
Proof.
  intros Hv Hp0 Hlive Hpure Hfit Hx1 Hf1 Hx2 Hf2 Hx3 Hf3 Htime.
  assert (ready h name p0 pure st) as Hready by by split_and!.
  destruct (live_run h name p0 pure tr1 res1 err1 st st1 Hx1 Hf1 Hv Hp0 Hlive Hpure Hfit)
    as (Hv1 & -> & nodes1 & now1 & stamp1 & q1 & p1 & Ha1 & Ht1 & Hq1 & _ & H1).
  cbv zeta in H1. destruct H1 as (-> & He1 & Hpol1 & Hsame1 & Hc1 & _).
  pose proof (ready_kept h name p0 p1 pure _ st st1 Hready Hv1 He1 Hpol1 Hsame1) as Hready1.
  pose proof Hready1 as (_ & Hp1 & Hlive1 & Hpure1 & Hfit1).
  destruct (live_run h name p1 pure tr2 res2 err2 st1 st2 Hx2 Hf2 Hv1 Hp1 Hlive1 Hpure1 Hfit1)
    as (Hv2 & -> & nodes2 & now2 & stamp2 & q2 & p2 & Ha2 & Ht2 & Hq2 & Hqst2 & H2).
  cbv zeta in H2. destruct H2 as (-> & He2 & Hpol2 & Hsame2 & Hc2 & Hst2 & Hidle2).
  pose proof (ready_kept h name p1 p2 pure _ st1 st2 Hready1 Hv2 He2 Hpol2 Hsame2)
    as (_ & Hp2 & Hlive2 & Hpure2 & Hfit2).
  destruct (live_run h name p2 pure tr3 res3 err3 st2 st3 Hx3 Hf3 Hv2 Hp2 Hlive2 Hpure2 Hfit2)
    as (Hv3 & -> & nodes3 & now3 & stamp3 & q3 & p3 & Ha3 & Ht3 & Hq3 & Hqst3 & H3).
  cbv zeta in H3. destruct H3 as (-> & _ & _ & _ & _ & _ & Hidle3).
  assert (now2 = now1) as -> by lia. assert (now3 = now1) as -> by lia.
  pose proof (next_decision h pure st st1 nodes1 nodes2 now1 Hv Hv1 Hfit Ha1 He1 Ha2) as Hd2.
  pose proof (next_decision h pure st1 st2 nodes2 nodes3 now1 Hv1 Hv2 Hfit1 Ha2 He2 Ha3) as Hd3.
  destruct (enact_settles pure (observeNodes nodes1 pure).1 now1) as (Happ & Hrem & Hreq & _);
    [exact (all_nodes_in_bounds h pure st nodes1 Hfit Ha1)
    |exact (all_nodes_distinct h pure st nodes1 Hv Ha1)|].
  destruct (same_decision_idle _ _ Hd2 Happ Hrem) as [Ha' Hr'].
  rewrite enact_idle in Hd3 by done. destruct (same_decision_idle _ _ Hd3 Ha' Hr') as [Ha3' Hr3'].
  destruct (Hidle2 Hc1 Ha' Hr') as (HP2 & HU2 & _).
  destruct (Hidle3 Hc2 Ha3' Hr3') as (HP3 & HU3 & HS3).
  destruct Hd2 as (_ & _ & _ & Hq' & _). pose proof Hd3 as (_ & _ & _ & Hq3' & _).
  rewrite Hq3', Hq', Hreq. split_and!; try done. apply writes_nil; [done|done|]. apply HS3.
  set (d2 := remediation.Decide pure (observeNodes nodes2 pure).1 now1) in *.
  rewrite Hst2, (writeStatus_status stamp3 q3 (writeStatus stamp2 q2 d2).1).
  - f_equal. by apply writeStatus_same.
  - by rewrite Hqst3, Hst2.
  - rewrite (proj2 (writeStatus_frame stamp2 q2 d2)).
    destruct Hq2 as (_ & _ & Hg2 & _), Hq3 as (_ & _ & Hg3 & _).
    destruct Hsame2 as (_ & _ & Hgen2 & _). congruence.
Qed.

(** C8: a deleted policy leaves nothing behind.  On a cluster that answers as documented, one
    reconcile of a policy marked for deletion takes its taint key off every node, those it no longer
    selects included, keeps every taint of another key in its order, and lets the object go; the
    other policies stay as they are. *)
Theorem Reconcile_deletes_cleanly name p t deleted tr res err st st' :
  exec (Reconcile name) tr (res, err) -> follows h st tr st' -> valid st ->
  policies_of st !! name = Some p ->
  p.(v1alpha1.ObjectMeta).(metav1.ObjectMeta_DeletionTimestamp) = Some deleted ->
  time.IsZero deleted = false ->
  p.(v1alpha1.ObjectMeta).(metav1.ObjectMeta_Finalizers) = [taintCleanupFinalizer] ->
  p.(v1alpha1.Spec).(v1alpha1.Spec_Remediations).(v1alpha1.Remediations_Taint) = Some t ->
  err = None /\ res = noRequeue
  /\ policies_of st' = delete name (policies_of st)
  /\ (forall n, match nodes_of st !! n with
       | None => nodes_of st' !! n = None
       | Some nd => exists nd', nodes_of st' !! n = Some nd'
           /\ hasTaintKey nd' t.(corev1.Taint_Key) = false
           /\ nd'.(corev1.Node_Taints) = foreign t.(corev1.Taint_Key) nd.(corev1.Node_Taints)
           /\ nd'.(corev1.Node_Labels) = nd.(corev1.Node_Labels)
           /\ nd'.(corev1.Node_Conditions) = nd.(corev1.Node_Conditions)
       end).
Proof.
  intros H Hf Hv Hp Hdel Hz Hfin Ht. unfold Reconcile in H.
  assert (v1alpha1.Name p = name) as Hname by by apply (valid_policy_name st).
  apply exec_bind in H as (tr1 & r & tr2 & -> & ->%exec_call & H).
  destruct Hf as (st1 & Hget & Hf). change (follows h st1 tr2 st') in Hf.
  pose proof (serve_GetPolicy _ _ _ _ Hget) as Hr. rewrite Hp in Hr. subst r.
  destruct (serve_read_only _ _ _ _ Hget) as [Hn1 Hp1]; [done|].
  assert (valid st1) as Hv1 by by eapply serve_valid.
  rewrite Time_IsZero_spec, Hdel, Hz in H. unfold finalize in H.
  assert (contains p = true) as Hc.
  { unfold contains. apply ContainsFinalizer_spec. rewrite Hfin. by left. }
  rewrite Hc in H. apply exec_bind in H as (tr3 & e & tr4 & -> & HC & H).
  apply follows_app in Hf as (st2 & HfC & Hf).
  destruct (cleanupTaints_run h p t tr3 e st1 st2 HC HfC Hv1 Ht) as (-> & Hv2 & _ & Hp2 & Hed).
  apply exec_bind in H as (tr5 & r & tr6 & -> & ->%exec_call & H).
  destruct Hf as (st3 & Hup & Hf).
  destruct (serve_UpdatePolicy (withoutFinalizer p) st2 r st3 p Hup) as (Hn3 & q & -> & _ & _ & _ & _ & _ & _ & Hp3);
    [by rewrite Hp2, Hp1; unfold v1alpha1.Name in *; simpl; rewrite Hname|done|done|].
  destruct H as [-> [= <- <-]]. simpl in Hf. subst st3. split; [done|]. split; [done|].
  rewrite bool_decide_eq_true_2 in Hp3.
  2:{ split; [by rewrite Hdel|]. simpl. rewrite Hfin. apply RemoveFinalizer_last. }
  assert (v1alpha1.Name (withoutFinalizer p) = name) as Hname' by exact Hname.
  split; [by rewrite Hp3, Hname', Hp2, Hp1|].
  intros n. specialize (Hed n). rewrite Hn1 in Hed. rewrite Hn3.
  destruct (nodes_of st !! n) as [nd|]; [|done].
  destruct Hed as (nd' & Hnd' & _ & Hl & Hcs & Hts). exists nd'. split; [done|].
  unfold hasTaintKey. rewrite Hts. split; [apply foreign_hasKey|]. done.
Qed.

End theorems.

(** ** Witnesses *)

Definition demo_pure : remediation.Policy :=
  match projectPolicy wp_policy with inr pure => pure | inl _ => basePolicy end.

Definition request : prog (Result * option error) := Reconcile "wp-policy".

(** The cluster after [k] reconciles. *)
Fixpoint after (k : nat) (p : v1alpha1.NodeRemediationPolicy) : ReferenceServer.state :=
  match k with
  | O => cluster_with p
  | S k' => (run ReferenceServer.serve request (after k' p)).2
  end.

(** The next reconcile of it. *)
Definition pass (k : nat) (p : v1alpha1.NodeRemediationPolicy) : trace * (Result * option error) :=
  record ReferenceServer.serve request (after k p).

Lemma pass_exec k p : exec (Reconcile "wp-policy") (pass k p).1 ((pass k p).2.1, (pass k p).2.2).
Proof. rewrite <- surjective_pairing. exact (record_exec ReferenceServer.serve request (after k p)). Qed.

Lemma pass_follows k p : follows ReferenceServer.serve (after k p) (pass k p).1 (after (S k) p).
Proof. exact (record_follows ReferenceServer.serve request (after k p)). Qed.

Lemma demo_valid p : v1alpha1.Name p = "wp-policy"%string -> ReferenceServer.consistent (cluster_with p).
Proof.
  intros Hname. split.
  - apply (bool_decide_unpack _). by vm_compute.
  - simpl. rewrite Hname. apply map_Forall_singleton. exact Hname.
Qed.

Lemma demo_fits : fits ReferenceServer.serve demo_pure (cluster_with wp_policy).
Proof. split; [|split]; vm_compute; discriminate. Qed.

Lemma demo_projects : projectPolicy wp_policy = inr demo_pure.
Proof. by vm_compute. Qed.

Lemma demo_stored p :
  v1alpha1.Name p = "wp-policy"%string ->
  nodes_of (h := ReferenceServer.serve) (cluster_with p) = by_name demo_node_list
  /\ policies_of (h := ReferenceServer.serve) (cluster_with p) !! "wp-policy"%string = Some p.
Proof. intros Hname. split; [done|]. simpl. rewrite Hname. apply lookup_singleton_eq. Qed.

(** Node "a" is newly tainted beside the other taint it had. *)
Lemma Reconcile_enacts_decision_witness :
  (pass 0 wp_policy).2.2 = None
  /\ hasTaintKey (default (untimed_node "a") ((after 1 wp_policy).(ReferenceServer.nodes) !! "a"%string))
       "node.scality.io/wp-unreachable" = true.
Proof.
  destruct (Reconcile_enacts_decision ReferenceServer.serve (A := ReferenceServer.reference_server) "wp-policy" wp_policy demo_pure
    (pass 0 wp_policy).1 (pass 0 wp_policy).2.1 (pass 0 wp_policy).2.2 (cluster_with wp_policy)
    (after 1 wp_policy) (pass_exec 0 wp_policy) (pass_follows 0 wp_policy) (demo_valid wp_policy eq_refl)
    (proj2 (demo_stored wp_policy eq_refl)) eq_refl demo_projects demo_fits) as (He & _).
  split; [exact He|]. vm_compute. reflexivity.
Defined.

Lemma Reconcile_comes_to_rest_witness :
  patches (pass 0 wp_policy).1 <> [] /\ patches (pass 1 wp_policy).1 = []
  /\ writes (pass 1 wp_policy).1 <> [] /\ writes (pass 2 wp_policy).1 = [].
Proof.
  assert (patches (pass 0 wp_policy).1 <> []) as H0 by (vm_compute; discriminate).
  assert (writes (pass 1 wp_policy).1 <> []) as H1 by (vm_compute; discriminate).
  destruct (Reconcile_comes_to_rest ReferenceServer.serve (A := ReferenceServer.reference_server) "wp-policy" wp_policy demo_pure
    (cluster_with wp_policy) (after 1 wp_policy) (after 2 wp_policy) (after 3 wp_policy)
    (pass 0 wp_policy).1 (pass 1 wp_policy).1 (pass 2 wp_policy).1 _ _ _ _ _ _
    (demo_valid wp_policy eq_refl) (proj2 (demo_stored wp_policy eq_refl)) eq_refl demo_projects demo_fits
    (pass_exec 0 wp_policy) (pass_follows 0 wp_policy) (pass_exec 1 wp_policy) (pass_follows 1 wp_policy)
    (pass_exec 2 wp_policy) (pass_follows 2 wp_policy)) as (Hp & _ & _ & Hw & _).
  - vm_compute. reflexivity.
  - exact (conj H0 (conj Hp (conj H1 Hw))).
Defined.

Lemma Reconcile_deletes_cleanly_witness :
  (after 1 deleted_policy).(ReferenceServer.policies) !! "wp-policy"%string = None
  /\ (pass 0 deleted_policy).2.2 = None.
Proof.
  destruct (Reconcile_deletes_cleanly ReferenceServer.serve (A := ReferenceServer.reference_server) "wp-policy" deleted_policy wp_spec_taint t0
    (pass 0 deleted_policy).1 (pass 0 deleted_policy).2.1 (pass 0 deleted_policy).2.2
    (cluster_with deleted_policy) (after 1 deleted_policy)
    (pass_exec 0 deleted_policy) (pass_follows 0 deleted_policy) (demo_valid deleted_policy eq_refl)
    (proj2 (demo_stored deleted_policy eq_refl)) eq_refl eq_refl eq_refl eq_refl) as (He & _ & Hpol & _).
  split; [|exact He]. change ((after 1 deleted_policy).(ReferenceServer.policies))
    with (policies_of (h := ReferenceServer.serve) (after 1 deleted_policy)).
  rewrite Hpol. apply lookup_delete_eq.
Defined.
