(* ===== verification/Interleaving.v ===== *)
(** Any number of reconciles in flight at once, their calls interleaved with one another and with
    the writes of every other client.  The API server is known here by its optimistic lock alone: a
    patch is accepted only over the version it was computed from, and versions are never reused. *)

From S2P Require Import Prelude GoTime Types K8sLib PolicyApi Remediation Fixtures Predicate Project.
From S2P Require Import ProjectProps Effects Cluster Taint Reconcile Scenarios ReconcileProps.
From S2P Require Import ReconcileShape ConvergenceProps.
Import project taint reconcile.

(** ** The cluster's nodes, and every version of them there ever was *)

Record world := mkWorld { live : gmap string corev1.Node; past : list corev1.Node }.

Definition fresh (w : world) (nd : corev1.Node) : Prop :=
  forall o, o ∈ w.(past) -> o.(corev1.Node_Name) = nd.(corev1.Node_Name) ->
    o.(corev1.Node_ResourceVersion) <> nd.(corev1.Node_ResourceVersion).

Definition store (w : world) (nd : corev1.Node) : world :=
  mkWorld (<[nd.(corev1.Node_Name) := nd]> w.(live)) (nd :: w.(past)).

Definition coherent (w : world) : Prop :=
  (forall n nd, w.(live) !! n = Some nd -> nd.(corev1.Node_Name) = n /\ nd ∈ w.(past))
  /\ (forall a b, a ∈ w.(past) -> b ∈ w.(past) -> a.(corev1.Node_Name) = b.(corev1.Node_Name) ->
        a.(corev1.Node_ResourceVersion) = b.(corev1.Node_ResourceVersion) -> a = b).

(** Any other client: kubelets, users, other controllers. *)
Inductive others : world -> world -> Prop :=
  | others_write w nd : fresh w nd -> others w (store w nd)
  | others_delete w n : others w (mkWorld (delete n w.(live)) w.(past)).

(** What the server may answer.  Reads may fail, patches may be refused for any reason, and the
    answers to the other calls are not constrained at all. *)
Definition answers (w : world) (c : Call) : Answer c -> world -> Prop :=
  match c with
  | PatchNode m o => fun x w' =>
      match x with
      | Some _ => w' = w
      | None => exists cur nd,
          w.(live) !! o.(corev1.Node_Name) = Some cur
          /\ cur.(corev1.Node_ResourceVersion) = o.(corev1.Node_ResourceVersion)
          /\ node_with m.(corev1.Node_Taints) cur nd /\ fresh w nd /\ w' = store w nd
      end
  | ReaderGetNode n => fun x w' =>
      w' = w /\ match x with inr nd => w.(live) !! n = Some nd | inl _ => True end
  | _ => fun _ w' => w' = w
  end.

Section interleaving.
Context `{K : K8s} `{R : Retry} `{L : !K8sLaws K} `{RL : !RetryLaws K R}.

(** ** Reconciles in flight *)

Record actor := mkActor {
  request : string;
  so_far : trace;
  rest : prog (Result * option error);
}.

Definition started (name : string) : actor := mkActor name [] (Reconcile name).

Definition answered (a : actor) (c : Call) (x : Answer c) (k : Answer c -> prog (Result * option error)) :
    actor :=
  mkActor a.(request) (a.(so_far) ++ [Ev c x]) (k x).

Inductive interleaved : world * list actor -> world * list actor -> Prop :=
  | request_arrives w l name : interleaved (w, l) (w, l ++ [started name])
  | other_client w w' l : others w w' -> interleaved (w, l) (w', l)
  | call_answered w l i a c k x w' :
      l !! i = Some a -> a.(rest) = Step c k -> answers w c x w' ->
      interleaved (w, l) (w', <[i := answered a c x k]> l).

(** ** Lemmas *)

(** An answer that tells the program nothing. *)
Definition unanswered (c : Call) : Answer c :=
  match c with
  | GetPolicy _ | ListNodes | ListPolicies | UpdatePolicy _
  | ReaderGetNode _ | ReaderListNodes | ReaderListPolicies => inl (errors.Other "unavailable")
  | PatchPolicyStatus _ _ | PatchNode _ _ => None
  | Now => 0
  | Eventf _ | Log _ | Enqueue _ => tt
  end.

(** Every program can be run to its end with failing reads only. *)
Lemma completion {A} (m : prog A) :
  exists tr a, exec m tr a /\ policies_seen tr = []
    /\ (forall n nd, (n, inr nd) ∉ node_reads tr).
Proof.
  induction m as [a|c k IH].
  - exists [], a. split; [done|]. split; [done|]. intros n nd. apply not_elem_of_nil.
  - assert (exists x : Answer c, policies_seen [Ev c x] = []
              /\ forall n nd, (n, inr nd) ∉ node_reads [Ev c x]) as (x & Hp & Hr).
    { exists (unanswered c). split; [by destruct c|]. intros n nd.
      destruct c; cbn; rewrite ?elem_of_nil, ?list_elem_of_singleton; by intro. }
    destruct (IH x) as (tr & a & He & Hp' & Hr'). exists (Ev c x :: tr), a.
    split; [by exists x, tr|]. split.
    + change (Ev c x :: tr) with ([Ev c x] ++ tr). by rewrite policies_seen_app, Hp, Hp'.
    + intros n nd. change (Ev c x :: tr) with ([Ev c x] ++ tr).
      rewrite node_reads_app, elem_of_app. intros [?|?]; [by eapply Hr|by eapply Hr'].
Qed.

Lemma coherent_store w nd : coherent w -> fresh w nd -> coherent (store w nd).
Proof.
  intros [Hl Hp] Hf. split; simpl.
  - intros n x. rewrite lookup_insert. case_decide as Hn.
    + intros [= ->]. split; [done|by left].
    + intros [? ?]%Hl. split; [done|by right].
  - intros a b [->|Ha]%elem_of_cons [->|Hb]%elem_of_cons Hn Hv; [done| | |by apply Hp].
    + by destruct (Hf b Hb).
    + by destruct (Hf a Ha).
Qed.

Lemma coherent_others w w' : coherent w -> others w w' -> coherent w' /\ w.(past) ⊆ w'.(past).
Proof.
  intros Hc Ho. destruct Ho as [w nd Hf|w n].
  - split; [by apply coherent_store|]. simpl. set_solver.
  - destruct Hc as [Hl Hp]. split; [|done]. split; [|done]. simpl.
    intros m nd [_ H]%lookup_delete_Some. by apply Hl.
Qed.

Lemma coherent_answers w c x w' : coherent w -> answers w c x w' -> coherent w' /\ w.(past) ⊆ w'.(past).
Proof.
  intros Hc H. destruct c; simpl in H; try (by subst w').
  - destruct x; [by subst w'|]. destruct H as (cur & nd & _ & _ & _ & Hf & ->).
    split; [by apply coherent_store|]. simpl. set_solver.
  - by destruct H as [-> _].
Qed.

(** The invariant of a reconcile in flight: what it did is a beginning of a run of [Reconcile], and
    each node it read is a version of that node. *)
Definition in_flight (w : world) (a : actor) : Prop :=
  (forall tr r, exec a.(rest) tr r -> exec (Reconcile a.(request)) (a.(so_far) ++ tr) r)
  /\ (forall n nd, (n, inr nd) ∈ node_reads a.(so_far) -> nd ∈ w.(past) /\ nd.(corev1.Node_Name) = n).

Lemma in_flight_past w w' a : w.(past) ⊆ w'.(past) -> in_flight w a -> in_flight w' a.
Proof. intros Hp [He Hr]. split; [done|]. intros n nd [? ?]%Hr. split; [by apply Hp|done]. Qed.

Lemma in_flight_started w name : in_flight w (started name).
Proof. split; [done|]. intros n nd H. by apply elem_of_nil in H. Qed.

Lemma in_flight_answered w a c k x w' :
  coherent w -> in_flight w a -> a.(rest) = Step c k -> answers w c x w' ->
  in_flight w' (answered a c x k).
Proof.
  intros Hc [He Hr] Hrest Ha. destruct (coherent_answers w c x w' Hc Ha) as [_ Hp]. split.
  - intros tr r Htr. simpl. rewrite <- app_assoc. apply He. rewrite Hrest. by exists x, tr.
  - intros n nd. simpl. rewrite node_reads_app, elem_of_app. intros [[? ?]%Hr|Hin].
    { split; [by apply Hp|done]. }
    destruct c; cbn in Hin; try (by apply elem_of_nil in Hin). destruct x as [e|o]; cbn in Hin.
    { by apply list_elem_of_singleton in Hin. }
    apply list_elem_of_singleton in Hin as [= -> <-]. destruct Ha as [-> Hl].
    destruct Hc as [Hlive _]. apply Hlive in Hl as [? ?]. done.
Qed.

Lemma interleaved_invariant s s' :
  rtc interleaved s s' -> coherent s.1 -> Forall (in_flight s.1) s.2 ->
  coherent s'.1 /\ Forall (in_flight s'.1) s'.2.
Proof.
  induction 1 as [|s1 s2 s3 Hstep _ IH]; [done|]. intros Hc Hf. apply IH.
  - destruct Hstep as [w l name|w w' l Ho|w l i a c k x w' Hi Hrest Ha]; simpl in *.
    + done.
    + by apply (coherent_others w w').
    + by apply (coherent_answers w c x w').
  - destruct Hstep as [w l name|w w' l Ho|w l i a c k x w' Hi Hrest Ha]; simpl in *.
    + apply Forall_app. split; [done|]. apply Forall_singleton, in_flight_started.
    + destruct (coherent_others w w' Hc Ho) as [_ Hp]. eapply Forall_impl; [exact Hf|].
      intros a. by apply in_flight_past.
    + destruct (coherent_answers w c x w' Hc Ha) as [_ Hp]. apply Forall_insert.
      * eapply Forall_impl; [exact Hf|]. intros b. by apply in_flight_past.
      * apply (in_flight_answered w a c k x w'); try done. by eapply Forall_lookup_1.
Qed.

(** The patch a reconcile in flight is about to send is legal with what it has read so far. *)
Lemma in_flight_patch w a m o k :
  in_flight w a -> a.(rest) = Step (PatchNode m o) k ->
  exists p, p ∈ policies_seen a.(so_far)
    /\ legal_patch (policy_taint p) (node_reads a.(so_far)) (m, o, None).
Proof.
  intros [He _] Hrest. destruct (completion (k None)) as (tr & [res err] & Htr & Hps & Hrd).
  assert (exec (Reconcile a.(request)) (a.(so_far) ++ Ev (PatchNode m o) None :: tr) (res, err)) as Hexec.
  { apply He. rewrite Hrest. by exists None, tr. }
  apply Reconcile_cases, reconciled_activity in Hexec as [_ Hl].
  pose proof (elem_of_patches a.(so_far) m o None tr) as Hin.
  destruct Hl as [Hnone|(p & Hp & Hl)]; [rewrite Hnone in Hin; by apply elem_of_nil in Hin|].
  exists p. split.
  - rewrite policies_seen_app, elem_of_app in Hp. destruct Hp as [?|Hp]; [done|].
    change (policies_seen (Ev (PatchNode m o) None :: tr)) with (policies_seen tr) in Hp.
    rewrite Hps in Hp. by apply elem_of_nil in Hp.
  - unfold legal in Hl. rewrite Forall_forall in Hl. apply Hl in Hin as (Hm & (name & Hread) & Hcase).
    split; [done|]. split; [|done]. exists name.
    rewrite node_reads_app, elem_of_app in Hread. destruct Hread as [?|Hread]; [done|].
    change (node_reads (Ev (PatchNode m o) None :: tr)) with (node_reads tr) in Hread.
    by destruct (Hrd name o).
Qed.

(** A version a reconcile in flight read is the live one if their versions agree. *)
Lemma in_flight_read w a n o cur :
  coherent w -> in_flight w a -> (n, inr o) ∈ node_reads a.(so_far) ->
  w.(live) !! o.(corev1.Node_Name) = Some cur ->
  cur.(corev1.Node_ResourceVersion) = o.(corev1.Node_ResourceVersion) -> cur = o.
Proof.
  intros [Hl Hp] [_ Hr] [Ho _]%Hr [Hn Hcur]%Hl Hv. by apply Hp.
Qed.

(** A reconcile alone makes its calls one after the other. *)
Lemma interleaved_exec w l i a tr c x tr' r :
  l !! i = Some a ->
  Forall (fun e => answers w e.(ev_call) e.(ev_answer) w) tr ->
  exec a.(rest) (tr ++ Ev c x :: tr') r ->
  exists k, rtc interleaved (w, l) (w, <[i := mkActor a.(request) (a.(so_far) ++ tr) (Step c k)]> l).
Proof.
  intros Hi Ha. revert a l Hi.
  induction tr as [|e tr IH]; intros a l Hi He; destruct (rest a) as [r0|c1 k1] eqn:Hrest;
    [by destruct He| |by destruct He|]; destruct He as (x' & tr1 & Heq & He);
    apply cons_eq_inv in Heq as [Hev <-].
  - apply (f_equal ev_call) in Hev. simpl in Hev. subst c1.
    exists k1. rewrite app_nil_r, <- Hrest, list_insert_id; [done|]. by destruct a.
  - subst e. apply Forall_cons in Ha as [Ha Hall].
    set (a1 := answered a c1 x' k1).
    destruct (IH Hall a1 (<[i := a1]> l)) as (k & Hk).
    + apply list_lookup_insert_eq. by eapply lookup_lt_Some.
    + done.
    + exists k. rewrite list_insert_insert_eq in Hk. simpl in Hk. rewrite <- app_assoc in Hk.
      eapply rtc_l; [|exact Hk]. by eapply call_answered.
Qed.

(** ** The theorem *)

(** C5: with any number of reconciles in flight, of the same policy or of others, their calls
    interleaved in any order with one another and with every other client's writes, a step of a
    reconcile that changes a node is a patch computed from the version of the node that is live at
    that moment; it leaves the node's labels, its conditions, every taint of another key and every
    other node as they are, and appends the policy's taint or drops the policy's key.  So no write
    is ever lost, whoever made it. *)
Theorem no_lost_updates w0 w l i a c k x w' :
  coherent w0 -> rtc interleaved (w0, []) (w, l) ->
  l !! i = Some a -> a.(rest) = Step c k -> answers w c x w' -> w'.(live) <> w.(live) ->
  exists p m o nd,
    p ∈ policies_seen a.(so_far)
    /\ c = PatchNode m o
    /\ w.(live) !! o.(corev1.Node_Name) = Some o
    /\ w'.(live) = <[o.(corev1.Node_Name) := nd]> w.(live)
    /\ nd.(corev1.Node_Labels) = o.(corev1.Node_Labels)
    /\ nd.(corev1.Node_Conditions) = o.(corev1.Node_Conditions)
    /\ foreign (policy_key p) nd.(corev1.Node_Taints) = foreign (policy_key p) o.(corev1.Node_Taints)
    /\ (nd.(corev1.Node_Taints) = o.(corev1.Node_Taints) ++ [newTaint (policy_taint p)]
        \/ nd.(corev1.Node_Taints) = foreign (policy_key p) o.(corev1.Node_Taints)).
Proof.
  intros Hc Hrun Hi Hrest Ha Hne.
  destruct (interleaved_invariant _ _ Hrun Hc (List.Forall_nil _)) as [Hcw Hall]; simpl in *.
  pose proof (Forall_lookup_1 _ _ _ _ Hall Hi) as Hf.
  destruct c as [| | | | |m o|n| | | | | |]; cbn in Ha; try (by subst w'); [|by destruct Ha as [-> _]].
  destruct x as [e|]; [by subst w'|]. destruct Ha as (cur & nd & Hl & Hv & Hnd & _ & ->).
  destruct Hnd as (Hn & Hlb & Hcd & Hts).
  destruct (in_flight_patch w a m o k Hf Hrest) as (p & Hp & _ & (name & Hread) & Hcase).
  assert (cur = o) as -> by (by eapply in_flight_read).
  exists p, m, o, nd. split_and!; try done.
  - simpl. by rewrite Hn.
  - rewrite Hts. destruct Hcase as [[_ ->]|[_ ->]]; [apply foreign_addTaint|apply foreign_idem].
  - rewrite Hts. destruct Hcase as [[_ ?]|[_ ?]]; [by left|by right].
Qed.

End interleaving.

(** A reconcile about to taint node a, in a cluster of that node alone. *)
Definition sole_node : corev1.Node := wp_node "a" "True" 300 [other_taint].
Definition sole_world : world := mkWorld {[ "a" := sole_node ]} [sole_node].
Definition sole_cluster : ReferenceServer.state :=
  ReferenceServer.mkState {[ "a" := sole_node ]} {[ "wp-policy" := wp_policy ]} t0.
Definition sole_run : trace * (Result * option error) :=
  record ReferenceServer.serve (Reconcile "wp-policy") sole_cluster.
Definition sole_patch : corev1.Node := corev1.set_Taints sole_node [other_taint; newTaint wp_taint].
Definition patched_world : world := store sole_world (ReferenceServer.store_taints sole_node sole_patch).

Definition sole_reads : trace := [
  Ev (GetPolicy "wp-policy") (inr wp_policy); Ev ListNodes (inr [sole_node]); Ev Now t0;
  Ev (ReaderGetNode "a") (inr sole_node) ].

Lemma sole_coherent : coherent sole_world.
Proof.
  split; cbn [live past sole_world].
  - intros n nd [<- <-]%lookup_singleton_Some. split; [done|by left].
  - by intros a b ->%list_elem_of_singleton ->%list_elem_of_singleton.
Qed.

Lemma sole_exec :
  exec (Reconcile "wp-policy") (sole_reads ++ Ev (PatchNode sole_patch sole_node) None :: drop 5 sole_run.1)
    sole_run.2.
Proof. exact (record_exec ReferenceServer.serve (Reconcile "wp-policy") sole_cluster). Qed.

Lemma no_lost_updates_witness :
  exists l k,
    rtc interleaved (sole_world, []) (sole_world, l)
    /\ l !! 0%nat = Some (mkActor "wp-policy" sole_reads (Step (PatchNode sole_patch sole_node) k))
    /\ exists p m o nd,
         p ∈ policies_seen sole_reads /\ PatchNode sole_patch sole_node = PatchNode m o
         /\ patched_world.(live) = <[o.(corev1.Node_Name) := nd]> sole_world.(live)
         /\ foreign (policy_key p) nd.(corev1.Node_Taints)
            = foreign (policy_key p) o.(corev1.Node_Taints).
Proof.
  assert (Forall (fun e => answers sole_world e.(ev_call) e.(ev_answer) sole_world) sole_reads)
    as Hreads by (repeat constructor).
  destruct (interleaved_exec sole_world [started "wp-policy"] 0 (started "wp-policy") sole_reads _ _ _ _
              eq_refl Hreads sole_exec) as (k & Hk).
  assert (rtc interleaved (sole_world, [])
            (sole_world, [mkActor "wp-policy" sole_reads (Step (PatchNode sole_patch sole_node) k)]))
    as Hrun.
  { eapply rtc_l; [exact (request_arrives sole_world [] "wp-policy")|exact Hk]. }
  eexists _, k. split; [exact Hrun|]. split; [reflexivity|].
  destruct (no_lost_updates sole_world sole_world _ 0 _ _ k None patched_world sole_coherent Hrun
              eq_refl eq_refl) as (p & m & o & nd & H1 & H2 & _ & H3 & _ & _ & H4 & _).
  - exists sole_node, (ReferenceServer.store_taints sole_node sole_patch). split_and!; try done.
    by intros o ->%list_elem_of_singleton.
  - intros H. apply (f_equal (fun w => w !! "a")) in H. vm_compute in H. discriminate.
  - by exists p, m, o, nd.
Defined.
