(* ===== verification/SchemaTheorems.v ===== *)
(** The theorems about the admission schema: what its patterns accept, and where that is more than a
    qualified name; that what it accepts decodes unless a window is too large; and that a decoded
    policy is what the other theorems assume of one. *)

From S2P Require Import Prelude GoTime Regex Duration Types Schema K8sLib PolicyApi Remediation.
From S2P Require Import DecideSpec Fixtures Predicate Project Effects Taint Reconcile Scenarios.
From S2P Require Import ReconcileProps.
From Stdlib Require Import Ascii.
Import regex duration project.

(** No component has a fraction. *)
Definition whole_only (cs : list component) : Prop := Forall (fun c => c.(fraction) = None) cs.

(** The text of a sequence of numbers the debounce rule accepts. *)
Definition written_as (w : string) (cs : list component) : Prop :=
  cs <> [] /\ Forall schema.component_written cs /\ to_bytes w = render_all cs.

(** The object with another enter window. *)
Definition withEnter (w : string) (s : schema.raw_spec) : schema.raw_spec :=
  schema.mkRawSpec (schema.nodeSelector s) (schema.condition_type s) (schema.condition_status s)
    (schema.taint s) (Some (schema.mkRawDebounce (Some w) (schema.debounce s ≫= schema.exit)))
    (schema.maxAffectedPercent s).

(** ** Keys *)

Lemma key_rule_iff t :
  schema.keyRule t = true <->
  schema.size (schema.key t) <= 317
  /\ exists n, schema.label_value n
     /\ (to_bytes (schema.key t) = n
         \/ exists p, schema.dns_subdomain p /\ to_bytes (schema.key t) = p ++ "/"%char :: n).
Proof.
  unfold schema.keyRule, schema.full_match, schema.key_re.
  rewrite andb_true_iff, Z.leb_le, matchb_spec, matches_cat_iff. setoid_rewrite matches_opt. split.
  - intros [(s1 & n & Hs & [->|(p & Hp & ->)%schema.matches_prefix] & Hn%schema.matches_name) Hl].
    + split; [done|]. exists n. split; [done|]. by left.
    + split; [done|]. exists n. split; [done|]. right. exists p. by rewrite Hs, <- app_assoc.
  - intros (Hl & n & Hn%schema.matches_name & [<-|(p & Hp & Hs)]); (split; [|done]).
    + exists [], (to_bytes (schema.key t)). split_and!; [done|by left|done].
    + exists (p ++ ["/"%char]), n. rewrite <- app_assoc. split_and!; [done| |done].
      right. apply schema.matches_prefix. by exists p.
Qed.

(** Neither a name nor a prefix has a slash, so a key is split at one place at most. *)
Lemma all_in_no_slash g s : g "/"%char = false -> all_in g s -> "/"%char ∉ s.
Proof. unfold all_in. rewrite Forall_forall. intros Hg Hs Hin%Hs. congruence. Qed.

Lemma label_value_no_slash n : schema.label_value n -> "/"%char ∉ n.
Proof. intros [[Hn _] _]. by apply (all_in_no_slash schema.name_char). Qed.

Lemma dns_label_no_slash x : schema.dns_label x -> "/"%char ∉ x.
Proof. intros [Hx _]. by apply (all_in_no_slash schema.lower_alnum_dash). Qed.

Lemma dns_subdomain_no_slash p : schema.dns_subdomain p -> "/"%char ∉ p.
Proof.
  intros (x & l & Hx%dns_label_no_slash & Hl & ->) [?|Hin]%elem_of_app; [done|].
  apply list_elem_of_join in Hin as (y & Hy & (z & -> & Hz)%list_elem_of_fmap).
  rewrite Forall_forall in Hl. apply Hl in Hz as Hz%dns_label_no_slash.
  by apply elem_of_cons in Hy as [?|?].
Qed.

Lemma slash_split p n p' n' :
  "/"%char ∉ p -> "/"%char ∉ n -> p ++ "/"%char :: n = p' ++ "/"%char :: n' -> p = p'.
Proof.
  revert p'. induction p as [|c p IH]; intros [|c' p'] Hp Hn; [done|..]; intros [= Hc Heq].
  - destruct Hn. rewrite Heq. apply elem_of_app. right. by left.
  - destruct Hp. rewrite Hc. by left.
  - subst c'. f_equal. apply IH; [|done|done]. intros ?. apply Hp. by right.
Qed.

(** The qualified names are the accepted keys whose prefix is not too long. *)
Lemma qualified_name_iff t :
  schema.qualified_name (to_bytes (schema.key t)) <->
  schema.keyRule t = true
  /\ forall p n, to_bytes (schema.key t) = p ++ "/"%char :: n -> len p <= 253.
Proof.
  rewrite key_rule_iff. unfold schema.size, schema.qualified_name. split.
  - intros (n & Hn & H). pose proof (label_value_no_slash n Hn) as Hno. pose proof Hn as [_ Hlen].
    destruct H as [->|(p & Hp & Hl & ->)].
    + split; [split; [unfold len; lia|]|]; [exists n; by split; [|left]|].
      intros p n' Heq. destruct Hno. rewrite Heq. apply elem_of_app. right. by left.
    + split; [split|].
      * unfold len in *. rewrite length_app. cbn [length]. lia.
      * exists n. split; [done|]. right. by exists p.
      * intros p' n' <-%slash_split; [done|by apply dns_subdomain_no_slash|done].
  - intros [(_ & n & Hn & H) Hl]. exists n. split; [done|]. destruct H as [H|(p & Hp & H)]; [by left|].
    right. exists p. split_and!; [done|by eapply Hl|done].
Qed.

(** The key rule caps the whole key and not its prefix, which the API server limits to 253 bytes
    where a node is tainted. *)
Lemma key_rule_admits_long_prefix :
  exists t p, schema.keyRule t = true /\ to_bytes (schema.key t) = p ++ ["/"%char; "a"%char]
    /\ len p = 315.
Proof.
  set (p := replicate 315 "a"%char).
  exists (schema.mkRawTaint (of_bytes (p ++ ["/"%char; "a"%char])) None "NoExecute" None), p.
  split_and!; by vm_compute.
Qed.

Section theorems.
Context `{K : K8s}.
Context (UnmarshalJSON : string -> parse_error + time.Duration).
Hypothesis UnmarshalJSON_parses : forall s, UnmarshalJSON s = ParseDuration s.

(** ** Lemmas *)

Lemma total_bound cs : Forall (written 6) cs -> total cs <= len cs * (10 ^ 6 * time.Hour).
Proof.
  unfold len. induction 1 as [|c cs Hc%nanos_range _ IH]; [done|].
  cbn [total foldr length]. fold (total cs). rewrite Nat2Z.inj_succ. lia.
Qed.

(** An accepted duration is parsed, or its sum is out of range. *)
Lemma parse_components s n cs :
  to_bytes s = render_all cs -> cs <> [] -> Forall (written n) cs -> (n <= 18)%nat ->
  (exists d, ParseDuration s = inr d /\ 0 <= d <= int64_max) \/ ParseDuration s = inl (InvalidDuration s).
Proof.
  intros Hs Hne Hcs Hn. rewrite (ParseDuration_loop n cs) by done.
  destruct (loop_render s n cs 0 (length (render_all cs)) Hcs Hn) as [(d & Hl & Hd)|Hl]; [lia|done| |];
    rewrite Hl; [|by right]. destruct (Z.ltb_spec (2 ^ 63 - 1) d); [by right|]. left.
  exists d. unfold int64_max. split; [done|lia].
Qed.

Lemma parse_whole s cs :
  to_bytes s = render_all cs -> cs <> [] -> Forall (written 6) cs -> whole_only cs ->
  ParseDuration s = if total cs <=? int64_max then inr (total cs) else inl (InvalidDuration s).
Proof.
  intros Hs Hne Hcs Hw. rewrite (ParseDuration_loop 6 cs) by done.
  rewrite loop_whole; [|by apply Forall_and|lia|done]. rewrite Z.add_0_l. unfold int64_max.
  destruct (Z.leb_spec (total cs) (2 ^ 63)); destruct (Z.leb_spec (total cs) (2 ^ 63 - 1)); try lia; [| |done].
  - by destruct (Z.ltb_spec (2 ^ 63 - 1) (total cs)); [lia|].
  - by destruct (Z.ltb_spec (2 ^ 63 - 1) (total cs)); [|lia].
Qed.

Lemma admitted_duration s d :
  schema.durationRule s = true -> UnmarshalJSON s = inr d -> 0 <= d <= int64_max.
Proof.
  rewrite UnmarshalJSON_parses, schema.durationRule_spec. intros (cs & Hne & Hcs & Hs).
  destruct (parse_components s 6 cs Hs Hne) as [(d' & -> & Hd)| ->]; [by apply schema.component_written_6|lia| |done].
  by intros [= <-].
Qed.

Lemma decodeDuration_range s d dflt :
  match s with Some s => schema.durationRule s | None => true end = true ->
  schema.decodeDuration UnmarshalJSON s = inr d -> 0 <= dflt <= int64_max ->
  0 <= default dflt d <= int64_max.
Proof.
  destruct s as [s|]; simpl; [|by intros _ [= <-]]. intros Hr Hd Hdflt.
  destruct (UnmarshalJSON s) as [|x] eqn:Hx; [done|]. injection Hd as <-. by eapply admitted_duration.
Qed.

Lemma admission_Some old s s' :
  schema.admission old s = Some s' ->
  s' = schema.withDefaults s /\ schema.well_formed s' = true /\ schema.transition old s' = true.
Proof. unfold schema.admission. destruct (_ && _) eqn:H; [|done]. intros [= <-]. by apply andb_true_iff in H. Qed.

Lemma well_formed_rules s :
  schema.well_formed s = true ->
  schema.typeRule s = true /\ schema.statusRule s = true
  /\ (exists t, schema.taint s = Some t /\ schema.effectRule t = true /\ schema.keyRule t = true
        /\ schema.valueRule t = true)
  /\ (forall d, schema.debounce s = Some d -> schema.debounceRule d = true)
  /\ (forall m, schema.maxAffectedPercent s = Some (Some m) -> 0 <= m <= 100).
Proof.
  unfold schema.well_formed, schema.remediationsRule, schema.percentRule.
  rewrite !andb_true_iff. intros [[[[[Hty Hst] [t Ht]%bool_decide_eq_true] Hr] Hd] Hg].
  rewrite Ht in Hr. rewrite !andb_true_iff in Hr. destruct Hr as [[? ?] ?]. split_and!; [done|done|by exists t| |].
  - intros d Hs. by rewrite Hs in Hd.
  - intros m Hs. rewrite Hs, andb_true_iff, !Z.leb_le in Hg. done.
Qed.

(** An update keeps the rules and the taint. *)
Lemma updated_keeps s requests :
  schema.well_formed s = true ->
  schema.well_formed (schema.updated s requests) = true
  /\ schema.taint (schema.updated s requests) = schema.taint s.
Proof.
  unfold schema.updated. revert s. induction requests as [|r l IH]; intros s Hs; [done|]. simpl.
  destruct (schema.admission (Some s) r) as [s'|] eqn:Ha; simpl; [|by apply IH].
  apply admission_Some in Ha as (_ & Hwf & Htr). destruct (IH s' Hwf) as [Hf ->]. split; [done|].
  apply well_formed_rules in Hs as (_ & _ & (t & Ht & _) & _).
  apply well_formed_rules in Hwf as (_ & _ & (t' & Ht' & _) & _).
  unfold schema.transition in Htr. rewrite Ht' in Htr. simpl in Htr. rewrite Ht in Htr.
  apply bool_decide_eq_true in Htr. by rewrite Ht, Ht', Htr.
Qed.

Lemma decode_Some s spec :
  schema.decode UnmarshalJSON s = inr spec ->
  v1alpha1.Spec_Condition spec
    = v1alpha1.mkConditionMatch (schema.condition_type s) (default EmptyString (schema.condition_status s))
  /\ v1alpha1.Remediations_Taint (v1alpha1.Spec_Remediations spec) = schema.decodeTaint <$> schema.taint s
  /\ schema.decodeDebounce UnmarshalJSON (schema.debounce s) = inr (v1alpha1.Spec_Debounce spec)
  /\ v1alpha1.Spec_Guard spec = v1alpha1.mkGuard (default None (schema.maxAffectedPercent s)).
Proof. unfold schema.decode. destruct (schema.decodeDebounce _ _); [done|]. by intros [= <-]. Qed.

(** The windows of an admitted object: both are there, and written as the rule asks. *)
Lemma admitted_windows raw d :
  schema.well_formed (schema.withDefaults raw) = true ->
  schema.debounce (schema.withDefaults raw) = Some d ->
  exists en ex cen cex, d = schema.mkRawDebounce (Some en) (Some ex)
    /\ written_as en cen /\ written_as ex cex.
Proof.
  intros (_ & _ & _ & Hr & _)%well_formed_rules Hd. pose proof (Hr d Hd) as H.
  simpl in Hd. destruct (schema.debounce raw) as [[e x]|]; [|done]. injection Hd as <-.
  unfold schema.debounceRule in H. simpl in H.
  apply andb_true_iff in H as [(cen & ?)%schema.durationRule_spec (cex & ?)%schema.durationRule_spec].
  by eexists _, _, cen, cex.
Qed.

Lemma window_parses w cs :
  written_as w cs -> (exists x, UnmarshalJSON w = inr x) \/ UnmarshalJSON w = inl (InvalidDuration w).
Proof.
  intros (Hne & Hcs & Hw). rewrite UnmarshalJSON_parses.
  destruct (parse_components w 6 cs Hw Hne) as [(x & Hx & _)|Hx]; [by apply schema.component_written_6|lia| |];
    [left; by exists x|by right].
Qed.

Lemma parse_written w cs :
  written_as w cs -> whole_only cs ->
  ParseDuration w = if total cs <=? int64_max then inr (total cs) else inl (InvalidDuration w).
Proof. intros (Hne & Hcs & Hw). apply parse_whole; [done|done|by apply schema.component_written_6]. Qed.

Lemma decode_windows s en ex :
  schema.debounce s = Some (schema.mkRawDebounce (Some en) (Some ex)) ->
  schema.decode UnmarshalJSON s
  = match UnmarshalJSON en, UnmarshalJSON ex with
    | inl e, _ => inl e
    | inr _, inl e => inl e
    | inr x, inr y => inr (v1alpha1.mkNodeRemediationPolicySpec
        (schema.nodeSelector s)
        (v1alpha1.mkConditionMatch (schema.condition_type s) (default EmptyString (schema.condition_status s)))
        (v1alpha1.mkRemediations (schema.decodeTaint <$> schema.taint s))
        (v1alpha1.mkDebounce (Some x) (Some y))
        (v1alpha1.mkGuard (default None (schema.maxAffectedPercent s))))
    end.
Proof.
  unfold schema.decode. intros ->. simpl. by destruct (UnmarshalJSON en), (UnmarshalJSON ex).
Qed.

Lemma withEnter_admitted old raw w :
  schema.admission old raw = Some (schema.withDefaults raw) -> schema.durationRule w = true ->
  schema.admission old (withEnter w raw) = Some (schema.withDefaults (withEnter w raw)).
Proof.
  intros (_ & Hwf & Htr)%admission_Some Hw. unfold schema.admission.
  assert (schema.well_formed (schema.withDefaults (withEnter w raw)) = true) as ->.
  { unfold schema.well_formed in *. rewrite !andb_true_iff in *. destruct Hwf as [[? Hd] ?].
    split; [split; [done|]|done]. unfold schema.debounceRule in *. simpl in *. rewrite Hw.
    destruct (schema.debounce raw) as [[e x]|]; simpl in *; [|by vm_compute].
    by apply andb_true_iff in Hd as [_ ?]. }
  change (schema.transition old (schema.withDefaults (withEnter w raw)))
    with (schema.transition old (schema.withDefaults raw)). by rewrite Htr.
Qed.

Lemma decodeDebounce_range d e :
  (forall r, d = Some r -> schema.debounceRule r = true) ->
  schema.decodeDebounce UnmarshalJSON d = inr e ->
  0 <= defaults.EnterOrDefault e <= int64_max /\ 0 <= defaults.ExitOrDefault e <= int64_max.
Proof.
  intros Hr Hd. destruct d as [r|]; simpl in Hd; [|by injection Hd as <-].
  specialize (Hr r eq_refl). unfold schema.debounceRule in Hr. apply andb_true_iff in Hr as [H1 H2].
  destruct (schema.decodeDuration _ _) as [|en] eqn:He; [done|].
  destruct (schema.decodeDuration _ (schema.exit r)) as [|ex] eqn:Hx; [done|]. injection Hd as <-.
  pose proof (decodeDuration_range _ _ defaults.DefaultDebounceEnter H1 He) as Hen.
  pose proof (decodeDuration_range _ _ defaults.DefaultDebounceExit H2 Hx) as Hex.
  unfold defaults.EnterOrDefault, defaults.ExitOrDefault. simpl.
  split; [destruct en; by apply Hen|destruct ex; by apply Hex].
Qed.

(** ** Theorems *)

(** C27: the taint key's pattern accepts exactly a name of at most 63 characters, optionally prefixed
    with a DNS subdomain and a slash, of at most 317 characters together; the taint value's pattern
    exactly the empty text and a label value.  For the value that is what the comment asks for.  For
    the key it is wider than the qualified names the comment asks for, and by exactly this much: they
    are the accepted keys with at most 253 bytes before a slash, and there are accepted keys with
    more. *)
Theorem taint_rules_exact t :
  (schema.keyRule t = true <->
   schema.size (schema.key t) <= 317
   /\ exists n, schema.label_value n
      /\ (to_bytes (schema.key t) = n
          \/ exists p, schema.dns_subdomain p /\ to_bytes (schema.key t) = p ++ "/"%char :: n))
  /\ (schema.valueRule t = true <->
      match schema.value t with
      | Some v => to_bytes v = [] \/ schema.label_value (to_bytes v)
      | None => True
      end)
  /\ (schema.qualified_name (to_bytes (schema.key t)) <->
      schema.keyRule t = true
      /\ forall p n, to_bytes (schema.key t) = p ++ "/"%char :: n -> len p <= 253)
  /\ (exists t', schema.keyRule t' = true /\ ~ schema.qualified_name (to_bytes (schema.key t'))).
Proof.
  split; [apply key_rule_iff|]. split; [|split; [apply qualified_name_iff|]].
  - unfold schema.valueRule, schema.full_match, schema.value_re. destruct (schema.value t); [|done].
    by rewrite matchb_spec, matches_opt, schema.matches_name.
  - destruct key_rule_admits_long_prefix as (t' & p & Ht & Hp & Hl). exists t'. split; [done|].
    intros [_ Hq]%qualified_name_iff. specialize (Hq _ _ Hp). lia.
Qed.

(** C25: a text the debounce rule accepts is a sequence of numbers of at most six whole digits, each
    with its unit, and decodes to a duration that is not negative or fails for its magnitude alone,
    never for its syntax.  Without fractions it decodes to the exact sum, if that fits an [int64]; a
    sum of two numbers always does. *)
Theorem duration_rule_decodes s :
  schema.durationRule s = true ->
  exists cs, cs <> [] /\ Forall schema.component_written cs /\ to_bytes s = render_all cs
    /\ ((exists d, UnmarshalJSON s = inr d /\ 0 <= d <= int64_max)
        \/ UnmarshalJSON s = inl (InvalidDuration s))
    /\ (whole_only cs ->
        UnmarshalJSON s = (if total cs <=? int64_max then inr (total cs) else inl (InvalidDuration s))
        /\ (len cs <= 2 -> UnmarshalJSON s = inr (total cs))).
Proof.
  intros (cs & Hne & Hcs & Hs)%schema.durationRule_spec. exists cs.
  pose proof (schema.component_written_6 cs Hcs) as Hw. rewrite UnmarshalJSON_parses.
  split_and!; [done|done|done|apply (parse_components s 6 cs); (done || lia)|].
  intros Hwhole. rewrite (parse_whole s cs Hs Hne Hw Hwhole). split; [done|].
  intros Hlen. pose proof (total_bound cs Hw).
  assert (2 * (10 ^ 6 * time.Hour) <= int64_max) by done.
  destruct (Z.leb_spec (total cs) int64_max); [done|]. assert (0 <= 10 ^ 6 * time.Hour) by done. nia.
Qed.

(** C13: an admitted policy is one the rest of the development is about.  If it decodes and its
    selector parses, it projects; it watches a named condition for one of the three statuses, its
    guard is a percentage, its windows are not negative, its taint is the one written and has one of
    the three effects; and the guard's arithmetic is exact for it on every fleet of up to 2^32
    nodes. *)
Theorem admitted_spec_fits old raw s p sel :
  schema.admission old raw = Some s -> schema.decode UnmarshalJSON s = inr p.(v1alpha1.Spec) ->
  nodeSelector p = inr sel ->
  exists pure, projectPolicy p = inr pure
    /\ pure.(remediation.Policy_ConditionType) <> EmptyString
    /\ pure.(remediation.Policy_ConditionStatus) ∈ ["True"; "False"; "Unknown"]%string
    /\ 0 <= pure.(remediation.Policy_MaxAffectedPercent) <= 100
    /\ 0 <= pure.(remediation.Policy_DebounceEnter) <= int64_max
    /\ 0 <= pure.(remediation.Policy_DebounceExit) <= int64_max
    /\ (exists t, schema.taint raw = Some t
         /\ pure.(remediation.Policy_Taint) = taintFromSpec (schema.decodeTaint t)
         /\ pure.(remediation.Policy_Taint).(remediation.Taint_Effect)
             ∈ ["NoSchedule"; "PreferNoSchedule"; "NoExecute"]%string)
    /\ forall nodes, len nodes <= 2 ^ 32 -> in_bounds pure nodes.
Proof.
  intros (-> & Hwf & _)%admission_Some (Hc & Ht & Hd & Hg)%decode_Some Hsel.
  apply well_formed_rules in Hwf as (Hty & Hst & (t & Hraw & He & _) & Hdeb & Hpc).
  unfold projectPolicy. rewrite Hsel. eexists. split; [done|]. simpl. rewrite Hc, Ht, Hraw, Hg.
  pose proof (decodeDebounce_range _ _ Hdeb Hd) as [Hen Hex].
  assert (0 <= defaults.MaxAffectedPercentOrDefault
                 (v1alpha1.mkGuard (default None (schema.maxAffectedPercent (schema.withDefaults raw)))) <= 100)
    as Hpercent.
  { destruct (schema.maxAffectedPercent (schema.withDefaults raw)) as [[m|]|]; simpl;
      [by apply Hpc|by vm_compute..]. }
  split_and!; try done; try tauto.
  - intros Hempty. unfold schema.typeRule in Hty. simpl in Hty, Hempty. by rewrite Hempty in Hty.
  - unfold schema.statusRule in Hst. simpl in *. apply bool_decide_eq_true in Hst.
    unfold defaults.StatusOrDefault. simpl. case_decide; [done|]. by left.
  - exists t. split_and!; [done|done|]. by apply bool_decide_eq_true in He.
  - intros nodes Hn. split; [done|]. unfold is_int32. cbn [remediation.Policy_MaxAffectedPercent]. lia.
Qed.

(** C20: the taint of a policy never changes.  Whatever updates are sent, the stored object keeps the
    taint it was created with, and satisfies every rule; so the controller finds the same key,
    value and effect in every version it reads, and cleans up what it applied. *)
Theorem taint_never_changes raw s0 requests s p0 p :
  schema.admission None raw = Some s0 -> s = schema.updated s0 requests ->
  schema.decode UnmarshalJSON s0 = inr p0.(v1alpha1.Spec) ->
  schema.decode UnmarshalJSON s = inr p.(v1alpha1.Spec) ->
  schema.well_formed s = true /\ schema.taint s = schema.taint raw /\ is_Some (schema.taint s)
  /\ policy_taint p = policy_taint p0.
Proof.
  intros (-> & Hwf & _)%admission_Some -> (_ & Ht0 & _)%decode_Some (_ & Ht & _)%decode_Some.
  destruct (updated_keeps _ requests Hwf) as [Hwf' Heq]. split; [done|]. split; [done|].
  apply well_formed_rules in Hwf as (_ & _ & (t & Hraw & _) & _). split; [by rewrite Heq, Hraw|].
  unfold policy_taint. by rewrite Ht, Ht0, Heq.
Qed.

(** C28: the getters mirror the default markers.  An object that bypassed the API server's defaulting
    decodes to a policy the controller projects exactly as it projects the defaulted one. *)
Theorem defaults_mirror_markers raw spec meta st :
  schema.decode UnmarshalJSON raw = inr spec ->
  exists spec', schema.decode UnmarshalJSON (schema.withDefaults raw) = inr spec'
    /\ projectPolicy (v1alpha1.mkNodeRemediationPolicy meta spec st)
       = projectPolicy (v1alpha1.mkNodeRemediationPolicy meta spec' st).
Proof.
  unfold schema.decode, schema.decodeDebounce.
  assert (UnmarshalJSON schema.default_enter = inr defaults.DefaultDebounceEnter) as Hen
    by (rewrite UnmarshalJSON_parses; reflexivity).
  assert (UnmarshalJSON schema.default_exit = inr defaults.DefaultDebounceExit) as Hex
    by (rewrite UnmarshalJSON_parses; reflexivity).
  destruct raw as [sel ty status taint [[en ex]|] guard]; simpl.
  - destruct en as [en|], ex as [ex|]; simpl; rewrite ?Hen, ?Hex;
      repeat (destruct (UnmarshalJSON _); [done|]); intros [= <-];
      (eexists; split; [done|]); by destruct status, guard as [[]|].
  - intros [= <-]. eexists. split; [done|]. by destruct status, guard as [[]|].
Qed.

(** C29: an admitted object decodes, unless one of its windows is too large.  The debounce rule caps
    each number of a window and not their sum.  Where the numbers are whole, decoding fails exactly
    when a window's sum exceeds an [int64], with the error of the first such window, and otherwise
    gives the two sums; and for every text of capped whole numbers with such a sum, an admitted object
    given that text as its enter window is still admitted, and does not decode.  (Admitted by the
    rules, that is: the webhook, where it is served, is sent the object too, and decodes it.) *)
Theorem admitted_decodes_unless_overflow old raw s :
  schema.admission old raw = Some s ->
  (schema.debounce s = None -> exists spec, schema.decode UnmarshalJSON s = inr spec)
  /\ (forall d, schema.debounce s = Some d -> exists en ex cen cex,
        d = schema.mkRawDebounce (Some en) (Some ex) /\ written_as en cen /\ written_as ex cex
        /\ (forall e, schema.decode UnmarshalJSON s = inl e ->
              e = InvalidDuration en \/ e = InvalidDuration ex)
        /\ (whole_only cen -> whole_only cex ->
            (int64_max < total cen -> schema.decode UnmarshalJSON s = inl (InvalidDuration en))
            /\ (total cen <= int64_max < total cex ->
                schema.decode UnmarshalJSON s = inl (InvalidDuration ex))
            /\ (total cen <= int64_max -> total cex <= int64_max ->
                exists spec, schema.decode UnmarshalJSON s = inr spec
                  /\ v1alpha1.Spec_Debounce spec
                     = v1alpha1.mkDebounce (Some (total cen)) (Some (total cex)))))
  /\ (forall w cs, written_as w cs -> whole_only cs -> int64_max < total cs ->
        exists s', schema.admission old (withEnter w raw) = Some s'
          /\ schema.decode UnmarshalJSON s' = inl (InvalidDuration w)).
Proof.
  intros Ha. pose proof Ha as (-> & Hwf & Htr)%admission_Some. split_and!.
  - intros Hd. unfold schema.decode. rewrite Hd. by eexists.
  - intros d Hd. destruct (admitted_windows _ d Hwf Hd) as (en & ex & cen & cex & -> & Hen & Hex).
    exists en, ex, cen, cex. split_and!; [done|done|done| |].
    + intros e He. destruct (window_parses en cen Hen) as [(x & H1)|H1];
        destruct (window_parses ex cex Hex) as [(y & H2)|H2];
        rewrite (decode_windows _ _ _ Hd), ?H1, ?H2 in He; simplify_eq/=; tauto.
    + intros Hwen Hwex. rewrite (decode_windows _ _ _ Hd), !UnmarshalJSON_parses.
      rewrite (parse_written en cen Hen Hwen), (parse_written ex cex Hex Hwex).
      destruct (Z.leb_spec (total cen) int64_max), (Z.leb_spec (total cex) int64_max);
        split_and!; intros; (lia || done || by eexists).
  - intros w cs Hw Hwhole Hover. exists (schema.withDefaults (withEnter w raw)). split.
    + apply withEnter_admitted; [done|]. apply schema.durationRule_spec. by exists cs.
    + rewrite (decode_windows _ w (default schema.default_exit (schema.debounce raw ≫= schema.exit)))
        by done. rewrite !UnmarshalJSON_parses.
      rewrite (parse_written w cs Hw Hwhole). by destruct (Z.leb_spec (total cs) int64_max); [lia|].
Qed.

End theorems.

(** ** Witnesses *)

Definition demo_raw_taint : schema.raw_taint :=
  schema.mkRawTaint "node.scality.io/wp-unreachable" None "NoExecute" None.

(** The object of the sample manifest, with a window and a guard of its own. *)
Definition demo_raw : schema.raw_spec :=
  schema.mkRawSpec (Some (metav1.mkLabelSelector role_wp [])) "WPUnavailable" None (Some demo_raw_taint)
    (Some (schema.mkRawDebounce (Some "1h30m"%string) None)) (Some (Some 30)).

Definition demo_stored : schema.raw_spec := schema.withDefaults demo_raw.

(** An update that edits the taint, refused, and one that edits the window, applied. *)
Definition demo_updates : list schema.raw_spec := [
  schema.mkRawSpec None "WPUnavailable" None
    (Some (schema.mkRawTaint "node.scality.io/wp-unreachable" None "NoSchedule" None)) None None;
  schema.mkRawSpec None "WPUnavailable" (Some "False"%string) (Some demo_raw_taint)
    (Some (schema.mkRawDebounce (Some ".5s"%string) None)) None ].

Definition decoded (s : schema.raw_spec) : v1alpha1.NodeRemediationPolicy :=
  match schema.decode ParseDuration s with
  | inr spec => with_spec spec
  | inl _ => wp_policy
  end.

Lemma parses s : ParseDuration s = ParseDuration s.
Proof. done. Qed.

Lemma duration_rule_decodes_witness :
  schema.durationRule "1h30m" = true /\ ParseDuration "1h30m" = inr (90 * time.Minute)
  /\ exists cs, cs <> [] /\ to_bytes "1h30m" = render_all cs.
Proof.
  assert (schema.durationRule "1h30m" = true) as H by (vm_compute; reflexivity).
  split; [exact H|]. split; [vm_compute; reflexivity|].
  destruct (duration_rule_decodes ParseDuration parses "1h30m" H) as (cs & Hne & _ & Hs & _).
  exists cs. split; [exact Hne|exact Hs].
Defined.

Lemma admitted_spec_fits_witness :
  schema.admission None demo_raw = Some demo_stored
  /\ exists pure, projectPolicy (decoded demo_stored) = inr pure
       /\ 0 <= pure.(remediation.Policy_MaxAffectedPercent) <= 100.
Proof.
  assert (schema.admission None demo_raw = Some demo_stored) as Ha by (vm_compute; reflexivity).
  split; [exact Ha|].
  destruct (nodeSelector (decoded demo_stored)) as [e|sel] eqn:Hsel;
    [vm_compute in Hsel; discriminate|].
  destruct (admitted_spec_fits ParseDuration parses None demo_raw demo_stored (decoded demo_stored) sel Ha)
    as (pure & Hp & _ & _ & Hm & _); [vm_compute; reflexivity|exact Hsel|].
  exists pure. split; [exact Hp|exact Hm].
Defined.

Lemma taint_never_changes_witness :
  schema.admission None demo_raw = Some demo_stored
  /\ schema.condition_status (schema.updated demo_stored demo_updates) = Some "False"%string
  /\ schema.taint (schema.updated demo_stored demo_updates) = Some demo_raw_taint
  /\ policy_taint (decoded (schema.updated demo_stored demo_updates)) = policy_taint (decoded demo_stored).
Proof.
  assert (schema.admission None demo_raw = Some demo_stored) as Ha by (vm_compute; reflexivity).
  split; [exact Ha|]. split; [vm_compute; reflexivity|].
  destruct (taint_never_changes ParseDuration demo_raw demo_stored demo_updates _
              (decoded demo_stored) (decoded (schema.updated demo_stored demo_updates)) Ha eq_refl)
    as (_ & Ht & _ & Hp); [vm_compute; reflexivity|vm_compute; reflexivity|].
  split; [exact Ht|exact Hp].
Defined.

Lemma defaults_mirror_markers_witness :
  exists spec', schema.decode ParseDuration demo_stored = inr spec'
    /\ projectPolicy (decoded demo_raw)
       = projectPolicy (v1alpha1.mkNodeRemediationPolicy wp_policy.(v1alpha1.ObjectMeta) spec' empty_status).
Proof.
  apply (defaults_mirror_markers ParseDuration parses demo_raw). vm_compute. reflexivity.
Defined.

(** Three numbers of six digits. *)
Definition long_window : string := "999999h999999h999999h".
Definition long_components : list component :=
  replicate 3 (mkComponent (replicate 6 "9"%char) None "h").

Lemma long_written : written_as long_window long_components.
Proof.
  split; [done|]. split; [|by vm_compute].
  assert (schema.component_written (mkComponent (replicate 6 "9"%char) None "h")) as Hc.
  { split; [unfold written; split_and!; [by apply Forall_replicate|simpl; lia|done|by eexists]|].
    unfold schema.units. rewrite !elem_of_cons. simpl. tauto. }
  by apply Forall_replicate.
Qed.

Lemma admitted_decodes_unless_overflow_witness :
  schema.admission None demo_raw = Some demo_stored
  /\ exists s', schema.admission None (withEnter long_window demo_raw) = Some s'
       /\ schema.decode ParseDuration s' = inl (InvalidDuration long_window).
Proof.
  assert (schema.admission None demo_raw = Some demo_stored) as Ha by (vm_compute; reflexivity).
  split; [exact Ha|].
  destruct (admitted_decodes_unless_overflow ParseDuration parses None demo_raw demo_stored Ha)
    as (_ & _ & H).
  apply (H long_window long_components long_written); [repeat constructor|vm_compute; reflexivity].
Defined.
