(* ===== verification/ReconcileBounds.v ===== *)
(** How much one reconcile can do: it ends whatever it is answered, and the number of calls it makes
    is bounded by the number of nodes it was shown. *)

From S2P Require Import Prelude GoTime Types K8sLib PolicyApi Remediation DecideSpec Fixtures.
From S2P Require Import DecideProps DecideBounds Project ProjectProps Effects Cluster Taint Reconcile Scenarios.
Import project taint reconcile.

Section bounds.
Context `{K : K8s} `{R : Retry} `{RL : !RetryLaws K R}.
Implicit Types (tr : trace).

(** The nodes a trace shows: the items of every successful list answer. *)
Definition listed_by (e : event) : nat :=
  match e with
  | Ev ListNodes (inr l) => length l
  | Ev ReaderListNodes (inr l) => length l
  | _ => 0
  end.
Definition listed tr : nat := sum_list_with listed_by tr.

(** ** Calls *)

Lemma forEach_length {A S} (body : S -> A -> prog S) (c : nat) s l tr s' :
  (forall s x tr s', exec (body s x) tr s' -> (length tr <= c)%nat) ->
  exec (forEach body s l) tr s' -> (length tr <= c * length l)%nat.
Proof.
  intros Hc. revert s tr. induction l as [|x l IH]; intros s tr H; [by destruct H as [-> _]; simpl; lia|].
  apply exec_forEach_cons in H as (tr1 & s1 & tr2 & -> & H1%Hc & H2%IH). rewrite length_app. simpl. lia.
Qed.

(** A taint operation makes at most five reads and as many patches. *)
Lemma taint_calls_length tr :
  Forall (fun e => is_taint_call e.(ev_call)) tr ->
  length tr = (length (node_reads tr) + length (patches tr))%nat.
Proof.
  induction 1 as [|[c x] tr Hc _ IH]; [done|]. destruct c; try done.
  - change (S (length tr) = (length (node_reads tr) + S (length (patches tr)))%nat). lia.
  - change (S (length tr) = (S (length (node_reads tr)) + length (patches tr))%nat). lia.
Qed.

Lemma taint_trace_length limit name mutate tr changed err :
  taint_trace limit name mutate tr changed err -> (length tr <= 2 * limit)%nat.
Proof. intros ([_ Hr] & _ & Hc & Hp & _). rewrite (taint_calls_length tr Hc). lia. Qed.

Lemma recordTaintAction_length node policy reason pure name tr u :
  exec (recordTaintAction node policy reason pure name) tr u -> (length tr <= 2)%nat.
Proof.
  unfold recordTaintAction. destruct (decide (reason = reasonTaintRemoved)), node as [nd|];
    intros (tr1 & ? & tr2 & -> & H1 & H2)%exec_bind; exec_inv; simpl; lia.
Qed.

(** The log line and the events after a change. *)
Lemma announce_length {A} l node policy reason pure name (a : A) tr b :
  exec (call (Log l) ;; recordTaintAction node policy reason pure name ;; mret a) tr b ->
  (length tr <= 3)%nat.
Proof.
  intros (tr1 & [] & tr2 & -> & ->%exec_call & H)%exec_bind.
  apply exec_bind in H as (tr3 & u & tr4 & -> & H%recordTaintAction_length & [-> _]%exec_ret).
  rewrite app_nil_r. simpl. lia.
Qed.

Lemma applyNode_length policy pure byName errs name tr errs' :
  exec (applyNode policy pure byName errs name) tr errs' -> (length tr <= 13)%nat.
Proof.
  unfold applyNode. intros (tr1 & [changed err] & tr2 & -> & H1 & H2)%exec_bind.
  apply EnsureTaint_taint_trace, taint_trace_length in H1. rewrite length_app.
  destruct err as [e|]; [destruct H2 as [-> _]; simpl; lia|].
  destruct changed; simpl in H2; [apply announce_length in H2|destruct H2 as [-> _]; simpl]; lia.
Qed.

Lemma removeNode_length policy pure byName errs name tr errs' :
  exec (removeNode policy pure byName errs name) tr errs' -> (length tr <= 13)%nat.
Proof.
  unfold removeNode. intros (tr1 & [changed err] & tr2 & -> & H1 & H2)%exec_bind.
  apply RemoveTaint_taint_trace, taint_trace_length in H1. rewrite length_app.
  destruct err as [e|]; [destruct H2 as [-> _]; simpl; lia|].
  destruct changed; simpl in H2; [apply announce_length in H2|destruct H2 as [-> _]; simpl]; lia.
Qed.

Lemma cleanupNode_length policy pure errs node tr errs' :
  exec (cleanupNode policy pure errs node) tr errs' -> (length tr <= 13)%nat.
Proof.
  unfold cleanupNode. destruct (negb _); [by intros [-> _]; simpl; lia|].
  intros (tr1 & [changed err] & tr2 & -> & H1 & H2)%exec_bind.
  apply RemoveTaint_taint_trace, taint_trace_length in H1. rewrite length_app.
  destruct err as [e|]; [destruct H2 as [-> _]; simpl; lia|].
  destruct changed; [apply announce_length in H2|destruct H2 as [-> _]; simpl]; lia.
Qed.

Lemma warnings_length policy pure d old oldHeld tr1 u1 tr2 u2 l :
  exec (warnGuard policy pure d old) tr1 u1 -> exec (forEach (warnHeld policy pure oldHeld) tt l) tr2 u2 ->
  (length tr1 <= 2 /\ length tr2 <= 2 * length l)%nat.
Proof.
  intros H1 H2. split.
  - unfold warnGuard in H1. destruct (_ && _); [|destruct H1 as [-> _]; simpl; lia].
    destruct H1 as ([] & ? & -> & [] & ? & -> & -> & _). simpl. lia.
  - eapply forEach_length; [|exact H2]. intros s name tr s' H. unfold warnHeld in H.
    case_decide; [destruct H as [-> _]; simpl; lia|].
    destruct H as ([] & ? & -> & [] & ? & -> & -> & _). simpl. lia.
Qed.

Lemma listed_app tr tr' : listed (tr ++ tr') = (listed tr + listed tr')%nat.
Proof. apply sum_list_with_app. Qed.

(** ** The parts of a reconcile *)

Lemma cleanupTaints_length p tr err :
  exec (cleanupTaints p) tr err -> (length tr <= 1 + 13 * listed tr)%nat.
Proof.
  unfold cleanupTaints. destruct (v1alpha1.Remediations_Taint _) as [t|]; [|by intros [-> _]; simpl; lia].
  intros (tr1 & r & tr2 & -> & ->%exec_call & H)%exec_bind.
  destruct r as [e|nodes]; [destruct H as [-> _]; simpl; lia|].
  apply exec_bind in H as (tr3 & errs & tr4 & -> & H & [-> _]).
  apply (forEach_length _ 13) in H; [|intros *; apply cleanupNode_length].
  rewrite app_nil_r. unfold listed. simpl. fold (listed tr3). lia.
Qed.

Lemma finalize_length p tr a : exec (finalize p) tr a -> (length tr <= 2 + 13 * listed tr)%nat.
Proof.
  unfold finalize. destruct (contains p); [|intros [-> _]; simpl; lia].
  intros (tr1 & e & tr2 & -> & H1%cleanupTaints_length & H)%exec_bind. rewrite length_app, listed_app.
  destruct e as [e|]; [destruct H as [-> _]; simpl; lia|].
  apply exec_bind in H as (tr3 & r & tr4 & -> & ->%exec_call & H).
  assert (tr4 = []) as -> by by (destruct r; destruct H). simpl. lia.
Qed.

Lemma observeDecideAct_length p o tr a :
  exec (observeDecideAct p o) tr a -> (length tr <= 5 + 13 * listed tr)%nat.
Proof.
  unfold observeDecideAct. destruct (projectPolicy p) as [perr|pure]; intros H.
  - apply exec_bind in H as (tr1 & stamp & tr2 & -> & ->%exec_call & H).
    destruct (negb (DeepEqual _ _)).
    + destruct H as ([] & ? & -> & [] & ? & -> & -> & _). simpl. lia.
    + destruct H as [-> _]. simpl. lia.
  - apply exec_bind in H as (tr1 & r & tr2 & -> & ->%exec_call & H).
    destruct r as [lerr|nodes]; [destruct H as [-> _]; simpl; lia|].
    destruct (observeNodes nodes pure) as [facts byName] eqn:Hobs.
    assert (length facts = length nodes) as Hlen
      by (change facts with ((facts, byName).1); rewrite <- Hobs, observeNodes_facts; apply length_fmap).
    apply exec_bind in H as (tr3 & now & tr4 & -> & ->%exec_call & H).
    apply exec_bind in H as (trA & errsA & tr5 & -> & HA & H).
    apply exec_bind in H as (trR & errsR & tr6 & -> & HR & H).
    apply exec_bind in H as (tr7 & stamp & tr8 & -> & ->%exec_call & H).
    destruct (writeStatus stamp p _) as [pw dw] eqn:Hw. unfold writeStatus in Hw. injection Hw as _ <-.
    apply exec_bind in H as (trW & u & tr9 & -> & HW & H).
    apply exec_bind in H as (trH & u' & tr10 & -> & HH & H).
    destruct (warnings_length _ _ _ _ _ _ _ _ _ _ HW HH) as [HlW HlH].
    apply (forEach_length _ 13) in HA; [|intros *; apply applyNode_length].
    apply (forEach_length _ 13) in HR; [|intros *; apply removeNode_length].
    assert (tr10 = []) as -> by (destruct (NewAggregate _); by destruct H as [-> _]).
    cbn [sortDecision remediation.Decision_HeldMissingTimestamp] in HlH. rewrite sort_strings_perm in HlH.
    pose proof (Decide_acts_once pure facts now) as Hd. cbv zeta in Hd.
    rewrite listed_app. change (listed [Ev ListNodes (inr nodes)]) with (length nodes + 0)%nat.
    cbn [app length]. rewrite !length_app. cbn [app length]. rewrite !length_app. cbn [length]. lia.
Qed.

Lemma deferredStatusWrite_length o p e tr a :
  exec (deferredStatusWrite o p e) tr a -> (length tr <= 2)%nat.
Proof.
  unfold deferredStatusWrite. destruct (DeepEqual _ _); [intros [-> _]; simpl; lia|].
  intros (r & tr' & -> & H). simpl in H. destruct (IgnoreNotFound r) as [err|].
  - destruct H as ([] & tr2 & -> & H). destruct e; destruct H as [-> _]; simpl; lia.
  - destruct H as [-> _]. simpl. lia.
Qed.

Lemma ensureFinalizer_length p tr a : exec (ensureFinalizer p) tr a -> (length tr <= 1)%nat.
Proof.
  unfold ensureFinalizer. destruct (negb _); [|intros [-> _]; simpl; lia].
  intros (r & tr' & -> & H). simpl in H. destruct r; destruct H as [-> _]; simpl; lia.
Qed.

Lemma Reconcile_length name tr a :
  exec (Reconcile name) tr a -> (length tr <= 9 + 13 * listed tr)%nat.
Proof.
  unfold Reconcile. intros (tr1 & r & tr2 & -> & ->%exec_call & H)%exec_bind.
  destruct r as [e|p]; [destruct H as [-> _]; simpl; lia|].
  unfold listed. simpl. fold (listed tr2). destruct (Time_IsZero _); [|apply finalize_length in H; lia].
  apply exec_bind in H as (tr3 & f & tr4 & -> & Hf%ensureFinalizer_length & H).
  rewrite length_app, listed_app. destruct f as [e|p']; [destruct H as [-> _]; simpl; lia|].
  apply exec_bind in H as (tr5 & [[p1 res1] err1] & tr6 & -> & H1%observeDecideAct_length & H).
  apply exec_bind in H as (tr7 & err2 & tr8 & -> & H2%deferredStatusWrite_length & [-> _]).
  rewrite !length_app, !listed_app. simpl. lia.
Qed.

(** C11: A reconcile terminates, however the calls are answered — by any cluster [h] in any state,
    answering with any errors, conflicts without end included — and it makes at most nine calls plus
    thirteen for each node it was shown: at most five attempts of a read and a patch for a node, one
    log line and two events.  No answer makes it loop, and no node is worked on twice in one pass. *)
Theorem reconcile_bounded {St} (h : handler St) (st : St) (name : string) :
  exists tr res st',
    run h (Reconcile name) st = (res, st') /\ exec (Reconcile name) tr res /\ follows h st tr st'
    /\ (length tr <= 9 + 13 * listed tr)%nat.
Proof.
  destruct (run h (Reconcile name) st) as [res st'] eqn:Hr. pose proof Hr as Hr'.
  apply run_exec in Hr' as (tr & He & Hf). exists tr, res, st'. split_and!; try done.
  by eapply Reconcile_length.
Qed.

End bounds.

(** ** Witness: a server on which every node patch meets a conflict *)

Lemma reconcile_bounded_witness :
  let stormy : handler ReferenceServer.state := fun c =>
    match c return ReferenceServer.state -> Answer c * ReferenceServer.state with
    | PatchNode m _ => fun st => (Some (errors.Conflict m.(corev1.Node_Name)), st)
    | c => ReferenceServer.serve c
    end in
  exists tr res st', run stormy (Reconcile "wp-policy") (cluster_with wp_policy) = (res, st')
    /\ is_Some res.2 /\ exec (Reconcile "wp-policy") tr res /\ (length tr <= 9 + 13 * listed tr)%nat.
Proof.
  intros stormy.
  destruct (reconcile_bounded stormy (cluster_with wp_policy) "wp-policy")
    as (tr & res & st' & Hr & He & _ & Hl).
  exists tr, res, st'. split; [exact Hr|]. split; [|split; [exact He|exact Hl]].
  assert (is_Some (run stormy (Reconcile "wp-policy") (cluster_with wp_policy)).1.2) as Hs
    by (vm_compute; eexists; reflexivity).
  rewrite Hr in Hs. exact Hs.
Defined.
