(* ===== verification/HeapStatus.v ===== *)
(** The status writers over the heap: [writeStatus] of
    [internal/controller/noderemediationpolicy_controller.go] and the condition writers of
    [api/v1alpha1/noderemediationpolicy_status.go] as they run, sorting the decision's arrays in
    place, sharing them with the policy's status and updating the conditions where they lie. *)

From S2P Require Import Prelude GoTime Types K8sLib PolicyApi Remediation.
From S2P Require Import Project Heap HeapCopy DeepCopy DeepCopyProps.
Import deepcopy.

(** ** Programs that overwrite *)
Section writes.
Context {cell : Type}.
Implicit Types (h : heap cell) (W F G : gset loc).

(** [m] does not panic, frees nothing, and of what was allocated writes at most [W]. *)
Definition writes {A} (m : M cell A) h W (Q : A -> heap cell -> Prop) : Prop :=
  exists a h', m h = Some (a, h') /\ dom h ⊆ dom h' /\ agree (dom h ∖ W) h h' /\ Q a h'.

Lemma writes_bind {A B} (m : M cell A) (k : A -> M cell B) h W W1 P Q :
  writes m h W1 P -> W1 ⊆ W ->
  (forall a h1, dom h ⊆ dom h1 -> agree (dom h ∖ W1) h h1 -> P a h1 -> writes (k a) h1 W Q) ->
  writes (m ≫= k) h W Q.
Proof.
  intros (a & h1 & Hm & Hd & Ha & HP) HW Hk.
  destruct (Hk a h1 Hd Ha HP) as (b & h2 & Hm2 & Hd2 & Ha2 & HQ).
  exists b, h2. unfold mbind, M_bind. rewrite Hm. split_and!; [done|set_solver| |done].
  intros l Hl. rewrite Ha2 by set_solver. apply Ha. set_solver.
Qed.

Lemma writes_read {A B} (m : M cell A) (k : A -> M cell B) h a W Q :
  m h = Some (a, h) -> writes (k a) h W Q -> writes (m ≫= k) h W Q.
Proof.
  intros Hm (b & h' & Hk & HQ). exists b, h'. split; [|done]. unfold mbind, M_bind. by rewrite Hm.
Qed.

Lemma writes_ret {A} (a : A) h W (Q : A -> heap cell -> Prop) : Q a h -> writes (mret a) h W Q.
Proof. intros HQ. by exists a, h. Qed.

Lemma writes_weaken {A} (m : M cell A) h W W' (P Q : A -> heap cell -> Prop) :
  writes m h W P -> W ⊆ W' -> (forall a h', P a h' -> Q a h') -> writes m h W' Q.
Proof.
  intros (a & h' & Hm & Hd & Ha & HP) HW HPQ. exists a, h'. split_and!; [done|done| |by apply HPQ].
  intros l Hl. apply Ha. set_solver.
Qed.

Lemma writes_load {T} `{C : Cell cell T} h l (x : T) W :
  h !! l = Some (inject x) -> writes (load l) h W (fun y h' => y = x /\ h' = h).
Proof. intros Hl. exists x, h. rewrite (load_inject _ _ _ Hl). done. Qed.

Lemma writes_store {T} `{C : Cell cell T} h l c (x : T) :
  h !! l = Some c -> writes (store l x) h {[l]} (fun _ h' => h' = <[l := inject x]> h).
Proof.
  intros Hl. eexists _, _. rewrite (store_some _ _ _ _ Hl). split_and!; [done|set_solver| |done].
  intros k Hk. rewrite lookup_insert_ne; [done|]. set_solver.
Qed.

(** No address is in two of the sets. *)
Fixpoint separate (Fs : list (gset loc)) : Prop :=
  match Fs with [] => True | F :: Fs => F ## ⋃ Fs /\ separate Fs end.

(** What does not lie in what is written stays. *)
Lemma framed_writes {T V} (D : denotation cell T V) `{!Framed D} h h' W x v F :
  D h x v F -> F ## W -> agree (dom h ∖ W) h h' -> D h' x v F.
Proof.
  intros HD HF Ha. eapply framed_agree; [exact HD|]. apply framed_dom in HD.
  intros l Hl. apply Ha. set_solver.
Qed.

End writes.

Module memory.

(** ** The decision as it lies in memory *)
Record Decision := mkDecision {
  ApplyTaint : option slice;
  RemoveTaint : option slice;
  HeldMissingTimestamp : option slice;
  RequeueAfter : time.Duration;
  SelectedNodes : option slice;
  MatchedNodes : option slice;
  PendingNodes : option slice;
  UnknownNodes : option slice;
  RemediatedNodes : option slice;
  GuardTripped : bool;
  DeterminateCount : Z;
}.

(** [len] of a slice; nil has length 0. *)
Definition slice_length (s : option slice) : Z :=
  match s with Some s => Z.of_nat s.(slice_len) | None => 0 end.

(** ** The library's part *)

(** [p.Generation], and [apimeta.SetStatusCondition]: the slice header it leaves at the pointer. *)
Class ConditionWriter `{B : Library} := {
  Generation : L_ObjectMeta -> Z;
  SetStatusConditionAt : time.Time -> metav1.Condition -> option slice -> M cell (option slice);
}.

(** It does what the value-level function does, in the old conditions' cells or in new ones. *)
Class ConditionWriterLaws `{K : K8s} `{W : ConditionWriter} : Prop := {
  Generation_spec : forall (h : heap cell) m v F,
    denotes (T := L_ObjectMeta) h m v F -> Generation m = v.(metav1.ObjectMeta_Generation);
  SetStatusConditionAt_spec : forall now c (h : heap cell) s vs F,
    denotes_slice (T := L_Condition) denotes h s vs F ->
    writes (SetStatusConditionAt now c s) h F (fun s' h' =>
      exists vs' F', denotes_slice (T := L_Condition) denotes h' s' vs' F' /\ F' ## dom h ∖ F
        /\ default [] vs' = SetStatusCondition now (default [] vs) c);
}.

Section memory.
Context `{W : ConditionWriter}.

(** ** Condition writers *)

Definition setRemediatingCondition (now : time.Time) (p : loc) (st reason message : string) :
    M cell unit :=
  x ← load p;
  conditions ← SetStatusConditionAt now
    {| metav1.Condition_Type := status.ConditionRemediating;
       metav1.Condition_Status := st;
       metav1.Condition_Reason := reason;
       metav1.Condition_Message := message;
       metav1.Condition_ObservedGeneration := Generation x.(ObjectMeta);
       metav1.Condition_LastTransitionTime := time.zero |}
    x.(Policy_Status).(Conditions);
  store p
    (mkPolicy x.(TypeMeta) x.(ObjectMeta) x.(Policy_Spec)
       (let s := x.(Policy_Status) in
        mkStatus s.(deepcopy.SelectedNodes) s.(deepcopy.MatchedNodes) s.(deepcopy.PendingNodes)
          s.(deepcopy.UnknownNodes) s.(HeldNodes) s.(deepcopy.RemediatedNodes) s.(SelectedCount)
          s.(MatchedCount) s.(PendingCount) s.(UnknownCount) s.(HeldCount) s.(RemediatedCount)
          conditions)).

Definition MarkGuardTripped now p (remediated : Z) : M cell unit :=
  setRemediatingCondition now p metav1.ConditionFalse status.ReasonGuardTripped
    ("guard tripped: too many matching nodes; holding new remediations, "
     +:+ pretty remediated +:+ " node(s) currently remediated").

Definition MarkNodesRemediated now p (count : Z) : M cell unit :=
  setRemediatingCondition now p metav1.ConditionTrue status.ReasonNodesRemediated
    (pretty count +:+ " node(s) remediated").

Definition MarkPending now p (count : Z) : M cell unit :=
  setRemediatingCondition now p metav1.ConditionFalse status.ReasonPending
    (pretty count +:+ " node(s) awaiting the debounce window before remediation").

Definition MarkHeld now p (count : Z) : M cell unit :=
  setRemediatingCondition now p metav1.ConditionFalse status.ReasonHeld
    (pretty count
     +:+ " node(s) held pending a usable condition signal (missing lastTransitionTime or unknown status)").

Definition MarkNoRemediation now p : M cell unit :=
  setRemediatingCondition now p metav1.ConditionFalse status.ReasonNoRemediation
    "no nodes require remediation".

(** ** [writeStatus] *)

(** [slices.Sort], in place. *)
Definition sortStrings (s : option slice) : M cell unit :=
  match s with
  | None => mret tt
  | Some s => xs ← readSlice s; writeSlice s (sort_strings xs)
  end.

Fixpoint sortAll (ss : list (option slice)) : M cell unit :=
  match ss with [] => mret tt | s :: ss => sortStrings s ;; sortAll ss end.

(** The slices the code sorts, in its order. *)
Definition sorted_slices (d : Decision) : list (option slice) :=
  [d.(SelectedNodes); d.(MatchedNodes); d.(PendingNodes); d.(UnknownNodes);
   d.(HeldMissingTimestamp); d.(RemediatedNodes)].

(** The six slice headers and the six counts: the policy shares the decision's arrays from here on. *)
Definition assignStatus (p : loc) (d : Decision) : M cell unit :=
  x ← load p;
  let count s := wrap32 (slice_length s) in
  store p
    (mkPolicy x.(TypeMeta) x.(ObjectMeta) x.(Policy_Spec)
       (mkStatus d.(SelectedNodes) d.(MatchedNodes) d.(PendingNodes) d.(UnknownNodes)
          d.(HeldMissingTimestamp) d.(RemediatedNodes)
          (count d.(SelectedNodes)) (count d.(MatchedNodes)) (count d.(PendingNodes))
          (count d.(UnknownNodes)) (count d.(HeldMissingTimestamp)) (count d.(RemediatedNodes))
          x.(Policy_Status).(Conditions))).

Definition markDecision (now : time.Time) (p : loc) (d : Decision) : M cell unit :=
  let remediated := slice_length d.(RemediatedNodes) in
  let pending := slice_length d.(PendingNodes) in
  let held := slice_length d.(HeldMissingTimestamp) in
  let unknown := slice_length d.(UnknownNodes) in
  if d.(GuardTripped) then MarkGuardTripped now p remediated
  else if 0 <? remediated then MarkNodesRemediated now p remediated
  else if 0 <? pending then MarkPending now p pending
  else if (0 <? held) || (0 <? unknown) then MarkHeld now p (wrap64 (held + unknown))
  else MarkNoRemediation now p.

Definition writeStatus (now : time.Time) (p : loc) (d : Decision) : M cell unit :=
  sortAll (sorted_slices d) ;;
  assignStatus p d ;;
  markDecision now p d.

(** ** What a decision in memory stands for *)

(** A list of names; nil and empty are one. *)
Definition denotes_names : denotation cell (option slice) (list string) := fun h s l F =>
  exists vs, denotes_strings h s vs F /\ default [] vs = l.

Definition sorted_lists (d : remediation.Decision) : list (list string) :=
  let s := d.(remediation.Decision_Status) in
  [s.(remediation.Status_SelectedNodes); s.(remediation.Status_MatchedNodes);
   s.(remediation.Status_PendingNodes); s.(remediation.Status_UnknownNodes);
   d.(remediation.Decision_HeldMissingTimestamp); s.(remediation.Status_RemediatedNodes)].

(** The sorted lists lie at [Fs], one each, the two others at [G]. *)
Record denotes_Decision (h : heap cell) (d : Decision) (v : remediation.Decision)
    (Fs : list (gset loc)) (G : gset loc) : Prop := {
  decision_lists : Forall3 (denotes_names h) (sorted_slices d) (sorted_lists v) Fs;
  decision_actions : exists F1 F2,
    denotes_names h d.(ApplyTaint) v.(remediation.Decision_ApplyTaint) F1
    /\ denotes_names h d.(RemoveTaint) v.(remediation.Decision_RemoveTaint) F2 /\ G = F1 ∪ F2;
  decision_requeue : d.(RequeueAfter) = v.(remediation.Decision_RequeueAfter);
  decision_guard :
    d.(GuardTripped) = v.(remediation.Decision_Status).(remediation.Status_GuardTripped);
  decision_determinate :
    d.(DeterminateCount) = v.(remediation.Decision_Status).(remediation.Status_DeterminateCount);
}.

(** The policy, and the cells a write of its status reads: not those of the node lists, which it
    replaces. *)
Definition policy_at (h : heap cell) (p : loc) (v : goPolicy) (FM FS FC : gset loc) : Prop :=
  exists x, h !! p = Some (CPolicy x) /\ x.(TypeMeta) = v.(goTypeMeta)
    /\ denotes (T := L_ObjectMeta) h x.(ObjectMeta) v.(goObjectMeta) FM
    /\ denotes_Spec h x.(Policy_Spec) v.(goSpec) FS
    /\ denotes_slice (T := L_Condition) denotes h x.(Policy_Status).(Conditions)
         v.(goStatus_of).(goConditions) FC.

(** The struct [assignStatus] and a mark leave. *)
Definition written (x : Policy) (d : Decision) (conditions : option slice) : Policy :=
  let count s := wrap32 (slice_length s) in
  mkPolicy x.(TypeMeta) x.(ObjectMeta) x.(Policy_Spec)
    (mkStatus d.(SelectedNodes) d.(MatchedNodes) d.(PendingNodes) d.(UnknownNodes)
       d.(HeldMissingTimestamp) d.(RemediatedNodes)
       (count d.(SelectedNodes)) (count d.(MatchedNodes)) (count d.(PendingNodes))
       (count d.(UnknownNodes)) (count d.(HeldMissingTimestamp)) (count d.(RemediatedNodes))
       conditions).

#[global] Instance framed_names : Framed denotes_names.
Proof.
  split.
  - intros h h' s l F (vs & H & <-) Ha. exists vs. split; [|done]. by eapply framed_agree.
  - intros h s l F (vs & H & _). by apply framed_dom in H.
Qed.

End memory.
End memory.
