(* ===== verification/HeapDecide.v ===== *)
(** [Decide] of [internal/remediation/remediation.go] over the heap: every list of the decision grown
    by [append], each in an array of its own, and the decision it returns standing for the value-level
    one. *)

From S2P Require Import Prelude GoTime Types K8sLib PolicyApi Remediation.
From S2P Require Import Heap HeapCopy DeepCopy DeepCopyProps HeapStatus.
Import deepcopy memory.

Module decide.

(** ** [append] *)

(** How many cells beyond the ones asked for the runtime allocates. *)
Class Growth := { spare : nat -> nat }.

Section decide.
Context `{Y : Layouts} `{G : Growth}.

Definition reallocate (old new : list string) : M cell (option slice) :=
  let all := old ++ new in
  l ← alloc (CStrings (all ++ replicate (spare (length all)) EmptyString));
  mret (Some (mkSlice l 0 (length all))).

(** In place when the array has room behind the slice, into a new array when not; nothing appended to
    nil is nil. *)
Definition append (s : option slice) (new : list string) : M cell (option slice) :=
  match s with
  | None => match new with [] => mret None | _ => reallocate [] new end
  | Some s =>
      xs ← load (T := list string) s.(array);
      let next := mkSlice s.(array) (s.(offset) + s.(slice_len)) (length new) in
      if decide (next.(offset) + length new <= length xs)%nat then
        store s.(array) (overwrite next new xs) ;;
        mret (Some (mkSlice s.(array) s.(offset) (s.(slice_len) + length new)))
      else reallocate (elements s xs) new
  end.

(** ** The decision's lists *)

Inductive field := FApply | FRemove | FHeld | FSelected | FMatched | FPending | FUnknown | FRemediated.

#[global] Instance field_eq_dec : EqDecision field.
Proof. solve_decision. Defined.

Definition slice_of (f : field) (d : Decision) : option slice :=
  match f with
  | FApply => d.(ApplyTaint) | FRemove => d.(RemoveTaint) | FHeld => d.(HeldMissingTimestamp)
  | FSelected => d.(SelectedNodes) | FMatched => d.(MatchedNodes) | FPending => d.(PendingNodes)
  | FUnknown => d.(UnknownNodes) | FRemediated => d.(RemediatedNodes)
  end.

Definition set_slice (f : field) (s : option slice) (d : Decision) : Decision :=
  let '(mkDecision a r h q se m p u re g c) := d in
  match f with
  | FApply => mkDecision s r h q se m p u re g c
  | FRemove => mkDecision a s h q se m p u re g c
  | FHeld => mkDecision a r s q se m p u re g c
  | FSelected => mkDecision a r h q s m p u re g c
  | FMatched => mkDecision a r h q se s p u re g c
  | FPending => mkDecision a r h q se m s u re g c
  | FUnknown => mkDecision a r h q se m p s re g c
  | FRemediated => mkDecision a r h q se m p u s g c
  end.

(** [d.X = append(d.X, new...)] *)
Definition appendTo (f : field) (new : list string) (d : Decision) : M cell Decision :=
  s ← append (slice_of f d) new;
  mret (set_slice f s d).

(** ** [Decide] *)

(** One iteration of the action loop. *)
Definition act_node (p : remediation.Policy) (guardTripped : bool) (now : time.Time)
    (st : Decision * time.Duration) (e : remediation.evaluated) : M cell (Decision * time.Duration) :=
  let '(d, requeue) := st in
  let n := e.(remediation.evaluated_NodeFact) in
  let name := n.(remediation.NodeFact_Name) in
  let status := n.(remediation.NodeFact_Condition).(remediation.ConditionFact_Status) in
  let since := n.(remediation.NodeFact_Condition).(remediation.ConditionFact_LastTransition) in
  d ← appendTo FSelected [name] d;
  d ← (if n.(remediation.NodeFact_HasTaint) then appendTo FRemediated [name] d else mret d);
  let noTimestamp := time.IsZero since in
  let stableFor := time.Sub now since in
  if e.(remediation.evaluated_matches) then
    d ← appendTo FMatched [name] d;
    if n.(remediation.NodeFact_HasTaint) then mret (d, requeue)
    else if noTimestamp then d ← appendTo FHeld [name] d; mret (d, requeue)
    else
      d ← appendTo FPending [name] d;
      if guardTripped then mret (d, requeue)
      else if p.(remediation.Policy_DebounceEnter) <=? stableFor
      then d ← appendTo FApply [name] d; mret (d, requeue)
      else mret (d, remediation.minPositive requeue
                      (time.sub_duration p.(remediation.Policy_DebounceEnter) stableFor))
  else if bool_decide (status = remediation.statusUnknown) || bool_decide (status = EmptyString) then
    d ← appendTo FUnknown [name] d; mret (d, requeue)
  else if n.(remediation.NodeFact_HasTaint) then
    if noTimestamp then d ← appendTo FHeld [name] d; mret (d, requeue)
    else if p.(remediation.Policy_DebounceExit) <=? stableFor
    then d ← appendTo FRemove [name] d; mret (d, requeue)
    else mret (d, remediation.minPositive requeue
                    (time.sub_duration p.(remediation.Policy_DebounceExit) stableFor))
  else mret (d, requeue).

Definition set_RequeueAfter (q : time.Duration) (d : Decision) : Decision :=
  let '(mkDecision a r h _ se m p u re g c) := d in mkDecision a r h q se m p u re g c.

(** The selection loop's variables do not escape, so they stay values; what does escape is built on
    the heap. *)
Definition Decide `{K : K8s} (p : remediation.Policy) (nodes : list remediation.NodeFact)
    (now : time.Time) : M cell Decision :=
  let sel := match p.(remediation.Policy_Selector) with None => Everything | Some s => s end in
  let s := foldl (remediation.select_node p sel) (remediation.mkScope [] [] 0 0) nodes in
  let guardTripped :=
    remediation.guard_trips p.(remediation.Policy_MaxAffectedPercent)
      s.(remediation.matchedCount) s.(remediation.determinateCount) in
  let d := mkDecision None None None 0 None None None None None guardTripped
             s.(remediation.determinateCount) in
  d ← appendTo FRemove s.(remediation.scopedOutTainted) d;
  '(d, requeue) ← foldM (act_node p guardTripped now) (d, 0) s.(remediation.selected);
  mret (set_RequeueAfter requeue d).

(** ** One pass over the policy in memory *)

(** The statements of [Reconcile] that touch the policy, its copy and the decision: the deep copy
    before anything else, the decision, the old held list by its slice header, the write of the
    status.  What lies between them — listing, taint writes, events — only reads these. *)
Definition statusPass `{K : K8s} `{B : !Library} `{W : !ConditionWriter} (now stamp : time.Time)
    (p : loc) (pure : remediation.Policy) (facts : list remediation.NodeFact) :
    M cell (option loc * option slice * Decision) :=
  original ← Policy_DeepCopy (Some p);
  d ← Decide pure facts now;
  x ← load (T := Policy) p;
  let oldHeld := x.(Policy_Status).(deepcopy.HeldNodes) in
  writeStatus stamp p d ;;
  mret (original, oldHeld, d).

(** ** What it stands for *)

Definition list_of (f : field) (v : remediation.Decision) : list string :=
  match f with
  | FApply => v.(remediation.Decision_ApplyTaint)
  | FRemove => v.(remediation.Decision_RemoveTaint)
  | FHeld => v.(remediation.Decision_HeldMissingTimestamp)
  | FSelected => v.(remediation.Decision_Status).(remediation.Status_SelectedNodes)
  | FMatched => v.(remediation.Decision_Status).(remediation.Status_MatchedNodes)
  | FPending => v.(remediation.Decision_Status).(remediation.Status_PendingNodes)
  | FUnknown => v.(remediation.Decision_Status).(remediation.Status_UnknownNodes)
  | FRemediated => v.(remediation.Decision_Status).(remediation.Status_RemediatedNodes)
  end.

Definition append_value (f : field) (new : list string) (v : remediation.Decision) :
    remediation.Decision :=
  let '(remediation.mkDecision a r h q (remediation.mkStatus s m p u re g c)) := v in
  let on g l := if decide (f = g) then l ++ new else l in
  remediation.mkDecision (on FApply a) (on FRemove r) (on FHeld h) q
    (remediation.mkStatus (on FSelected s) (on FMatched m) (on FPending p) (on FUnknown u)
       (on FRemediated re) g c).

Definition scalars (d : Decision) : time.Duration * bool * Z :=
  (d.(RequeueAfter), d.(GuardTripped), d.(DeterminateCount)).
Definition scalars_of (v : remediation.Decision) : time.Duration * bool * Z :=
  (v.(remediation.Decision_RequeueAfter),
   v.(remediation.Decision_Status).(remediation.Status_GuardTripped),
   v.(remediation.Decision_Status).(remediation.Status_DeterminateCount)).

(** In [h], grown from [h0] and leaving it as it was, the decision stands for [v]: every list lies in
    cells of its own that [h0] did not have. *)
Definition built (h0 h : heap cell) (d : Decision) (v : remediation.Decision) : Prop :=
  h0 ⊆ h /\ scalars d = scalars_of v
  /\ exists Fs : field -> gset loc,
      (forall f, denotes_names h (slice_of f d) (list_of f v) (Fs f) /\ Fs f ## dom h0)
      /\ (forall f g, f <> g -> Fs f ## Fs g).

End decide.
End decide.
