(* ===== verification/HeapDecideProps.v ===== *)
(** [Decide] over the heap computes what [Decide] over values does, in arrays of its own. *)

From S2P Require Import Prelude GoTime Types K8sLib PolicyApi Remediation DecideSpec.
From S2P Require Import Heap HeapCopy DeepCopy DeepCopyProps HeapStatus HeapDecide.
Import deepcopy memory decide.

(** ** Programs that run to a result *)
Section reaches.
Context {cell : Type}.

Definition reaches {A} (m : M cell A) (h : heap cell) (Q : A -> heap cell -> Prop) : Prop :=
  exists a h', m h = Some (a, h') /\ Q a h'.

Lemma reaches_bind {A B} (m : M cell A) (k : A -> M cell B) h P Q :
  reaches m h P -> (forall a h1, P a h1 -> reaches (k a) h1 Q) -> reaches (m ≫= k) h Q.
Proof.
  intros (a & h1 & Hm & HP) Hk. destruct (Hk a h1 HP) as (b & h2 & Hb & HQ). exists b, h2.
  unfold mbind, M_bind. by rewrite Hm.
Qed.

Lemma reaches_step {A B} (m : M cell A) (k : A -> M cell B) h a h1 Q :
  m h = Some (a, h1) -> reaches (k a) h1 Q -> reaches (m ≫= k) h Q.
Proof.
  intros Hm (b & h2 & Hb & HQ). exists b, h2. unfold mbind, M_bind. by rewrite Hm.
Qed.

Lemma reaches_ret {A} (a : A) h (Q : A -> heap cell -> Prop) : Q a h -> reaches (mret a) h Q.
Proof. intros HQ. by exists a, h. Qed.

(** A loop that keeps a relation to its value-level twin. *)
Lemma reaches_foldM {A S V} (body : S -> A -> M cell S) (value : V -> A -> V)
    (P : S -> V -> heap cell -> Prop) s v l h :
  (forall s v x h, P s v h -> reaches (body s x) h (fun s' h' => P s' (value v x) h')) ->
  P s v h -> reaches (foldM body s l) h (fun s' h' => P s' (foldl value v l) h').
Proof.
  intros Hbody. revert s v h. induction l as [|x l IH]; intros s v h HP; simpl; [by apply reaches_ret|].
  eapply reaches_bind; [by apply Hbody|]. intros s' h1 HP'. by apply IH.
Qed.

End reaches.

Section lemmas.
Context `{Y : Layouts} `{GR : Growth}.
Implicit Types (h : heap cell) (F : gset loc).

(** ** [append] *)

Lemma reallocate_spec h old new :
  exists out h', reallocate old new h = Some (Some (mkSlice out 0 (length (old ++ new))), h')
    /\ h ⊆ h' /\ (out ∉ dom h)
    /\ denotes_names h' (Some (mkSlice out 0 (length (old ++ new)))) (old ++ new) ({[out]} ∪ ∅).
Proof.
  set (out := fresh (dom h)). pose proof (is_fresh (dom h)) as Hout. fold out in Hout.
  eexists out, _. split; [reflexivity|]. fold out. split_and!; [|done|].
  - apply insert_subseteq. by apply not_elem_of_dom.
  - exists (Some (old ++ new)). split; [|done]. eexists _, ∅. rewrite lookup_insert_eq.
    unfold in_range, elements. simpl. rewrite drop_0, take_app_length.
    split_and!; [reflexivity|rewrite !length_app; lia|by apply denotes_list_flat|done].
Qed.

Lemma overwrite_behind (s : slice) (xs new : list string) :
  in_range s xs -> (offset s + slice_len s + length new <= length xs)%nat ->
  let next := mkSlice (array s) (offset s + slice_len s) (length new) in
  in_range (mkSlice (array s) (offset s) (slice_len s + length new)) (overwrite next new xs)
  /\ elements (mkSlice (array s) (offset s) (slice_len s + length new)) (overwrite next new xs)
     = elements s xs ++ new.
Proof.
  unfold in_range, overwrite, elements. simpl. intros Hr Hn. split.
  - rewrite !length_app, length_take, length_drop. lia.
  - rewrite drop_app_le by (rewrite length_take; lia).
    rewrite <- take_drop_commute, app_assoc.
    rewrite take_app_length' by (rewrite length_app, length_take, length_drop; lia).
    done.
Qed.

(** The result lies in the old array or in a new one. *)
Lemma append_spec h0 h s l F new :
  h0 ⊆ h -> denotes_names h s l F -> F ## dom h0 ->
  reaches (append s new) h (fun s' h' =>
    h0 ⊆ h' /\ agree (dom h ∖ F) h h'
    /\ exists F', denotes_names h' s' (l ++ new) F' /\ F' ## dom h0 /\ F' ## dom h ∖ F).
Proof.
  intros Hh HD HF. pose proof (subseteq_dom _ _ Hh) as Hd.
  assert (forall old, l = old -> reaches (reallocate old new) h (fun s' h' =>
    h0 ⊆ h' /\ agree (dom h ∖ F) h h'
    /\ exists F', denotes_names h' s' (l ++ new) F' /\ F' ## dom h0 /\ F' ## dom h ∖ F)) as Hre.
  { intros old ->. destruct (reallocate_spec h old new) as (out & h' & Hm & Hh' & Hout & HD').
    eexists _, h'. split; [exact Hm|]. split_and!; [by transitivity h| |].
    - apply agree_subseteq; [set_solver|done].
    - exists ({[out]} ∪ ∅). split; [exact HD'|]. set_solver. }
  destruct HD as (vs & HD & Hl). destruct s as [s|], vs as [vs|]; try done; simpl in Hl; subst l.
  2:{ simpl in HD. subst F. destruct new as [|x new]; [|by apply Hre].
      apply reaches_ret. split_and!; [done|done|]. exists ∅. split_and!; [by exists None|set_solver..]. }
  destruct HD as (xs & G & Hs & Hr & [Hvs ->]%denotes_list_flat & ->). subst vs.
  unfold append.
  eapply reaches_step; [exact (load_inject (T := list string) _ _ _ Hs)|]. cbv zeta. cbn [offset]. case_decide as Hn; [|by apply Hre].
  destruct (overwrite_behind s xs new Hr Hn) as [Hr' He']. cbv zeta in Hr', He'.
  eapply reaches_step; [exact (store_some (T := list string) _ _ _ _ Hs)|]. apply reaches_ret. split_and!.
  - apply insert_subseteq_r; [|done]. apply not_elem_of_dom. set_solver.
  - intros k Hk. rewrite lookup_insert_ne; [done|]. set_solver.
  - exists ({[array s]} ∪ ∅). split_and!; [|set_solver..].
    eexists (Some _). split; [|reflexivity]. eexists _, ∅. rewrite lookup_insert_eq.
    split_and!; [reflexivity|exact Hr'| |done]. apply denotes_list_flat. by rewrite He'.
Qed.

(** ** The decision's fields *)

Lemma slice_of_set f g s d :
  slice_of g (set_slice f s d) = if decide (g = f) then s else slice_of g d.
Proof. by destruct d, f, g. Qed.
Lemma list_of_append f g new v :
  list_of g (append_value f new v) = if decide (g = f) then list_of g v ++ new else list_of g v.
Proof. destruct v as [? ? ? ? []]. by destruct f, g. Qed.
Lemma scalars_set f s d : scalars (set_slice f s d) = scalars d.
Proof. by destruct d, f. Qed.
Lemma scalars_append f new v : scalars_of (append_value f new v) = scalars_of v.
Proof. by destruct v as [? ? ? ? []]. Qed.

Lemma appendTo_spec h0 h d v f new :
  built h0 h d v -> reaches (appendTo f new d) h (fun d' h' => built h0 h' d' (append_value f new v)).
Proof.
  intros (Hh & Hsc & Fs & HFs & Hsep). destruct (HFs f) as [HD HF]. unfold appendTo.
  eapply reaches_bind; [by apply (append_spec h0)|]. intros s' h' (Hh' & Ha & F' & HD' & HF' & Hfresh).
  apply reaches_ret. split_and!; [done|by rewrite scalars_set, scalars_append|].
  assert (forall g, g <> f -> Fs g ⊆ dom h ∖ Fs f) as Hother.
  { intros g Hg. destruct (HFs g) as [HDg%framed_dom _]. pose proof (Hsep g f Hg). set_solver. }
  exists (fun g => if decide (g = f) then F' else Fs g). split.
  - intros g. rewrite slice_of_set, list_of_append. case_decide as Hg; [subst g; by split|].
    destruct (HFs g) as [HDg HFg]. split; [|done]. eapply framed_agree; [exact HDg|].
    intros k Hk. apply Ha. by apply Hother in Hk.
  - intros g g' Hne. specialize (Hother g) as Hg. specialize (Hother g') as Hg'.
    do 2 case_decide; subst; try done; [set_solver|set_solver|by apply Hsep].
Qed.

(** The appends of the value-level loop. *)
Lemma append_value_apply x v : append_value FApply [x] v = remediation.append_ApplyTaint x v.
Proof. by destruct v as [? ? ? ? []]. Qed.
Lemma append_value_remove x v : append_value FRemove [x] v = remediation.append_RemoveTaint x v.
Proof. by destruct v as [? ? ? ? []]. Qed.
Lemma append_value_held x v : append_value FHeld [x] v = remediation.append_HeldMissingTimestamp x v.
Proof. by destruct v as [? ? ? ? []]. Qed.
Lemma append_value_selected x v : append_value FSelected [x] v = remediation.append_SelectedNodes x v.
Proof. by destruct v as [? ? ? ? []]. Qed.
Lemma append_value_matched x v : append_value FMatched [x] v = remediation.append_MatchedNodes x v.
Proof. by destruct v as [? ? ? ? []]. Qed.
Lemma append_value_pending x v : append_value FPending [x] v = remediation.append_PendingNodes x v.
Proof. by destruct v as [? ? ? ? []]. Qed.
Lemma append_value_unknown x v : append_value FUnknown [x] v = remediation.append_UnknownNodes x v.
Proof. by destruct v as [? ? ? ? []]. Qed.
Lemma append_value_remediated x v : append_value FRemediated [x] v = remediation.append_RemediatedNodes x v.
Proof. by destruct v as [? ? ? ? []]. Qed.

Ltac value_append :=
  rewrite ?append_value_apply, ?append_value_remove, ?append_value_held, ?append_value_selected,
    ?append_value_matched, ?append_value_pending, ?append_value_unknown, ?append_value_remediated in *.

(** Run the next append; finish at a return. *)
Ltac run_append :=
  first
    [ eapply reaches_bind; [eapply appendTo_spec; eassumption|];
      let d := fresh "d" in let h := fresh "h" in let Hb := fresh "Hb" in
      intros d h Hb; cbv beta in Hb; value_append
    | apply reaches_ret; by split ].

Definition acted (h0 : heap cell) (st : Decision * time.Duration)
    (vq : remediation.Decision * time.Duration) (h : heap cell) : Prop :=
  built h0 h st.1 vq.1 /\ st.2 = vq.2.

Lemma act_node_spec p g now h0 st vq e h :
  acted h0 st vq h ->
  reaches (act_node p g now st e) h (fun st' h' => acted h0 st' (remediation.act_node p g now vq e) h').
Proof.
  destruct st as [d q], vq as [v q']. intros [Hb Hq]. cbn [fst snd] in Hb, Hq. subst q'.
  unfold acted, act_node, remediation.act_node. cbv zeta. run_append.
  destruct (remediation.NodeFact_HasTaint _); cbv iota.
  - run_append. destruct (remediation.evaluated_matches e); [by repeat run_append|].
    destruct (_ || _); [by repeat run_append|]. destruct (time.IsZero _); [by repeat run_append|].
    destruct (_ <=? _); by repeat run_append.
  - eapply reaches_step; [reflexivity|].
    destruct (remediation.evaluated_matches e).
    + run_append. destruct (time.IsZero _); [by repeat run_append|]. run_append.
      destruct g; [by repeat run_append|]. destruct (_ <=? _); by repeat run_append.
    + destruct (_ || _); by repeat run_append.
Qed.

Lemma Decide_built `{K : K8s} p nodes now h0 :
  reaches (decide.Decide p nodes now) h0 (fun d h => built h0 h d (remediation.Decide p nodes now)).
Proof.
  unfold decide.Decide, remediation.Decide. cbv zeta.
  set (s := foldl _ _ nodes).
  set (g := remediation.guard_trips _ _ _).
  eapply reaches_bind.
  { apply (appendTo_spec h0 h0 _ (remediation.mkDecision [] [] [] 0
             (remediation.mkStatus [] [] [] [] [] g (remediation.determinateCount s)))).
    split_and!; [done|done|]. exists (fun _ => ∅). split; [|set_solver].
    intros f. split; [|set_solver]. exists None. by destruct f. }
  intros d h Hb. cbv beta in Hb.
  eapply reaches_bind.
  { apply (reaches_foldM _ (remediation.act_node p g now) (fun st vq h => acted h0 st vq h)
             (d, 0) (append_value FRemove (remediation.scopedOutTainted s) (remediation.mkDecision [] [] [] 0
                (remediation.mkStatus [] [] [] [] [] g (remediation.determinateCount s))), 0)).
    - intros. by apply act_node_spec.
    - by split. }
  intros [d' q] h' [Hb' Hq]. cbn [fst snd] in Hb', Hq. apply reaches_ret.
  change (append_value FRemove (remediation.scopedOutTainted s) _) with
    (remediation.mkDecision [] (remediation.scopedOutTainted s) [] 0
       (remediation.mkStatus [] [] [] [] [] g (remediation.determinateCount s))) in Hb', Hq.
  destruct (foldl (remediation.act_node p g now) _ _) as [v' q'] eqn:Hf.
  cbn [fst snd] in *. subst q'.
  destruct Hb' as (Hh & Hsc & Fs & HFs & Hsep). split_and!; [done| |].
  - destruct d', v' as [? ? ? ? []]. unfold scalars, scalars_of in *. simpl in *. congruence.
  - exists Fs. split; [|done]. intros f. destruct (HFs f) as [HD HF]. split; [|done].
    destruct d', v' as [? ? ? ? []]. by destruct f.
Qed.

(** The six lists [writeStatus] sorts, in its order. *)
Definition sorted_fields : list field := [FSelected; FMatched; FPending; FUnknown; FHeld; FRemediated].

Lemma separate_fields (Fs : field -> gset loc) (fs : list field) :
  NoDup fs -> (forall f g, f <> g -> Fs f ## Fs g) -> separate (Fs <$> fs).
Proof.
  intros Hnd Hsep. induction Hnd as [|f fs Hf _ IH]; [done|]. simpl. split; [|exact IH].
  clear IH. induction fs as [|g fs IH]; [set_solver|]. simpl.
  pose proof (Hsep f g ltac:(set_solver)). specialize (IH ltac:(set_solver)). set_solver.
Qed.

Lemma Forall3_fields h d v Fs fs :
  (forall f, denotes_names h (slice_of f d) (list_of f v) (Fs f)) ->
  Forall3 (denotes_names h) ((fun f => slice_of f d) <$> fs) ((fun f => list_of f v) <$> fs) (Fs <$> fs).
Proof. intros H. induction fs; constructor; [apply H|done]. Qed.

(** A decision built since [h0] is one [writeStatus] can be run on. *)
Lemma built_denotes h0 h d v :
  built h0 h d v ->
  exists Fs G, denotes_Decision h d v Fs G /\ separate (G :: Fs) /\ (G ∪ ⋃ Fs) ## dom h0.
Proof.
  intros (_ & Hsc & Fs & HFs & Hsep). injection Hsc as Hq Hg Hdc.
  exists (Fs <$> sorted_fields), (Fs FApply ∪ Fs FRemove). split_and!.
  - split; [|exists (Fs FApply), (Fs FRemove)|exact Hq|exact Hg|exact Hdc].
    + exact (Forall3_fields h d v Fs sorted_fields (fun f => proj1 (HFs f))).
    + split_and!; [apply (proj1 (HFs FApply))|apply (proj1 (HFs FRemove))|done].
  - split; [|apply separate_fields; [|done]].
    + simpl. pose proof (fun f g => Hsep f g) as H.
      pose proof (H FApply FSelected ltac:(done)). pose proof (H FRemove FSelected ltac:(done)).
      pose proof (H FApply FMatched ltac:(done)). pose proof (H FRemove FMatched ltac:(done)).
      pose proof (H FApply FPending ltac:(done)). pose proof (H FRemove FPending ltac:(done)).
      pose proof (H FApply FUnknown ltac:(done)). pose proof (H FRemove FUnknown ltac:(done)).
      pose proof (H FApply FHeld ltac:(done)). pose proof (H FRemove FHeld ltac:(done)).
      pose proof (H FApply FRemediated ltac:(done)). pose proof (H FRemove FRemediated ltac:(done)).
      clear H Hsep HFs. set_solver.
    + exact (bool_decide_unpack (NoDup sorted_fields) I).
  - simpl. pose proof (fun f => proj2 (HFs f)) as H.
    pose proof (H FApply). pose proof (H FRemove). pose proof (H FSelected). pose proof (H FMatched).
    pose proof (H FPending). pose proof (H FUnknown). pose proof (H FHeld). pose proof (H FRemediated).
    clear H Hsep HFs. set_solver.
Qed.

End lemmas.
