(* ===== verification/HeapStatusFixtures.v ===== *)
(** A concrete library for the status writers, and a policy and a decision in memory to run them on. *)

From S2P Require Import Prelude GoTime Types K8sLib Remediation Heap HeapCopy DeepCopy DeepCopyProps.
From S2P Require Import HeapStatus HeapDecide DeepCopyFixtures.
Import deepcopy memory heap_example.

Module status_example.
#[local] Existing Instance Reference.reference_k8s.

(** [SetStatusCondition] at the old array when the length stays, else in a new one. *)
Definition SetConditionAt (now : time.Time) (c : metav1.Condition) (s : option slice) :
    M cell (option slice) :=
  xs ← match s with Some s => readSlice (T := L_Condition) s | None => mret [] end;
  let ys := SetStatusCondition now xs c in
  match s with
  | Some s =>
      if decide (length ys = slice_len s) then writeSlice (T := L_Condition) s ys ;; mret (Some s)
      else out ← alloc (CConditions ys); mret (Some (mkSlice out 0 (length ys)))
  | None => out ← alloc (CConditions ys); mret (Some (mkSlice out 0 (length ys)))
  end.

#[global] Instance condition_writer : ConditionWriter := {|
  Generation := metav1.ObjectMeta_Generation;
  SetStatusConditionAt := SetConditionAt;
|}.

Lemma alloc_conditions (h : heap cell) (ys : list L_Condition) F :
  F ⊆ dom h ->
  writes (out ← alloc (CConditions ys); mret (Some (mkSlice out 0 (length ys)))) h F (fun s' h' =>
    exists vs' F', denotes_slice (T := L_Condition) denotes h' s' vs' F' /\ F' ## dom h ∖ F
      /\ default [] vs' = ys).
Proof.
  intros HF. set (out := fresh (dom h)). pose proof (is_fresh (dom h)) as Hout. fold out in Hout.
  eexists _, _. split; [reflexivity|]. fold out. split_and!; [set_solver| |].
  - intros k Hk. rewrite lookup_insert_ne; [done|]. set_solver.
  - exists (Some ys), ({[out]} ∪ ∅). split_and!; [|set_solver|done]. exists ys, ∅.
    unfold in_range. simpl. rewrite lookup_insert_eq, elements_whole.
    split_and!; [done|lia|by apply denotes_list_flat|done].
Qed.

#[global] Instance condition_writer_laws : ConditionWriterLaws.
Proof.
  split; [by intros h m v F [-> _]|]. intros now c h s vs F HD.
  pose proof (framed_dom _ _ _ _ HD) as HF. unfold SetStatusConditionAt; simpl. unfold SetConditionAt.
  destruct s as [s|], vs as [vs|]; try done.
  2:{ exact (alloc_conditions h (SetStatusCondition now [] c) F HF). }
  destruct HD as (xs & G & Hl & Hr & [Hvs ->]%denotes_list_flat & ->). subst vs.
  assert (readSlice (T := L_Condition) s h = Some (elements s xs, h)) as Hread
    by (unfold readSlice, mbind, M_bind; by rewrite (load_inject (T := list L_Condition) _ _ _ Hl)).
  eapply writes_read; [exact Hread|]. set (ys := SetStatusCondition now (elements s xs) c : list (@L_Condition layouts)).
  cbv zeta. case_decide as Hlen; [|exact (alloc_conditions h ys _ HF)].
  destruct (overwrite_elements s xs ys Hr Hlen) as [Hr' He'].
  eexists _, (<[array s := CConditions (overwrite s ys xs)]> h).
  unfold writeSlice, mbind, M_bind. rewrite (load_inject (T := list L_Condition) _ _ _ Hl).
  rewrite (store_some (T := list L_Condition) _ _ _ _ Hl).
  split_and!; [reflexivity|set_solver| |].
  - intros k Hk. rewrite lookup_insert_ne; [done|]. set_solver.
  - exists (Some ys), ({[array s]} ∪ ∅). split_and!; [|set_solver|done].
    exists (overwrite s ys xs), ∅. rewrite lookup_insert_eq.
    split_and!; [done|done| |done]. apply denotes_list_flat. split; [exact He'|done].
Qed.

(** The decision of a guard that holds: two nodes in scope, the unhealthy one pending; the policy's
    status still has the lists of the pass before. *)
Definition decision : remediation.Decision :=
  remediation.mkDecision [] [] [] 0
    (remediation.mkStatus ["b"; "a"] ["b"] ["b"] [] [] true 2)%string.

Definition decision_in_memory : memory.Decision :=
  mkDecision None None None 0 (Some (mkSlice 10%positive 0 2)) (Some (mkSlice 11%positive 0 1))
    (Some (mkSlice 12%positive 0 1)) None None true 2.

Definition heap_of_decision : heap cell :=
  <[10%positive := CStrings ["b"; "a"]%string]>
  (<[11%positive := CStrings ["b"]%string]>
  (<[12%positive := CStrings ["b"]%string]> heap_of_policy)).

Lemma heap_grows : heap_of_policy ⊆ heap_of_decision.
Proof.
  unfold heap_of_decision. repeat (apply insert_subseteq_r; [reflexivity|]). done.
Qed.

Lemma names_at (h : heap cell) l xs :
  h !! l = Some (CStrings xs) ->
  denotes_names h (Some (mkSlice l 0 (length xs))) xs ({[l]} ∪ ∅).
Proof.
  intros Hl. exists (Some xs). split; [|done]. exists xs, ∅. unfold in_range. simpl.
  rewrite elements_whole. split_and!; [done|lia|by apply denotes_list_flat|done].
Qed.

Lemma decision_example :
  denotes_Decision heap_of_decision decision_in_memory decision
    [{[10%positive]} ∪ ∅; {[11%positive]} ∪ ∅; {[12%positive]} ∪ ∅; ∅; ∅; ∅] ∅.
Proof.
  split; [| |reflexivity..].
  - constructor; [exact (names_at heap_of_decision 10%positive _ eq_refl)|].
    constructor; [exact (names_at heap_of_decision 11%positive _ eq_refl)|].
    constructor; [exact (names_at heap_of_decision 12%positive _ eq_refl)|].
    do 3 (constructor; [by exists None|]). constructor.
  - exists ∅, ∅. split_and!; [by exists None|by exists None|set_solver].
Qed.

Lemma policy_example :
  policy_at heap_of_policy 1%positive policy_in_values ∅ {[2; 3; 4; 5]}%positive ({[7%positive]} ∪ ∅).
Proof.
  exists policy_in_memory. split_and!; [reflexivity|reflexivity|by split|exact denotes_spec_example|].
  exists [], ∅. split_and!; [reflexivity|unfold in_range; simpl; lia|constructor|reflexivity].
Qed.

Lemma policy_example_grown :
  policy_at heap_of_decision 1%positive policy_in_values ∅ {[2; 3; 4; 5]}%positive ({[7%positive]} ∪ ∅).
Proof.
  destruct policy_example as (x & Hp & Ht & HM & HS & HC). exists x.
  split_and!; [by eapply lookup_weaken, heap_grows|done|..];
    (eapply framed_mono; [exact _| |exact heap_grows]); done.
Qed.

(** The runtime doubles an array. *)
#[global] Instance growth : decide.Growth := {| decide.spare n := n |}.

End status_example.
