(* ===== verification/HeapStatusTheorems.v ===== *)
(** The theorem about the status writers over the heap: they refine the value-level [writeStatus],
    and what else is in the heap stays. *)

From S2P Require Import Prelude GoTime Types K8sLib PolicyApi Remediation Project.
From S2P Require Import Heap HeapCopy DeepCopy DeepCopyProps HeapStatus HeapDecide HeapDecideProps DeepCopyFixtures HeapStatusFixtures.
Import deepcopy memory.

Section lemmas.
Context `{K : K8s} `{W : ConditionWriter} `{BL : !LibraryLaws} `{WL : !ConditionWriterLaws}.
Implicit Types (h : heap cell) (F G : gset loc).

(** ** The sorts *)

Lemma sortStrings_spec h s l F :
  denotes_names h s l F ->
  writes (sortStrings s) h F (fun _ h' => denotes_names h' s (sort_strings l) F).
Proof.
  intros (vs & HD & <-). destruct s as [s|], vs as [vs|]; try done.
  2:{ apply writes_ret. exists None. done. }
  destruct HD as (xs & G & Hl & Hr & [Hvs ->]%denotes_list_flat & ->). subst vs. simpl.
  set (ys := sort_strings (elements s xs)).
  destruct (overwrite_elements s xs ys Hr) as [Hr' He'].
  { unfold ys. rewrite sort_strings_perm. by apply elements_length. }
  exists tt, (<[array s := inject (overwrite s ys xs)]> h).
  unfold readSlice, writeSlice, mbind, M_bind. rewrite (load_inject _ _ _ Hl). simpl.
  rewrite (load_inject _ _ _ Hl). simpl. rewrite (store_some _ _ _ _ Hl). fold ys.
  split_and!; [done|set_solver| |].
  - intros k Hk. rewrite lookup_insert_ne; [done|]. set_solver.
  - exists (Some ys). split; [|done]. exists (overwrite s ys xs), ∅.
    rewrite lookup_insert_eq, He'. split_and!; [done|done|by apply denotes_list_flat|done].
Qed.

Lemma denotes_names_framed h h' W0 ss ls Fs :
  Forall3 (denotes_names h) ss ls Fs -> ⋃ Fs ## W0 -> agree (dom h ∖ W0) h h' ->
  Forall3 (denotes_names h') ss ls Fs.
Proof.
  intros HD. induction HD as [|s l F ss ls Fs HD _ IH]; intros HF Ha; constructor.
  - eapply framed_writes; [exact _|exact HD| |exact Ha]. simpl in HF. set_solver.
  - apply IH; [|done]. simpl in HF. set_solver.
Qed.

Lemma sortAll_spec h ss ls Fs :
  Forall3 (denotes_names h) ss ls Fs -> separate Fs ->
  writes (sortAll ss) h (⋃ Fs) (fun _ h' => Forall3 (denotes_names h') ss (sort_strings <$> ls) Fs).
Proof.
  revert h ls Fs. induction ss as [|s ss IH]; intros h ls Fs HD HF.
  { inversion HD; subst. apply writes_ret. constructor. }
  inversion HD as [|? l F ? ls' Fs' Hs Hss]; subst. destruct HF as [HF1 HF2]. simpl.
  eapply writes_bind; [by apply sortStrings_spec|set_solver|]. intros ? h1 Hd Ha Hs1.
  assert (Forall3 (denotes_names h1) ss ls' Fs') as Hss1
    by (eapply denotes_names_framed; [exact Hss|set_solver|exact Ha]).
  destruct (IH h1 ls' Fs' Hss1 HF2) as ([] & h2 & Hm & Hd2 & Ha2 & Hss2).
  exists tt, h2. split_and!; [done|done| |].
  - intros k Hk. apply Ha2. set_solver.
  - constructor; [|done]. eapply framed_writes; [exact _|exact Hs1|exact HF1|exact Ha2].
Qed.

(** ** The marks *)

Lemma slice_length_spec h s l F : denotes_names h s l F -> slice_length s = len l.
Proof.
  intros (vs & HD & <-). destruct s as [s|], vs as [vs|]; try done.
  destruct HD as (xs & G & _ & Hr & HD & _). apply (denotes_list_length denotes_flat) in HD.
  rewrite (elements_length s xs Hr) in HD. simpl. unfold len. by rewrite HD.
Qed.

(** Both levels publish the same content. *)
Lemma markDecision_same h d v Fs G :
  denotes_Decision h d v Fs G ->
  exists st reason message,
    (forall now p, project.markDecision now p v
                   = status.setRemediatingCondition now p st reason message)
    /\ (forall now p, markDecision now p d = setRemediatingCondition now p st reason message).
Proof.
  intros [HL _ _ Hg _]. unfold sorted_slices, sorted_lists in HL.
  inversion HL as [|? ? F1 ? ? ? _ HL1]; subst. inversion HL1 as [|? ? F2 ? ? ? _ HL2]; subst.
  inversion HL2 as [|? ? F3 ? ? ? H3 HL3]; subst. inversion HL3 as [|? ? F4 ? ? ? H4 HL4]; subst.
  inversion HL4 as [|? ? F5 ? ? ? H5 HL5]; subst. inversion HL5 as [|? ? F6 ? ? ? H6 _]; subst.
  unfold project.markDecision, markDecision. rewrite Hg.
  apply slice_length_spec in H3, H4, H5, H6. rewrite H3, H4, H5, H6.
  repeat case_match; by do 3 eexists.
Qed.

Lemma setRemediatingCondition_spec now h p x m FM vs FC st reason message :
  h !! p = Some (CPolicy x) -> denotes (T := L_ObjectMeta) h x.(ObjectMeta) m FM ->
  denotes_slice (T := L_Condition) denotes h x.(Policy_Status).(Conditions) vs FC -> p ∉ FC ->
  writes (setRemediatingCondition now p st reason message) h ({[p]} ∪ FC) (fun _ h' =>
    exists conditions vs' F',
      h' !! p = Some (CPolicy
        (mkPolicy x.(TypeMeta) x.(ObjectMeta) x.(Policy_Spec)
           (let s := x.(Policy_Status) in
            mkStatus s.(deepcopy.SelectedNodes) s.(deepcopy.MatchedNodes) s.(deepcopy.PendingNodes)
              s.(deepcopy.UnknownNodes) s.(HeldNodes) s.(deepcopy.RemediatedNodes)
              s.(SelectedCount) s.(MatchedCount) s.(PendingCount) s.(UnknownCount) s.(HeldCount)
              s.(RemediatedCount) conditions)))
      /\ denotes_slice (T := L_Condition) denotes h' conditions vs' F'
      /\ F' ## (dom h ∖ FC)
      /\ default [] vs' = SetStatusCondition now (default [] vs)
           {| metav1.Condition_Type := status.ConditionRemediating;
              metav1.Condition_Status := st;
              metav1.Condition_Reason := reason;
              metav1.Condition_Message := message;
              metav1.Condition_ObservedGeneration := m.(metav1.ObjectMeta_Generation);
              metav1.Condition_LastTransitionTime := time.zero |}).
Proof.
  intros Hp HM HC HpC. unfold setRemediatingCondition.
  eapply writes_bind; [by apply (writes_load (T := Policy))|set_solver|].
  intros y h0 _ _ [-> ->]. rewrite (Generation_spec h _ m FM HM).
  eapply writes_bind; [by eapply SetStatusConditionAt_spec|set_solver|].
  intros s' h1 Hd1 Ha1 (vs' & F' & HC' & HF' & Hvs').
  assert (p ∈ dom h) as Hpd by by eapply elem_of_dom_2.
  eapply writes_weaken; [eapply (writes_store (T := Policy)); rewrite Ha1; [exact Hp|set_solver]|set_solver|].
  intros ? h2 ->. exists s', vs', F'. rewrite lookup_insert_eq. split_and!; [done| |done|done].
  eapply framed_agree; [exact HC'|]. intros k Hk. rewrite lookup_insert_ne; [done|].
  set_solver.
Qed.

(** ** The whole *)

Lemma denotes_sorted h d v Fs G h' :
  denotes_Decision h d v Fs G -> agree (dom h ∖ ⋃ Fs) h h' -> G ## ⋃ Fs ->
  Forall3 (denotes_names h') (sorted_slices d) (sort_strings <$> sorted_lists v) Fs ->
  denotes_Decision h' d (project.sortDecision v) Fs G.
Proof.
  intros [HL (F1 & F2 & H1 & H2 & ->) Hr Hg Hd] Ha HG HL'.
  split; [exact HL'| |exact Hr|exact Hg|exact Hd].
  exists F1, F2. split_and!; [| |done].
  - eapply framed_writes; [exact _|exact H1| |exact Ha]. set_solver.
  - eapply framed_writes; [exact _|exact H2| |exact Ha]. set_solver.
Qed.

Lemma denotes_Decision_framed h h' d v Fs G W0 :
  denotes_Decision h d v Fs G -> agree (dom h ∖ W0) h h' -> ⋃ Fs ## W0 -> G ## W0 ->
  denotes_Decision h' d v Fs G.
Proof.
  intros [HL (F1 & F2 & H1 & H2 & ->) Hr Hg Hd] Ha HF HG.
  split; [by eapply denotes_names_framed| |exact Hr|exact Hg|exact Hd].
  exists F1, F2. split_and!; [| |done].
  - eapply framed_writes; [exact _|exact H1| |exact Ha]. set_solver.
  - eapply framed_writes; [exact _|exact H2| |exact Ha]. set_solver.
Qed.

Lemma status_value_Conditions s :
  (status_value s).(v1alpha1.Status_Conditions) = default [] s.(goConditions).
Proof. by destruct s as [? ? ? ? ? ? [[[[[]]]]] ?]. Qed.

(** With the decision's arrays in its status it stands for the assigned status. *)
Lemma denotes_written h d dv Fs G x v FM FS conditions cs FC :
  denotes_Decision h d dv Fs G -> x.(TypeMeta) = v.(goTypeMeta) ->
  denotes (T := L_ObjectMeta) h x.(ObjectMeta) v.(goObjectMeta) FM ->
  denotes_Spec h x.(Policy_Spec) v.(goSpec) FS ->
  denotes_slice (T := L_Condition) denotes h conditions cs FC ->
  exists v' F', denotes_Policy h (written x d conditions) v' F'
    /\ v'.(goTypeMeta) = v.(goTypeMeta)
    /\ policy_value v' = let a := project.assignStatus (policy_value v) dv in
         v1alpha1.set_Status a (v1alpha1.set_Conditions a.(v1alpha1.Status) (default [] cs)).
Proof.
  intros [HL _ _ _ _] Ht HM HS HC. unfold sorted_slices, sorted_lists in HL.
  inversion HL as [|? ? F1 ? ? ? H1 HL1]; subst. inversion HL1 as [|? ? F2 ? ? ? H2 HL2]; subst.
  inversion HL2 as [|? ? F3 ? ? ? H3 HL3]; subst. inversion HL3 as [|? ? F4 ? ? ? H4 HL4]; subst.
  inversion HL4 as [|? ? F5 ? ? ? H5 HL5]; subst. inversion HL5 as [|? ? F6 ? ? ? H6 _]; subst.
  destruct dv as [? ? held ? []]. simpl in *.
  pose proof (slice_length_spec _ _ _ _ H1) as N1. pose proof (slice_length_spec _ _ _ _ H2) as N2.
  pose proof (slice_length_spec _ _ _ _ H3) as N3. pose proof (slice_length_spec _ _ _ _ H4) as N4.
  pose proof (slice_length_spec _ _ _ _ H5) as N5. pose proof (slice_length_spec _ _ _ _ H6) as N6.
  destruct H1 as (v1 & H1 & <-), H2 as (v2 & H2 & <-), H3 as (v3 & H3 & <-), H4 as (v4 & H4 & <-),
    H5 as (v5 & H5 & <-), H6 as (v6 & H6 & <-).
  exists (mkGoPolicy v.(goTypeMeta) v.(goObjectMeta) v.(goSpec)
            (mkGoStatus v1 v2 v3 v4 v5 v6
               (wrap32 (len (default [] v1)), wrap32 (len (default [] v2)), wrap32 (len (default [] v3)),
                wrap32 (len (default [] v4)), wrap32 (len (default [] v5)), wrap32 (len (default [] v6)))
               cs)).
  eexists. split_and!; [|done|done]. unfold written. rewrite N1, N2, N3, N4, N5, N6.
  exists FM, FS, (F1 ∪ (F2 ∪ (F3 ∪ (F4 ∪ (F5 ∪ (F6 ∪ FC)))))). split_and!; [exact HM|exact HS| |exact Ht|done].
  exists F1, F2, F3, F4, F5, F6, FC. by split_and!.
Qed.

(** From the sorted decision on. *)
Lemma assignStatus_spec h p x d :
  h !! p = Some (CPolicy x) ->
  writes (assignStatus p d) h {[p]} (fun _ h' =>
    h' = <[p := CPolicy (written x d x.(Policy_Status).(Conditions))]> h).
Proof.
  intros Hp. unfold assignStatus. eapply writes_bind; [by apply (writes_load (T := Policy))|set_solver|].
  intros y h0 _ _ [-> ->]. exact (writes_store (T := Policy) _ _ (CPolicy x) (written x d _) Hp).
Qed.

Lemma publish_spec now h p x d dv Fs G v FM FS FC :
  h !! p = Some (CPolicy x) -> x.(TypeMeta) = v.(goTypeMeta) ->
  denotes (T := L_ObjectMeta) h x.(ObjectMeta) v.(goObjectMeta) FM ->
  denotes_Spec h x.(Policy_Spec) v.(goSpec) FS ->
  denotes_slice (T := L_Condition) denotes h x.(Policy_Status).(Conditions)
    v.(goStatus_of).(goConditions) FC ->
  denotes_Decision h d dv Fs G -> p ∉ FM ∪ FS ∪ G ∪ ⋃ Fs -> p ∉ FC -> FC ## FM ∪ FS ∪ G ∪ ⋃ Fs ->
  writes (assignStatus p d ;; markDecision now p d) h ({[p]} ∪ FC) (fun _ h' =>
    exists x' v' F', h' !! p = Some (CPolicy x') /\ denotes_Policy h' x' v' F'
      /\ v'.(goTypeMeta) = v.(goTypeMeta)
      /\ policy_value v'
         = project.markDecision now (project.assignStatus (policy_value v) dv) dv
      /\ denotes_Decision h' d dv Fs G).
Proof.
  intros Hp Ht HM HS HC HD Hp1 Hp2 HF.
  destruct (markDecision_same _ _ _ _ _ HD) as (st & reason & message & Hpure & Hmem).
  eapply writes_bind; [by apply assignStatus_spec|set_solver|]. intros ? h1 Hd1 Ha1 Hh1. cbv beta in Hh1.
  rewrite Hmem.
  assert (denotes (T := L_ObjectMeta) h1 x.(ObjectMeta) v.(goObjectMeta) FM) as HM1
    by (eapply framed_writes; [exact _|exact HM| |exact Ha1]; set_solver).
  assert (denotes_Spec h1 x.(Policy_Spec) v.(goSpec) FS) as HS1
    by (eapply framed_writes; [exact _|exact HS| |exact Ha1]; set_solver).
  assert (denotes_slice (T := L_Condition) denotes h1 x.(Policy_Status).(Conditions)
            v.(goStatus_of).(goConditions) FC) as HC1
    by (eapply framed_writes; [exact _|exact HC| |exact Ha1]; set_solver).
  assert (denotes_Decision h1 d dv Fs G) as HD1
    by (eapply denotes_Decision_framed; [exact HD|exact Ha1|set_solver|set_solver]).
  assert (h1 !! p = Some (CPolicy (written x d x.(Policy_Status).(Conditions)))) as Hp'
    by (rewrite Hh1; apply lookup_insert_eq).
  destruct (setRemediatingCondition_spec now h1 p _ _ FM _ FC st reason message Hp' HM1 HC1 Hp2)
    as ([] & h2 & Hm & Hd2 & Ha2 & cs & vs' & F' & Hp2' & HC2 & _ & Hvs).
  exists tt, h2. split_and!; [done|done|done|].
  destruct (denotes_written h2 d dv Fs G x v FM FS cs vs' F') as (v' & FP & HP & Ht' & Hv').
  - eapply denotes_Decision_framed; [exact HD1|exact Ha2|set_solver|set_solver].
  - exact Ht.
  - eapply framed_writes; [exact _|exact HM1| |exact Ha2]. set_solver.
  - eapply framed_writes; [exact _|exact HS1| |exact Ha2]. set_solver.
  - exact HC2.
  - exists (written x d cs), v', FP. split_and!; [exact Hp2'|exact HP|exact Ht'| |].
    + rewrite Hv', Hvs, Hpure. unfold status.setRemediatingCondition, policy_value, project.assignStatus.
      simpl. by rewrite status_value_Conditions.
    + eapply denotes_Decision_framed; [exact HD1|exact Ha2|set_solver|set_solver].
Qed.

(** The whole of [writeStatus]: what it writes and what it leaves. *)
Lemma writeStatus_writes now h p d dv v FM FS FC Fs G :
  policy_at h p v FM FS FC -> denotes_Decision h d dv Fs G ->
  separate ({[p]} :: (FM ∪ FS) :: FC :: G :: Fs) ->
  writes (writeStatus now p d) h ({[p]} ∪ FC ∪ ⋃ Fs) (fun _ h' =>
    exists x' v' F', h' !! p = Some (CPolicy x') /\ denotes_Policy h' x' v' F'
      /\ v'.(goTypeMeta) = v.(goTypeMeta)
      /\ policy_value v' = (project.writeStatus now (policy_value v) dv).1
      /\ denotes_Decision h' d (project.writeStatus now (policy_value v) dv).2 Fs G).
Proof.
  intros (x & Hp & Ht & HM & HS & HC) HD (H1 & H2 & H3 & H4 & H5). simpl in *.
  eapply writes_bind; [eapply sortAll_spec; [apply HD|exact H5]|set_solver|]. intros ? h1 Hd1 Ha1 HL1.
  assert (denotes_Decision h1 d (project.sortDecision dv) Fs G) as HD1
    by (eapply denotes_sorted; [exact HD|exact Ha1|set_solver|exact HL1]).
  assert (p ∈ dom h) as Hpd by (by eapply elem_of_dom_2).
  eapply writes_weaken; [|shelve|intros ? ? HQ; exact HQ].
  apply (publish_spec now h1 p x d _ Fs G v FM FS FC);
    [rewrite Ha1; [exact Hp|set_solver]|exact Ht| | | |exact HD1|set_solver..].
  - eapply framed_writes; [exact _|exact HM| |exact Ha1]. set_solver.
  - eapply framed_writes; [exact _|exact HS| |exact Ha1]. set_solver.
  - eapply framed_writes; [exact _|exact HC| |exact Ha1]. set_solver.
  Unshelve. set_solver.
Qed.

Lemma policy_at_dom h p v FM FS FC :
  policy_at h p v FM FS FC -> {[p]} ∪ FM ∪ FS ∪ FC ⊆ dom h.
Proof.
  intros (x & Hp & _ & HM%framed_dom & HS%framed_dom & HC%framed_dom).
  apply elem_of_dom_2 in Hp. set_solver.
Qed.

End lemmas.

Section theorems.
Context `{K : K8s} `{W : ConditionWriter} `{BL : !LibraryLaws} `{WL : !ConditionWriterLaws} `{GR : decide.Growth}.

(** C6: The status writers as they run on the heap refine the value-level [writeStatus].  The code
    sorts six of the decision's arrays in place, puts the same slice headers into the policy, so the
    two share those arrays, and updates the conditions where they lie.  When no two of the arrays,
    the policy's struct, its metadata and spec, and its conditions share a cell, it does not panic;
    the policy then stands for what the value-level function returns, the caller's decision for the
    sorted decision; and anything read elsewhere is what it was — the deep copy taken before, which
    the status patch is computed against, and the old held list, captured by its slice header. *)
Theorem writeStatus_refines (now : time.Time) (h : heap cell) p d dv v FM FS FC Fs G :
  policy_at h p v FM FS FC -> denotes_Decision h d dv Fs G ->
  separate ({[p]} :: (FM ∪ FS) :: FC :: G :: Fs) ->
  exists h' x' v' F',
    writeStatus now p d h = Some (tt, h')
    /\ h' !! p = Some (CPolicy x') /\ denotes_Policy h' x' v' F'
    /\ v'.(goTypeMeta) = v.(goTypeMeta)
    /\ policy_value v' = (project.writeStatus now (policy_value v) dv).1
    /\ denotes_Decision h' d (project.writeStatus now (policy_value v) dv).2 Fs G
    /\ (forall (T V : Type) (D : denotation cell T V) x w F, Framed D ->
          D h x w F -> F ## {[p]} ∪ FC ∪ ⋃ Fs -> D h' x w F).
Proof.
  intros Hp HD Hs. pose proof (writeStatus_writes now h p d dv v FM FS FC Fs G Hp HD Hs) as Hw.
  destruct Hw as ([] & h' & Hm & _ & Ha & x' & v' & F' & Hp' & HP' & Ht' & Hv' & HD').
  exists h', x', v', F'. split_and!; [done..|].
  intros T V D y w F0 HF Hy HF0. eapply framed_writes; [exact _|exact Hy|exact HF0|exact Ha].
Qed.

(** C7: What a reconcile compares its new status with is really the old one.  One pass over the policy
    in memory takes [original] as a deep copy, builds the decision by appending to its lists, keeps the
    old held list by its slice header and runs [writeStatus] over the policy in place.  It does not
    panic, and afterwards the policy stands for the new status of the value-level model, the decision
    for the sorted one, while the copy still stands for the policy as it was and the old slice header
    still for the old held nodes: the status patch is the difference, and the edge tests of the
    warnings compare new with old. *)
Theorem snapshots_survive (now stamp : time.Time) (h : heap cell) p x v F FM FS FC FH pure facts :
  policy_at h p v FM FS FC -> denotes_pointer denotes_Policy h (Some p) (Some v) F ->
  h !! p = Some (CPolicy x) ->
  denotes_strings h x.(Policy_Status).(HeldNodes) v.(goStatus_of).(goHeldNodes) FH ->
  separate [{[p]}; FM ∪ FS; FC; FH] ->
  let value := project.writeStatus stamp (policy_value v) (remediation.Decide pure facts now) in
  exists original oldHeld d h' x' v' F' Fo Fs G,
    decide.statusPass now stamp p pure facts h = Some ((original, oldHeld, d), h')
    /\ h' !! p = Some (CPolicy x') /\ denotes_Policy h' x' v' F' /\ policy_value v' = value.1
    /\ denotes_Decision h' d value.2 Fs G
    /\ denotes_pointer denotes_Policy h' original (Some v) Fo
    /\ denotes_strings h' oldHeld v.(goStatus_of).(goHeldNodes) FH.
Proof.
  intros Hat HD Hx HH (S1 & S2 & S3 & _). simpl in S1, S2, S3.
  destruct (copyPointer_copies _ _ Policy_copies h (Some p) (Some v) F HD)
    as (c & h1 & Fc & Hc & Hh1 & Hd1 & HFc & HDc).
  destruct (Decide_built pure facts now h1) as (d & h2 & Hdec & Hb).
  pose proof Hb as (Hh2 & _). apply built_denotes in Hb as (Fs & G & HDd & HS & HF).
  pose proof (policy_at_dom _ _ _ _ _ _ Hat) as Hdom. pose proof (framed_dom _ _ _ _ HH) as HHd.
  pose proof (subseteq_dom _ _ Hh1) as Hsub1. assert (h ⊆ h2) as Hh by (by transitivity h1).
  assert (policy_at h2 p v FM FS FC) as Hat2.
  { destruct Hat as (x0 & Hp & Ht & HM & HSp & HC). exists x0. split_and!; [by eapply lookup_weaken|done|..];
      (eapply framed_mono; [exact _| |exact Hh]); done. }
  destruct (writeStatus_writes stamp h2 p d _ v FM FS FC Fs G Hat2 HDd)
    as ([] & h3 & Hw & _ & Ha & x' & v' & F' & Hp' & HP' & _ & Hv' & HDd').
  { destruct HS as [HS1 HS2]. simpl. split_and!; [..|exact HS1|exact HS2]; set_solver. }
  exists c, x.(Policy_Status).(HeldNodes), d, h3, x', v', F', Fc, Fs, G. split_and!; [|done..| |].
  - unfold decide.statusPass, mbind, M_bind. unfold Policy_DeepCopy. rewrite Hc, Hdec.
    rewrite (load_inject (T := Policy) h2 p x) by (by eapply lookup_weaken). by rewrite Hw.
  - eapply (framed_writes (denotes_pointer denotes_Policy) h2); [| |exact Ha].
    + eapply framed_mono; [exact _|exact HDc|exact Hh2].
    + set_solver.
  - eapply (framed_writes denotes_strings h2); [| |exact Ha].
    + eapply framed_mono; [exact _|exact HH|exact Hh].
    + set_solver.
Qed.

End theorems.

(** ** Witness *)
Section witness.
Import heap_example status_example.
#[local] Existing Instance Reference.reference_k8s.

Lemma writeStatus_refines_witness : exists h' x' v' F',
  memory.writeStatus 9 1%positive decision_in_memory heap_of_decision = Some (tt, h')
  /\ h' !! 1%positive = Some (CPolicy x') /\ denotes_Policy h' x' v' F'
  /\ (policy_value v').(v1alpha1.Status).(v1alpha1.Status_SelectedNodes) = ["a"; "b"]%string.
Proof.
  destruct (writeStatus_refines 9 heap_of_decision 1%positive decision_in_memory decision
              policy_in_values _ _ _ _ _ policy_example_grown decision_example)
    as (h' & x' & v' & F' & Hw & Hp & HP & _ & Hv & _).
  { simpl. split_and!; set_solver. }
  exists h', x', v', F'. split; [exact Hw|]. split; [exact Hp|]. split; [exact HP|].
  rewrite Hv. reflexivity.
Defined.

(** A pass that selects two nodes, one of them to be tainted, and holds none any more. *)
Lemma snapshots_survive_witness :
  let pure := remediation.mkPolicy None "DiskFailing" "True" project.zeroTaint 0 0 100 in
  let fact name status := remediation.mkNodeFact name ∅ (remediation.mkConditionFact status 1) false in
  let facts := [fact "b" "True"; fact "a" "False"]%string in
  exists original oldHeld d h' x' v' F' Fo,
    decide.statusPass 5 9 1%positive pure facts heap_of_policy = Some ((original, oldHeld, d), h')
    /\ h' !! 1%positive = Some (CPolicy x') /\ denotes_Policy h' x' v' F'
    /\ (policy_value v').(v1alpha1.Status).(v1alpha1.Status_SelectedNodes) = ["a"; "b"]%string
    /\ (policy_value v').(v1alpha1.Status).(v1alpha1.Status_HeldNodes) = []
    /\ denotes_pointer denotes_Policy h' original (Some policy_in_values) Fo
    /\ denotes_strings h' oldHeld (Some ["b"]%string) ({[6%positive]} ∪ ∅).
Proof.
  intros pure fact facts. destruct denotes_policy_example as [F HF].
  assert (denotes_pointer denotes_Policy heap_of_policy (Some 1%positive) (Some policy_in_values)
            ({[1%positive]} ∪ F)) as HP0
    by (exists policy_in_memory, F; split_and!; [reflexivity|exact HF|reflexivity]).
  assert (denotes_strings heap_of_policy status_in_memory.(HeldNodes) (Some ["b"]%string)
            ({[6%positive]} ∪ ∅)) as HH.
  { exists ["a"; "b"]%string, ∅.
    split_and!; [reflexivity|unfold in_range; simpl; lia|by apply denotes_list_flat|reflexivity]. }
  destruct (snapshots_survive 5 9 heap_of_policy 1%positive policy_in_memory policy_in_values
              _ _ _ _ _ pure facts policy_example HP0 eq_refl HH)
    as (original & oldHeld & d & h' & x' & v' & F' & Fo & _ & _ & Hrun & Hp & HP & Hv & _ & Ho & Hold).
  { simpl. split_and!; set_solver. }
  exists original, oldHeld, d, h', x', v', F', Fo.
  split; [exact Hrun|]. split; [exact Hp|]. split; [exact HP|].
  split; [rewrite Hv; vm_compute; reflexivity|]. split; [rewrite Hv; vm_compute; reflexivity|].
  split; [exact Ho|exact Hold].
Defined.

End witness.
