(* ===== verification/Flags.v ===== *)
(** Go's [flag] package as [cmd/main.go] uses it: registration with a default, and the parser of
    [flag.Parse] over the words of the command line; that it keeps the settings of flags no word
    names, and reads back what [--name=value] words spell. *)

From S2P Require Import Prelude.
From Stdlib Require Import Ascii.

Module flag.

(** ** Flags *)

(** A registered flag, over the state [S] of the variables: whether it is a boolean flag, and its
    [Set], which rejects some values. *)
Record Flag (S : Type) := mkFlag {
  Flag_Name : string;
  IsBoolFlag : bool;
  Set_ : string -> S -> option S;
}.
Arguments mkFlag {S} _ _ _.
Arguments Flag_Name {S} _.
Arguments IsBoolFlag {S} _.
Arguments Set_ {S} _ _ _.

(** [strconv.ParseBool] *)
Definition ParseBool (s : string) : option bool :=
  if decide (s ∈ ["1"; "t"; "T"; "TRUE"; "true"; "True"]%string) then Some true
  else if decide (s ∈ ["0"; "f"; "F"; "FALSE"; "false"; "False"]%string) then Some false
  else None.

(** [flag.StringVar] and [flag.BoolVar] on a variable: the flag, and the default stored at once. *)
Definition StringVar {S} (assign : string -> S -> S) (name value : string) : Flag S * (S -> S) :=
  (mkFlag name false (fun v s => Some (assign v s)), assign value).
Definition BoolVar {S} (assign : bool -> S -> S) (name : string) (value : bool) : Flag S * (S -> S) :=
  (mkFlag name true (fun v s => (fun b => assign b s) <$> ParseBool v), assign value).

Inductive error :=
  | BadFlagSyntax (arg : string)
  | NotDefined (name : string)
  | InvalidBoolean (value name : string)
  | NeedsArgument (name : string)
  | InvalidValue (value name : string).

(** What [Parse] comes to: the variables and [Args()], or that usage was asked for, or an error. *)
Inductive result (S : Type) :=
  | Parsed (s : S) (args : list string)
  | ErrHelp
  | Failed (e : error).
Arguments Parsed {S} _ _.
Arguments ErrHelp {S}.
Arguments Failed {S} _.

(** ** Words *)

Inductive word :=
  | NotAFlag
  | Terminator
  | BadSyntax
  | FlagWord (name : string) (value : option string).

(** The split at the first ['=']. *)
Fixpoint cutEq (s : string) : string * option string :=
  match s with
  | EmptyString => (EmptyString, None)
  | String c s' =>
      if decide (c = "="%char) then (EmptyString, Some s')
      else let '(n, v) := cutEq s' in (String c n, v)
  end.

(** What follows the dashes.  The first character is not ['='], so the search may begin there. *)
Definition nameWord (s : string) : word :=
  match s with
  | EmptyString => BadSyntax
  | String c _ =>
      if decide (c = "-"%char \/ c = "="%char) then BadSyntax
      else let '(n, v) := cutEq s in FlagWord n v
  end.

Definition readWord (arg : string) : word :=
  match arg with
  | String d (String c rest) =>
      if decide (d <> "-"%char) then NotAFlag
      else if decide (c = "-"%char) then
        match rest with EmptyString => Terminator | _ => nameWord rest end
      else nameWord (String c rest)
  | _ => NotAFlag
  end.

(** ** The parser *)
Section parse.
Context {S : Type}.

Fixpoint find_flag (formal : list (Flag S)) (name : string) : option (Flag S) :=
  match formal with
  | [] => None
  | f :: formal => if decide (f.(Flag_Name) = name) then Some f else find_flag formal name
  end.

(** [parseOne] until it stops. *)
Fixpoint parse (formal : list (Flag S)) (args : list string) (s : S) : result S :=
  match args with
  | [] => Parsed s []
  | arg :: rest =>
      match readWord arg with
      | NotAFlag => Parsed s args
      | Terminator => Parsed s rest
      | BadSyntax => Failed (BadFlagSyntax arg)
      | FlagWord name value =>
          match find_flag formal name with
          | None =>
              if decide (name = "help" \/ name = "h")%string then ErrHelp
              else Failed (NotDefined name)
          | Some f =>
              if f.(IsBoolFlag) then
                match f.(Set_) (default "true"%string value) s with
                | Some s' => parse formal rest s'
                | None => Failed (InvalidBoolean (default "true"%string value) name)
                end
              else
                match value, rest with
                | Some v, _ =>
                    match f.(Set_) v s with
                    | Some s' => parse formal rest s'
                    | None => Failed (InvalidValue v name)
                    end
                | None, [] => Failed (NeedsArgument name)
                | None, v :: rest' =>
                    match f.(Set_) v s with
                    | Some s' => parse formal rest' s'
                    | None => Failed (InvalidValue v name)
                    end
                end
          end
      end
  end.

(** The names the words of a command line could set. *)
Definition names_flag (name arg : string) : bool :=
  match readWord arg with
  | FlagWord n _ => bool_decide (n = name)
  | _ => false
  end.

(** [--name=value] *)
Definition assignment (name value : string) : string := "--" +:+ name +:+ "=" +:+ value.

Fixpoint no_eq (s : string) : bool :=
  match s with
  | EmptyString => true
  | String c s' => negb (bool_decide (c = "="%char)) && no_eq s'
  end.

(** A name [parse] can read. *)
Definition well_named (name : string) : bool :=
  match name with
  | EmptyString => false
  | String c _ => negb (bool_decide (c = "-"%char)) && no_eq name
  end.

(** ** Lemmas *)

Lemma cutEq_assignment name value :
  no_eq name = true -> cutEq (name +:+ "=" +:+ value) = (name, Some value).
Proof.
  induction name as [|c name IH]; simpl; [done|].
  intros [Hc Hn]%andb_prop. apply negb_true_iff, bool_decide_eq_false in Hc.
  rewrite decide_False by done. by rewrite IH.
Qed.

Lemma readWord_assignment name value :
  well_named name = true -> readWord (assignment name value) = FlagWord name (Some value).
Proof.
  unfold well_named. destruct name as [|c name]; [done|]. intros [Hd He]%andb_prop.
  pose proof He as He'. simpl in He. apply andb_prop in He as [He _].
  apply negb_true_iff, bool_decide_eq_false in Hd, He.
  change (readWord (assignment (String c name) value)) with (nameWord (String c name +:+ "=" +:+ value)).
  unfold nameWord. change (String c name +:+ "=" +:+ value) with (String c (name +:+ "=" +:+ value)).
  cbv iota beta. rewrite decide_False by naive_solver.
  change (String c (name +:+ "=" +:+ value)) with (String c name +:+ "=" +:+ value).
  by rewrite cutEq_assignment.
Qed.

(** One assignment read, whatever follows. *)
Lemma parse_assignment formal name value rest s f s' :
  well_named name = true -> find_flag formal name = Some f -> f.(Set_) value s = Some s' ->
  parse formal (assignment name value :: rest) s = parse formal rest s'.
Proof.
  intros Hw Hf Hs. cbn [parse]. rewrite (readWord_assignment _ _ Hw), Hf. simpl. rewrite Hs.
  by destruct (IsBoolFlag f).
Qed.

(** A boolean flag's value must be in its own word: the next word is read by itself. *)
Lemma parse_bool_alone formal name v rest s f s' :
  readWord ("--" +:+ name) = FlagWord name None -> find_flag formal name = Some f ->
  f.(IsBoolFlag) = true -> f.(Set_) "true" s = Some s' -> readWord v = NotAFlag ->
  parse formal (("--" +:+ name)%string :: v :: rest) s = Parsed s' (v :: rest).
Proof.
  intros Hw Hf Hb Hs Hv. cbn [parse]. rewrite Hw, Hf, Hb. simpl. rewrite Hs.
  cbn [parse]. by rewrite Hv.
Qed.

Lemma find_flag_spec formal name f :
  find_flag formal name = Some f -> f ∈ formal /\ f.(Flag_Name) = name.
Proof.
  induction formal as [|g formal IH]; simpl; [done|]. case_decide as Hn.
  - intros [= ->]. split; [by left|done].
  - intros [? ?]%IH. split; [by right|done].
Qed.

(** What every flag but [name] keeps, a command line none of whose words names that flag keeps. *)
Lemma parse_keeps (P : S -> Prop) (name : string) formal args s s' rest :
  (forall f v s0 s1, f ∈ formal -> f.(Flag_Name) <> name -> P s0 -> f.(Set_) v s0 = Some s1 -> P s1) ->
  forallb (fun arg => negb (names_flag name arg)) args = true -> P s ->
  parse formal args s = Parsed s' rest -> P s'.
Proof.
  intros Hset. assert (forall f n v s0 s1, find_flag formal n = Some f -> n <> name -> P s0 ->
    f.(Set_) v s0 = Some s1 -> P s1) as Hset'.
  { intros f n v s0 s1 [Hf Hn]%find_flag_spec. rewrite <- Hn. by apply Hset. }
  remember (length args) as n eqn:Hlen. revert args s Hlen.
  induction (lt_wf n) as [n _ IH]. intros [|arg args] s -> Hargs HP Hp; [by injection Hp as <- _|].
  simpl in Hargs. apply andb_prop in Hargs as [Harg Hargs]. cbn [parse] in Hp. unfold names_flag in Harg.
  destruct (readWord arg) as [| | |m value]; try done; try (by injection Hp as <- _).
  apply negb_true_iff, bool_decide_eq_false in Harg.
  destruct (find_flag formal m) as [f|] eqn:Hf; [|by case_decide].
  assert (forall v k s1, f.(Set_) v s = Some s1 -> (length k < length (arg :: args))%nat ->
    forallb (fun arg => negb (names_flag name arg)) k = true -> parse formal k s1 = Parsed s' rest -> P s')
    as Hgo by (intros v k s1 Hs Hk Hkf; eapply IH; [exact Hk|done|exact Hkf|by eapply Hset']).
  destruct (IsBoolFlag f); [|destruct value as [v|]; [|destruct args as [|v args]; [done|]]];
    match type of Hp with context [Set_ f ?v s] => destruct (Set_ f v s) eqn:Hs; [|done] end;
    (eapply Hgo; [exact Hs| | |exact Hp]); simpl; try lia; try done.
  simpl in Hargs. by apply andb_prop in Hargs as [_ ?].
Qed.

End parse.
End flag.
