(* ===== verification/Startup.v ===== *)
(** The program itself: scheme registration ([api/v1alpha1/groupversion_info.go], the [init] of
    [noderemediationpolicy_types.go]), [cmd/main.go] with its flags, server options and start-up
    sequence, and what the controller and the webhook register with the manager. *)

From S2P Require Import Prelude GoTime Types K8sLib Effects Cluster Taint Reconcile Predicate Watch.
From S2P Require Import Webhook Flags.

(** ** Scheme registration *)
Module registration.

Definition GroupVersion : Type := string * string.

(** [runtime.Scheme], and what the libraries do to one.  A scheme builder is the list of its
    functions; [Recognizes] takes a group version and a kind. *)
Class SchemeLib := {
  Scheme : Type;
  NewScheme : Scheme;
  Recognizes : Scheme -> GroupVersion -> string -> bool;
  AddKnownTypes : GroupVersion -> list string -> Scheme -> Scheme;
  AddToGroupVersion : GroupVersion -> Scheme -> Scheme;
  SchemeBuilder_AddToScheme : list (Scheme -> option error * Scheme) -> Scheme -> option error * Scheme;
  clientgoscheme_AddToScheme : Scheme -> option error * Scheme;
}.

Class SchemeLibLaws `{SchemeLib} : Prop := {
  AddKnownTypes_spec : forall gv kinds s gv' kind,
    Recognizes (AddKnownTypes gv kinds s) gv' kind
    = bool_decide (gv' = gv /\ kind ∈ kinds) || Recognizes s gv' kind;
  (** "AddToScheme applies all the stored functions to the scheme.  A non-nil error indicates that
      one function failed and the attempt was abandoned." *)
  SchemeBuilder_nil : forall s, SchemeBuilder_AddToScheme [] s = (None, s);
  SchemeBuilder_cons : forall f fs s,
    SchemeBuilder_AddToScheme (f :: fs) s
    = match f s with
      | (None, s') => SchemeBuilder_AddToScheme fs s'
      | (Some err, s') => (Some err, s')
      end;
}.

Section registration.
Context `{SL : SchemeLib}.

Definition SchemeGroupVersion : GroupVersion := ("warden.scality.com", "v1alpha1")%string.

(** The package variable as it is initialised; and after the [init] function registered the types. *)
Definition SchemeBuilder : list (Scheme -> option error * Scheme) :=
  [fun scheme => (None, AddToGroupVersion SchemeGroupVersion scheme)].

Definition addKnownTypes (s : Scheme) : option error * Scheme :=
  (None, AddKnownTypes SchemeGroupVersion ["NodeRemediationPolicy"; "NodeRemediationPolicyList"]%string s).

Definition init (sb : list (Scheme -> option error * Scheme)) : list (Scheme -> option error * Scheme) :=
  sb ++ [addKnownTypes].

(** [SchemeBuilder.AddToScheme] is bound to the variable's address, so a call sees what [init]
    registered. *)
Definition AddToScheme (s : Scheme) : option error * Scheme :=
  SchemeBuilder_AddToScheme (init SchemeBuilder) s.

(** [utilruntime.Must]: an error panics. *)
Definition Must (r : option error * Scheme) : option Scheme :=
  match r with (None, s) => Some s | (Some _, _) => None end.

(** The [init] of [cmd/main.go]; [None] is the panic. *)
Definition main_init : option Scheme :=
  s ← Must (clientgoscheme_AddToScheme NewScheme);
  Must (AddToScheme s).

Context `{SLL : !SchemeLibLaws}.

Lemma AddToScheme_spec s :
  AddToScheme s = (None, (addKnownTypes (AddToGroupVersion SchemeGroupVersion s)).2).
Proof.
  unfold AddToScheme, init, SchemeBuilder. simpl.
  rewrite SchemeBuilder_cons. simpl. rewrite SchemeBuilder_cons. simpl. apply SchemeBuilder_nil.
Qed.

(** The panic is the client library's only; otherwise both kinds are known. *)
Lemma main_init_spec :
  match main_init with
  | None => exists err s, clientgoscheme_AddToScheme NewScheme = (Some err, s)
  | Some s =>
      Recognizes s SchemeGroupVersion "NodeRemediationPolicy" = true
      /\ Recognizes s SchemeGroupVersion "NodeRemediationPolicyList" = true
  end.
Proof.
  unfold main_init, Must at 2. destruct (clientgoscheme_AddToScheme NewScheme) as [[err|] s]; simpl;
    [by exists err, s|].
  rewrite AddToScheme_spec. simpl. rewrite !AddKnownTypes_spec.
  by rewrite !bool_decide_eq_true_2 by (split; [done|set_solver]).
Qed.

End registration.
End registration.

Module startup.

(** ** The variables of [main] *)

Record options := mkOptions {
  metricsAddr : string;
  probeAddr : string;
  enableLeaderElection : bool;
  secureMetrics : bool;
  webhookCertPath : string;
  webhookCertName : string;
  webhookCertKey : string;
  metricsCertPath : string;
  metricsCertName : string;
  metricsCertKey : string;
  enableHTTP2 : bool;
}.

Definition zero_options : options :=
  mkOptions EmptyString EmptyString false false EmptyString EmptyString EmptyString EmptyString
    EmptyString EmptyString false.

Definition set_metricsAddr x '(mkOptions _ b c d e f g h i j k) := mkOptions x b c d e f g h i j k.
Definition set_probeAddr x '(mkOptions a _ c d e f g h i j k) := mkOptions a x c d e f g h i j k.
Definition set_enableLeaderElection x '(mkOptions a b _ d e f g h i j k) := mkOptions a b x d e f g h i j k.
Definition set_secureMetrics x '(mkOptions a b c _ e f g h i j k) := mkOptions a b c x e f g h i j k.
Definition set_webhookCertPath x '(mkOptions a b c d _ f g h i j k) := mkOptions a b c d x f g h i j k.
Definition set_webhookCertName x '(mkOptions a b c d e _ g h i j k) := mkOptions a b c d e x g h i j k.
Definition set_webhookCertKey x '(mkOptions a b c d e f _ h i j k) := mkOptions a b c d e f x h i j k.
Definition set_metricsCertPath x '(mkOptions a b c d e f g _ i j k) := mkOptions a b c d e f g x i j k.
Definition set_metricsCertName x '(mkOptions a b c d e f g h _ j k) := mkOptions a b c d e f g h x j k.
Definition set_metricsCertKey x '(mkOptions a b c d e f g h i _ k) := mkOptions a b c d e f g h i x k.
Definition set_enableHTTP2 x '(mkOptions a b c d e f g h i j _) := mkOptions a b c d e f g h i j x.

(** The flags the libraries add to the command line: zap's ([opts.BindFlags]) and the client
    configuration's. *)
Class LibraryFlags := {
  LibraryState : Type;
  library_defaults : LibraryState;
  library_flags : list (flag.Flag LibraryState);
}.

(** ** The libraries' options *)

(** The field of a [tls.Config] that is assigned, and what a TLS option does: log and assign. *)
Record Config := mkConfig { NextProtos : list string }.
Definition logline : Type := string * list (string * string).
Definition TLSOpt : Type := Config -> list logline * Config.

Inductive FilterProvider := WithAuthenticationAndAuthorization.

Record webhook_Options := mkWebhookOptions {
  TLSOpts : list TLSOpt;
  CertDir : string;
  CertName : string;
  KeyName : string;
}.

Record metrics_Options := mkMetricsOptions {
  BindAddress : string;
  SecureServing : bool;
  Metrics_TLSOpts : list TLSOpt;
  Filter : option FilterProvider;
  Metrics_CertDir : string;
  Metrics_CertName : string;
  Metrics_KeyName : string;
}.

Section startup.
Context `{K : K8s} `{R : Retry} `{SL : registration.SchemeLib} `{LF : LibraryFlags}.

Record manager_Options := mkManagerOptions {
  Options_Scheme : registration.Scheme;
  Metrics : metrics_Options;
  WebhookServer : webhook_Options;
  HealthProbeBindAddress : string;
  LeaderElection : bool;
  LeaderElectionID : string;
}.

(** What [SetupWithManager] gives the controller builder: the watched kind, the further watches with
    handler and predicate, the name, the reconciler; and the recorder the reconciler was built with. *)
Record Controller := mkController {
  For : string;
  Watches : list (string * (watch.NodeEvent -> prog unit) * (watch.NodeEvent -> bool));
  Named : string;
  Reconciler : string -> prog (reconcile.Result * option error);
  EventRecorder : string;
}.

(** What the webhook builder is given. *)
Record WebhookHandlers := mkWebhookHandlers {
  Webhook_For : string;
  OnCreate : v1alpha1.NodeRemediationPolicy -> prog (webhook.Warnings * option error);
  OnUpdate : v1alpha1.NodeRemediationPolicy -> v1alpha1.NodeRemediationPolicy ->
    prog (webhook.Warnings * option error);
  OnDelete : v1alpha1.NodeRemediationPolicy -> prog (webhook.Warnings * option error);
}.

Definition SetupWithManager (recorder : string) : Controller :=
  {| For := "NodeRemediationPolicy";
     Watches := [("Node"%string, watch.nodeEventHandler, watch.nodePredicate)];
     Named := "noderemediationpolicy";
     Reconciler := reconcile.Reconcile;
     EventRecorder := recorder |}.

Definition SetupNodeRemediationPolicyWebhookWithManager : WebhookHandlers :=
  {| Webhook_For := "NodeRemediationPolicy";
     OnCreate := webhook.ValidateCreate;
     OnUpdate := webhook.ValidateUpdate;
     OnDelete := webhook.ValidateDelete |}.

(** ** What [main] does *)

Inductive action :=
  | Usage (e : option flag.error)
  | SetLogger (s : LibraryState)
  | Info (l : logline)
  | LogError (err : error) (msg : string) (kv : list (string * string))
  | NewServer (o : webhook_Options)
  | GetConfigOrDie
  | NewManager (o : manager_Options)
  | CompleteController (c : Controller)
  | CompleteWebhook (w : WebhookHandlers)
  | AddHealthzCheck (name : string)
  | AddReadyzCheck (name : string)
  | Start.

(** The answers a run gets: the command line, the environment variable (empty when unset), whether
    there is a cluster configuration — [GetConfigOrDie] exits otherwise — and what each step returns. *)
Record environment := mkEnvironment {
  Args : list string;
  ENABLE_WEBHOOKS : string;
  has_config : bool;
  NewManager_error : option error;
  Controller_error : option error;
  Webhook_error : option error;
  Healthz_error : option error;
  Readyz_error : option error;
  Start_error : option error;
}.

(** A computation acts and then yields a value or exits with a code. *)
Definition M (A : Type) : Type := list action * (Z + A).
#[global] Instance M_ret : MRet M := fun A a => ([], inr a).
#[global] Instance M_bind : MBind M := fun A B k m =>
  match m with
  | (tr, inl code) => (tr, inl code)
  | (tr, inr a) => let '(tr', r) := k a in (tr ++ tr', r)
  end.

Definition act (a : action) : M unit := ([a], inr tt).
Definition Exit {A} (code : Z) : M A := ([], inl code).

(** [if err := ...; err != nil { setupLog.Error(err, msg, kv...); os.Exit(1) }] *)
Definition orExit (a : action) (err : option error) (msg : string) (kv : list (string * string)) : M unit :=
  act a ;;
  match err with
  | None => mret tt
  | Some e => act (LogError e msg kv) ;; Exit 1
  end.

(** ** Flags *)

Definition vars : Type := options * LibraryState.

Definition onOptions (f : options -> options) (s : vars) : vars := (f s.1, s.2).
Definition StringVar (set : string -> options -> options) : string -> string ->
    flag.Flag vars * (vars -> vars) :=
  flag.StringVar (fun v => onOptions (set v)).
Definition BoolVar (set : bool -> options -> options) : string -> bool ->
    flag.Flag vars * (vars -> vars) :=
  flag.BoolVar (fun v => onOptions (set v)).

Definition registered : list (flag.Flag vars * (vars -> vars)) := [
  StringVar set_metricsAddr "metrics-bind-address" "0";
  StringVar set_probeAddr "health-probe-bind-address" ":8081";
  BoolVar set_enableLeaderElection "leader-elect" false;
  BoolVar set_secureMetrics "metrics-secure" true;
  StringVar set_webhookCertPath "webhook-cert-path" EmptyString;
  StringVar set_webhookCertName "webhook-cert-name" "tls.crt";
  StringVar set_webhookCertKey "webhook-cert-key" "tls.key";
  StringVar set_metricsCertPath "metrics-cert-path" EmptyString;
  StringVar set_metricsCertName "metrics-cert-name" "tls.crt";
  StringVar set_metricsCertKey "metrics-cert-key" "tls.key";
  BoolVar set_enableHTTP2 "enable-http2" false ].

Definition liftFlag (f : flag.Flag LibraryState) : flag.Flag vars :=
  flag.mkFlag f.(flag.Flag_Name) f.(flag.IsBoolFlag)
    (fun v s => (fun l => (s.1, l)) <$> f.(flag.Set_) v s.2).

Definition formal : list (flag.Flag vars) := registered.*1 ++ (liftFlag <$> library_flags).

(** Each registration stores its default. *)
Definition initial : vars := foldl (fun s f => f.2 s) (zero_options, library_defaults) registered.

(** ** [main] *)

Definition disableHTTP2 : TLSOpt := fun _ =>
  ([("Disabling HTTP/2"%string, [])], mkConfig ["http/1.1"%string]).

Definition tlsOptions (o : options) : list TLSOpt :=
  if negb o.(enableHTTP2) then [disableHTTP2] else [].

Definition given (path : string) : bool := 0 <? Z.of_nat (String.length path).

Definition webhookServerOptions (o : options) : M webhook_Options :=
  let opts := mkWebhookOptions (tlsOptions o) EmptyString EmptyString EmptyString in
  if given o.(webhookCertPath) then
    act (Info ("Initializing webhook certificate watcher using provided certificates",
      [("webhook-cert-path", o.(webhookCertPath)); ("webhook-cert-name", o.(webhookCertName));
       ("webhook-cert-key", o.(webhookCertKey))]))%string ;;
    mret (mkWebhookOptions opts.(TLSOpts) o.(webhookCertPath) o.(webhookCertName) o.(webhookCertKey))
  else mret opts.

Definition metricsServerOptions (o : options) : M metrics_Options :=
  let opts := mkMetricsOptions o.(metricsAddr) o.(secureMetrics) (tlsOptions o)
    (if o.(secureMetrics) then Some WithAuthenticationAndAuthorization else None)
    EmptyString EmptyString EmptyString in
  if given o.(metricsCertPath) then
    act (Info ("Initializing metrics certificate watcher using provided certificates",
      [("metrics-cert-path", o.(metricsCertPath)); ("metrics-cert-name", o.(metricsCertName));
       ("metrics-cert-key", o.(metricsCertKey))]))%string ;;
    mret (mkMetricsOptions opts.(BindAddress) opts.(SecureServing) opts.(Metrics_TLSOpts) opts.(Filter)
            o.(metricsCertPath) o.(metricsCertName) o.(metricsCertKey))
  else mret opts.

Definition managerOptions (scheme : registration.Scheme) (o : options) (w : webhook_Options)
    (m : metrics_Options) : manager_Options :=
  {| Options_Scheme := scheme;
     Metrics := m;
     WebhookServer := w;
     HealthProbeBindAddress := o.(probeAddr);
     LeaderElection := o.(enableLeaderElection);
     LeaderElectionID := "595ed9ad.scality.com" |}.

(** From the parsed flags to the manager's options. *)
Definition configure (scheme : registration.Scheme) (E : environment) (o : options) : M manager_Options :=
  w ← webhookServerOptions o;
  act (NewServer w) ;;
  m ← metricsServerOptions o;
  act GetConfigOrDie ;;
  if E.(has_config) then mret (managerOptions scheme o w m) else Exit 1.

Definition setupWebhook (E : environment) : M unit :=
  if negb (bool_decide (E.(ENABLE_WEBHOOKS) = "false"%string)) then
    orExit (CompleteWebhook SetupNodeRemediationPolicyWebhookWithManager) E.(Webhook_error)
      "Failed to create webhook" [("webhook", "NodeRemediationPolicy")%string]
  else mret tt.

Definition start (scheme : registration.Scheme) (E : environment) (s : vars) : M unit :=
  act (SetLogger s.2) ;;
  o ← configure scheme E s.1;
  orExit (NewManager o) E.(NewManager_error) "Failed to start manager" [] ;;
  orExit (CompleteController (SetupWithManager "node-warden")) E.(Controller_error)
    "Failed to create controller" [("controller", "noderemediationpolicy")%string] ;;
  setupWebhook E ;;
  orExit (AddHealthzCheck "healthz") E.(Healthz_error) "Failed to set up health check" [] ;;
  orExit (AddReadyzCheck "readyz") E.(Readyz_error) "Failed to set up ready check" [] ;;
  act (Info ("Starting manager"%string, [])) ;;
  orExit Start E.(Start_error) "Failed to run manager" [].

(** The command line is parsed with [flag.ExitOnError]: usage and exit code 0 for help, 2 for an
    error; what is left after the flags is ignored. *)
Definition main (scheme : registration.Scheme) (E : environment) : M unit :=
  match flag.parse formal E.(Args) initial with
  | flag.ErrHelp => act (Usage None) ;; Exit 0
  | flag.Failed e => act (Usage (Some e)) ;; Exit 2
  | flag.Parsed s _ => start scheme E s
  end.

End startup.
End startup.
