(* ===== verification/StartupFixtures.v ===== *)
(** A concrete scheme and library flags to run the program's start on, and the command line of the
    deployment in [config/]. *)

From S2P Require Import Prelude GoTime Types K8sLib Effects Cluster Taint Reconcile Predicate Watch.
From S2P Require Import Webhook Flags Startup.
Import startup.

Module startup_example.

(** A scheme is the kinds it knows. *)
#[global] Instance scheme_lib : registration.SchemeLib := {|
  registration.Scheme := list (registration.GroupVersion * string);
  registration.NewScheme := [];
  registration.Recognizes s gv kind := bool_decide ((gv, kind) ∈ s);
  registration.AddKnownTypes gv kinds s := ((fun k => (gv, k)) <$> kinds) ++ s;
  registration.AddToGroupVersion gv s := (gv, "WatchEvent"%string) :: s;
  registration.SchemeBuilder_AddToScheme :=
    fix go fs s := match fs with
                   | [] => (None, s)
                   | f :: fs => match f s with
                                | (None, s') => go fs s'
                                | (Some err, s') => (Some err, s')
                                end
                   end;
  registration.clientgoscheme_AddToScheme s := (None, (("", "v1"), "Node")%string :: s);
|}.

#[global] Instance scheme_lib_laws : registration.SchemeLibLaws.
Proof.
  split; [|done..]. intros gv kinds s gv' kind. simpl. apply eq_true_iff_eq.
  rewrite orb_true_iff, !bool_decide_eq_true, elem_of_app, list_elem_of_fmap. split.
  - intros [(k & [= -> ->] & Hk)|Hs]; [by left|by right].
  - intros [[-> Hk]|Hs]; [left; by exists kind|by right].
Qed.

(** The flags of zap and of the client configuration, with the values set. *)
Definition libraryFlag (name : string) (isBool : bool) : flag.Flag (list (string * string)) :=
  flag.mkFlag name isBool (fun v s => Some ((name, v) :: s)).

#[global] Instance library_flags : LibraryFlags := {|
  LibraryState := list (string * string);
  library_defaults := [];
  library_flags :=
    [libraryFlag "kubeconfig" false; libraryFlag "zap-devel" true; libraryFlag "zap-encoder" false;
     libraryFlag "zap-log-level" false; libraryFlag "zap-stacktrace-level" false;
     libraryFlag "zap-time-encoding" false];
|}.

(** [config/manager/manager.yaml] with the metrics and webhook patches of [config/default], and
    the answer to the registration of the second probe. *)
Definition deployed (readyz : option error) : environment := {|
  Args := ["--metrics-bind-address=:8443"; "--leader-elect"; "--health-probe-bind-address=:8081";
           "--webhook-cert-path=/tmp/k8s-webhook-server/serving-certs"]%string;
  ENABLE_WEBHOOKS := "";
  has_config := true;
  NewManager_error := None; Controller_error := None; Webhook_error := None;
  Healthz_error := None; Readyz_error := readyz; Start_error := None;
|}.

Definition deployed_options : options :=
  mkOptions ":8443" ":8081" true true "/tmp/k8s-webhook-server/serving-certs" "tls.crt" "tls.key" ""
    "tls.crt" "tls.key" false.

End startup_example.
