(* ===== verification/StartupTheorems.v ===== *)
(** The theorems about the program's start: what reaches the manager for every command line and
    environment, and which failure ends it where. *)

From S2P Require Import Prelude GoTime Types K8sLib Effects Cluster Taint Reconcile Predicate Watch.
From S2P Require Import Webhook Flags Startup StartupFixtures.
Import startup.

(** ** Observations and reference *)
Section spec.
Context `{K : K8s} `{R : Retry} `{SL : registration.SchemeLib} `{LF : LibraryFlags}.

(** The steps that need an answer, in order: what is asked, the answer, and what a failure logs. *)
Definition steps (E : environment) (o : manager_Options) :
    list (action * option error * (string * list (string * string))) :=
  [(NewManager o, E.(NewManager_error), ("Failed to start manager", []));
   (CompleteController (SetupWithManager "node-warden"), E.(Controller_error),
     ("Failed to create controller", [("controller", "noderemediationpolicy")]))]%string
  ++ (if decide (E.(ENABLE_WEBHOOKS) = "false"%string) then []
      else [(CompleteWebhook SetupNodeRemediationPolicyWebhookWithManager, E.(Webhook_error),
              ("Failed to create webhook", [("webhook", "NodeRemediationPolicy")]))]%string)
  ++ [(AddHealthzCheck "healthz", E.(Healthz_error), ("Failed to set up health check", []));
      (AddReadyzCheck "readyz", E.(Readyz_error), ("Failed to set up ready check", []));
      (Start, E.(Start_error), ("Failed to run manager", []))]%string.

Fixpoint first_failure {A B C} (l : list (A * option B * C)) : option (nat * B * C) :=
  match l with
  | [] => None
  | (_, Some e, c) :: _ => Some (O, e, c)
  | (_, None, _) :: l => (fun '(i, e, c) => (S i, e, c)) <$> first_failure l
  end.

Definition is_step (a : action) : bool :=
  match a with
  | NewManager _ | CompleteController _ | CompleteWebhook _ | AddHealthzCheck _ | AddReadyzCheck _
  | Start => true
  | _ => false
  end.
Definition asked (tr : list action) : list action := filter (fun a => Is_true (is_step a)) tr.
Definition logged_errors (tr : list action) : list (error * (string * list (string * string))) :=
  omap (fun a => match a with LogError e m kv => Some (e, (m, kv)) | _ => None end) tr.

(** The TLS options of a server applied to a configuration, in order. *)
Definition applyTLS (opts : list TLSOpt) (c : Config) : Config := foldl (fun c f => (f c).2) c opts.

(** The command line that spells out every flag of [main]. *)
Definition spell (b : bool) : string := if b then "true" else "false".
Definition render (o : options) : list string := [
  flag.assignment "metrics-bind-address" o.(metricsAddr);
  flag.assignment "health-probe-bind-address" o.(probeAddr);
  flag.assignment "leader-elect" (spell o.(enableLeaderElection));
  flag.assignment "metrics-secure" (spell o.(secureMetrics));
  flag.assignment "webhook-cert-path" o.(webhookCertPath);
  flag.assignment "webhook-cert-name" o.(webhookCertName);
  flag.assignment "webhook-cert-key" o.(webhookCertKey);
  flag.assignment "metrics-cert-path" o.(metricsCertPath);
  flag.assignment "metrics-cert-name" o.(metricsCertName);
  flag.assignment "metrics-cert-key" o.(metricsCertKey);
  flag.assignment "enable-http2" (spell o.(enableHTTP2)) ].

(** ** Lemmas *)

#[local] Arguments asked : simpl never.
#[local] Arguments logged_errors : simpl never.

Lemma M_bind_trace {A B} (m : M A) (k : A -> M B) :
  m ≫= k = match m with
           | (tr, inl code) => (tr, inl code)
           | (tr, inr a) => (tr ++ (k a).1, (k a).2)
           end.
Proof. destruct m as [tr [code|a]]; [done|]. unfold mbind, M_bind. by destruct (k a). Qed.

Lemma asked_app l k : asked (l ++ k) = asked l ++ asked k.
Proof. apply filter_app. Qed.
Lemma logged_errors_app l k : logged_errors (l ++ k) = logged_errors l ++ logged_errors k.
Proof. apply omap_app. Qed.

(** What the configuration acts, and what it comes to. *)
Lemma configure_quiet scheme E o tr r :
  configure scheme E o = (tr, r) -> asked tr = [] /\ logged_errors tr = [].
Proof.
  unfold configure, webhookServerOptions, metricsServerOptions. cbv zeta.
  destruct (given _), (given _), (has_config E); by intros [= <- <-].
Qed.

Lemma configure_options scheme E o tr mo :
  configure scheme E o = (tr, inr mo) ->
  mo.(Metrics).(SecureServing) = o.(secureMetrics)
  /\ mo.(Metrics).(Filter) = (if o.(secureMetrics) then Some WithAuthenticationAndAuthorization else None)
  /\ mo.(Metrics).(Metrics_TLSOpts) = tlsOptions o /\ mo.(WebhookServer).(TLSOpts) = tlsOptions o.
Proof.
  unfold configure, webhookServerOptions, metricsServerOptions. cbv zeta.
  destruct (given _), (given _), (has_config E); by intros [= <- <-].
Qed.

Lemma tlsOptions_spec o c :
  applyTLS (tlsOptions o) c
  = if o.(enableHTTP2) then c else mkConfig ["http/1.1"%string].
Proof. unfold tlsOptions. by destruct (enableHTTP2 o). Qed.

(** A step and what follows it. *)
Definition runs (m : M unit) (l : list (action * option error * (string * list (string * string)))) : Prop :=
  match first_failure l with
  | None => m.2 = inr tt /\ asked m.1 = l.*1.*1 /\ logged_errors m.1 = []
  | Some (i, e, c) =>
      m.2 = inl 1 /\ asked m.1 = take (S i) l.*1.*1
      /\ logged_errors m.1 = [(e, c)] /\ last m.1 = Some (LogError e c.1 c.2)
  end.

Lemma runs_prefix tr m l :
  asked tr = [] -> logged_errors tr = [] -> runs m l -> runs (tr ++ m.1, m.2) l.
Proof.
  unfold runs. intros Ha He Hm. destruct (first_failure l) as [[[i e] c]|]; simpl;
    rewrite asked_app, logged_errors_app, Ha, He; simpl; [|done].
  destruct Hm as (? & ? & ? & Hl). split_and!; try done. by rewrite last_app, Hl.
Qed.

Lemma runs_orExit a err msg kv m l :
  is_step a = true -> runs m l -> runs (orExit a err msg kv ;; m) ((a, err, (msg, kv)) :: l).
Proof.
  intros Ha Hm. unfold orExit. rewrite !M_bind_trace. unfold runs.
  assert (forall tr, asked (a :: tr) = a :: asked tr) as Hasked
    by (intros tr; unfold asked; rewrite filter_cons, decide_True; [done|by rewrite Ha]).
  assert (forall tr, logged_errors (a :: tr) = logged_errors tr) as Herr by by destruct a.
  destruct err as [e|]; simpl.
  - rewrite Hasked, Herr. done.
  - unfold runs in Hm. destruct (first_failure l) as [[[i e] c]|]; simpl; rewrite Hasked, Herr.
    + destruct Hm as (? & -> & -> & Hl). split_and!; try done. by rewrite last_cons, Hl.
    + destruct Hm as (? & -> & ->). done.
Qed.

Lemma runs_setupWebhook E m l :
  runs m l ->
  runs (setupWebhook E ;; m)
    ((if decide (E.(ENABLE_WEBHOOKS) = "false"%string) then []
      else [(CompleteWebhook SetupNodeRemediationPolicyWebhookWithManager, E.(Webhook_error),
              ("Failed to create webhook", [("webhook", "NodeRemediationPolicy")]))]%string) ++ l).
Proof.
  intros Hm. unfold setupWebhook. case_decide as Hw.
  - rewrite bool_decide_eq_true_2 by done. cbn [negb app]. rewrite M_bind_trace. by destruct m.
  - rewrite bool_decide_eq_false_2 by done. cbn [negb app]. by apply runs_orExit.
Qed.

(** Everything after the configuration. *)
Lemma runs_steps E o :
  runs (orExit (NewManager o) E.(NewManager_error) "Failed to start manager" [] ;;
        orExit (CompleteController (SetupWithManager "node-warden")) E.(Controller_error)
          "Failed to create controller" [("controller", "noderemediationpolicy")%string] ;;
        setupWebhook E ;;
        orExit (AddHealthzCheck "healthz") E.(Healthz_error) "Failed to set up health check" [] ;;
        orExit (AddReadyzCheck "readyz") E.(Readyz_error) "Failed to set up ready check" [] ;;
        act (Info ("Starting manager"%string, [])) ;;
        orExit Start E.(Start_error) "Failed to run manager" []) (steps E o).
Proof.
  apply runs_orExit; [done|]. apply runs_orExit; [done|]. apply runs_setupWebhook.
  apply runs_orExit; [done|]. apply runs_orExit; [done|].
  rewrite M_bind_trace. apply (runs_prefix [_]); [done|done|].
  unfold orExit. rewrite M_bind_trace. unfold runs. by destruct (Start_error E).
Qed.

(** The flags of [main] come first, so they are found whatever the libraries add. *)
Lemma read_back o s rest :
  flag.parse formal (render o ++ rest) s = flag.parse formal rest (o, s.2).
Proof.
  assert (forall b, flag.ParseBool (spell b) = Some b) as Hb by by intros [].
  unfold render. cbn [app].
  do 11 (erewrite flag.parse_assignment; [|reflexivity|reflexivity|]; [|simpl; rewrite ?Hb; reflexivity]).
  destruct s as [[] l], o. reflexivity.
Qed.

(** What a start that was configured does. *)
Lemma start_configured scheme E s tr o :
  configure scheme E s.1 = (tr, inr o) -> runs (start scheme E s) (steps E o).
Proof.
  intros Hc. destruct (configure_quiet _ _ _ _ _ Hc) as [Ha He]. unfold start.
  rewrite M_bind_trace. cbn [fst snd act]. rewrite M_bind_trace, Hc.
  apply (runs_prefix [_]); [done|done|]. apply (runs_prefix tr); [done|done|]. apply runs_steps.
Qed.

(** What reaches the manager comes from the configuration. *)
Lemma start_asks scheme E s a :
  a ∈ asked (start scheme E s).1 ->
  exists tr o, configure scheme E s.1 = (tr, inr o) /\ a ∈ (steps E o).*1.*1.
Proof.
  destruct (configure scheme E s.1) as [tr [code|o]] eqn:Hc.
  - unfold start. rewrite M_bind_trace. cbn [fst snd act]. rewrite M_bind_trace, Hc.
    destruct (configure_quiet _ _ _ _ _ Hc) as [Ha _]. cbn [fst app].
    change (SetLogger s.2 :: tr) with ([SetLogger s.2] ++ tr). rewrite asked_app, Ha.
    by intros ?%not_elem_of_nil.
  - intros Ha. exists tr, o. split; [done|]. pose proof (start_configured _ _ _ _ _ Hc) as Hr.
    unfold runs in Hr. destruct (first_failure (steps E o)) as [[[i e] c]|].
    + destruct Hr as (_ & Hr & _). rewrite Hr in Ha. apply elem_of_take in Ha as (? & ? & _);
        by eapply list_elem_of_lookup_2.
    + destruct Hr as (_ & Hr & _). by rewrite Hr in Ha.
Qed.

Lemma main_asks scheme E a :
  a ∈ asked (main scheme E).1 ->
  exists s rest tr o, flag.parse formal E.(Args) initial = flag.Parsed s rest
    /\ configure scheme E s.1 = (tr, inr o) /\ a ∈ (steps E o).*1.*1.
Proof.
  unfold main. destruct (flag.parse _ _ _) as [s rest| |e] eqn:Hp; [|by intros ?%not_elem_of_nil..].
  intros (tr & o & Hc & Ha)%start_asks. by exists s, rest, tr, o.
Qed.

Lemma steps_manager E o mo : NewManager mo ∈ (steps E o).*1.*1 -> mo = o.
Proof.
  unfold steps. case_decide; simpl; rewrite !elem_of_cons; intros Ha; set_solver.
Qed.

(** Only the flag of a name writes its variable. *)
Lemma formal_keeps {A} (get : options -> A) (name : string) f v (s s' : vars) :
  Forall (fun g => g.1.(flag.Flag_Name) <> name -> forall v s s',
    g.1.(flag.Set_) v s = Some s' -> get s'.1 = get s.1) registered ->
  f ∈ formal -> f.(flag.Flag_Name) <> name -> f.(flag.Set_) v s = Some s' -> get s'.1 = get s.1.
Proof.
  intros Hreg Hf Hn Hs. unfold formal in Hf. apply elem_of_app in Hf as [Hf|Hf].
  - apply list_elem_of_fmap in Hf as (g & -> & Hg). rewrite Forall_forall in Hreg. by eapply Hreg.
  - apply list_elem_of_fmap in Hf as (g & -> & _). simpl in Hs. by apply fmap_Some in Hs as (l & _ & ->).
Qed.

End spec.

Section theorems.
Context `{K : K8s} `{R : Retry} `{SL : registration.SchemeLib} `{LF : LibraryFlags}.

(** C22: Once the command line is parsed and a cluster configuration is there, the program asks the
    manager for exactly the steps of the table, in its order — manager, controller, webhook unless
    [ENABLE_WEBHOOKS] is "false", the two probes, start — and stops at the first that fails: nothing
    later is asked, that error alone is logged, under the step's message, as the last thing done, and
    the exit code is 1.  When none fails it ends normally, without an error logged, once the manager
    has stopped.  So the manager never runs with a step missing. *)
Theorem main_runs_steps scheme E s rest tr o :
  flag.parse formal E.(Args) initial = flag.Parsed s rest ->
  configure scheme E s.1 = (tr, inr o) ->
  match first_failure (steps E o) with
  | None =>
      (main scheme E).2 = inr tt /\ asked (main scheme E).1 = (steps E o).*1.*1
      /\ logged_errors (main scheme E).1 = []
  | Some (i, err, (msg, kv)) =>
      (main scheme E).2 = inl 1 /\ asked (main scheme E).1 = take (S i) (steps E o).*1.*1
      /\ logged_errors (main scheme E).1 = [(err, (msg, kv))]
      /\ last (main scheme E).1 = Some (LogError err msg kv)
  end.
Proof.
  intros Hp Hc. unfold main. rewrite Hp. pose proof (start_configured scheme E s tr o Hc) as Hr.
  unfold runs in Hr. by destruct (first_failure (steps E o)) as [[[i e] [msg kv]]|].
Qed.

(** C23: The hardening of the servers cannot be lost by accident.  Whatever else is on the command
    line: when no word of it names [enable-http2], every configuration the webhook's and the
    metrics server's TLS options are applied to ends up offering HTTP/1.1 alone; when no word names
    [metrics-secure], the metrics are served over TLS and behind the authentication and
    authorization filter.  And on every run, metrics are served over TLS exactly when they are
    filtered, and both servers get the same TLS options. *)
Theorem servers_hardened scheme E mo :
  NewManager mo ∈ asked (main scheme E).1 ->
  (forallb (fun arg => negb (flag.names_flag "enable-http2" arg)) E.(Args) = true ->
   forall c, applyTLS mo.(WebhookServer).(TLSOpts) c = mkConfig ["http/1.1"%string]
          /\ applyTLS mo.(Metrics).(Metrics_TLSOpts) c = mkConfig ["http/1.1"%string])
  /\ (forallb (fun arg => negb (flag.names_flag "metrics-secure" arg)) E.(Args) = true ->
      mo.(Metrics).(SecureServing) = true
      /\ mo.(Metrics).(Filter) = Some WithAuthenticationAndAuthorization)
  /\ (mo.(Metrics).(SecureServing) = true
      <-> mo.(Metrics).(Filter) = Some WithAuthenticationAndAuthorization)
  /\ mo.(WebhookServer).(TLSOpts) = mo.(Metrics).(Metrics_TLSOpts).
Proof.
  intros (s & rest & tr & o & Hp & Hc & Ha)%main_asks. apply steps_manager in Ha as ->.
  apply configure_options in Hc as (Hs & Hf & Ht & Hw). split_and!.
  - intros Hargs c. rewrite Hw, Ht, !tlsOptions_spec.
    assert (enableHTTP2 s.1 = false) as ->; [|done].
    apply (flag.parse_keeps (fun s => enableHTTP2 s.1 = false) "enable-http2" formal E.(Args) initial s rest);
      [|done|done|done].
    intros f v s0 s1 Hin Hn H0 Hset. rewrite <- H0. revert Hin Hn Hset. apply formal_keeps.
    repeat constructor; try done; intros _ v' s' s'' Hset; simpl in Hset;
      [..|]; try (destruct (flag.ParseBool v'); [|done]); injection Hset as <-; by destruct s' as [[] ?].
  - intros Hargs. rewrite Hs, Hf.
    assert (secureMetrics s.1 = true) as ->; [|done].
    apply (flag.parse_keeps (fun s => secureMetrics s.1 = true) "metrics-secure" formal E.(Args) initial s rest);
      [|done|done|done].
    intros f v s0 s1 Hin Hn H0 Hset. rewrite <- H0. revert Hin Hn Hset. apply formal_keeps.
    repeat constructor; try done; intros _ v' s' s'' Hset; simpl in Hset;
      try (destruct (flag.ParseBool v'); [|done]); injection Hset as <-; by destruct s' as [[] ?].
  - rewrite Hs, Hf. by destruct (secureMetrics s.1).
  - by rewrite Hw, Ht.
Qed.

(** C26: The flags are read as they are written: the words [--name=value] for all eleven, with any
    values, '=' and spaces in them included, set exactly those values whatever was set before, and
    parsing goes on with the words that follow.  A boolean's value belongs in its own word: after
    [--metrics-secure], [--leader-elect] or [--enable-http2] a word of its own such as "false" does
    not turn the flag off — it is on, and that word ends the flags, so what follows is ignored. *)
Theorem flags_read_back (o : options) (s : vars) (v : string) (rest : list string) :
  flag.parse formal (render o ++ rest) s = flag.parse formal rest (o, s.2)
  /\ (flag.readWord v = flag.NotAFlag ->
      flag.parse formal ("--metrics-secure"%string :: v :: rest) s
      = flag.Parsed (onOptions (set_secureMetrics true) s) (v :: rest)
      /\ flag.parse formal ("--leader-elect"%string :: v :: rest) s
         = flag.Parsed (onOptions (set_enableLeaderElection true) s) (v :: rest)
      /\ flag.parse formal ("--enable-http2"%string :: v :: rest) s
         = flag.Parsed (onOptions (set_enableHTTP2 true) s) (v :: rest)).
Proof.
  split; [apply read_back|]. intros Hv.
  split_and!; [eapply (flag.parse_bool_alone formal "metrics-secure")
              |eapply (flag.parse_bool_alone formal "leader-elect")
              |eapply (flag.parse_bool_alone formal "enable-http2")]; reflexivity || exact Hv.
Qed.

End theorems.


(** ** Witnesses *)
Section witnesses.
Import startup_example.
#[local] Existing Instance Reference.reference_k8s.
#[local] Existing Instance ReferenceRetry.reference_retry.

Lemma deployed_parsed err :
  flag.parse formal (deployed err).(Args) initial = flag.Parsed (deployed_options, library_defaults) [].
Proof. reflexivity. Qed.

Lemma main_runs_steps_witness : exists scheme o,
  (main scheme (deployed (Some (errors.Other "in use")))).2 = inl 1
  /\ asked (main scheme (deployed (Some (errors.Other "in use")))).1
     = [NewManager o; CompleteController (SetupWithManager "node-warden");
        CompleteWebhook SetupNodeRemediationPolicyWebhookWithManager;
        AddHealthzCheck "healthz"; AddReadyzCheck "readyz"].
Proof.
  set (E := deployed (Some (errors.Other "in use"))).
  destruct (configure registration.NewScheme E deployed_options) as [tr [code|o]] eqn:Hc; [discriminate Hc|].
  exists registration.NewScheme, o.
  destruct (main_runs_steps registration.NewScheme E (deployed_options, library_defaults) [] tr o eq_refl Hc) as (Hcode & Hasked & _).
  split; [exact Hcode|exact Hasked].
Defined.

Lemma servers_hardened_witness : exists mo,
  NewManager mo ∈ asked (main registration.NewScheme (deployed None)).1
  /\ applyTLS mo.(Metrics).(Metrics_TLSOpts) (mkConfig ["h2"; "http/1.1"]%string)
     = mkConfig ["http/1.1"%string]
  /\ mo.(Metrics).(Filter) = Some WithAuthenticationAndAuthorization.
Proof.
  destruct (asked (main registration.NewScheme (deployed None)).1) as [|[] l] eqn:Hr; try discriminate Hr.
  exists o. assert (NewManager o ∈ asked (main registration.NewScheme (deployed None)).1) as Ha by (rewrite Hr; left).
  destruct (servers_hardened registration.NewScheme (deployed None) o Ha) as (Htls & Hm & _).
  split; [left|]. split; [exact (proj2 (Htls eq_refl _))|exact (proj2 (Hm eq_refl))].
Defined.

Lemma flags_read_back_witness :
  flag.parse formal (render deployed_options ++ ["--metrics-secure"; "false"; "--enable-http2"]%string) initial
  = flag.Parsed (deployed_options, library_defaults) ["false"; "--enable-http2"]%string.
Proof.
  destruct (flags_read_back deployed_options initial "false" ["--enable-http2"]%string) as [Hr _].
  destruct (flags_read_back deployed_options (deployed_options, library_defaults) "false" ["--enable-http2"]%string) as [_ Hb].
  destruct (flags_read_back deployed_options initial "false" ["--metrics-secure"; "false"; "--enable-http2"]%string)
    as [Hr' _].
  etransitivity; [exact Hr'|]. exact (proj1 (Hb eq_refl)).
Defined.

End witnesses.
